(* ===== verification/_CoqProject ===== *)
-Q . S2P
Prelude.v
StdMap.v
Types.v
VarByte.v
Env.v
Concrete.v
ImpuStore.v
XmlUtils.v
Irs.v
MemcachedCache.v
CacheProgress.v
HssCache.v
CacheReads.v
Latency.v
CacheWrites.v
CacheMerges.v
CacheErrors.v
HttpTasks.v
HttpImpi.v
HttpRegData.v
RegDataSystem.v
CacheProcessor.v
Node.v
CxMessages.v
CxTypes.v
DiameterHss.v
HsProv.v
Sprout.v
DiameterHandlers.v
Options.v
Startup.v
Configured.v
Usage.v
Diagnostics.v
Routes.v
Lifecycle.v
Teardown.v
Interference.v
Contention.v
ContendedImpu.v
ContendedWrite.v
HssInterface.v
System.v
HssRequests.v
