(* ===== verification/Prelude.v ===== *)
(** * Homestead: an HSS cache, modelled and verified

    Homestead stands between the call-processing nodes of an IMS core (Sprout)
    and the subscriber database (the HSS).  Sprout asks over HTTP for
    authentication vectors, registration status, the location of a user and for
    registration data, which it also changes; Homestead answers from a cache of
    implicit registration sets kept in memcached, or asks the HSS over Diameter
    (Cx), or reads the database of homestead-prov (Cassandra).  The HSS in turn
    can terminate registrations and push profiles.

    ** The program and the files

    The files follow the layers of the program, bottom up.

    - [Prelude] (this file): machine integers, C strings, the monads.  [IO W] is
      blocking code over a world [W], with the outcomes [Done], [OutOfFuel],
      [Thrown] (a C++ exception) and [Undefined] (undefined behaviour: a signed
      overflow, a null dereference).  [Handler] is a method of a task: it updates
      the members and issues actions in order.  [do_while] and [foreach] are the
      loops of the source.
    - [StdMap]: [std::map<std::string, V>] as an ordered list of entries.
    - [Types]: the enumerations and records the components share
      ([include/reg_state.h], [charging_addresses.h], [authvector.h],
      [servercapabilities.h], [hss_connection.h], the constants of [cx.h]).
    - [Env]: classes for the code outside the repository (the key-value [Store],
      rapidjson, LZ4, rapidxml), each with a class of its documented laws;
      [Concrete] has lawful executable instances, on which theorems are tried.
    - [VarByte], [ImpuStore]: [src/impu_store.cpp].  The records of a public
      identity (default or associated IMPU) and of a private one (IMPI
      mapping), their encoding, and the store operations with CAS.
      [ImpuStoreOps] is the interface to the cache, [LawfulImpuStore] its
      contract; the instance shows that [src/impu_store.cpp] meets it.
    - [XmlUtils]: [src/homestead_xml_utils.cpp].
    - [Irs]: [MemcachedImplicitRegistrationSet] ([include/memcached_cache.h] and
      the first part of [src/memcached_cache.cpp]).
    - [MemcachedCache]: [MemcachedCache] and [BaseHssCache].  Its theorems are in
      [CacheReads], [CacheWrites] and [CacheProgress]; [CacheMerges] has the writes
      over a record that is there already, one of a set that overlaps among them, [CacheErrors] stores that may fail at any
      operation, [Latency] the stopwatches of the reads.
    - [HssCache]: [HssCache] of [include/hss_cache.h] as a class, with the contract
      that its comments and those of [include/hss_cache_processor.h] give it;
      [MemcachedCache] meets it.
    - [HttpTasks], [HttpImpi], [HttpRegData]: [src/http_handlers.cpp];
      [RegDataSystem] runs the registration-data task as a state machine.
    - [CacheProcessor]: [src/hss_cache_processor.cpp] over any [HssCache], and its
      composition with the registration-data task; [Node]: many tasks over one
      cache, interleaved.
    - [CxMessages]: [src/cx.cpp]; [CxTypes]: the dictionary of [include/cx.h] as
      a typing of messages; [DiameterHss]: [src/diameter_hss_connection.cpp];
      [HsProv]: [src/hsprov_store.cpp] and [src/hsprov_hss_connection.cpp].
    - [Sprout]: [src/sproutconnection.cpp]; [DiameterHandlers]:
      [src/diameter_handlers.cpp]; [HssRequests] runs its two tasks over the cache.
    - [Options], [Startup], [Configured], [Routes], [Lifecycle], [Teardown]: [src/main.cpp].  The options
      and their two parsers; the settings [main] derives, for itself and for its
      libraries, and its exit codes, with an account of both that does not go
      through the options ([Configured]); the routes of the HTTP stacks; the order of
      start and stop, with the pool of [src/hss_cache_processor.cpp]; the objects of
      [main] and their deletion, and the signal handlers.  [Usage] is the usage
      text, compared with the options that are parsed.
    - [Diagnostics]: the tables of statistics ([src/statisticsmanager.cpp] and its
      header), the SAS events ([include/homesteadsasevent.h]) and the problem
      definitions ([include/homestead_pd_definitions.h]).
    - [Interference]: the [contended] world and its rely/guarantee logic, where a
      guarantee is a predicate on the log of the reads and writes of this node;
      [Contention] and [ContendedImpu]: the loops on IMPI mappings and on IMPU
      records of [MemcachedCache] while other nodes write to the stores;
      [ContendedWrite]: the write and the deletion of a whole registration set.
    - [HssInterface]: [HssConnection] of [include/hss_connection.h] as a class
      with laws, which both connections satisfy; [System]: the tasks over the
      connection and with the settings that [main] builds.

    Definitions keep the names of the source; a constructor is [new_...], and
    operations of the store with a class in front of them are [store_...].

    ** How state and concurrency are modelled

    An object the code updates through a pointer is passed in and returned.
    Blocking calls (stores, Sprout) happen within a step.  A task that waits for a
    callback ends its step with an action ([CacheGetIrs], [SendSAR], ...) and
    continues with the event of the completion; [RegDataSystem.react] is the step
    function and [steps] the runs, for any order of events that the cache and
    the HSS connection allow.  A [Node] is the stores and the tasks that have
    arrived; its steps are arrivals and completions in any order, where a work item
    runs over the stores with its callbacks.  Other nodes writing to the stores show as the CAS
    contention of the store class: retry loops are modelled with it, and the
    theorems that need a store left alone say so.  [Interference] runs the same
    code in a [contended] world, which lets the others change the stores before
    each operation, as a schedule says, and records what this node does; the
    reasoning there is of rely and guarantee.  In [Lifecycle] the process is a
    state machine whose steps are the actions of [main] and arriving requests, and
    in [Teardown] a program over a small heap of objects that point to each other.
    Memory that is shared and then freed is followed where the code prints it: the
    subscription in [build_ClearwaterRegData_xml] is what [released] makes of it.

    ** What the theorems show

    - Encoding: IMPU records and IMPI mappings survive their encoding; what
      [to_data] can return; the size header, its termination and the shift that
      is undefined for a corrupt header.
    - Store: whatever other nodes did since a read, a write with its CAS value
      succeeds exactly when the store still holds what was read; adding
      never overwrites, a read gives a record exactly when it reports success.
    - Registration sets: setting a profile, the three-way merge, the merge with
      the store, and that an unmodified set makes the same record again.
    - Cache: what a read of an identity returns, also across sites; that a set
      that is put, new or read before, is what the stores hold and what a read of
      its identities gives (merged with the record it met, if it met one), and that
      a deleted one is not found; what is written, what is removed
      and what is left alone; the progress callback exactly once,
      after the local and before the remote writes; a loop that need not end.
      A store that fails at some operation shows in the status of the write.
      Overlapping changes of one stored set are merged, but of two first
      registrations the later one overwrites the other.  A read adds to
      the latency of its request what it computes, not what it waits.
    - Contention: each write of an IMPI mapping leaves the IMPUs of others as they
      are in the mapping of that moment, and a mapping is deleted only after a read
      that found no other IMPU in it; a
      refresh is one atomic write and ends; but a removal can lose what is added
      between that read and the deletion, and an addition can loop for ever.  The update of a default record is
      atomic too and ends; merging, it keeps the identities it was asked to write,
      but may lose one that another node took out and put back.  A
      whole write changes nothing but its own records, and so does a deletion, which
      cannot fail to remove its default record: the log of what each does is a
      write of the default record, then of the associated records, then of the
      mappings; a new unregistered set leaves a record that it meets, and the deletion of an
      associated record can lose what another node puts in its place.
    - A node: whatever is interleaved, each task is in a state it could have
      reached alone; the completions are bounded, and a task that has not answered
      waits only for one operation or answer of its own (an operation of
      the cache need not return while others write).
    - Registration data: one reply and one deletion whatever the environment
      does, termination with a bound, the decision table of a PUT, the reaction
      to each answer of the HSS, when the cache may change; and that an HSS can
      keep a task busy with wildcards.
    - Other tasks: one answer each, with the code of the result, for HTTP and
      for the two requests of the HSS; over the cache, a termination request
      leaves at no site an identity that resolves to a set it found, and a push whose write
      fails is answered as if it had not.
    - Process: parsing fails exactly at the first faulty option and otherwise
      the last option of a kind counts: what each part of the process is made
      with, and with which code [main] leaves, are read off a table of the options
      (the IMPU cache TTL is not in it); where the usage
      text and the parser differ; the lifetime of records suits its clients;
      at most one route takes a path, and requests it takes are answered over the
      connection [main] configures; accepted requests are served from start to
      signal, but for a peer's request before the tables of Cx results are set, which
      crashes; those of HTTP are served during the shutdown, those of Diameter not; [main]
      uses no object that is not there, or not yet, and deletes all but a fixed list, and which
      objects are deleted while a running part still holds them.
    - Messages: everything the program builds is well typed by the dictionary, so
      that every accessor gives a value that was added at its type; requests carry
      their fields; which charging addresses survive, and which are
      dropped or read past; the
      table from Diameter codes to results, and the match between the scheme of
      a vector and its type the tasks rely on.

    ** Bounds and fuel

    The retry loops of the cache run with a [fuel] of iterations.  Theorems on
    results hold from one or two iterations on, over a store that no other node
    writes to meanwhile (the second is for a private identity already mapped);
    [remove_mapping_loops_forever] and [add_mapping_loops_forever] show
    contentions for which no fuel is enough, while a refresh needs one iteration
    more than half the number of interferences ([refresh_is_atomic]), and the
    update of a default record the same ([update_is_atomic]).  The loop of [decode_varbyte] has six iterations, since the sixth
    shifts by 35 bits, that of [encode_varbyte] the ten groups of a 64-bit
    number, and the compression loop seven, the doublings from 2 KB to 128 KB;
    each is proved enough.  An [int] is added with [add_int], which is undefined when it
    overflows; 64-bit times and CAS values keep their widths.  The age of a record in
    [process_received_reg_data], whose [int] overflows only when the time-to-live
    that is left differs from the configured one by 2^31 seconds, is computed in [Z].  The reads of the remote stores that run in parallel are
    taken one after the other ([get_impu_for_impu_gr]): their results are combined in
    order, and only [Latency] looks at their times.

    ** What is not modelled

    Of [src/main.cpp]: [getopt_long], the alarms and what the destructors of
    libraries do.  Elsewhere the stopwatches of the writes, the statistics but for
    their tables and for the results and latencies of the connections to the HSS,
    where a SAS event is sent (the events themselves are in [Diagnostics]), memory
    management beyond the null pointers, the deletion of tasks and the objects of
    [main], and the threads within a work item: a node runs it as one step, and
    what other nodes do between the operations of one is in the [contended] world.
    Libraries (memcached client, rapidjson, rapidxml, LZ4, freeDiameter, Cassandra
    client, HTTP stack) are parameters.  [examples/cache] is a program of its own,
    for an interface ([cache.h]) that is no longer in the repository: it cannot be
    compiled, and what it calls cannot be read. *)

From Stdlib Require Import Ascii String ZArith Lia.
From stdpp Require Import base list strings numbers option.

(** ** Machine integers

    C++ [int], [int32_t] are 32 bits, [int64_t], [time_t], [size_t],
    [uint64_t] are 64 bits.  A signed conversion keeps the low bits and reads
    them in two's complement. *)
Definition to_int32 (z : Z) : Z := ((z + 2 ^ 31) `mod` 2 ^ 32 - 2 ^ 31)%Z.
Definition to_uint32 (z : Z) : Z := (z `mod` 2 ^ 32)%Z.
Definition to_uint64 (z : Z) : Z := (z `mod` 2 ^ 64)%Z.

Definition int32_range (z : Z) : Prop := (- 2 ^ 31 <= z < 2 ^ 31)%Z.

Lemma to_int32_id z : int32_range z -> to_int32 z = z.
Proof.
  unfold int32_range, to_int32. intros H.
  rewrite Z.mod_small by lia. lia.
Qed.

Lemma to_int32_bounds z : int32_range (to_int32 z).
Proof.
  unfold int32_range, to_int32.
  pose proof (Z.mod_pos_bound (z + 2 ^ 31) (2 ^ 32) ltac:(lia)). lia.
Qed.

Lemma to_uint64_id z : (0 <= z < 2 ^ 64)%Z -> to_uint64 z = z.
Proof. intros H. unfold to_uint64. by apply Z.mod_small. Qed.

Lemma to_uint32_id z : (0 <= z < 2 ^ 32)%Z -> to_uint32 z = z.
Proof. intros H. unfold to_uint32. by apply Z.mod_small. Qed.

(** ** Strings

    A C++ [std::string] is a [string] of bytes.  [c_str] is what a function
    taking a NUL-terminated [const char*] sees of it. *)
Fixpoint c_str (s : string) : string :=
  match s with
  | EmptyString => EmptyString
  | String a s' => if Ascii.eqb a zero then EmptyString else String a (c_str s')
  end.

Fixpoint no_nul (s : string) : bool :=
  match s with
  | EmptyString => true
  | String a s' => negb (Ascii.eqb a zero) && no_nul s'
  end.

Lemma c_str_id s : no_nul s = true -> c_str s = s.
Proof.
  induction s as [|a s IH]; simpl; [done|].
  destruct (Ascii.eqb a zero); simpl; [done|]. intros H. by rewrite IH.
Qed.

Lemma c_str_no_nul s : no_nul (c_str s) = true.
Proof.
  induction s as [|a s IH]; simpl; [done|].
  destruct (Ascii.eqb a zero) eqn:E; simpl; [done|]. by rewrite E, IH.
Qed.

Definition str_empty (s : string) : bool :=
  match s with EmptyString => true | _ => false end.

Lemma str_empty_spec s : str_empty s = true <-> s = EmptyString.
Proof. by destruct s. Qed.

Lemma str_empty_false s : str_empty s = false <-> s <> EmptyString.
Proof. by destruct s. Qed.

(** [std::find(v.begin(), v.end(), x) != v.end()] and [Utils::in_vector]. *)
Definition in_vector (x : string) (v : list string) : bool :=
  existsb (String.eqb x) v.

Lemma in_vector_spec x v : in_vector x v = true <-> x ∈ v.
Proof.
  unfold in_vector. rewrite existsb_exists. setoid_rewrite String.eqb_eq.
  rewrite list_elem_of_In. split; [intros (y & ? & ->)|]; eauto.
Qed.

Lemma in_vector_false x v : in_vector x v = false <-> x ∉ v.
Proof. rewrite <- in_vector_spec. by destruct (in_vector x v). Qed.

(** [std::string] order: lexicographic on unsigned bytes, as
    [String.compare] is. *)
Definition string_lt (s t : string) : Prop := String.compare s t = Lt.

Lemma ascii_compare_eq a b : Ascii.compare a b = Eq -> a = b.
Proof. apply Ascii.compare_eq_iff. Qed.

Lemma ascii_compare_refl a : Ascii.compare a a = Eq.
Proof. apply N.compare_refl. Qed.

Lemma string_compare_refl s : String.compare s s = Eq.
Proof. induction s as [|a s IH]; simpl; [done|]. by rewrite ascii_compare_refl. Qed.

Lemma string_lt_irrefl s : ~ string_lt s s.
Proof. unfold string_lt. by rewrite string_compare_refl. Qed.

Lemma ascii_compare_trans a b c :
  Ascii.compare a b = Lt -> Ascii.compare b c = Lt -> Ascii.compare a c = Lt.
Proof.
  unfold Ascii.compare. rewrite !N.compare_lt_iff. lia.
Qed.

Lemma string_lt_trans s t u : string_lt s t -> string_lt t u -> string_lt s u.
Proof.
  unfold string_lt. revert t u.
  induction s as [|a s IH]; intros [|b t] [|c u]; simpl; try done.
  destruct (Ascii.compare a b) eqn:Eab; intros H1;
    destruct (Ascii.compare b c) eqn:Ebc; intros H2; try done.
  - apply ascii_compare_eq in Eab, Ebc. subst.
    rewrite ascii_compare_refl. eauto.
  - apply ascii_compare_eq in Eab. subst. by rewrite Ebc.
  - apply ascii_compare_eq in Ebc. subst. by rewrite Eab.
  - by rewrite (ascii_compare_trans _ _ _ Eab Ebc).
Qed.

Lemma string_compare_gt s t : String.compare s t = Gt -> string_lt t s.
Proof.
  unfold string_lt. intros H. rewrite String.compare_antisym, H. done.
Qed.

(** ** Effects

    [IO W A] is a computation of the program over an environment [W] (stores,
    clock, ...).  It returns a result and the new environment, or throws a C++
    exception to its caller, or executes something the language leaves
    undefined, or is still in a retry loop when the fuel of the loop ends. *)
Inductive outcome (W A : Type) : Type :=
| Done (a : A) (w : W)
| Thrown
| Undefined
| OutOfFuel.
Arguments Done {W A}.
Arguments Thrown {W A}.
Arguments Undefined {W A}.
Arguments OutOfFuel {W A}.

Definition IO (W A : Type) : Type := W -> outcome W A.

Definition ret {W A} (a : A) : IO W A := fun w => Done a w.
Definition throw {W A} : IO W A := fun _ => Thrown.
Definition undefined {W A} : IO W A := fun _ => Undefined.
Definition get_world {W} : IO W W := fun w => Done w w.

Definition bind {W A B} (c : IO W A) (k : A -> IO W B) : IO W B :=
  fun w => match c w with
           | Done a w' => k a w'
           | Thrown => Thrown
           | Undefined => Undefined
           | OutOfFuel => OutOfFuel
           end.

Declare Scope io_scope.
Delimit Scope io_scope with io.
Notation "x <- c ;; k" := (bind c (fun x => k))
  (at level 100, c at next level, right associativity) : io_scope.
Notation "'let*' pat ':=' c 'in' k" := (bind c (fun x => match x with pat => k end))
  (at level 10, pat pattern, c at level 200, k at level 200) : io_scope.
Notation "c ;;; k" := (bind c (fun _ => k))
  (at level 100, right associativity) : io_scope.
Open Scope io_scope.

(** [do { a = body(a); } while (again(a));], at most [fuel] iterations. *)
Fixpoint do_while {W A} (fuel : nat) (body : A -> IO W A) (again : A -> bool)
    (a : A) : IO W A :=
  match fuel with
  | O => fun _ => OutOfFuel
  | S n => a' <- body a ;;
           if again a' then do_while n body again a' else ret a'
  end.

(** [for (x : l) { s = f(x, s); }] *)
Fixpoint foreach {W X S} (f : X -> S -> IO W S) (l : list X) (s : S) : IO W S :=
  match l with
  | [] => ret s
  | x :: l' => s' <- f x s ;; foreach f l' s'
  end.

Lemma bind_ret {W A B} (a : A) (k : A -> IO W B) w : bind (ret a) k w = k a w.
Proof. done. Qed.

Lemma bind_done {W A B} (c : IO W A) (k : A -> IO W B) w a w' :
  c w = Done a w' -> bind c k w = k a w'.
Proof. unfold bind. by intros ->. Qed.

Lemma bind_inv {W A B} (c : IO W A) (k : A -> IO W B) w b w2 :
  bind c k w = Done b w2 -> exists a w', c w = Done a w' /\ k a w' = Done b w2.
Proof. unfold bind. destruct (c w) as [a w'| | |]; [|done..]. eauto. Qed.

(** More fuel never changes a result. *)
Lemma do_while_mono {W A} (body : A -> IO W A) again n m a w r w' :
  n <= m -> do_while n body again a w = Done r w' -> do_while m body again a w = Done r w'.
Proof.
  revert m a w. induction n as [|n IH]; intros [|m] a w Hle; simpl; try done; [lia|].
  unfold bind. destruct (body a w) as [a1 w1| | |]; [|done..].
  destruct (again a1); [|done]. apply IH. lia.
Qed.

(** One iteration is enough when the condition fails after it. *)
Lemma do_while_once {W A} (body : A -> IO W A) again n a w a' w' :
  body a w = Done a' w' -> again a' = false ->
  do_while (S n) body again a w = Done a' w'.
Proof. intros Hb Ha. simpl. erewrite bind_done by done. by rewrite Ha. Qed.

Lemma do_while_again {W A} (body : A -> IO W A) again n a w a' w' :
  body a w = Done a' w' -> again a' = true ->
  do_while (S n) body again a w = do_while n body again a' w'.
Proof. intros Hb Ha. simpl. erewrite bind_done by done. by rewrite Ha. Qed.

(** A loop whose body always asks to go on never ends. *)
Lemma do_while_diverges {W A} (body : A -> IO W A) again (I : A -> W -> Prop) a w :
  (forall a w, I a w -> exists a' w', body a w = Done a' w' /\ again a' = true /\ I a' w') ->
  I a w -> forall n, do_while n body again a w = OutOfFuel.
Proof.
  intros Hstep HI n. revert a w HI. induction n as [|n IH]; intros a w HI; [done|].
  destruct (Hstep a w HI) as (a' & w' & Hb & Ha & HI').
  erewrite do_while_again by done. by apply IH.
Qed.

Lemma foreach_app {W X S} (f : X -> S -> IO W S) l1 l2 s w :
  foreach f (l1 ++ l2) s w = bind (foreach f l1 s) (foreach f l2) w.
Proof.
  revert s w. induction l1 as [|x l1 IH]; intros s w; simpl; [done|].
  unfold bind. destruct (f x s w) as [s' w'| | |]; [|done..]. by rewrite IH.
Qed.

(** A loop keeps a property of state and environment that its body keeps. *)
Lemma foreach_inv {W X S} (f : X -> S -> IO W S) (I : S -> W -> Prop) l s w s' w' :
  (forall x s w s' w', x ∈ l -> I s w -> f x s w = Done s' w' -> I s' w') ->
  I s w -> foreach f l s w = Done s' w' -> I s' w'.
Proof.
  revert s w. induction l as [|x l IH]; intros s w Hf HI; simpl.
  { by intros [= <- <-]. }
  intros (s1 & w1 & H1 & H2)%bind_inv. apply (IH s1 w1); [|by eapply Hf; eauto; left|done].
  intros y s0 w0 s2 w2 Hy. apply Hf. by right.
Qed.

Lemma do_while_inv {W A} (body : A -> IO W A) again (I : A -> W -> Prop) n a w a' w' :
  (forall a w a' w', I a w -> body a w = Done a' w' -> I a' w') ->
  I a w -> do_while n body again a w = Done a' w' -> I a' w' /\ again a' = false.
Proof.
  intros Hb. revert a w. induction n as [|n IH]; intros a w HI; simpl; [done|].
  intros (a1 & w1 & H1 & H2)%bind_inv.
  destruct (again a1) eqn:E; [by apply (IH a1 w1); [eapply Hb|]|].
  inversion H2; subst. split; [by eapply Hb|done].
Qed.

(** ** Handlers

    A task's event handlers run to completion, change the task's members and
    issue actions (replies, requests to other components) in order. *)
Definition Handler (T O A : Type) : Type := T -> A * T * list O.

Definition hret {T O A} (a : A) : Handler T O A := fun t => (a, t, []).
Definition hbind {T O A B} (c : Handler T O A) (k : A -> Handler T O B) : Handler T O B :=
  fun t => let '(a, t1, o1) := c t in
           let '(b, t2, o2) := k a t1 in (b, t2, o1 ++ o2).
Definition hget {T O} : Handler T O T := fun t => (t, t, []).
Definition hmodify {T O} (f : T -> T) : Handler T O unit := fun t => (tt, f t, []).
Definition hemit {T O} (o : O) : Handler T O unit := fun t => (tt, t, [o]).

Declare Scope handler_scope.
Delimit Scope handler_scope with h.
Notation "x <- c ;; k" := (hbind c (fun x => k))
  (at level 100, c at next level, right associativity) : handler_scope.
Notation "c ;;; k" := (hbind c (fun _ => k))
  (at level 100, right associativity) : handler_scope.

(** ** Automation *)

(** Case analysis on the scrutinee of a match or an if in the goal or in a
    hypothesis. *)
Ltac case_match_any :=
  match goal with
  | |- context [match ?x with _ => _ end] =>
      lazymatch x with context [match _ with _ => _ end] => fail | _ => destruct x eqn:? end
  | H : context [match ?x with _ => _ end] |- _ =>
      lazymatch x with context [match _ with _ => _ end] => fail | _ => destruct x eqn:? end
  end.

(** Split every sequenced [IO] step of a hypothesis. *)
Ltac io_inv :=
  repeat match goal with
  | H : bind _ _ _ = Done _ _ |- _ =>
      let a := fresh "r" in let w := fresh "w" in
      let H1 := fresh "Hio" in let H2 := fresh "Hio" in
      apply bind_inv in H; destruct H as (a & w & H1 & H2)
  | H : ret _ _ = Done _ _ |- _ => unfold ret in H
  | H : get_world _ = Done _ _ |- _ => unfold get_world in H
  | H : Done _ _ = Done _ _ |- _ => inversion H; clear H; subst
  end.

Create HintDb homestead.
Create Rewrite HintDb homestead.
#[export] Hint Resolve c_str_no_nul to_int32_bounds : homestead.
#[export] Hint Rewrite @bind_ret @string_compare_refl : homestead.
#[export] Hint Resolve <- in_vector_spec : homestead.
#[export] Hint Resolve -> in_vector_spec : homestead.
