(* ===== verification/StdMap.v ===== *)
(** * [std::map<std::string, V>]

    The ordered map the cache keeps its IMPIs, IMPUs and implicit
    registration sets in: a list of entries iterated in key order.  Only the
    operations the code uses: [find], [operator[]], [emplace], the range-for
    loop that updates the values in place, and the ordered traversal. *)

From Stdlib Require Import String Sorted.
From stdpp Require Import base list strings option.
From S2P Require Import Prelude.

Section std_map.
Context {V : Type}.

Abbreviation std_map := (list (string * V)).

(** [m.find(k)] *)
Fixpoint map_find (m : std_map) (k : string) : option V :=
  match m with
  | [] => None
  | (k', v) :: m' => if String.eqb k k' then Some v else map_find m' k
  end.

(** [m[k] = v] *)
Fixpoint map_set (m : std_map) (k : string) (v : V) : std_map :=
  match m with
  | [] => [(k, v)]
  | (k', v') :: m' =>
      match String.compare k k' with
      | Eq => (k, v) :: m'
      | Lt => (k, v) :: (k', v') :: m'
      | Gt => (k', v') :: map_set m' k v
      end
  end.

(** [m.emplace(k, v)]: no effect when the key is there *)
Definition map_emplace (m : std_map) (k : string) (v : V) : std_map :=
  match map_find m k with
  | Some _ => m
  | None => map_set m k v
  end.

(** [for (auto& e : m) e.second = f(e.first, e.second);] *)
Definition map_update (f : string -> V -> V) (m : std_map) : std_map :=
  map (fun e => (e.1, f e.1 e.2)) m.

(** [for (auto& e : m) if (p(e.second)) v.push_back(e.first);] *)
Definition map_keys_with (p : V -> bool) (m : std_map) : list string :=
  map fst (List.filter (fun e => p e.2) m).

(** Entries are in strictly increasing key order. *)
Definition map_ok (m : std_map) : Prop := StronglySorted string_lt (map fst m).

Lemma map_find_set_eq m k v : map_find (map_set m k v) k = Some v.
Proof.
  induction m as [|[k' v'] m IH]; simpl; [by rewrite String.eqb_refl|].
  destruct (String.compare k k') eqn:E; simpl; rewrite ?String.eqb_refl; try done.
  destruct (String.eqb_spec k k'); [|done]. subst.
  by rewrite string_compare_refl in E.
Qed.

Lemma map_find_set_ne m k k' v : k <> k' -> map_find (map_set m k v) k' = map_find m k'.
Proof.
  intros Hne. assert (Hb : String.eqb k' k = false) by (by apply String.eqb_neq).
  induction m as [|[j u] m IH]; simpl; [by rewrite Hb|].
  destruct (String.compare k j) eqn:E; simpl; rewrite ?IH, ?Hb; try done.
  apply String.compare_eq_iff in E. subst. by rewrite Hb.
Qed.

Lemma map_find_set m k k' v :
  map_find (map_set m k v) k' = if String.eqb k k' then Some v else map_find m k'.
Proof.
  destruct (String.eqb_spec k k') as [->|]; [apply map_find_set_eq|].
  by apply map_find_set_ne.
Qed.

Lemma map_find_emplace m k k' v :
  map_find (map_emplace m k v) k' =
  match map_find m k' with
  | Some u => Some u
  | None => if String.eqb k k' then Some v else None
  end.
Proof.
  unfold map_emplace. destruct (map_find m k) eqn:E.
  - destruct (map_find m k') eqn:E'; [done|].
    destruct (String.eqb_spec k k'); congruence.
  - rewrite map_find_set. destruct (String.eqb_spec k k') as [->|]; [by rewrite E|].
    by destruct (map_find m k').
Qed.

Lemma map_find_update f m k :
  map_find (map_update f m) k = f k <$> map_find m k.
Proof.
  induction m as [|[k' v] m IH]; simpl; [done|].
  destruct (String.eqb_spec k k') as [->|]; done.
Qed.

Lemma map_find_in m k v : map_find m k = Some v -> (k, v) ∈ m.
Proof.
  induction m as [|[k' v'] m IH]; simpl; [done|].
  destruct (String.eqb_spec k k') as [->|]; [intros [= ->]; by left|right; auto].
Qed.

Lemma map_find_keys m k : is_Some (map_find m k) <-> k ∈ map fst m.
Proof.
  induction m as [|[k' v] m IH]; simpl.
  { split; [by intros [? ?]|by intros ?%not_elem_of_nil]. }
  rewrite elem_of_cons, <- IH. destruct (String.eqb_spec k k') as [->|]; [by split; [left|eexists]|].
  split; [by right|by intros [?|?]].
Qed.

Lemma map_update_keys f m : map fst (map_update f m) = map fst m.
Proof. unfold map_update. by rewrite map_map. Qed.

Lemma map_set_keys m k v j : j ∈ map fst (map_set m k v) <-> j = k \/ j ∈ map fst m.
Proof.
  rewrite <- !map_find_keys, map_find_set.
  destruct (String.eqb_spec k j) as [->|]; [by split; [left|eexists]|]. split; [by right|by intros [?|?]].
Qed.

(** The order is kept by every operation. *)
Lemma map_ok_nil : map_ok [].
Proof. constructor. Qed.

Lemma map_ok_update f m : map_ok m -> map_ok (map_update f m).
Proof. unfold map_ok. by rewrite map_update_keys. Qed.

Lemma map_ok_set m k v : map_ok m -> map_ok (map_set m k v).
Proof.
  unfold map_ok. induction m as [|[k' v'] m IH]; simpl; intros H.
  { repeat constructor. }
  inversion H as [|? ? Hs Hf]; subst.
  destruct (String.compare k k') eqn:E; simpl.
  - apply String.compare_eq_iff in E. by subst.
  - constructor; [done|]. rewrite list.Forall_forall in Hf |- *.
    intros j [->|Hj]%elem_of_cons; [done|]. eapply string_lt_trans; [done|auto].
  - constructor; [auto|]. rewrite list.Forall_forall in Hf |- *. intros j Hj.
    apply map_set_keys in Hj as [->|Hj]; [by apply string_compare_gt|auto].
Qed.

Lemma map_ok_emplace m k v : map_ok m -> map_ok (map_emplace m k v).
Proof. unfold map_emplace. destruct (map_find m k); auto using map_ok_set. Qed.

Lemma map_ok_nodup m : map_ok m -> NoDup (map fst m).
Proof.
  unfold map_ok. induction 1 as [|k l Hs IH Hf]; constructor; [|done].
  intros Hin. rewrite list.Forall_forall in Hf. by apply (string_lt_irrefl k), Hf.
Qed.

(** With no repeated key, an entry is what [find] returns. *)
Lemma map_in_find m k v : NoDup (map fst m) -> (k, v) ∈ m -> map_find m k = Some v.
Proof.
  induction m as [|[k' v'] m IH]; simpl; [by intros _ ?%not_elem_of_nil|].
  intros Hnd [[= -> ->]|Hin]%elem_of_cons; [by rewrite String.eqb_refl|].
  apply list.NoDup_cons in Hnd as [Hk Hnd].
  destruct (String.eqb_spec k k') as [->|]; [|auto].
  contradict Hk. apply list_elem_of_In, in_map_iff. exists (k', v).
  split; [done|by apply list_elem_of_In].
Qed.

Lemma map_keys_with_elem p m k :
  map_ok m -> k ∈ map_keys_with p m <-> exists v, map_find m k = Some v /\ p v = true.
Proof.
  intros Hok%map_ok_nodup. unfold map_keys_with.
  rewrite list_elem_of_In, in_map_iff. setoid_rewrite filter_In. split.
  - intros ([k' v] & <- & Hin & Hp). exists v. split; [|done].
    apply map_in_find; [done|by apply list_elem_of_In].
  - intros (v & Hf & Hp). exists (k, v). split; [done|]. split; [|done].
    by apply list_elem_of_In, map_find_in.
Qed.

Lemma map_keys_with_nodup p m : map_ok m -> NoDup (map_keys_with p m).
Proof.
  unfold map_keys_with. intros H%map_ok_nodup. induction m as [|[k v] m IH]; simpl.
  { constructor. }
  apply list.NoDup_cons in H as [Hk Hnd]. destruct (p v); simpl; [|auto].
  constructor; [|auto]. contradict Hk. revert Hk.
  rewrite !list_elem_of_In, !in_map_iff. intros (e & <- & [Hin _]%filter_In). exact (in_map fst m e Hin).
Qed.
End std_map.

Abbreviation std_map V := (list (string * V)).

(** Build a map from a sequence of insertions, as the constructors do. *)
Fixpoint map_set_all {V} (m : std_map V) (ks : list string) (v : V) : std_map V :=
  match ks with
  | [] => m
  | k :: ks' => map_set_all (map_set m k v) ks' v
  end.

Lemma map_find_set_all {V} (m : std_map V) ks v k :
  map_find (map_set_all m ks v) k = if in_vector k ks then Some v else map_find m k.
Proof.
  revert m. induction ks as [|j ks IH]; intros m; simpl; [done|].
  rewrite IH, map_find_set, (String.eqb_sym k j). by destruct (in_vector k ks), (String.eqb j k).
Qed.

Lemma map_ok_set_all {V} (m : std_map V) ks v : map_ok m -> map_ok (map_set_all m ks v).
Proof. revert m. induction ks; simpl; auto using map_ok_set. Qed.

#[export] Hint Resolve map_ok_nil map_ok_set map_ok_update map_ok_emplace map_ok_set_all : homestead.
#[export] Hint Rewrite @map_find_set @map_find_emplace @map_find_update @map_find_set_all : homestead.
