(* ===== verification/Types.v ===== *)
(** * Data shared by the components

    The records and enumerations of [include/reg_state.h],
    [include/charging_addresses.h], [include/authvector.h],
    [include/servercapabilities.h], [include/hss_connection.h] and the
    constants of [include/cx.h], under the names the source gives them.  Each
    C++ enumeration is a module, so that constructors keep their names. *)

From Stdlib Require Import String ZArith.
From stdpp Require Import base list strings option.
From S2P Require Import Prelude.

(** The status codes of the key-value store the caches are built on. *)
Module Store.
Inductive Status := OK | NOT_FOUND | DATA_CONTENTION | ERROR.
#[global] Instance Status_eq_dec : EqDecision Status.
Proof. solve_decision. Defined.
End Store.

Definition status_eqb (a b : Store.Status) : bool := bool_decide (a = b).

Lemma status_eqb_eq a b : status_eqb a b = true <-> a = b.
Proof. unfold status_eqb. apply bool_decide_eq_true. Qed.

Lemma status_eqb_refl a : status_eqb a a = true.
Proof. by apply status_eqb_eq. Qed.

(** [include/reg_state.h] *)
Module RegistrationState.
Inductive t := REGISTERED | UNREGISTERED | NOT_REGISTERED | UNCHANGED | UNKNOWN.
#[global] Instance t_eq_dec : EqDecision t.
Proof. solve_decision. Defined.
Definition eqb (a b : t) : bool := bool_decide (a = b).
Lemma reg_state_eqb_eq a b : eqb a b = true <-> a = b.
Proof. unfold eqb. apply bool_decide_eq_true. Qed.
End RegistrationState.

(** The HTTP status codes the code names; any other is [HTTP_CODE n]. *)
Inductive HTTPCode :=
| HTTP_OK | HTTP_BAD_REQUEST | HTTP_FORBIDDEN | HTTP_NOT_FOUND | HTTP_BADMETHOD
| HTTP_SERVER_ERROR | HTTP_SERVER_UNAVAILABLE | HTTP_GATEWAY_TIMEOUT
| HTTP_CODE (n : Z).

#[export] Instance HTTPCode_eq_dec : EqDecision HTTPCode.
Proof. solve_decision. Defined.

Definition http_eqb (a b : HTTPCode) : bool := bool_decide (a = b).

Inductive htp_method := htp_method_GET | htp_method_PUT | htp_method_OTHER.

#[export] Instance htp_method_eq_dec : EqDecision htp_method.
Proof. solve_decision. Defined.

Definition method_eqb (a b : htp_method) : bool := bool_decide (a = b).

(** JSON documents.  A sequence of [writer.String(k); writer.X(v);] calls
    inside an object is a list of members. *)
Inductive json :=
| JNull
| JBool (b : bool)
| JInt (z : Z)
| JStr (s : string)
| JArr (l : list json)
| JObj (l : list (string * json)).

(** [writer.String(k.c_str()); writer.String(v.c_str());] *)
Definition str_member (k v : string) : string * json := (c_str k, JStr (c_str v)).

(** ** [include/charging_addresses.h] *)
Record ChargingAddresses := mkChargingAddresses {
  ccfs : list string;
  ecfs : list string
}.

Definition no_addrs : ChargingAddresses := mkChargingAddresses [] [].

#[export] Instance ChargingAddresses_eq_dec : EqDecision ChargingAddresses.
Proof. solve_decision. Defined.

Definition addrs_empty (c : ChargingAddresses) : bool :=
  match ccfs c, ecfs c with [], [] => true | _, _ => false end.

(** [ChargingAddresses::log_string] *)
Definition log_string (c : ChargingAddresses) : string :=
  let ccf_str :=
    match ccfs c with
    | [] => ""
    | p :: rest =>
        "Primary CCF: " +:+ p +:+
        match rest with [] => "" | s :: _ => ", Secondary CCF: " +:+ s end
    end%string in
  let ecf_str :=
    match ecfs c with
    | [] => ""
    | p :: rest =>
        (match ccfs c with [] => "" | _ => ", " end) +:+ "Primary ECF: " +:+ p +:+
        match rest with [] => "" | s :: _ => ", Secondary ECF: " +:+ s end
    end%string in
  (ccf_str +:+ ecf_str)%string.

(** ** [include/authvector.h] *)
Record DigestAuthVector := mkDigestAuthVector {
  ha1 : string; realm : string; qop : string
}.

Record AKAAuthVector := mkAKAAuthVector {
  challenge : string; response : string;
  crypt_key : string; integrity_key : string;
  version : Z
}.

Definition empty_digest_av : DigestAuthVector := mkDigestAuthVector "" "" "".
Definition empty_aka_av : AKAAuthVector := mkAKAAuthVector "" "" "" "" 1.

Definition set_version (v : Z) (av : AKAAuthVector) : AKAAuthVector :=
  mkAKAAuthVector (challenge av) (response av) (crypt_key av) (integrity_key av) v.

(** The dynamic type of an [AuthVector*]. *)
Inductive AuthVector :=
| Digest (av : DigestAuthVector)
| AKA (av : AKAAuthVector).

(** ** [include/servercapabilities.h] *)
Record ServerCapabilities := mkServerCapabilities {
  mandatory_capabilities : list Z;
  optional_capabilities : list Z;
  cap_server_name : string
}.

Definition no_capabilities : ServerCapabilities := mkServerCapabilities [] [] "".

Definition JSON_MAN_CAP : string := "mandatory-capabilities".
Definition JSON_OPT_CAP : string := "optional-capabilities".

Definition write_capabilities (c : ServerCapabilities) : list (string * json) :=
  [ (JSON_MAN_CAP, JArr (map JInt (mandatory_capabilities c)));
    (JSON_OPT_CAP, JArr (map JInt (optional_capabilities c))) ].

(** ** [include/cx.h]: the Cx enumerations and constants *)
Module Cx.
Inductive ServerAssignmentType :=
| NO_ASSIGNMENT | REGISTRATION | RE_REGISTRATION | UNREGISTERED_USER
| TIMEOUT_DEREGISTRATION | USER_DEREGISTRATION
| TIMEOUT_DEREGISTRATION_STORE_SERVER_NAME
| USER_DEREGISTRATION_STORE_SERVER_NAME
| ADMINISTRATIVE_DEREGISTRATION | AUTHENTICATION_FAILURE
| AUTHENTICATION_TIMEOUT | DEREGISTRATION_TOO_MUCH_DATA.
#[global] Instance sat_eq_dec : EqDecision ServerAssignmentType.
Proof. solve_decision. Defined.

Definition sat_value (t : ServerAssignmentType) : Z :=
  match t with
  | NO_ASSIGNMENT => 0
  | REGISTRATION => 1
  | RE_REGISTRATION => 2
  | UNREGISTERED_USER => 3
  | TIMEOUT_DEREGISTRATION => 4
  | USER_DEREGISTRATION => 5
  | TIMEOUT_DEREGISTRATION_STORE_SERVER_NAME => 6
  | USER_DEREGISTRATION_STORE_SERVER_NAME => 7
  | ADMINISTRATIVE_DEREGISTRATION => 8
  | AUTHENTICATION_FAILURE => 9
  | AUTHENTICATION_TIMEOUT => 10
  | DEREGISTRATION_TOO_MUCH_DATA => 11
  end%Z.
End Cx.

Definition DIAMETER_SUCCESS : Z := 2001.
Definition DIAMETER_COMMAND_UNSUPPORTED : Z := 3001.
Definition DIAMETER_UNABLE_TO_DELIVER : Z := 3002.
Definition DIAMETER_TOO_BUSY : Z := 3004.
Definition DIAMETER_AUTHORIZATION_REJECTED : Z := 5003.
Definition DIAMETER_UNABLE_TO_COMPLY : Z := 5012.
Definition VENDOR_ID_3GPP : Z := 10415.
Definition DIAMETER_FIRST_REGISTRATION : Z := 2001.
Definition DIAMETER_SUBSEQUENT_REGISTRATION : Z := 2002.
Definition DIAMETER_UNREGISTERED_SERVICE : Z := 2003.
Definition DIAMETER_ERROR_USER_UNKNOWN : Z := 5001.
Definition DIAMETER_ERROR_IDENTITIES_DONT_MATCH : Z := 5002.
Definition DIAMETER_ERROR_IDENTITY_NOT_REGISTERED : Z := 5003.
Definition DIAMETER_ERROR_ROAMING_NOT_ALLOWED : Z := 5004.
Definition DIAMETER_ERROR_IN_ASSIGNMENT_TYPE : Z := 5007.

Definition DIAMETER_REQ_SUCCESS : string := "DIAMETER_SUCCESS".
Definition DIAMETER_REQ_FAILURE : string := "DIAMETER_UNABLE_TO_COMPLY".

Definition PERMANENT_TERMINATION : Z := 0.
Definition NEW_SERVER_ASSIGNED : Z := 1.
Definition SERVER_CHANGE : Z := 2.
Definition REMOVE_SCSCF : Z := 3.

(** ** [include/hss_connection.h]: requests to and answers from the HSS *)
Module HssConnection.
Inductive ResultCode :=
| SUCCESS | SERVER_UNAVAILABLE | NOT_FOUND | FORBIDDEN | TIMEOUT
| NEW_WILDCARD | ASSIGNMENT_TYPE | UNKNOWN_AUTH_SCHEME | UNKNOWN.
#[global] Instance ResultCode_eq_dec : EqDecision ResultCode.
Proof. solve_decision. Defined.
Definition rc_eqb (a b : ResultCode) : bool := bool_decide (a = b).

Record MultimediaAuthRequest := mkMultimediaAuthRequest {
  mar_impi : string; mar_impu : string; mar_server_name : string;
  mar_scheme : string; mar_authorization : string
}.

Record UserAuthRequest := mkUserAuthRequest {
  uar_impi : string; uar_impu : string; uar_visited_network : string;
  uar_authorization_type : string; uar_emergency : bool
}.

Record LocationInfoRequest := mkLocationInfoRequest {
  lir_impu : string; lir_originating : string; lir_authorization_type : string
}.

Record ServerAssignmentRequest := mkServerAssignmentRequest {
  sar_impi : string; sar_impu : string; sar_server_name : string;
  sar_type : Cx.ServerAssignmentType; sar_support_shared_ifcs : bool;
  sar_wildcard_impu : string
}.

(** An answer holds a result code; its auth vector may be a null pointer. *)
Record MultimediaAuthAnswer := mkMultimediaAuthAnswer {
  maa_result : ResultCode; maa_av : option AuthVector; maa_scheme : string
}.

Record UserAuthAnswer := mkUserAuthAnswer {
  uaa_result : ResultCode; uaa_json_result : Z; uaa_server : string;
  uaa_server_capabilities : ServerCapabilities
}.

Record LocationInfoAnswer := mkLocationInfoAnswer {
  lia_result : ResultCode; lia_json_result : Z; lia_server : string;
  lia_server_capabilities : ServerCapabilities; lia_wildcard_impu : string
}.

Record ServerAssignmentAnswer := mkServerAssignmentAnswer {
  saa_result : ResultCode; saa_charging_addresses : ChargingAddresses;
  saa_service_profile : string; saa_wildcard_impu : string
}.

(** The one-argument constructors, used when there is no answer to parse. *)
Definition maa_of_rc (rc : ResultCode) := mkMultimediaAuthAnswer rc None "".
Definition uaa_of_rc (rc : ResultCode) := mkUserAuthAnswer rc 0 "" no_capabilities.
Definition lia_of_rc (rc : ResultCode) := mkLocationInfoAnswer rc 0 "" no_capabilities "".
Definition saa_of_rc (rc : ResultCode) := mkServerAssignmentAnswer rc no_addrs "" "".

(** [HssConnection::configure_auth_schemes] sets these. *)
Record AuthSchemes := mkAuthSchemes {
  scheme_digest : string; scheme_akav1 : string; scheme_akav2 : string
}.
End HssConnection.
