(* ===== verification/VarByte.v ===== *)
(** * The variable-length size header of stored IMPUs

    [encode_varbyte] and [decode_varbyte] of [src/impu_store.cpp]: seven bits
    to a byte, least significant first, bit 0x80 set when more bytes follow. *)

From Stdlib Require Import String Ascii ZArith Lia.
From stdpp Require Import base list strings option.
From S2P Require Import Prelude.
Open Scope Z_scope.

Definition INT_MAX : Z := 2147483647.

(** A [char] written from the low eight bits of an [int], and one read back as
    the unsigned value of its bits. *)
Definition char_of_Z (z : Z) : ascii := ascii_of_N (Z.to_N (Z.land z 255)).
Definition Z_of_char (a : ascii) : Z := Z.of_N (N_of_ascii a).

(** [data[offset]] of a [const std::string&]: the terminating NUL is readable
    at [size()]. *)
Definition byte_at (data : string) (offset : nat) : Z :=
  match String.get offset data with
  | Some a => Z_of_char a
  | None => 0
  end.

(** [while (uncomp_size != 0) { ... data.push_back(size_byte); }].  A
    [uint64_t] is exhausted after ten shifts by seven bits; [None] is a loop
    that is still running. *)
Fixpoint encode_varbyte_loop (fuel : nat) (uncomp_size : Z) (data : string)
    : option string :=
  if uncomp_size =? 0 then Some data
  else match fuel with
       | O => None
       | S n =>
           let size_byte := Z.land uncomp_size 127 in
           let uncomp_size := Z.shiftr uncomp_size 7 in
           let size_byte :=
             if 0 <? uncomp_size then Z.lor size_byte 128 else size_byte in
           encode_varbyte_loop n uncomp_size
             (data +:+ String (char_of_Z size_byte) EmptyString)
       end.

Definition encode_varbyte (uncomp_size : Z) (data : string) : option string :=
  encode_varbyte_loop 10 uncomp_size data.

(** What a call of [decode_varbyte] does: it returns a length (0 for corrupt
    data) and the new offset, or executes a shift the language leaves
    undefined, or is still looping. *)
Inductive decoded :=
| Length (length : Z) (offset : nat)
| UndefinedShift
| StillLooping.

(** [bits << (7*i)]: [bits] is promoted to [int], so the shift is by at most
    31 and the result must fit the corresponding unsigned type; the value is
    then sign-extended to [uint64_t]. *)
Definition shift_int (bits k : Z) : option Z :=
  if (k <? 32) && (bits * 2 ^ k <? 2 ^ 32) then Some (to_uint64 (to_int32 (bits * 2 ^ k)))
  else None.

(** The checks after the loop. *)
Definition decode_result (length : Z) (done : bool) (offset : nat) : decoded :=
  if negb done || (INT_MAX <=? length) then Length 0 offset else Length length offset.

Fixpoint decode_varbyte_loop (fuel : nat) (data : string) (offset : nat)
    (i length : Z) : decoded :=
  match fuel with
  | O => StillLooping
  | S n =>
      let bits := Z.land (byte_at data offset) 127 in
      match shift_int bits (7 * i) with
      | None => UndefinedShift
      | Some v =>
          let length := Z.lor length v in
          let done := Z.land (byte_at data offset) 128 =? 0 in
          let offset := S offset in
          if negb done && (length <? INT_MAX) && Nat.ltb offset (String.length data)
          then decode_varbyte_loop n data offset (i + 1) length
          else decode_result length done offset
      end
  end.

(** The shift amount reaches 35 in the sixth iteration at the latest, so six
    iterations are enough. *)
Definition decode_varbyte (data : string) (offset : nat) : decoded :=
  decode_varbyte_loop 6 data offset 0 0.

(** ** Bit-level lemmas *)

Lemma land_127 z : Z.land z 127 = z mod 128.
Proof. change 127 with (Z.ones 7). by rewrite Z.land_ones. Qed.

Lemma land_255 z : Z.land z 255 = z mod 256.
Proof. change 255 with (Z.ones 8). by rewrite Z.land_ones. Qed.

Lemma lor_disjoint a b k : 0 <= k -> 0 <= a < 2 ^ k -> Z.lor a (b * 2 ^ k) = a + b * 2 ^ k.
Proof.
  intros Hk Ha. rewrite <- Z.add_lor_land.
  enough (Z.land a (b * 2 ^ k) = 0) as -> by lia.
  rewrite <- Z.shiftl_mul_pow2 by lia. apply Z.bits_inj'. intros n Hn.
  rewrite Z.land_spec, Z.bits_0. destruct (Z.lt_ge_cases n k).
  - rewrite Z.shiftl_spec_low by lia. by rewrite andb_false_r.
  - rewrite <- (Z.mod_small a (2 ^ k)) by lia. by rewrite Z.mod_pow2_bits_high.
Qed.

Lemma char_of_Z_of z : 0 <= z < 256 -> Z_of_char (char_of_Z z) = z.
Proof.
  intros H. unfold Z_of_char, char_of_Z. rewrite land_255, Z.mod_small by lia.
  rewrite N_ascii_embedding by lia. lia.
Qed.

Lemma byte_bits b : 0 <= b < 128 -> Z.lor b 128 = b + 128.
Proof. intros H. by apply (lor_disjoint b 1 7). Qed.

Lemma land_128_low b : 0 <= b < 128 -> (Z.land b 128 =? 0) = true.
Proof.
  intros H. apply Z.eqb_eq. pose proof (Z.add_lor_land b 128).
  rewrite byte_bits in * by lia. lia.
Qed.

Lemma land_128_high b : 0 <= b < 128 -> (Z.land (b + 128) 128 =? 0) = false.
Proof.
  intros H. apply Z.eqb_neq. intros E. apply (f_equal (fun z => Z.testbit z 7)) in E.
  rewrite Z.land_spec, Z.bits_0 in E. rewrite <- byte_bits, Z.lor_spec in E by lia.
  change (Z.testbit 128 7) with true in E. by rewrite orb_true_r in E.
Qed.

Lemma byte_at_app pre a s : byte_at (pre +:+ String a s) (String.length pre) = Z_of_char a.
Proof. unfold byte_at. by induction pre as [|c pre IH]; simpl. Qed.

Lemma length_app_str s t : String.length (s +:+ t) = (String.length s + String.length t)%nat.
Proof. induction s as [|a s IH]; simpl; [done|]. by rewrite IH. Qed.

Lemma byte_at_range data offset : 0 <= byte_at data offset < 256.
Proof.
  unfold byte_at, Z_of_char. destruct (String.get offset data) as [a|]; [|lia].
  pose proof (N_ascii_bounded a). lia.
Qed.

(** ** Round trip *)

Lemma str_app_assoc (a b c : string) : (a +:+ b) +:+ c = a +:+ (b +:+ c).
Proof. induction a as [|x a IH]; [done|]. exact (f_equal (String x) IH). Qed.

Lemma str_app_nil (a : string) : a +:+ "" = a.
Proof. induction a as [|x a IH]; [done|]. exact (f_equal (String x) IH). Qed.

Lemma shift_int_small bits k :
  0 <= bits -> 0 <= k < 32 -> bits * 2 ^ k < 2 ^ 31 -> shift_int bits k = Some (bits * 2 ^ k).
Proof.
  intros Hb Hk Hlt. unfold shift_int. pose proof (Z.pow_pos_nonneg 2 k ltac:(lia) ltac:(lia)).
  assert (0 <= bits * 2 ^ k) by nia.
  rewrite (proj2 (Z.ltb_lt k 32)), (proj2 (Z.ltb_lt (bits * 2 ^ k) (2 ^ 32))) by lia. simpl.
  rewrite to_int32_id by (unfold int32_range; lia). by rewrite to_uint64_id by lia.
Qed.

(** What one iteration emits. *)
Lemma encode_step f n data :
  0 < n ->
  encode_varbyte_loop (S f) n data =
  encode_varbyte_loop f (n / 128)
    (data +:+ String (char_of_Z (if 0 <? n / 128 then n mod 128 + 128 else n mod 128)) "").
Proof.
  intros Hn. cbn [encode_varbyte_loop].
  rewrite (proj2 (Z.eqb_neq n 0)), land_127, Z.shiftr_div_pow2 by lia.
  change (2 ^ 7) with 128. destruct (0 <? n / 128); [|done].
  rewrite byte_bits by (apply Z.mod_pos_bound; lia). done.
Qed.

Lemma encode_loop_prefix f n data out :
  0 <= n -> encode_varbyte_loop f n data = Some out ->
  exists s, out = data +:+ s /\ (0 < n -> (0 < String.length s)%nat).
Proof.
  revert n data. induction f as [|f IH]; intros n data Hn.
  { cbn [encode_varbyte_loop]. destruct (Z.eqb_spec n 0); [|done]. intros [= <-].
    exists "". split; [by rewrite str_app_nil|lia]. }
  destruct (Z.eq_dec n 0) as [->|].
  { intros [= <-]. exists "". split; [by rewrite str_app_nil|lia]. }
  rewrite encode_step by lia. intros (s & -> & _)%IH; [|apply Z.div_pos; lia].
  rewrite str_app_assoc. eexists. split; [done|]. simpl. lia.
Qed.

(** Reading the byte one iteration emitted. *)
Lemma decode_step f pre b s i acc :
  0 <= b < 256 -> 0 <= acc < 2 ^ (7 * i) -> 0 <= i <= 4 ->
  (b mod 128) * 2 ^ (7 * i) < 2 ^ 31 ->
  decode_varbyte_loop (S f) (pre +:+ String (char_of_Z b) s) (String.length pre) i acc =
  (let length := acc + (b mod 128) * 2 ^ (7 * i) in
   let done := b <? 128 in
   if negb done && (length <? INT_MAX) && Nat.ltb 0 (String.length s)
   then decode_varbyte_loop f (pre +:+ String (char_of_Z b) s)
          (S (String.length pre)) (i + 1) length
   else decode_result length done (S (String.length pre))).
Proof.
  intros Hb Hacc Hi Hlt. cbn [decode_varbyte_loop].
  rewrite byte_at_app, char_of_Z_of, land_127 by done.
  pose proof (Z.mod_pos_bound b 128 ltac:(lia)).
  rewrite shift_int_small by lia. rewrite (lor_disjoint acc (b mod 128) (7 * i)) by lia.
  rewrite length_app_str. cbn [String.length].
  assert ((Z.land b 128 =? 0) = (b <? 128)) as ->.
  { destruct (Z.ltb_spec b 128); [apply land_128_low; lia|].
    replace b with (b - 128 + 128) by lia. apply land_128_high. lia. }
  assert (Nat.ltb (S (String.length pre)) (String.length pre + S (String.length s)) =
          Nat.ltb 0 (String.length s)) as ->; [|done].
  destruct (Nat.ltb_spec 0 (String.length s)); [apply Nat.ltb_lt|apply Nat.ltb_ge]; lia.
Qed.

Lemma pow_7_step i : 0 <= i -> 2 ^ (7 * (i + 1)) = 128 * 2 ^ (7 * i).
Proof. intros Hi. replace (7 * (i + 1)) with (7 + 7 * i) by lia. by rewrite Z.pow_add_r by lia. Qed.

Lemma pow_7_bound n i : 0 < n -> 0 <= i -> n * 2 ^ (7 * i) < INT_MAX -> i <= 4.
Proof.
  intros Hn Hi Hlt. destruct (Z.le_gt_cases i 4); [done|]. exfalso.
  assert (2 ^ 35 <= 2 ^ (7 * i)) by (apply Z.pow_le_mono_r; lia).
  change (2 ^ 35) with 34359738368 in *. unfold INT_MAX in *. nia.
Qed.

(** The byte that [encode_varbyte] writes: seven bits, and whether more follow. *)
Lemma header_byte n :
  let b := if 0 <? n / 128 then n mod 128 + 128 else n mod 128 in
  0 <= b < 256 /\ b mod 128 = n mod 128 /\ (b <? 128) = negb (0 <? n / 128).
Proof.
  intros b. pose proof (Z.mod_pos_bound n 128 ltac:(lia)). subst b.
  destruct (Z.ltb_spec 0 (n / 128)); (split; [lia|split]).
  - rewrite <- Z.add_mod_idemp_r by lia. rewrite Z.mod_same, Z.add_0_r by lia.
    apply Z.mod_mod. lia.
  - apply Z.ltb_ge. lia.
  - by rewrite Z.mod_mod by lia.
  - apply Z.ltb_lt. lia.
Qed.

Lemma decode_encode_loop f n pre out rest fd i acc :
  0 < n -> 0 <= i -> 0 <= acc < 2 ^ (7 * i) -> acc + n * 2 ^ (7 * i) < INT_MAX ->
  6 <= Z.of_nat fd + i ->
  encode_varbyte_loop f n pre = Some out ->
  decode_varbyte_loop fd (out +:+ rest) (String.length pre) i acc =
  Length (acc + n * 2 ^ (7 * i)) (String.length out).
Proof.
  revert n pre fd i acc. induction f as [|f IH]; intros n pre fd i acc Hn Hi Hacc Hlt Hfd.
  { cbn [encode_varbyte_loop]. rewrite (proj2 (Z.eqb_neq n 0)) by lia. done. }
  pose proof (Z.pow_pos_nonneg 2 (7 * i) ltac:(lia) ltac:(lia)) as Hp.
  pose proof (Z.div_mod n 128 ltac:(lia)) as Hdm.
  pose proof (Z.mod_pos_bound n 128 ltac:(lia)) as Hm.
  pose proof (Z.div_pos n 128 ltac:(lia) ltac:(lia)) as Hd.
  pose proof (pow_7_bound n i Hn Hi ltac:(lia)) as Hi4.
  destruct fd as [|fd]; [lia|].
  rewrite encode_step by done. set (b := if 0 <? n / 128 then _ else _).
  pose proof (header_byte n) as Hb. cbv zeta in Hb. fold b in Hb.
  destruct Hb as (Hb & Hbm & Hbd). intros He.
  destruct (encode_loop_prefix _ _ _ _ Hd He) as (s & -> & Hs).
  assert (Hlow : n mod 128 * 2 ^ (7 * i) < 2 ^ 31) by (unfold INT_MAX in Hlt; nia).
  rewrite !str_app_assoc.
  change (String (char_of_Z b) "" +:+ (s +:+ rest)) with (String (char_of_Z b) (s +:+ rest)).
  rewrite decode_step by (rewrite ?Hbm; lia).
  cbv zeta. rewrite Hbm, Hbd, Bool.negb_involutive. rewrite !length_app_str in *.
  change (String.length (String (char_of_Z b) "")) with 1%nat.
  destruct (Z.ltb_spec 0 (n / 128)) as [Hhi|Hlo]; simpl.
  - rewrite (proj2 (Z.ltb_lt _ INT_MAX)) by nia. specialize (Hs Hhi).
    rewrite (proj2 (Nat.ltb_lt 0 _)) by lia. simpl.
    specialize (IH (n / 128) (pre +:+ String (char_of_Z b) "") fd (i + 1)
                  (acc + n mod 128 * 2 ^ (7 * i))).
    rewrite !str_app_assoc, !length_app_str in IH.
    change (String (char_of_Z b) "" +:+ (s +:+ rest)) with (String (char_of_Z b) (s +:+ rest)) in IH.
    change (String.length (String (char_of_Z b) "")) with 1%nat in IH.
    rewrite Nat.add_1_r in IH. rewrite IH; rewrite ?pow_7_step by lia; try lia; try nia.
    + f_equal; [nia|lia].
    + by rewrite He, str_app_assoc.
  - assert (n / 128 = 0) as Hz by lia. rewrite Hz in He.
    assert (s = "") as ->.
    { destruct f; cbn in He; injection He; clear; intros He;
        apply (f_equal String.length) in He; rewrite !length_app_str in He;
        destruct s; simpl in He; (done || lia). }
    unfold decode_result. rewrite (proj2 (Z.leb_gt INT_MAX _)) by nia. simpl.
    f_equal; [nia|simpl; lia].
Qed.

(** ** Properties *)

Lemma encode_loop_total f m d :
  0 <= m < 2 ^ (7 * Z.of_nat f) -> is_Some (encode_varbyte_loop f m d).
Proof.
  revert m d. induction f as [|f IH]; intros m d Hm.
  - assert (m = 0) as -> by (cbn in Hm; lia). by eexists.
  - destruct (Z.eq_dec m 0) as [->|]; [by eexists|].
    rewrite encode_step by lia. apply IH. split; [apply Z.div_pos; lia|].
    apply Z.div_lt_upper_bound; [lia|].
    replace (7 * Z.of_nat (S f)) with (7 * (Z.of_nat f + 1)) in Hm by lia.
    rewrite pow_7_step in Hm by lia. lia.
Qed.

(** Ten bytes hold any [uint64_t]. *)
Lemma encode_varbyte_total n data :
  0 <= n < 2 ^ 64 ->
  exists out, encode_varbyte_loop 10 n data = Some out /\
    exists s, out = data +:+ s /\ (0 < n -> (0 < String.length s)%nat).
Proof.
  intros Hn. destruct (encode_loop_total 10 n data) as [out Hout].
  { change (2 ^ (7 * Z.of_nat 10)) with (2 ^ 70). lia. }
  exists out. split; [done|]. by apply (encode_loop_prefix 10 n); [lia|].
Qed.

(** A size between 1 and [INT_MAX - 1] is encoded, and decoding at the place
    it was appended to returns it and the offset of the byte after it,
    whatever follows. *)
Lemma decode_encode_varbyte n pre rest :
  0 < n < INT_MAX ->
  exists enc, encode_varbyte n pre = Some (pre +:+ enc) /\
    decode_varbyte ((pre +:+ enc) +:+ rest) (String.length pre) =
    Length n (String.length (pre +:+ enc)).
Proof.
  intros Hn. unfold encode_varbyte, decode_varbyte.
  destruct (encode_varbyte_total n pre) as (out & Hout & s & -> & _).
  { unfold INT_MAX in *. lia. }
  exists s. split; [done|].
  erewrite (decode_encode_loop 10 n pre _ rest 6 0 0); [|lia..|exact Hout]; f_equal; lia.
Qed.

Lemma decode_result_bounds length done offset n off :
  0 <= length -> decode_result length done offset = Length n off -> 0 <= n < INT_MAX /\ off = offset.
Proof.
  unfold decode_result. destruct (negb done); simpl; [intros _ [= <- <-]; unfold INT_MAX; lia|].
  destruct (Z.leb_spec INT_MAX length); intros ? [= <- <-]; unfold INT_MAX in *; lia.
Qed.

Lemma shift_int_nonneg bits k v : shift_int bits k = Some v -> 0 <= v.
Proof.
  unfold shift_int. destruct (_ && _); [|done]. intros [= <-].
  unfold to_uint64. pose proof (Z.mod_pos_bound (to_int32 (bits * 2 ^ k)) (2 ^ 64) ltac:(lia)). lia.
Qed.

Lemma shift_int_bound bits i v : shift_int bits (7 * i) = Some v -> i <= 4.
Proof. unfold shift_int. destruct (Z.ltb_spec (7 * i) 32); simpl; [lia|done]. Qed.

Lemma decode_loop_total fd data i len off :
  0 <= i <= 5 -> 0 <= len -> 6 <= Z.of_nat fd + i -> (off < String.length data)%nat ->
  match decode_varbyte_loop fd data off i len with
  | Length n off' => 0 <= n < INT_MAX /\ (off < off' <= String.length data)%nat
  | UndefinedShift => True
  | StillLooping => False
  end.
Proof.
  revert i len off. induction fd as [|fd IH]; intros i len off Hi Hlen Hfd Ho; [lia|].
  cbn [decode_varbyte_loop]. destruct (shift_int _ (7 * i)) as [v|] eqn:Hv; [|done].
  pose proof (shift_int_bound _ _ _ Hv). pose proof (shift_int_nonneg _ _ _ Hv).
  assert (0 <= Z.lor len v) by (by apply Z.lor_nonneg).
  destruct (_ && Nat.ltb (S off) (String.length data)) eqn:Hc.
  - apply andb_prop in Hc as [_ Hc%Nat.ltb_lt].
    specialize (IH (i + 1) (Z.lor len v) (S off) ltac:(lia) ltac:(lia) ltac:(lia) ltac:(lia)).
    destruct (decode_varbyte_loop _ _ _ _ _); [|done..]. destruct IH; split; [done|lia].
  - unfold decode_result. destruct (negb (Z.land _ 128 =? 0) || (INT_MAX <=? Z.lor len v)) eqn:Hd.
    + unfold INT_MAX. split; lia.
    + apply orb_false_elim in Hd as [_ Hd%Z.leb_gt]. split; lia.
Qed.

(** [decode_varbyte] always stops (six iterations are enough), and the
    length it returns is either 0 (corrupt data) or less than [INT_MAX], so
    the cast [(int) length_long] in [Impu::from_data] keeps it; the offset
    moves past at least one byte and at most to the end of the data. *)
Theorem decode_varbyte_total data offset :
  (offset < String.length data)%nat ->
  match decode_varbyte data offset with
  | Length n off => 0 <= n < INT_MAX /\ to_int32 n = n /\
                    (offset < off <= String.length data)%nat
  | UndefinedShift => True
  | StillLooping => False
  end.
Proof.
  intros Hoff. pose proof (decode_loop_total 6 data 0 0 offset ltac:(lia) ltac:(lia)
                             ltac:(lia) Hoff) as H.
  unfold decode_varbyte. destruct (decode_varbyte_loop _ _ _ _ _); [|done..].
  destruct H as [Hn Ho]. split; [done|]. split; [|done].
  apply to_int32_id. unfold int32_range, INT_MAX in *. lia.
Qed.

Lemma decode_varbyte_total_witness :
  match decode_varbyte (String zero (String "a" "")) 1 with
  | Length n off => 0 <= n < INT_MAX /\ to_int32 n = n /\ (1 < off <= 2)%nat
  | UndefinedShift => True
  | StillLooping => False
  end.
Proof. apply (decode_varbyte_total (String zero (String "a" "")) 1). simpl. lia. Defined.

(** corrupt data can make [decode_varbyte] execute an undefined shift: the
    byte is shifted as an [int], so a fifth byte of 16 or more, or any sixth
    byte, overflows it before the [INT_MAX] check is reached. *)
Theorem decode_varbyte_undefined_shift b rest pre :
  16 <= b < 128 ->
  decode_varbyte (pre +:+ String "128" (String "128" (String "128" (String "128"
                    (String (char_of_Z b) rest))))) (String.length pre) = UndefinedShift.
Proof.
  intros Hb. unfold decode_varbyte.
  change "128"%char with (char_of_Z 128).
  assert (Hnext : forall fd i s pre, 0 <= i <= 3 -> (0 < String.length s)%nat ->
            decode_varbyte_loop (S fd) (pre +:+ String (char_of_Z 128) s) (String.length pre) i 0 =
            decode_varbyte_loop fd ((pre +:+ String (char_of_Z 128) "") +:+ s)
              (String.length (pre +:+ String (char_of_Z 128) "")) (i + 1) 0).
  { intros fd i s pre' Hi Hs. pose proof (Z.pow_pos_nonneg 2 (7 * i) ltac:(lia) ltac:(lia)).
    rewrite decode_step by (rewrite ?Z.mod_same by lia; lia). cbv zeta.
    rewrite Z.mod_same, Z.mul_0_l by lia. rewrite str_app_assoc, length_app_str.
    rewrite (proj2 (Nat.ltb_lt 0 _)) by lia. simpl. by rewrite Nat.add_1_r. }
  rewrite !Hnext by (simpl; lia).
  cbn [decode_varbyte_loop]. rewrite byte_at_app, char_of_Z_of, land_127, Z.mod_small by lia.
  unfold shift_int. destruct (Z.ltb_spec (b * 2 ^ (7 * (0 + 1 + 1 + 1 + 1))) (2 ^ 32)) as [Hlt|];
    [|by rewrite andb_false_r].
  exfalso. change (2 ^ (7 * (0 + 1 + 1 + 1 + 1))) with 268435456 in Hlt.
  change (2 ^ 32) with 4294967296 in Hlt. lia.
Qed.

Lemma decode_varbyte_undefined_shift_witness :
  decode_varbyte ("" +:+ String "128" (String "128" (String "128" (String "128"
                    (String (char_of_Z 16) ""))))) 0 = UndefinedShift.
Proof. apply (decode_varbyte_undefined_shift 16 "" ""). lia. Defined.
