(* ===== verification/Env.v ===== *)
(** * Interfaces to code outside the repository

    Homestead's own code is written against libraries the repository does not
    contain: the key-value [Store] of cpp-common (a memcached client),
    rapidjson with the accessor macros of [json_parse_utils.h], LZ4, and rapidxml
    (with what the strings of a destroyed document read as).  Each
    is a class here; a second class states the documented behaviour the
    theorems rely on.  [Concrete.v] shows that the laws can hold. *)

From Stdlib Require Import String ZArith Lia.
From stdpp Require Import base list strings option.
From S2P Require Import Prelude Types.
Open Scope Z_scope.

(** ** The key-value store

    A store is named by its position: 0 is the local store, [i] the [i]-th
    remote one.  [get_data] returns a status with, when it is [OK], data and
    its compare-and-swap value.  [time0] is [time(0)]. *)
Class StoreOps (W : Type) := {
  get_data : nat -> string -> string -> IO W (Store.Status * string * Z);
  set_data : nat -> string -> string -> string -> Z -> Z -> IO W Store.Status;
  set_data_without_cas : nat -> string -> string -> string -> Z -> IO W Store.Status;
  delete_data : nat -> string -> string -> IO W Store.Status;
  time0 : W -> Z
}.

(** A store that is available: what it holds is a map from store, table and
    key to data and a non-zero CAS value.  A write with a matching CAS value
    (0 for a key that is not there) succeeds and gives the entry a CAS value
    of its own, any other write is refused and changes nothing. *)
Class LawfulStore (W : Type) `{StoreOps W} := {
  entry : W -> nat -> string -> string -> option (string * Z);
  entry_cas : forall w s t k d c, entry w s t k = Some (d, c) -> c <> 0;
  get_data_law : forall w s t k,
    get_data s t k w =
    match entry w s t k with
    | Some (d, c) => Done (Store.OK, d, c) w
    | None => Done (Store.NOT_FOUND, ""%string, 0) w
    end;
  set_data_hit : forall w s t k d c e,
    0 < e ->
    c = match entry w s t k with Some (_, c') => c' | None => 0 end ->
    exists w' c', set_data s t k d c e w = Done Store.OK w' /\
      entry w' s t k = Some (d, c') /\ c' <> c /\ time0 w' = time0 w /\
      (forall s' t' k', (s', t', k') <> (s, t, k) -> entry w' s' t' k' = entry w s' t' k');
  set_data_miss : forall w s t k d c e,
    c <> match entry w s t k with Some (_, c') => c' | None => 0 end ->
    set_data s t k d c e w = Done Store.DATA_CONTENTION w;
  set_data_without_cas_law : forall w s t k d e,
    0 < e ->
    exists w' c', set_data_without_cas s t k d e w = Done Store.OK w' /\
      entry w' s t k = Some (d, c') /\ time0 w' = time0 w /\
      (forall s' t' k', (s', t', k') <> (s, t, k) -> entry w' s' t' k' = entry w s' t' k');
  delete_data_law : forall w s t k,
    exists w', delete_data s t k w = Done Store.OK w' /\
      entry w' s t k = None /\ time0 w' = time0 w /\
      (forall s' t' k', (s', t', k') <> (s, t, k) -> entry w' s' t' k' = entry w s' t' k')
}.

(** CAS values are not given again: [stamp] is above every value an entry has or
    had, and a write gives an entry a value from the stamp on.  [entries_evolve]
    says what that leaves of the entries with older values. *)
Definition entries_evolve {W} (entry : W -> nat -> string -> string -> option (string * Z))
    (stamp : W -> nat -> string -> string -> Z) (w w' : W) : Prop :=
  forall s t k, stamp w s t k <= stamp w' s t k /\
    forall d c, entry w' s t k = Some (d, c) -> c < stamp w s t k -> entry w s t k = Some (d, c).

Class FreshStore (W : Type) `{LawfulStore W} := {
  stamp : W -> nat -> string -> string -> Z;
  stamp_positive : forall w s t k, 0 < stamp w s t k;
  stamp_bound : forall w s t k d c, entry w s t k = Some (d, c) -> c < stamp w s t k;
  set_data_fresh : forall w s t k d c e st w',
    set_data s t k d c e w = Done st w' -> entries_evolve entry stamp w w';
  set_data_without_cas_fresh : forall w s t k d e st w',
    set_data_without_cas s t k d e w = Done st w' -> entries_evolve entry stamp w w';
  delete_data_fresh : forall w s t k st w',
    delete_data s t k w = Done st w' -> entries_evolve entry stamp w w'
}.

(** ** JSON

    [parse_json] is [doc.Parse<0>(const char* )] ([None] is a parse error) and
    [serialize] what the writer leaves in its buffer.  The accessors are those
    of [json_parse_utils.h]: the SAFE ones leave their target alone when the
    member is missing or has another type, [JSON_GET_BOOL_MEMBER] then throws
    ([None]); [write_json_string_array] writes a key and an array. *)
Class JsonLib := {
  parse_json : string -> option json;
  serialize : json -> string;
  safe_get_string_member : json -> string -> string -> string;
  safe_get_int_64_member : json -> string -> Z -> Z;
  get_bool_member : json -> string -> option bool;
  extract_json_string_array : json -> string -> list string;
  write_json_string_array : string -> list string -> string * json
}.

(** [doc.IsObject()], [doc.HasMember(k)], [doc[k]] *)
Definition is_object (j : json) : bool := match j with JObj _ => true | _ => false end.

Definition member (j : json) (k : string) : option json :=
  match j with
  | JObj l => snd <$> List.find (fun m => String.eqb k (fst m)) l
  | _ => None
  end.

Definition has_member (j : json) (k : string) : bool :=
  match member j k with Some _ => true | None => false end.

(** A document the writer can produce: every string is a C string. *)
Fixpoint json_clean (j : json) : bool :=
  match j with
  | JStr s => no_nul s
  | JArr l => forallb json_clean l
  | JObj l => forallb (fun m => no_nul (fst m) && json_clean (snd m)) l
  | _ => true
  end.

Class LawfulJson `{JsonLib} := {
  parse_serialize : forall j, json_clean j = true -> parse_json (serialize j) = Some j;
  serialize_no_nul : forall j, json_clean j = true -> no_nul (serialize j) = true;
  serialize_nonempty : forall j, serialize j <> ""%string;
  safe_get_string_law : forall j k d s,
    member j k = Some (JStr s) -> safe_get_string_member j k d = s;
  safe_get_int_64_law : forall j k d z,
    - 2 ^ 63 <= z < 2 ^ 63 ->
    member j k = Some (JInt z) -> safe_get_int_64_member j k d = z;
  get_bool_law : forall j k b, member j k = Some (JBool b) -> get_bool_member j k = Some b;
  get_bool_missing : forall j k, member j k = None -> get_bool_member j k = None;
  extract_array_law : forall j k l,
    member j k = Some (JArr (map JStr l)) -> extract_json_string_array j k = l;
  write_array_law : forall k l,
    forallb no_nul l = true -> write_json_string_array k l = (k, JArr (map JStr l))
}.

(** ** LZ4

    [lz4_compress dict src cap] is [LZ4_compress_fast_continue] on a stream
    loaded with [dict]: the size and the bytes written, 0 when they do not fit
    in [cap].  [lz4_decompress dict src cap] is
    [LZ4_decompress_safe_usingDict]. *)
Class Lz4 := {
  lz4_compress : string -> string -> Z -> Z * string;
  lz4_decompress : string -> string -> Z -> Z * string
}.

Class LawfulLz4 `{Lz4} := {
  lz4_size : forall dict src cap n out,
    lz4_compress dict src cap = (n, out) ->
    0 <= n <= Z.max 0 cap /\ (0 < n -> Z.of_nat (String.length out) = n);
  lz4_roundtrip : forall dict src cap n out,
    lz4_compress dict src cap = (n, out) -> 0 < n ->
    lz4_decompress dict out (Z.of_nat (String.length src)) =
    (Z.of_nat (String.length src), src)
}.

(** ** XML

    rapidxml's tree: a node has a name (empty for text), a value, attributes
    and children.  [parse_xml] is
    [doc.parse<parse_strip_xml_namespaces>(char* )], [None] a [parse_error];
    [print_xml] is [rapidxml::print] without its flags.  A node that [clone_node]
    makes shares its names and values with the document it is cloned from:
    [released] is what the memory of such a node holds once that document is
    destroyed, of which nothing is promised. *)
Inductive xml :=
| Node (name value : string) (attributes : list (string * string)) (children : list xml).

Definition xml_name (x : xml) : string := let '(Node n _ _ _) := x in n.
Definition xml_value (x : xml) : string := let '(Node _ v _ _) := x in v.
Definition xml_children (x : xml) : list xml := let '(Node _ _ _ c) := x in c.

Class XmlLib := {
  parse_xml : string -> option (list xml);
  print_xml : list xml -> string;
  released : xml -> xml
}.

(** The names of [RegDataXMLUtils] and its parser of an Extension node. *)
Class RegDataXMLUtils := {
  CLEARWATER_REG_DATA : string;
  REGISTRATION_STATE : string;
  PREVIOUS_REGISTRATION_STATE : string;
  STATE_REGISTERED : string;
  STATE_UNREGISTERED : string;
  STATE_NOT_REGISTERED : string;
  IMS_SUBSCRIPTION : string;
  SERVICE_PROFILE : string;
  PUBLIC_IDENTITY : string;
  IDENTITY : string;
  PRIVATE_ID : string;
  BARRING_INDICATION : string;
  STATE_UNBARRED : string;
  EXTENSION : string;
  CHARGING_ADDRESSES : string;
  CCF : string;
  ECF : string;
  CCF_ECF_PRIORITY : string;
  CCF_PRIORITY_1 : string;
  CCF_PRIORITY_2 : string;
  ECF_PRIORITY_1 : string;
  ECF_PRIORITY_2 : string;
  parse_extension_identity : string -> xml -> string
}.
