(* ===== verification/Concrete.v ===== *)
(** * Concrete environments

    Lawful instances of the classes of [Env.v], so that the laws are known to
    be satisfiable and theorems can be applied to concrete inputs: an
    in-memory store with CAS values, a JSON codec, and an LZ4 that copies. *)

From Stdlib Require Import String Ascii ZArith Lia.
From stdpp Require Import base list strings option gmap countable.
From S2P Require Import Prelude Types Env.
Open Scope Z_scope.

(** ** An in-memory store *)
Module Mem.
Record mem := mkMem {
  entries : gmap (nat * string * string) (string * positive);
  next_cas : positive;
  clock : Z
}.

Definition lookup (w : mem) (s : nat) (t k : string) : option (string * Z) :=
  (fun e => (fst e, Zpos (snd e))) <$> entries w !! (s, t, k).

(** The CAS value of a write: unused so far, and not the entry's own. *)
Definition fresh_cas (w : mem) (s : nat) (t k : string) : positive :=
  match entries w !! (s, t, k) with
  | Some (_, p) => Pos.max (next_cas w) (Pos.succ p)
  | None => next_cas w
  end.

Definition write (w : mem) (s : nat) (t k d : string) : mem :=
  let c := fresh_cas w s t k in
  mkMem (<[(s, t, k) := (d, c)]> (entries w)) (Pos.succ c) (clock w).

Definition cas_of (w : mem) (s : nat) (t k : string) : Z :=
  match lookup w s t k with Some (_, c) => c | None => 0 end.

#[global] Instance ops : StoreOps mem := {|
  get_data := fun s t k w =>
    match lookup w s t k with
    | Some (d, c) => Done (Store.OK, d, c) w
    | None => Done (Store.NOT_FOUND, ""%string, 0) w
    end;
  set_data := fun s t k d c _ w =>
    if c =? cas_of w s t k then Done Store.OK (write w s t k d)
    else Done Store.DATA_CONTENTION w;
  set_data_without_cas := fun s t k d _ w => Done Store.OK (write w s t k d);
  delete_data := fun s t k w =>
    Done Store.OK (mkMem (delete (s, t, k) (entries w)) (fresh_cas w s t k) (clock w));
  time0 := clock
|}.

Lemma lookup_write w s t k d s' t' k' :
  lookup (write w s t k d) s' t' k' =
  if decide ((s', t', k') = (s, t, k)) then Some (d, Zpos (fresh_cas w s t k)) else lookup w s' t' k'.
Proof.
  unfold lookup, write. simpl. destruct (decide _) as [[= -> -> ->]|Hne].
  - by rewrite lookup_insert_eq.
  - by rewrite lookup_insert_ne by congruence.
Qed.

#[global] Program Instance lawful : LawfulStore mem := {| entry := lookup |}.
Next Obligation.
  intros w s t k d c. unfold lookup. destruct (entries w !! _) as [[d' p]|]; simpl; [|done].
  by intros [= <- <-].
Qed.
Next Obligation. done. Qed.
Next Obligation.
  intros w s t k d c e _ ->. simpl. unfold cas_of. rewrite Z.eqb_refl.
  eexists _, _. split; [done|]. rewrite lookup_write, decide_True by done.
  split; [done|]. split.
  { unfold lookup, fresh_cas. destruct (entries w !! _) as [[d' p]|]; simpl; lia. }
  split; [done|]. intros. rewrite lookup_write. by rewrite decide_False.
Qed.
Next Obligation.
  intros w s t k d c e Hne. simpl. unfold cas_of. by rewrite (proj2 (Z.eqb_neq _ _)).
Qed.
Next Obligation.
  intros w s t k d e _. eexists _, _. split; [done|]. rewrite lookup_write, decide_True by done.
  split; [done|]. split; [done|]. intros. rewrite lookup_write. by rewrite decide_False.
Qed.
Next Obligation.
  intros w s t k. eexists. split; [done|]. unfold lookup. simpl.
  split; [by rewrite lookup_delete_eq|]. split; [done|].
  intros s' t' k' Hne. by rewrite lookup_delete_ne by congruence.
Qed.

Lemma write_fresh w s t k d :
  entries_evolve lookup (fun w s t k => Zpos (fresh_cas w s t k)) w (write w s t k d).
Proof.
  intros s' t' k'. rewrite lookup_write. unfold fresh_cas at 2, write. cbn [entries next_cas].
  destruct (decide ((s', t', k') = (s, t, k))) as [[= -> -> ->]|Hne].
  - rewrite lookup_insert_eq. cbn [snd]. split; [lia|]. intros d' c' [= <- <-]. lia.
  - rewrite lookup_insert_ne by congruence. split; [|auto].
    unfold fresh_cas. destruct (entries w !! (s', t', k')) as [[]|], (entries w !! (s, t, k)) as [[]|]; cbn [snd]; lia.
Qed.

(** The next CAS value of a key. *)
#[global] Program Instance fresh : FreshStore mem := {|
  stamp := fun w s t k => Zpos (fresh_cas w s t k)
|}.
Next Obligation. done. Qed.
Next Obligation.
  intros w s t k d c. cbn [entry lawful]. unfold lookup, fresh_cas.
  destruct (entries w !! _) as [[d' p]|]; simpl; [|done]. intros [= <- <-]. lia.
Qed.
Next Obligation.
  intros w s t k d c e st w'. cbn [set_data ops entry lawful].
  destruct (c =? cas_of w s t k); intros [= <- <-]; [apply write_fresh|].
  intros s' t' k'. split; [lia|auto].
Qed.
Next Obligation.
  intros w s t k d e st w'. cbn [set_data_without_cas ops entry lawful]. intros [= <- <-].
  apply write_fresh.
Qed.
Next Obligation.
  intros w s t k st w'. cbn [delete_data ops entry lawful]. intros [= <- <-].
  intros s' t' k'. unfold fresh_cas at 2, lookup at 1. cbn [entries next_cas].
  destruct (decide ((s', t', k') = (s, t, k))) as [[= -> -> ->]|Hne].
  - rewrite lookup_delete_eq. split; [lia|done].
  - rewrite lookup_delete_ne by congruence. split; [|auto].
    unfold fresh_cas. destruct (entries w !! (s', t', k')) as [[]|], (entries w !! (s, t, k)) as [[]|]; cbn [snd]; lia.
Qed.

(** An empty store at time [t]. *)
Definition empty_at (t : Z) : mem := mkMem ∅ 1 t.

Lemma lookup_empty_at time s t k : lookup (empty_at time) s t k = None.
Proof. unfold lookup, empty_at. simpl. by rewrite lookup_empty. Qed.
End Mem.

(** ** A JSON codec

    Documents are numbered by their tree structure; the number is written in
    binary digits. *)
Module Codec.
Fixpoint to_tree (j : json) : gen_tree (bool + Z + string) :=
  match j with
  | JNull => GenNode 0 []
  | JBool b => GenLeaf (inl (inl b))
  | JInt z => GenLeaf (inl (inr z))
  | JStr s => GenLeaf (inr s)
  | JArr l => GenNode 1 (map to_tree l)
  | JObj l => GenNode 2 (map (fun m => GenNode 3 [GenLeaf (inr (fst m)); to_tree (snd m)]) l)
  end.

Fixpoint of_tree (t : gen_tree (bool + Z + string)) : json :=
  match t with
  | GenLeaf (inl (inl b)) => JBool b
  | GenLeaf (inl (inr z)) => JInt z
  | GenLeaf (inr s) => JStr s
  | GenNode 1 l => JArr (map of_tree l)
  | GenNode 2 l =>
      JObj (map (fun t => match t with
                          | GenNode _ [GenLeaf (inr k); v] => (k, of_tree v)
                          | _ => (""%string, JNull)
                          end) l)
  | GenNode _ _ => JNull
  end.

Lemma of_to_tree : forall j, of_tree (to_tree j) = j.
Proof.
  fix IH 1. intros [|b|z|s|l|l]; simpl; try done; f_equal.
  - induction l as [|j l IHl]; simpl; [done|]. by rewrite IH, IHl.
  - induction l as [|[k j] l IHl]; simpl; [done|]. by rewrite IH, IHl.
Qed.

#[global] Instance json_eq_dec : EqDecision json.
Proof.
  refine (fun a b => cast_if (decide (to_tree a = to_tree b)));
    [by rewrite <- (of_to_tree a), <- (of_to_tree b); f_equal|by intros ->].
Defined.

#[global] Instance json_countable : Countable json := inj_countable' to_tree of_tree of_to_tree.

Fixpoint digits (p : positive) : string :=
  match p with
  | xH => "1"
  | xO p => String "0" (digits p)
  | xI p => String "1" (digits p)
  end.

Fixpoint number (s : string) : positive :=
  match s with
  | String a (String b t as s') => if Ascii.eqb a "0" then xO (number s') else xI (number s')
  | _ => xH
  end.

Lemma digits_cons p : exists a s, digits p = String a s.
Proof. destruct p; simpl; eauto. Qed.

Lemma number_digits p : number (digits p) = p.
Proof.
  induction p as [p IH|p IH|]; simpl; [| |done];
    destruct (digits_cons p) as (a & s & E); rewrite E in *; simpl in *; by f_equal.
Qed.

#[global] Instance lib : JsonLib := {|
  parse_json := fun s => decode (number s);
  serialize := fun j => digits (encode j);
  safe_get_string_member := fun j k d =>
    match member j k with Some (JStr s) => s | _ => d end;
  safe_get_int_64_member := fun j k d =>
    match member j k with Some (JInt z) => z | _ => d end;
  get_bool_member := fun j k =>
    match member j k with Some (JBool b) => Some b | _ => None end;
  extract_json_string_array := fun j k =>
    match member j k with
    | Some (JArr l) => omap (fun v => match v with JStr s => Some s | _ => None end) l
    | _ => []
    end;
  write_json_string_array := fun k l => (k, JArr (map JStr l))
|}.

#[global] Program Instance lawful : LawfulJson.
Next Obligation. intros j _. simpl. by rewrite number_digits, decode_encode. Qed.
Next Obligation. intros j _. simpl. generalize (encode j). intros p. induction p; simpl; auto. Qed.
Next Obligation. intros j. simpl. destruct (digits_cons (encode j)) as (? & ? & ->). done. Qed.
Next Obligation. intros j k d s E. simpl. by rewrite E. Qed.
Next Obligation. intros j k d z _ E. simpl. by rewrite E. Qed.
Next Obligation. intros j k b E. simpl. by rewrite E. Qed.
Next Obligation. intros j k E. simpl. by rewrite E. Qed.
Next Obligation.
  intros j k l E. simpl. rewrite E. clear E. induction l as [|s l IH]; simpl; [done|].
  by f_equal.
Qed.
Next Obligation. done. Qed.
End Codec.

(** ** An LZ4 that copies *)
Module Copy.
#[global] Instance lz4 : Lz4 := {|
  lz4_compress := fun _ src cap =>
    if (0 <? Z.of_nat (String.length src)) && (Z.of_nat (String.length src) <=? cap)
    then (Z.of_nat (String.length src), src) else (0, ""%string);
  lz4_decompress := fun _ src cap =>
    if Z.of_nat (String.length src) <=? cap then (Z.of_nat (String.length src), src)
    else (-1, ""%string)
|}.

#[global] Program Instance lawful : LawfulLz4.
Next Obligation.
  intros dict src cap n out. simpl.
  destruct (Z.ltb_spec 0 (Z.of_nat (String.length src))),
    (Z.leb_spec (Z.of_nat (String.length src)) cap); simpl; intros [= <- <-]; simpl; split; lia.
Qed.
Next Obligation.
  intros dict src cap n out. simpl.
  destruct (Z.ltb_spec 0 (Z.of_nat (String.length src))),
    (Z.leb_spec (Z.of_nat (String.length src)) cap); simpl; intros [= <- <-]; try lia.
  intros _. by rewrite Z.leb_refl.
Qed.
End Copy.

(** ** XML: a printer, a parser of known documents, and names for the RegData
    elements *)
Module Xml.
Definition dq : string := String "034" "".

Definition print_attribute (a : string * string) : string :=
  " " +:+ fst a +:+ "=" +:+ dq +:+ snd a +:+ dq.

Fixpoint print (x : xml) : string :=
  let '(Node n v a c) := x in
  "<" +:+ n +:+ String.concat "" (map print_attribute a) +:+ ">" +:+ v +:+
  String.concat "" (map print c) +:+ "</" +:+ n +:+ ">".

Definition print_document (l : list xml) : string := String.concat "" (map print l).

(** A profile with the given identities, barred or not. *)
Definition identity_node (e : string * bool) : xml :=
  Node "PublicIdentity" "" []
    (Node "Identity" (fst e) [] [] ::
     if snd e then [Node "BarringIndication" "1" [] []] else []).

Definition profile_nodes (impi : string) (l : list (string * bool)) : list xml :=
  [Node "IMSSubscription" "" []
     [Node "PrivateID" impi [] []; Node "ServiceProfile" "" [] (map identity_node l)]].

Definition documents : list (list xml) :=
  [ profile_nodes "a@b" [("sip:x@b", true); ("sip:a@b", false); ("sip:c@d", false)];
    profile_nodes "a@b" [("sip:a@b", false)];
    profile_nodes "a@b" [] ]%string.

Definition profile (n : nat) : string := print_document (nth n documents []).

#[global] Instance lib : XmlLib := {|
  parse_xml := fun s => List.find (fun l => String.eqb (print_document l) s) documents;
  print_xml := print_document;
  released := fun n => n
|}.

#[global] Instance names : RegDataXMLUtils := {|
  CLEARWATER_REG_DATA := "ClearwaterRegData";
  REGISTRATION_STATE := "RegistrationState";
  PREVIOUS_REGISTRATION_STATE := "PreviousRegistrationState";
  STATE_REGISTERED := "REGISTERED";
  STATE_UNREGISTERED := "UNREGISTERED";
  STATE_NOT_REGISTERED := "NOT_REGISTERED";
  IMS_SUBSCRIPTION := "IMSSubscription";
  SERVICE_PROFILE := "ServiceProfile";
  PUBLIC_IDENTITY := "PublicIdentity";
  IDENTITY := "Identity";
  PRIVATE_ID := "PrivateID";
  BARRING_INDICATION := "BarringIndication";
  STATE_UNBARRED := "0";
  EXTENSION := "Extension";
  CHARGING_ADDRESSES := "ChargingAddresses";
  CCF := "CCF";
  ECF := "ECF";
  CCF_ECF_PRIORITY := "priority";
  CCF_PRIORITY_1 := "1";
  CCF_PRIORITY_2 := "2";
  ECF_PRIORITY_1 := "1";
  ECF_PRIORITY_2 := "2";
  parse_extension_identity := fun uri _ => uri
|}.
End Xml.
