(* ===== verification/ImpuStore.v ===== *)
(** * The IMPU store

    [src/impu_store.cpp] and [include/impu_store.h]: the records kept per
    public identity (IMPU) and per private identity (IMPI), their encoding
    (JSON, for IMPUs compressed behind a version byte and a variable-length
    size), and the operations on the key-value store.  The second half states
    what the cache may rely on, as a class with its instance. *)

From Stdlib Require Import String Ascii ZArith Lia.
From stdpp Require Import base list strings option.
From S2P Require Import Prelude Types VarByte Env Concrete.
Open Scope Z_scope.

(** ** Data

    [store] is the store a record was read from, none for a null pointer. *)

Record ImpuBase := mkImpuBase {
  impu : string;
  cas : Z;
  expiry : Z;
  store : option nat
}.

Record DefaultData := mkDefaultData {
  registration_state : RegistrationState.t;
  charging_addresses : ChargingAddresses;
  associated_impus : list string;
  impis : list string;
  service_profile : string
}.

(** The two subclasses of [Impu]. *)
Inductive Impu :=
| DefaultImpu (b : ImpuBase) (d : DefaultData)
| AssociatedImpu (b : ImpuBase) (default_impu : string).

Definition impu_base (i : Impu) : ImpuBase :=
  match i with DefaultImpu b _ | AssociatedImpu b _ => b end.

Definition is_default_impu (i : Impu) : bool :=
  match i with DefaultImpu _ _ => true | AssociatedImpu _ _ => false end.

Definition has_associated_impu (d : DefaultData) (i : string) : bool :=
  in_vector i (associated_impus d).

Record ImpiMapping := mkImpiMapping {
  impi : string;
  mapping_cas : Z;
  _expiry : Z;
  _default_impus : list string
}.

(** The constructor that makes a mapping to one IMPU. *)
Definition new_ImpiMapping (i impu : string) (e : Z) : ImpiMapping :=
  mkImpiMapping i 0 e [impu].

Definition add_default_impu (m : ImpiMapping) (i : string) : ImpiMapping :=
  mkImpiMapping (impi m) (mapping_cas m) (_expiry m) (_default_impus m ++ [i]).

Definition has_default_impu (m : ImpiMapping) (i : string) : bool :=
  in_vector i (_default_impus m).

(** [v.erase(std::remove(v.begin(), v.end(), impu), v.end())] *)
Definition remove_default_impu (m : ImpiMapping) (i : string) : ImpiMapping :=
  mkImpiMapping (impi m) (mapping_cas m) (_expiry m)
    (List.filter (fun j => negb (String.eqb j i)) (_default_impus m)).

Definition is_empty (m : ImpiMapping) : bool :=
  match _default_impus m with [] => true | _ => false end.

Definition set_expiry (m : ImpiMapping) (e : Z) : ImpiMapping :=
  mkImpiMapping (impi m) (mapping_cas m) e (_default_impus m).

(** ** JSON keys and limits *)

Definition JSON_EXPIRY : string := "expiry".
Definition JSON_DEFAULT_IMPU : string := "default_impu".
Definition JSON_ASSOCIATED_IMPUS : string := "assoc_impu".
Definition JSON_SERVICE_PROFILE : string := "service_profile".
Definition JSON_REGISTRATION_STATE : string := "registration_state".
Definition JSON_IMPIS : string := "impis".
Definition JSON_CCFS : string := "ccfs".
Definition JSON_ECFS : string := "ecfs".
Definition JSON_DEFAULT_IMPUS : string := "default_impus".
Definition MAX_BUFFER_LEN : Z := 131072.

(** A double quote, which the dictionary's literal escapes. *)
Definition dq : string := String "034" "".

Definition _dict_v0 : string :=
  "{" +:+ dq +:+ "registration_state" +:+ dq +:+ ":true," +:+
  dq +:+ "service_profile" +:+ dq +:+ ":" +:+ dq +:+ "<IMSSubscription>" +:+
  "<PrivateID></PrivateID><ServiceProfile><PublicIdentity><Identity>" +:+
  "<Extension></Extension></PublicIdentity><IniitialFilterCriteria><Priority>" +:+
  "</Priority><TriggerPoint><ConditionTypeCNF></ConditionTypeCNF><SPT>" +:+
  "<ConditionNegated></ConditionNegated><Group></Group><Method></Method>" +:+
  "</TriggerPoint><ApplicationServer><ServerName></ServerName><DefaultHandling>" +:+
  "</DefaultHandling></ApplicationServer></InitialFilterCriteria>" +:+
  "</ServiceProfile></IMSSubscription><SIPHeader><Header></Header></SIPHeader>" +:+
  "<SessionCase></SessionCase>" +:+ dq +:+ "," +:+ dq +:+ "expiry" +:+ dq +:+ ":," +:+
  dq +:+ "assoc_impu" +:+ dq +:+ ":[" +:+ dq +:+ "]," +:+ dq +:+ "impis" +:+ dq +:+ ":[]," +:+
  dq +:+ "ecfs" +:+ dq +:+ ":[]," +:+ dq +:+ "ccfs" +:+ dq +:+ ":[]}" +:+
  dq +:+ "default_impu" +:+ dq +:+ ":" +:+ dq.

(** ** Encoding *)

Section codec.
Context `{JsonLib} `{Lz4}.

(** [DefaultImpu::write_json] *)
Definition write_default_json (b : ImpuBase) (d : DefaultData) : list (string * json) :=
  let state :=
    match registration_state d with
    | RegistrationState.REGISTERED => true
    | RegistrationState.UNREGISTERED => false
    | _ => false
    end in
  [ (JSON_REGISTRATION_STATE, JBool state);
    str_member JSON_SERVICE_PROFILE (service_profile d);
    (JSON_EXPIRY, JInt (expiry b));
    write_json_string_array JSON_ASSOCIATED_IMPUS (associated_impus d);
    write_json_string_array JSON_IMPIS (impis d);
    write_json_string_array JSON_ECFS (ecfs (charging_addresses d));
    write_json_string_array JSON_CCFS (ccfs (charging_addresses d)) ].

(** [AssociatedImpu::write_json] *)
Definition write_associated_json (b : ImpuBase) (default_impu : string)
    : list (string * json) :=
  [ str_member JSON_DEFAULT_IMPU default_impu; (JSON_EXPIRY, JInt (expiry b)) ].

Definition write_json (i : Impu) : list (string * json) :=
  match i with
  | DefaultImpu b d => write_default_json b d
  | AssociatedImpu b a => write_associated_json b a
  end.

(** The loop of [compress_data_v0]: the buffer is doubled while the
    compressed data does not fit.  [None] is a loop that still runs. *)
Fixpoint compress_loop (fuel : nat) (data : string) (buffer_length : Z)
    : option (Z * string) :=
  match fuel with
  | O => None
  | S n =>
      let '(comp_size, buffer) := lz4_compress _dict_v0 data buffer_length in
      if comp_size <=? 0 then
        let new_buffer_length := to_int32 (buffer_length * 2) in
        if MAX_BUFFER_LEN <? new_buffer_length then Some (comp_size, buffer)
        else if comp_size =? 0 then compress_loop n data new_buffer_length
        else Some (comp_size, buffer)
      else Some (comp_size, buffer)
  end.

(** From 2 KB to 128 KB in powers of two: seven attempts. *)
Definition compress_data_v0 (data : string) : option (Z * string) :=
  compress_loop 7 data 2048.

(** [Impu::to_data], appending to [data].  A negative size reaches
    [std::string::append] as a length beyond [max_size()]. *)
Definition to_data {W} (i : Impu) (data : string) : IO W (Store.Status * string) :=
  let json := c_str (serialize (JObj (write_json i))) in
  let uncomp_size := to_uint32 (Z.of_nat (String.length json)) in
  match compress_data_v0 json with
  | None => fun _ => OutOfFuel
  | Some (comp_size, buffer) =>
      if comp_size =? 0 then ret (Store.ERROR, data)
      else if comp_size <? 0 then throw
      else
        let data := data +:+ String zero "" in
        match encode_varbyte uncomp_size data with
        | None => fun _ => OutOfFuel
        | Some data =>
            ret (Store.OK, data +:+ String.substring 0 (Z.to_nat comp_size) buffer)
        end
  end.

(** [AssociatedImpu::from_json] *)
Definition associated_from_json (i : string) (j : json) (c : Z) (s : nat) : Impu :=
  let default_impu := safe_get_string_member j JSON_DEFAULT_IMPU "" in
  let e := safe_get_int_64_member j JSON_EXPIRY 0 in
  AssociatedImpu (mkImpuBase i c e (Some s)) default_impu.

(** [DefaultImpu::from_json]; the registration state is mandatory. *)
Definition default_from_json {W} (i : string) (j : json) (c : Z) (s : nat) : IO W Impu :=
  match get_bool_member j JSON_REGISTRATION_STATE with
  | None => throw
  | Some state =>
      let reg_state := if state then RegistrationState.REGISTERED
                       else RegistrationState.UNREGISTERED in
      let e := safe_get_int_64_member j JSON_EXPIRY 0 in
      let profile := safe_get_string_member j JSON_SERVICE_PROFILE "" in
      let assoc := extract_json_string_array j JSON_ASSOCIATED_IMPUS in
      let ids := extract_json_string_array j JSON_IMPIS in
      let cs := extract_json_string_array j JSON_CCFS in
      let es := extract_json_string_array j JSON_ECFS in
      ret (DefaultImpu (mkImpuBase i c e (Some s))
             (mkDefaultData reg_state (mkChargingAddresses cs es) assoc ids profile))
  end.

(** [Impu::from_data]; [None] is the null pointer. *)
Definition from_data {W} (i : string) (data : string) (c : Z) (s : nat)
    : IO W (option Impu) :=
  match data with
  | EmptyString => ret None
  | String v _ =>
      if Ascii.eqb v zero then
        match decode_varbyte data 1 with
        | UndefinedShift => undefined
        | StillLooping => fun _ => OutOfFuel
        | Length length_long offset =>
            if length_long =? 0 then ret None
            else
              let length := to_int32 length_long in
              let compressed :=
                String.substring offset (String.length data - offset) data in
              let '(rc, buffer) := lz4_decompress _dict_v0 compressed length in
              if (rc =? 0) || negb (rc =? length) then ret None
              else match parse_json (c_str buffer) with
                   | None => ret None
                   | Some doc =>
                       if negb (is_object doc) then ret None
                       else if has_member doc JSON_DEFAULT_IMPU
                       then ret (Some (associated_from_json i doc c s))
                       else o <- default_from_json i doc c s ;; ret (Some o)
                   end
        end
      else ret None
  end.

(** [ImpiMapping::write_json], [from_json], [to_data] and [from_data] *)
Definition mapping_write_json (m : ImpiMapping) : list (string * json) :=
  [ write_json_string_array JSON_DEFAULT_IMPUS (_default_impus m);
    (JSON_EXPIRY, JInt (_expiry m)) ].

Definition mapping_from_json (i : string) (j : json) (c : Z) : ImpiMapping :=
  mkImpiMapping i c (safe_get_int_64_member j JSON_EXPIRY 0)
    (extract_json_string_array j JSON_DEFAULT_IMPUS).

Definition mapping_to_data (m : ImpiMapping) : Store.Status * string :=
  (Store.OK, c_str (serialize (JObj (mapping_write_json m)))).

Definition mapping_from_data (i data : string) (c : Z) : option ImpiMapping :=
  match parse_json (c_str data) with
  | None => None
  | Some doc => if negb (is_object doc) then None else Some (mapping_from_json i doc c)
  end.
End codec.

(** ** Operations on a store *)

(** What the cache calls; a store is named by its position. *)
Class ImpuStoreOps (W : Type) := {
  get_impu : nat -> string -> IO W (Store.Status * option Impu);
  set_impu : nat -> Impu -> IO W Store.Status;
  set_impu_without_cas : nat -> Impu -> IO W Store.Status;
  add_impu : nat -> Impu -> IO W Store.Status;
  delete_impu : nat -> Impu -> IO W Store.Status;
  get_impi_mapping : nat -> string -> IO W (Store.Status * option ImpiMapping);
  set_impi_mapping : nat -> ImpiMapping -> IO W Store.Status;
  delete_impi_mapping : nat -> ImpiMapping -> IO W Store.Status;
  store_time : W -> Z
}.

Definition IMPU_TABLE : string := "impu".
Definition IMPI_TABLE : string := "impi_mapping".

Section operations.
Context {W : Type} `{StoreOps W} `{JsonLib} `{Lz4}.

(** [int now = time(0);] *)
Definition now32 : IO W Z := fun w => Done (to_int32 (time0 w)) w.

(** [out_impu] is set only on success ([None]: left alone). *)
Definition store_get_impu (s : nat) (i : string) : IO W (Store.Status * option Impu) :=
  let* (status, data, c) := get_data s IMPU_TABLE i in
  if status_eqb status Store.OK then
    temp_impu <- from_data i data c s ;;
    match temp_impu with
    | None => ret (Store.ERROR, None)
    | Some t => ret (status, Some t)
    end
  else ret (status, None).

Definition store_set_impu_without_cas (s : nat) (i : Impu) : IO W Store.Status :=
  let* (status, data) := to_data i "" in
  if status_eqb status Store.OK then
    now <- now32 ;;
    set_data_without_cas s IMPU_TABLE (impu (impu_base i)) data (expiry (impu_base i) - now)
  else ret status.

Definition store_add_impu (s : nat) (i : Impu) : IO W Store.Status :=
  let* (status, data) := to_data i "" in
  if status_eqb status Store.OK then
    now <- now32 ;;
    set_data s IMPU_TABLE (impu (impu_base i)) data 0 (expiry (impu_base i) - now)
  else ret status.

Definition store_set_impu (s : nat) (i : Impu) : IO W Store.Status :=
  let* (status, data) := to_data i "" in
  if status_eqb status Store.OK then
    now <- now32 ;;
    set_data s IMPU_TABLE (impu (impu_base i)) data (cas (impu_base i))
      (expiry (impu_base i) - now)
  else ret status.

Definition store_delete_impu (s : nat) (i : Impu) : IO W Store.Status :=
  delete_data s IMPU_TABLE (impu (impu_base i)).

Definition store_get_impi_mapping (s : nat) (i : string)
    : IO W (Store.Status * option ImpiMapping) :=
  let* (status, data, c) := get_data s IMPI_TABLE i in
  if status_eqb status Store.OK then
    match mapping_from_data i data c with
    | None => ret (Store.ERROR, None)
    | Some m => ret (status, Some m)
    end
  else ret (status, None).

Definition store_set_impi_mapping (s : nat) (m : ImpiMapping) : IO W Store.Status :=
  let '(status, data) := mapping_to_data m in
  if status_eqb status Store.OK then
    now <- now32 ;;
    set_data s IMPI_TABLE (impi m) data (mapping_cas m) (_expiry m - now)
  else ret status.

Definition store_delete_impi_mapping (s : nat) (m : ImpiMapping) : IO W Store.Status :=
  delete_data s IMPI_TABLE (impi m).

#[export] Instance impu_store_ops : ImpuStoreOps W := {|
  get_impu := store_get_impu;
  set_impu := store_set_impu;
  set_impu_without_cas := store_set_impu_without_cas;
  add_impu := store_add_impu;
  delete_impu := store_delete_impu;
  get_impi_mapping := store_get_impi_mapping;
  set_impi_mapping := store_set_impi_mapping;
  delete_impi_mapping := store_delete_impi_mapping;
  store_time := time0
|}.
End operations.

(** ** The encoding loses nothing *)

(** Every string that goes through the JSON writer is a C string. *)
Definition impu_clean (i : Impu) : bool :=
  match i with
  | DefaultImpu _ d =>
      no_nul (service_profile d) && forallb no_nul (associated_impus d) &&
      forallb no_nul (impis d) && forallb no_nul (ecfs (charging_addresses d)) &&
      forallb no_nul (ccfs (charging_addresses d))
  | AssociatedImpu _ a => no_nul a
  end.

Definition int64_range (z : Z) : Prop := - 2 ^ 63 <= z < 2 ^ 63.

(** The stored form keeps one bit of the registration state. *)
Definition stored_state (r : RegistrationState.t) : RegistrationState.t :=
  match r with
  | RegistrationState.REGISTERED => RegistrationState.REGISTERED
  | _ => RegistrationState.UNREGISTERED
  end.

(** What reading a stored record back from store [s] under CAS [c] gives. *)
Definition restored (i : Impu) (c : Z) (s : nat) : Impu :=
  match i with
  | DefaultImpu b d =>
      DefaultImpu (mkImpuBase (impu b) c (expiry b) (Some s))
        (mkDefaultData (stored_state (registration_state d)) (charging_addresses d)
           (associated_impus d) (impis d) (service_profile d))
  | AssociatedImpu b a => AssociatedImpu (mkImpuBase (impu b) c (expiry b) (Some s)) a
  end.

Lemma substring_all s : String.substring 0 (String.length s) s = s.
Proof. induction s as [|a s IH]; simpl; [done|]. by rewrite IH. Qed.

Lemma substring_app (a b : string) :
  String.substring (String.length a) (String.length (a +:+ b) - String.length a) (a +:+ b) = b.
Proof.
  rewrite length_app_str. replace (_ - _)%nat with (String.length b) by lia.
  induction a as [|x a IH]; [apply substring_all|exact IH].
Qed.

Section encoding.
Context `{LawfulJson} `{LawfulLz4}.

(** The caps [compress_data_v0] tries. *)
Definition buffer_sizes : list Z := [2048; 4096; 8192; 16384; 32768; 65536; 131072].

Lemma compress_loop_from f d len n out :
  compress_loop f d len = Some (n, out) -> exists cap, lz4_compress _dict_v0 d cap = (n, out).
Proof.
  revert len. induction f as [|f IH]; intros len; cbn [compress_loop]; [done|].
  destruct (lz4_compress _dict_v0 d len) as [m b] eqn:E.
  destruct (m <=? 0); [|intros [= -> ->]; eauto].
  destruct (MAX_BUFFER_LEN <? _); [intros [= -> ->]; eauto|].
  destruct (m =? 0); [eauto|intros [= -> ->]; eauto].
Qed.

(** One attempt of a lawful LZ4. *)
Lemma compress_loop_step f d len :
  0 <= len ->
  compress_loop (S f) d len =
  (let '(n, out) := lz4_compress _dict_v0 d len in
   if n =? 0 then
     if MAX_BUFFER_LEN <? to_int32 (len * 2) then Some (0, out)
     else compress_loop f d (to_int32 (len * 2))
   else Some (n, out)).
Proof.
  intros Hlen. cbn [compress_loop]. destruct (lz4_compress _dict_v0 d len) as [n out] eqn:E.
  apply lz4_size in E as [Hn _].
  destruct (Z.leb_spec n 0), (Z.eqb_spec n 0); subst; (done || lia).
Qed.

Fixpoint doubling (l : list Z) : bool :=
  match l with
  | [] => false
  | c :: t =>
      (0 <=? c) &&
      match t with
      | [] => MAX_BUFFER_LEN <? to_int32 (c * 2)
      | c' :: _ => (to_int32 (c * 2) =? c') && negb (MAX_BUFFER_LEN <? c') && doubling t
      end
  end.

Lemma compress_loop_total d c l :
  doubling (c :: l) = true ->
  exists n out, compress_loop (length (c :: l)) d c = Some (n, out) /\ 0 <= n /\
    (n = 0 <-> Forall (fun cap => fst (lz4_compress _dict_v0 d cap) = 0) (c :: l)).
Proof.
  revert c. induction l as [|c' l IH]; intros c; cbn [doubling length];
    intros [Hc Hd]%andb_prop; apply Z.leb_le in Hc; rewrite compress_loop_step by done;
    destruct (lz4_compress _dict_v0 d c) as [n out] eqn:E;
    pose proof (lz4_size _ _ _ _ _ E) as [Hn _].
  - rewrite Hd. exists n, out. destruct (Z.eqb_spec n 0) as [->|]; (split; [done|split; [lia|]]);
      rewrite list.Forall_singleton, E; done.
  - apply andb_prop in Hd as [[->%Z.eqb_eq ->%negb_true_iff]%andb_prop Hd].
    destruct (Z.eqb_spec n 0) as [->|].
    + destruct (IH c' Hd) as (n & out' & Hl & Hn' & Hz). exists n, out'.
      split; [exact Hl|]. split; [done|]. rewrite list.Forall_cons, E, Hz. by split; [|intros [_ ?]].
    + exists n, out. split; [done|]. split; [lia|]. rewrite list.Forall_cons, E. by split; [|intros [? _]].
Qed.

Lemma compress_data_v0_total d :
  exists n out, compress_data_v0 d = Some (n, out) /\ 0 <= n /\
    (n = 0 <-> Forall (fun cap => fst (lz4_compress _dict_v0 d cap) = 0) buffer_sizes).
Proof. by apply (compress_loop_total d 2048 [4096; 8192; 16384; 32768; 65536; 131072]). Qed.

Lemma compress_data_v0_inverse d n out :
  compress_data_v0 d = Some (n, out) -> 0 < n ->
  Z.of_nat (String.length out) = n /\
  lz4_decompress _dict_v0 out (Z.of_nat (String.length d)) = (Z.of_nat (String.length d), d).
Proof.
  intros (cap & E)%compress_loop_from Hn. split.
  - by apply (proj2 (lz4_size _ _ _ _ _ E)).
  - by eapply lz4_roundtrip.
Qed.

(** *** The JSON of a record *)
Definition json_bytes (i : Impu) : string := c_str (serialize (JObj (write_json i))).

Lemma write_json_clean i : impu_clean i = true -> json_clean (JObj (write_json i)) = true.
Proof.
  destruct i as [b d|b a]; simpl.
  - intros Hc. repeat (apply andb_prop in Hc as [Hc ?]).
    rewrite !write_array_law by done. simpl. rewrite c_str_no_nul.
    repeat (apply andb_true_intro; split; try done); by apply forallb_forall; intros ? (? & <- & ?)%in_map_iff; simpl;
      match goal with Hf : forallb no_nul ?l = true, Hi : In _ ?l |- _ => apply (proj1 (forallb_forall _ _) Hf _ Hi) end.
  - intros. by rewrite c_str_no_nul.
Qed.

Lemma json_bytes_eq i :
  impu_clean i = true -> json_bytes i = serialize (JObj (write_json i)).
Proof. intros Hc. apply c_str_id, serialize_no_nul, write_json_clean, Hc. Qed.

(** Reading the JSON of a record back. *)
Lemma from_json_write_json {W} i c s (w : W) :
  impu_clean i = true -> int64_range (expiry (impu_base i)) ->
  (let doc := JObj (write_json i) in
   if has_member doc JSON_DEFAULT_IMPU
   then ret (Some (associated_from_json (impu (impu_base i)) doc c s))
   else o <- default_from_json (impu (impu_base i)) doc c s ;; ret (Some o)) w =
  Done (Some (restored i c s)) w.
Proof.
  intros Hc Hx. destruct i as [b d|b a]; simpl in Hc, Hx; cbv zeta.
  - repeat (apply andb_prop in Hc as [Hc ?]).
    cbn [write_json impu_base]. unfold write_default_json. rewrite !write_array_law by done.
    unfold default_from_json.
    rewrite (get_bool_law _ _ (match registration_state d with
                               | RegistrationState.REGISTERED => true | _ => false end))
      by (by destruct (registration_state d)).
    rewrite (safe_get_int_64_law _ _ _ (expiry b)) by done.
    rewrite (safe_get_string_law _ _ _ (service_profile d)) by (simpl; by rewrite c_str_id).
    rewrite (extract_array_law _ JSON_ASSOCIATED_IMPUS (associated_impus d)) by done.
    rewrite (extract_array_law _ JSON_IMPIS (impis d)) by done.
    rewrite (extract_array_law _ JSON_ECFS (ecfs (charging_addresses d))) by done.
    rewrite (extract_array_law _ JSON_CCFS (ccfs (charging_addresses d))) by done.
    destruct d as [[] [] ? ? ?]; done.
  - cbn [write_json impu_base]. unfold write_associated_json, associated_from_json.
    rewrite (safe_get_string_law _ _ _ a) by (simpl; by rewrite c_str_id).
    by rewrite (safe_get_int_64_law _ _ _ (expiry b)).
Qed.
End encoding.

(** A record the store can hold: its strings are C strings, its JSON is
    shorter than [INT_MAX] and compresses into 128 KB. *)
Definition storable `{JsonLib} `{Lz4} (i : Impu) : Prop :=
  impu_clean i = true /\ int64_range (expiry (impu_base i)) /\
  Z.of_nat (String.length (json_bytes i)) < INT_MAX /\
  exists n out, compress_data_v0 (json_bytes i) = Some (n, out) /\ 0 < n.

Section roundtrip.
Context `{LawfulJson} `{LawfulLz4}.

Lemma to_data_form {W} i (w : W) n out :
  compress_data_v0 (json_bytes i) = Some (n, out) -> 0 < n ->
  exists enc,
    encode_varbyte (to_uint32 (Z.of_nat (String.length (json_bytes i)))) (String zero "") =
      Some (String zero "" +:+ enc) /\
    to_data i "" w = Done (Store.OK, (String zero "" +:+ enc) +:+ out) w.
Proof.
  intros Hc Hn. pose proof (compress_data_v0_inverse _ _ _ Hc Hn) as [Hl _].
  pose proof (Z.mod_pos_bound (Z.of_nat (String.length (json_bytes i))) (2 ^ 32) ltac:(lia)).
  destruct (encode_varbyte_total (to_uint32 (Z.of_nat (String.length (json_bytes i))))
              (String zero "")) as (d & Hd & enc & -> & _); [unfold to_uint32; lia|].
  exists enc. split; [done|]. unfold to_data. fold (json_bytes i). rewrite Hc.
  rewrite (proj2 (Z.eqb_neq n 0)), (proj2 (Z.ltb_ge n 0)) by lia.
  change ("" +:+ String zero "") with (String zero "").
  unfold encode_varbyte. rewrite Hd. rewrite <- Hl, Nat2Z.id, substring_all. done.
Qed.

Lemma stored_restored i :
  storable i ->
  exists data, data <> ""%string /\
    (forall W (w : W), to_data i "" w = Done (Store.OK, data) w) /\
    (forall W (w : W) c s,
       from_data (impu (impu_base i)) data c s w = Done (Some (restored i c s)) w).
Proof.
  intros (Hclean & Hx & Hlen & n & out & Hc & Hn).
  pose proof (compress_data_v0_inverse _ _ _ Hc Hn) as [Hl Hr].
  assert (Hpos : 0 < Z.of_nat (String.length (json_bytes i)) < INT_MAX).
  { split; [|done]. rewrite json_bytes_eq by done.
    pose proof (serialize_nonempty (JObj (write_json i))) as Hne.
    destruct (serialize _); [done|]. simpl. lia. }
  destruct (decode_encode_varbyte _ (String zero "") out Hpos) as (enc & He & Hd).
  assert (Hto : forall W (w : W),
            to_data i "" w = Done (Store.OK, (String zero "" +:+ enc) +:+ out) w).
  { intros W w. destruct (to_data_form i w n out Hc Hn) as (enc' & He' & ->).
    unfold to_uint32 in He'. rewrite Z.mod_small in He' by (unfold INT_MAX in *; lia).
    rewrite He in He'. injection He' as He'. change (enc = enc') in He'. by subst. }
  exists ((String zero "" +:+ enc) +:+ out). split; [done|]. split; [exact Hto|].
  intros W w c s. unfold from_data.
  change (String.length (String zero "")) with 1%nat in Hd. rewrite Hd.
  change ((String zero "" +:+ enc) +:+ out) with (String zero (enc +:+ out)) at 1.
  cbv iota. rewrite Ascii.eqb_refl. change (String zero "" +:+ enc) with (String zero enc).
  rewrite substring_app.
  rewrite (proj2 (Z.eqb_neq _ 0)) by lia.
  rewrite to_int32_id by (unfold int32_range, INT_MAX in *; lia).
  rewrite Hr, (proj2 (Z.eqb_neq _ 0)), Z.eqb_refl by lia. simpl orb. cbv iota.
  assert (parse_json (c_str (json_bytes i)) = Some (JObj (write_json i))) as ->.
  { unfold json_bytes. rewrite c_str_id by apply c_str_no_nul.
    fold (json_bytes i). rewrite json_bytes_eq by done.
    by apply parse_serialize, write_json_clean. }
  simpl is_object. cbv iota. change (negb true) with false. cbv iota.
  pose proof (from_json_write_json i c s w Hclean Hx) as Hj. cbv zeta in Hj.
  by destruct (has_member _ _).
Qed.

Definition mapping_clean (m : ImpiMapping) : Prop :=
  forallb no_nul (_default_impus m) = true /\ int64_range (_expiry m).

Lemma mapping_restored m c :
  mapping_clean m ->
  mapping_from_data (impi m) (snd (mapping_to_data m)) c =
  Some (mkImpiMapping (impi m) c (_expiry m) (_default_impus m)).
Proof.
  intros [Hc Hx]. unfold mapping_from_data, mapping_to_data. simpl snd.
  unfold mapping_write_json. rewrite write_array_law by done.
  set (j := JObj _). assert (Hj : json_clean j = true).
  { simpl. rewrite !andb_true_r. apply forallb_forall. intros ? (s & <- & Hs)%in_map_iff.
    by apply (proj1 (forallb_forall _ _) Hc). }
  rewrite (c_str_id (c_str _)), c_str_id by (by auto using c_str_no_nul, serialize_no_nul).
  rewrite parse_serialize by done. simpl is_object. unfold mapping_from_json.
  rewrite (extract_array_law _ _ (_default_impus m)) by done.
  by rewrite (safe_get_int_64_law _ _ _ (_expiry m)).
Qed.
End roundtrip.

(** ** What the cache may rely on

    The contract of the store operations over stores that are available and
    hold records: each operation's result and its effect on the map from
    store and identity to record. *)

Definition impu_id (i : Impu) : string := impu (impu_base i).

Definition same_key (s : nat) (k : string) (s' : nat) (k' : string) : bool :=
  Nat.eqb s s' && String.eqb k k'.

Class LawfulImpuStore (W : Type) `{ImpuStoreOps W} := {
  sound : W -> Prop;
  stored_impu : W -> nat -> string -> option Impu;
  stored_mapping : W -> nat -> string -> option ImpiMapping;
  can_store : Impu -> Prop;
  can_map : ImpiMapping -> Prop;
  current_cas (w : W) (s : nat) (k : string) : Z :=
    match stored_impu w s k with Some i => cas (impu_base i) | None => 0 end;
  current_mapping_cas (w : W) (s : nat) (k : string) : Z :=
    match stored_mapping w s k with Some m => mapping_cas m | None => 0 end;
  (** the only change from [w] to [w'] is that IMPU [k] of store [s] is [v] *)
  impu_written (w w' : W) (s : nat) (k : string) (v : option Impu) : Prop :=
    sound w' /\ store_time w' = store_time w /\
    (forall s' k', stored_impu w' s' k' = if same_key s k s' k' then v else stored_impu w s' k') /\
    (forall s' k', stored_mapping w' s' k' = stored_mapping w s' k');
  mapping_written (w w' : W) (s : nat) (k : string) (v : option ImpiMapping) : Prop :=
    sound w' /\ store_time w' = store_time w /\
    (forall s' k', stored_impu w' s' k' = stored_impu w s' k') /\
    (forall s' k',
       stored_mapping w' s' k' = if same_key s k s' k' then v else stored_mapping w s' k');
  stored_key : forall w s k i, stored_impu w s k = Some i ->
    impu_id i = k /\ store (impu_base i) = Some s /\ cas (impu_base i) <> 0;
  stored_mapping_key : forall w s k m, stored_mapping w s k = Some m ->
    impi m = k /\ mapping_cas m <> 0;
  (** what is stored has not expired, and a mapping stays storable when
      identities are taken out or added *)
  stored_live : forall w s k i, sound w -> stored_impu w s k = Some i ->
    to_int32 (store_time w) < expiry (impu_base i);
  stored_mapping_live : forall w s k m, sound w -> stored_mapping w s k = Some m ->
    to_int32 (store_time w) < _expiry m /\ can_map m;
  can_map_remove : forall m i, can_map m -> can_map (remove_default_impu m i);
  can_map_add : forall m i e, can_map m -> can_map (new_ImpiMapping (impi m) i e) ->
    can_map (set_expiry m e) /\ can_map (add_default_impu (set_expiry m e) i);
  get_impu_law : forall w s k, sound w ->
    get_impu s k w =
    match stored_impu w s k with
    | Some i => Done (Store.OK, Some i) w
    | None => Done (Store.NOT_FOUND, None) w
    end;
  set_impu_hit : forall w s i, sound w -> can_store i ->
    to_int32 (store_time w) < expiry (impu_base i) ->
    cas (impu_base i) = current_cas w s (impu_id i) ->
    exists w' c, set_impu s i w = Done Store.OK w' /\ c <> cas (impu_base i) /\
      impu_written w w' s (impu_id i) (Some (restored i c s));
  set_impu_miss : forall w s i, sound w -> can_store i ->
    cas (impu_base i) <> current_cas w s (impu_id i) ->
    set_impu s i w = Done Store.DATA_CONTENTION w;
  add_impu_hit : forall w s i, sound w -> can_store i ->
    to_int32 (store_time w) < expiry (impu_base i) ->
    stored_impu w s (impu_id i) = None ->
    exists w' c, add_impu s i w = Done Store.OK w' /\
      impu_written w w' s (impu_id i) (Some (restored i c s));
  add_impu_miss : forall w s i j, sound w -> can_store i ->
    stored_impu w s (impu_id i) = Some j ->
    add_impu s i w = Done Store.DATA_CONTENTION w;
  set_impu_without_cas_stores : forall w s i, sound w -> can_store i ->
    to_int32 (store_time w) < expiry (impu_base i) ->
    exists w' c, set_impu_without_cas s i w = Done Store.OK w' /\
      impu_written w w' s (impu_id i) (Some (restored i c s));
  delete_impu_law : forall w s i, sound w ->
    exists w', delete_impu s i w = Done Store.OK w' /\ impu_written w w' s (impu_id i) None;
  get_mapping_law : forall w s k, sound w ->
    get_impi_mapping s k w =
    match stored_mapping w s k with
    | Some m => Done (Store.OK, Some m) w
    | None => Done (Store.NOT_FOUND, None) w
    end;
  set_mapping_hit : forall w s m, sound w -> can_map m ->
    to_int32 (store_time w) < _expiry m ->
    mapping_cas m = current_mapping_cas w s (impi m) ->
    exists w' c, set_impi_mapping s m w = Done Store.OK w' /\ c <> mapping_cas m /\
      mapping_written w w' s (impi m)
        (Some (mkImpiMapping (impi m) c (_expiry m) (_default_impus m)));
  set_mapping_miss : forall w s m, sound w -> can_map m ->
    mapping_cas m <> current_mapping_cas w s (impi m) ->
    set_impi_mapping s m w = Done Store.DATA_CONTENTION w;
  delete_mapping_law : forall w s m, sound w ->
    exists w', delete_impi_mapping s m w = Done Store.OK w' /\
      mapping_written w w' s (impi m) None
}.

(** A record decoded from a store knows its key, its CAS and its store. *)
Lemma from_data_base `{JsonLib} `{Lz4} {W} k data c s (w w' : W) i :
  from_data k data c s w = Done (Some i) w' -> impu_base i =
  mkImpuBase k c (expiry (impu_base i)) (Some s).
Proof.
  unfold from_data. destruct data as [|v t]; [done|].
  destruct (Ascii.eqb v zero); [|done].
  destruct (decode_varbyte _ 1) as [l off| |]; [|done..].
  destruct (l =? 0); [done|]. destruct (lz4_decompress _ _ _) as [rc b].
  destruct (_ || _); [done|]. destruct (parse_json _) as [doc|]; [|done].
  destruct (negb _); [done|]. destruct (has_member _ _); [by intros [= <- _]|].
  unfold default_from_json. destruct (get_bool_member _ _); [|done]. by intros [= <- _].
Qed.

Section lawful_impu_store.
Context {W : Type} `{LawfulStore W} `{LawfulJson} `{LawfulLz4}.

Definition view_impu (w : W) (s : nat) (k : string) : option Impu :=
  match entry w s IMPU_TABLE k with
  | Some (d, c) => match from_data k d c s w with Done (Some i) _ => Some i | _ => None end
  | None => None
  end.

Definition view_mapping (w : W) (s : nat) (k : string) : option ImpiMapping :=
  match entry w s IMPI_TABLE k with
  | Some (d, c) => mapping_from_data k d c
  | None => None
  end.

(** Everything stored decodes, and has not expired. *)
Definition decodable (w : W) : Prop :=
  (forall s k d c, entry w s IMPU_TABLE k = Some (d, c) ->
     exists i, (forall w' : W, from_data k d c s w' = Done (Some i) w') /\
       to_int32 (time0 w) < expiry (impu_base i)) /\
  (forall s k d c, entry w s IMPI_TABLE k = Some (d, c) ->
     exists m, mapping_from_data k d c = Some m /\ mapping_clean m /\
       to_int32 (time0 w) < _expiry m).

Lemma view_impu_entry w s k i :
  view_impu w s k = Some i ->
  exists d, entry w s IMPU_TABLE k = Some (d, cas (impu_base i)) /\
    impu_id i = k /\ store (impu_base i) = Some s.
Proof.
  unfold view_impu. destruct (entry w s IMPU_TABLE k) as [[d c]|] eqn:E; [|done].
  destruct (from_data k d c s w) as [[j|]| | |] eqn:F; try done. intros [= ->].
  apply from_data_base in F. unfold impu_id. rewrite F. simpl. eauto.
Qed.

Lemma view_impu_none w s k : decodable w -> view_impu w s k = None -> entry w s IMPU_TABLE k = None.
Proof.
  intros [Hd _]. unfold view_impu. destruct (entry w s IMPU_TABLE k) as [[d c]|] eqn:E; [|done].
  destruct (Hd _ _ _ _ E) as (i & Hi & _). by rewrite Hi.
Qed.

Lemma view_impu_cas w s k :
  decodable w ->
  match entry w s IMPU_TABLE k with Some (_, c) => c | None => 0 end =
  match view_impu w s k with Some i => cas (impu_base i) | None => 0 end.
Proof.
  intros Hd. destruct (view_impu w s k) as [i|] eqn:E.
  - by destruct (view_impu_entry _ _ _ _ E) as (d & -> & _).
  - by rewrite (view_impu_none _ _ _ Hd E).
Qed.

Lemma view_mapping_cas w s k :
  decodable w ->
  match entry w s IMPI_TABLE k with Some (_, c) => c | None => 0 end =
  match view_mapping w s k with Some m => mapping_cas m | None => 0 end.
Proof.
  intros [_ Hd]. unfold view_mapping. destruct (entry w s IMPI_TABLE k) as [[d c]|] eqn:E; [|done].
  destruct (Hd _ _ _ _ E) as (m & Hm & _). rewrite Hm. unfold mapping_from_data in Hm.
  destruct (parse_json _); [|done]. destruct (negb _); [done|]. by injection Hm as <-.
Qed.

(** The effect of changing one entry of one table on the two views. *)
Lemma entry_changed_impu w w' s k e v :
  decodable w -> time0 w' = time0 w ->
  entry w' s IMPU_TABLE k = e ->
  match e with
  | Some (d, c) =>
      exists i, v = Some i /\ (forall w : W, from_data k d c s w = Done (Some i) w) /\
        to_int32 (time0 w) < expiry (impu_base i)
  | None => v = None
  end ->
  (forall s' t' k', (s', t', k') <> (s, IMPU_TABLE, k) -> entry w' s' t' k' = entry w s' t' k') ->
  decodable w' /\ time0 w' = time0 w /\
  (forall s' k', view_impu w' s' k' = if same_key s k s' k' then v else view_impu w s' k') /\
  (forall s' k', view_mapping w' s' k' = view_mapping w s' k').
Proof.
  intros [Hd Hm] Ht He Hv Hf.
  assert (Hview : forall s' k', (s', k') <> (s, k) ->
            entry w' s' IMPU_TABLE k' = entry w s' IMPU_TABLE k').
  { intros s' k' Hne. apply Hf. congruence. }
  assert (Hmap : forall s' k', entry w' s' IMPI_TABLE k' = entry w s' IMPI_TABLE k').
  { intros. by apply Hf. }
  split; [split|split; [done|split]].
  - intros s' k' d c. destruct (decide ((s', k') = (s, k))) as [[= -> ->]|Hne].
    + rewrite He, Ht. intros ->. destruct Hv as (i & _ & Hi). eauto.
    + rewrite Hview, Ht by done. apply Hd.
  - intros s' k' d c. rewrite Hmap, Ht. apply Hm.
  - intros s' k'. unfold same_key, view_impu.
    destruct (Nat.eqb_spec s s') as [<-|]; [destruct (String.eqb_spec k k') as [<-|]|]; simpl.
    + rewrite He. destruct e as [[d c]|]; [|done]. destruct Hv as (i & -> & Hi & _). by rewrite Hi.
    + rewrite Hview by congruence. destruct (entry w s IMPU_TABLE k') as [[d c]|] eqn:E; [|done].
      destruct (Hd _ _ _ _ E) as (i & Hi & _). by rewrite !Hi.
    + rewrite Hview by congruence. destruct (entry w s' IMPU_TABLE k') as [[d c]|] eqn:E; [|done].
      destruct (Hd _ _ _ _ E) as (i & Hi & _). by rewrite !Hi.
  - intros s' k'. unfold view_mapping. by rewrite Hmap.
Qed.

Lemma entry_changed_mapping w w' s k e v :
  decodable w -> time0 w' = time0 w ->
  entry w' s IMPI_TABLE k = e ->
  match e with
  | Some (d, c) =>
      exists m, v = Some m /\ mapping_from_data k d c = Some m /\ mapping_clean m /\
        to_int32 (time0 w) < _expiry m
  | None => v = None
  end ->
  (forall s' t' k', (s', t', k') <> (s, IMPI_TABLE, k) -> entry w' s' t' k' = entry w s' t' k') ->
  decodable w' /\ time0 w' = time0 w /\
  (forall s' k', view_impu w' s' k' = view_impu w s' k') /\
  (forall s' k',
     view_mapping w' s' k' = if same_key s k s' k' then v else view_mapping w s' k').
Proof.
  intros [Hd Hm] Ht He Hv Hf.
  assert (Himpu : forall s' k', entry w' s' IMPU_TABLE k' = entry w s' IMPU_TABLE k').
  { intros. by apply Hf. }
  split; [split|split; [done|split]].
  - intros s' k' d c. rewrite Himpu, Ht. apply Hd.
  - intros s' k' d c. destruct (decide ((s', k') = (s, k))) as [[= -> ->]|Hne].
    + rewrite He, Ht. intros ->. destruct Hv as (m & _ & Hm'). eauto.
    + rewrite Hf, Ht by congruence. apply Hm.
  - intros s' k'. unfold view_impu. rewrite Himpu.
    destruct (entry w s' IMPU_TABLE k') as [[d c]|] eqn:E; [|done].
    destruct (Hd _ _ _ _ E) as (i & Hi & _). by rewrite !Hi.
  - intros s' k'. unfold same_key, view_mapping.
    destruct (Nat.eqb_spec s s') as [<-|]; [destruct (String.eqb_spec k k') as [<-|]|]; simpl.
    + rewrite He. destruct e as [[d c]|]; [|done]. by destruct Hv as (m & -> & -> & _).
    + by rewrite Hf by congruence.
    + by rewrite Hf by congruence.
Qed.

Lemma restored_entry i c s data t :
  (forall W (w : W) c s, from_data (impu_id i) data c s w = Done (Some (restored i c s)) w) ->
  t < expiry (impu_base i) ->
  exists j, Some (restored i c s) = Some j /\
    (forall w : W, from_data (impu_id i) data c s w = Done (Some j) w) /\
    t < expiry (impu_base j).
Proof. intros Hf Ht. eexists. split; [done|]. split; [auto|]. by destruct i. Qed.

(** Every write of a storable record hands its encoding to the store. *)
Lemma with_to_data (i : Impu) (k : string -> Z -> IO W Store.Status) :
  storable i ->
  exists data, data <> ""%string /\
    (forall W (w : W) c s, from_data (impu_id i) data c s w = Done (Some (restored i c s)) w) /\
    forall w : W,
      (let* (status, data) := to_data i "" in
       if status_eqb status Store.OK then now <- now32 ;; k data now else ret status) w =
      k data (to_int32 (time0 w)) w.
Proof.
  intros (data & Hne & Hto & Hfrom)%stored_restored. exists data. split; [done|]. split; [done|].
  intros w. erewrite bind_done by apply Hto. done.
Qed.

#[export] Program Instance lawful_impu_store : LawfulImpuStore W := {|
  sound := decodable;
  stored_impu := view_impu;
  stored_mapping := view_mapping;
  can_store := storable;
  can_map := mapping_clean
|}.
Next Obligation.
  intros w s k i Hi. destruct (view_impu_entry _ _ _ _ Hi) as (d & He & Hk & Hs).
  split; [done|]. split; [done|]. by eapply entry_cas.
Qed.
Next Obligation.
  intros w s k m. unfold view_mapping. destruct (entry w s IMPI_TABLE k) as [[d c]|] eqn:E; [|done].
  unfold mapping_from_data. destruct (parse_json _); [|done]. destruct (negb _); [done|].
  intros [= <-]. split; [done|]. by eapply entry_cas.
Qed.
Next Obligation.
  intros w s k i [Hd _]. unfold view_impu.
  destruct (entry w s IMPU_TABLE k) as [[d c]|] eqn:E; [|done].
  destruct (Hd _ _ _ _ E) as (j & Hj & Hx). rewrite Hj. by intros [= <-].
Qed.
Next Obligation.
  intros w s k m [_ Hd]. unfold view_mapping.
  destruct (entry w s IMPI_TABLE k) as [[d c]|] eqn:E; [|done].
  destruct (Hd _ _ _ _ E) as (j & Hj & Hc & Hx). rewrite Hj. by intros [= <-].
Qed.
Next Obligation.
  intros m i [Hc Hx]. split; [|done]. simpl. apply forallb_forall. intros x [Hin _]%filter_In.
  by apply (proj1 (forallb_forall _ _) Hc).
Qed.
Next Obligation.
  intros m i e [Hc Hx] [Hn He]. simpl in Hn, He. repeat split; simpl; try done; try apply He.
  rewrite forallb_app, Hc. done.
Qed.
Next Obligation.
  intros w s k Hw. simpl. unfold store_get_impu, bind. rewrite get_data_law.
  unfold view_impu. destruct (entry w s IMPU_TABLE k) as [[d c]|] eqn:E; [|done].
  rewrite status_eqb_refl. destruct (proj1 Hw _ _ _ _ E) as (i & Hi & _). by rewrite Hi.
Qed.
Next Obligation.
  intros w s i Hw Hst Hx Hc. simpl. unfold store_set_impu.
  destruct (with_to_data i (fun data now => set_data s IMPU_TABLE (impu (impu_base i)) data
              (cas (impu_base i)) (expiry (impu_base i) - now)) Hst) as (data & _ & Hfrom & ->).
  destruct (set_data_hit w s IMPU_TABLE (impu (impu_base i)) data (cas (impu_base i))
              (expiry (impu_base i) - to_int32 (time0 w))) as (w' & c & -> & He & Hne & Ht & Hf).
  { simpl in Hx. lia. }
  { by rewrite view_impu_cas. }
  exists w', c. split; [done|]. split; [done|].
  apply (entry_changed_impu w w' s _ (Some (data, c))); eauto using restored_entry.
Qed.
Next Obligation.
  intros w s i Hw Hst Hc. simpl. unfold store_set_impu.
  destruct (with_to_data i (fun data now => set_data s IMPU_TABLE (impu (impu_base i)) data
              (cas (impu_base i)) (expiry (impu_base i) - now)) Hst) as (data & _ & Hfrom & ->).
  apply set_data_miss. by rewrite view_impu_cas.
Qed.
Next Obligation.
  intros w s i Hw Hst Hx Hn. simpl. unfold store_add_impu.
  destruct (with_to_data i (fun data now => set_data s IMPU_TABLE (impu (impu_base i)) data
              0 (expiry (impu_base i) - now)) Hst) as (data & _ & Hfrom & ->).
  destruct (set_data_hit w s IMPU_TABLE (impu (impu_base i)) data 0
              (expiry (impu_base i) - to_int32 (time0 w))) as (w' & c & -> & He & _ & Ht & Hf).
  { simpl in Hx. lia. }
  { rewrite view_impu_cas by done. unfold impu_id in Hn. by rewrite Hn. }
  exists w', c. split; [done|].
  apply (entry_changed_impu w w' s _ (Some (data, c))); eauto using restored_entry.
Qed.
Next Obligation.
  intros w s i j Hw Hst Hj. simpl. unfold store_add_impu.
  destruct (with_to_data i (fun data now => set_data s IMPU_TABLE (impu (impu_base i)) data
              0 (expiry (impu_base i) - now)) Hst) as (data & _ & Hfrom & ->).
  apply set_data_miss. rewrite view_impu_cas by done. unfold impu_id in Hj. rewrite Hj.
  destruct (view_impu_entry _ _ _ _ Hj) as (d & He & _). intros Hz.
  by apply (entry_cas _ _ _ _ _ _ He).
Qed.
Next Obligation.
  intros w s i Hw Hst Hx. simpl. unfold store_set_impu_without_cas.
  destruct (with_to_data i (fun data now => set_data_without_cas s IMPU_TABLE
              (impu (impu_base i)) data (expiry (impu_base i) - now)) Hst)
    as (data & _ & Hfrom & ->).
  destruct (set_data_without_cas_law w s IMPU_TABLE (impu (impu_base i)) data
              (expiry (impu_base i) - to_int32 (time0 w))) as (w' & c & -> & He & Ht & Hf).
  { simpl in Hx. lia. }
  exists w', c. split; [done|].
  apply (entry_changed_impu w w' s _ (Some (data, c))); eauto using restored_entry.
Qed.
Next Obligation.
  intros w s i Hw. simpl. unfold store_delete_impu.
  destruct (delete_data_law w s IMPU_TABLE (impu (impu_base i))) as (w' & -> & He & Ht & Hf).
  exists w'. split; [done|]. by apply (entry_changed_impu w w' s _ None).
Qed.
Next Obligation.
  intros w s k Hw. simpl. unfold store_get_impi_mapping, bind. rewrite get_data_law.
  unfold view_mapping. destruct (entry w s IMPI_TABLE k) as [[d c]|] eqn:E; [|done].
  rewrite status_eqb_refl. by destruct (proj2 Hw _ _ _ _ E) as (m & -> & _).
Qed.
Next Obligation.
  intros w s m Hw Hcm Hx Hc. simpl.
  destruct (set_data_hit w s IMPI_TABLE (impi m) (snd (mapping_to_data m)) (mapping_cas m)
              (_expiry m - to_int32 (time0 w))) as (w' & c & He & Hd & Hne & Ht & Hf).
  { simpl in Hx. lia. }
  { by rewrite view_mapping_cas. }
  exists w', c. split; [exact He|]. split; [done|].
  apply (entry_changed_mapping w w' s _ (Some (snd (mapping_to_data m), c))); try done.
  eexists. split; [done|]. split; [by apply mapping_restored|]. done.
Qed.
Next Obligation.
  intros w s m Hw Hcm Hc. simpl.
  apply (set_data_miss w s IMPI_TABLE (impi m) (snd (mapping_to_data m)) (mapping_cas m)
           (_expiry m - to_int32 (time0 w))). by rewrite view_mapping_cas.
Qed.
Next Obligation.
  intros w s m Hw. simpl. unfold store_delete_impi_mapping.
  destruct (delete_data_law w s IMPI_TABLE (impi m)) as (w' & -> & He & Ht & Hf).
  exists w'. split; [done|]. by apply (entry_changed_mapping w w' s _ None).
Qed.
End lawful_impu_store.

(** ** Properties *)

(** C8: encoding a storable record succeeds without touching the environment,
    and decoding the bytes under any CAS value, for any store, gives the
    record back: same identity and expiry, all identities, charging addresses
    and the profile, with the registration state reduced to registered or
    unregistered. *)
Theorem to_data_from_data `{LawfulJson} `{LawfulLz4} {W} i c s (w : W) :
  storable i ->
  exists data,
    to_data i "" w = Done (Store.OK, data) w /\
    from_data (impu_id i) data c s w = Done (Some (restored i c s)) w.
Proof. intros (data & _ & Hto & Hfrom)%stored_restored. by exists data. Qed.

(** [to_data] always ends, within seven attempts at compressing: it
    returns OK, or ERROR exactly when the JSON fits none of the buffers from 2
    KB to 128 KB. *)
Theorem to_data_outcome `{LawfulJson} `{LawfulLz4} {W} i (w : W) :
  exists status data,
    to_data i "" w = Done (status, data) w /\
    (status = Store.OK \/ status = Store.ERROR) /\
    (status = Store.ERROR <->
     Forall (fun cap => fst (lz4_compress _dict_v0 (json_bytes i) cap) = 0) buffer_sizes).
Proof.
  destruct (compress_data_v0_total (json_bytes i)) as (n & out & Hc & Hn & Hz).
  destruct (Z.eq_dec n 0) as [->|Hne].
  - exists Store.ERROR, ""%string. unfold to_data. fold (json_bytes i). rewrite Hc.
    split; [done|]. split; [by right|]. tauto.
  - destruct (to_data_form i w n out Hc ltac:(lia)) as (enc & _ & E).
    exists Store.OK. eexists. split; [exact E|]. split; [by left|]. rewrite <- Hz. done.
Qed.

(** An IMPI mapping survives its JSON encoding. *)
Theorem mapping_to_data_from_data `{LawfulJson} m c :
  mapping_clean m ->
  fst (mapping_to_data m) = Store.OK /\
  mapping_from_data (impi m) (snd (mapping_to_data m)) c =
  Some (mkImpiMapping (impi m) c (_expiry m) (_default_impus m)).
Proof. intros Hm. split; [done|by apply mapping_restored]. Qed.

Lemma same_key_refl s k : same_key s k s k = true.
Proof. unfold same_key. by rewrite Nat.eqb_refl, String.eqb_refl. Qed.

(** [add_impu] succeeds exactly on an identity the store does not hold,
    and never overwrites a record. *)
Theorem add_impu_only_new `{LawfulImpuStore W} w s i :
  sound w -> can_store i -> to_int32 (store_time w) < expiry (impu_base i) ->
  match stored_impu w s (impu_id i) with
  | None => exists w' c, add_impu s i w = Done Store.OK w' /\
              get_impu s (impu_id i) w' = Done (Store.OK, Some (restored i c s)) w'
  | Some _ => add_impu s i w = Done Store.DATA_CONTENTION w
  end.
Proof.
  intros Hw Hi Hx. destruct (stored_impu w s (impu_id i)) as [j|] eqn:E.
  - by eapply add_impu_miss.
  - destruct (add_impu_hit w s i Hw Hi Hx E) as (w' & c & Hadd & Hw' & _ & Hv & _).
    exists w', c. split; [done|]. by rewrite get_impu_law, Hv, same_key_refl by done.
Qed.

(** [get_impu] hands out a record only with status OK, under the key and
    from the store it was asked for; data it cannot decode is an ERROR. *)
Theorem get_impu_result `{StoreOps W} `{JsonLib} `{Lz4} s k w status out w' :
  get_impu s k w = Done (status, out) w' ->
  (status = Store.OK <-> out <> None) /\
  (forall i, out = Some i -> impu_id i = k /\ store (impu_base i) = Some s) /\
  (forall data c w1, get_data s IMPU_TABLE k w = Done (Store.OK, data, c) w1 ->
     from_data k data c s w1 = Done None w' -> status = Store.ERROR).
Proof.
  simpl. unfold store_get_impu, bind.
  destruct (get_data s IMPU_TABLE k w) as [[[st data] c] w1| | |]; [|done..].
  destruct (status_eqb st Store.OK) eqn:E.
  - apply status_eqb_eq in E as ->.
    destruct (from_data k data c s w1) as [[i|] w2| | |] eqn:F; [| |done..]; intros [= <- <- <-].
    + pose proof (from_data_base _ _ _ _ _ _ _ F) as Hb. unfold impu_id. split; [done|]. split.
      * intros j [= <-]. by rewrite Hb.
      * intros ??? [= <- <- <-] F'. congruence.
    + split; [split; done|]. split; [done|]. intros; done.
  - intros [= <- <- <-]. split; [split; [intros ->; by rewrite status_eqb_refl in E|done]|].
    split; [done|]. intros ??? [= -> _ _]. by rewrite status_eqb_refl in E.
Qed.

(** ** Witnesses *)

Definition sample_impu : Impu :=
  DefaultImpu (mkImpuBase "sip:a@b" 0 1000 None)
    (mkDefaultData RegistrationState.REGISTERED (mkChargingAddresses ["ccf"] [])
       ["sip:c@d"] ["a@b"] "<IMSSubscription/>").

Lemma sample_storable : storable sample_impu.
Proof.
  split; [reflexivity|]. split; [unfold int64_range; simpl; lia|].
  split; [vm_compute; reflexivity|].
  exists (Z.of_nat (String.length (json_bytes sample_impu))), (json_bytes sample_impu).
  split; vm_compute; reflexivity.
Qed.

Lemma empty_sound t : decodable (Mem.empty_at t).
Proof. split; intros s k d c; simpl; by rewrite Mem.lookup_empty_at. Qed.

Lemma to_data_from_data_witness :
  exists data,
    to_data sample_impu "" tt = Done (Store.OK, data) tt /\
    from_data "sip:a@b" data 7 1 tt = Done (Some (restored sample_impu 7 1)) tt.
Proof. apply (to_data_from_data sample_impu 7 1 tt). apply sample_storable. Defined.

Lemma to_data_outcome_witness :
  exists data, to_data sample_impu "" tt = Done (Store.OK, data) tt.
Proof.
  destruct (to_data_outcome sample_impu tt) as (status & data & E & [->|Hs] & Herr).
  - exists data. exact E.
  - apply Herr in Hs. inversion Hs as [|cap caps Hcap]. vm_compute in Hcap. discriminate.
Defined.

Lemma mapping_to_data_from_data_witness :
  fst (mapping_to_data (mkImpiMapping "a@b" 0 1000 ["sip:a@b"])) = Store.OK /\
  mapping_from_data "a@b" (snd (mapping_to_data (mkImpiMapping "a@b" 0 1000 ["sip:a@b"]))) 5 =
  Some (mkImpiMapping "a@b" 5 1000 ["sip:a@b"]).
Proof.
  apply (mapping_to_data_from_data (mkImpiMapping "a@b" 0 1000 ["sip:a@b"]) 5).
  split; [reflexivity|unfold int64_range; simpl; lia].
Defined.

Lemma add_impu_only_new_witness :
  exists (w' : Mem.mem) c, add_impu 0 sample_impu (Mem.empty_at 500) = Done Store.OK w' /\
    get_impu 0 "sip:a@b" w' = Done (Store.OK, Some (restored sample_impu c 0)) w'.
Proof.
  exact (add_impu_only_new (Mem.empty_at 500) 0 sample_impu
           (empty_sound 500) sample_storable eq_refl).
Defined.

Lemma get_impu_result_witness :
  exists st out (w' : Mem.mem), get_impu 0 "sip:a@b" (Mem.empty_at 500) = Done (st, out) w' /\
    (st = Store.OK <-> out <> None).
Proof.
  exists Store.NOT_FOUND, None, (Mem.empty_at 500). split; [reflexivity|].
  apply (get_impu_result 0 "sip:a@b" (Mem.empty_at 500) Store.NOT_FOUND None (Mem.empty_at 500)).
  reflexivity.
Defined.
