(* ===== verification/XmlUtils.v ===== *)
(** * XML documents

    [src/homestead_xml_utils.cpp]: the identities in a user-data document
    (IMSSubscription) and the ClearwaterRegData document sent to Sprout, which
    prints nodes whose strings belong to a document that is destroyed by then. *)

From Stdlib Require Import String Ascii ZArith Lia.
From stdpp Require Import base list strings option.
From S2P Require Import Prelude Types Env.

(** ** Nodes *)

(** The nodes [first_node(name)] and [next_sibling(name)] run through. *)
Definition nodes_named (name : string) (l : list xml) : list xml :=
  List.filter (fun x => String.eqb (xml_name x) name) l.

Definition first_node (l : list xml) (name : string) : option xml :=
  head (nodes_named name l).

(** [doc.allocate_node(node_element, name, value)] *)
Definition allocate_node (name value : string) : xml := Node name value [] [].

Definition append_node (parent child : xml) : xml :=
  let '(Node n v a c) := parent in Node n v a (c ++ [child]).

Definition append_attribute (parent : xml) (name value : string) : xml :=
  let '(Node n v a c) := parent in Node n v (a ++ [(name, value)]) c.

(** The document after [parse] of a C string: nothing after a parse error. *)
Definition parsed_nodes `{XmlLib} (text : string) : list xml :=
  match parse_xml (c_str text) with
  | Some nodes => nodes
  | None => []
  end.

(** What the builder reads of an [ImplicitRegistrationSet]. *)
Record RegSet := mkRegSet {
  get_reg_state : RegistrationState.t;
  get_ims_sub_xml : string;
  get_charging_addresses : ChargingAddresses
}.

Section xml_utils.
Context `{XmlLib} `{RegDataXMLUtils}.

(** ** Identities *)

(** [public_ids] and [unbarred_public_ids] while the loops run. *)
Record ids := mkIds {
  public_ids : list string;
  unbarred_public_ids : list string
}.

(** The body of the loop over PublicIdentity nodes. *)
Definition add_public_identity (pi : xml) (s : ids) : ids :=
  let children := xml_children pi in
  let barring_value :=
    match first_node children BARRING_INDICATION with
    | Some b => xml_value b
    | None => STATE_UNBARRED
    end in
  match first_node children IDENTITY with
  | None => s
  | Some id =>
      let uri :=
        match first_node children EXTENSION with
        | Some extension => parse_extension_identity (xml_value id) extension
        | None => xml_value id
        end in
      if in_vector uri (public_ids s) then s
      else mkIds (public_ids s ++ [uri])
             (if String.eqb barring_value STATE_UNBARRED
              then unbarred_public_ids s ++ [uri] else unbarred_public_ids s)
  end.

(** [get_public_and_default_ids]: the identities, and [default_id], which is
    only assigned when there is an unbarred one. *)
Definition get_public_and_default_ids (user_data default_id : string)
    : list string * string :=
  let s :=
    match first_node (parsed_nodes user_data) IMS_SUBSCRIPTION with
    | None => mkIds [] []
    | Some is_node =>
        fold_left (fun s sp =>
            fold_left (fun s pi => add_public_identity pi s)
              (nodes_named PUBLIC_IDENTITY (xml_children sp)) s)
          (nodes_named SERVICE_PROFILE (xml_children is_node)) (mkIds [] [])
    end in
  (public_ids s,
   match unbarred_public_ids s with
   | [] => default_id
   | d :: _ => d
   end).

Definition get_public_ids (user_data : string) : list string :=
  fst (get_public_and_default_ids user_data "").

Definition get_default_id (user_data default_id : string) : string :=
  snd (get_public_and_default_ids user_data default_id).

Definition get_private_id (user_data : string) : string :=
  let impi :=
    match first_node (parsed_nodes user_data) IMS_SUBSCRIPTION with
    | None => ""
    | Some is_node =>
        match first_node (xml_children is_node) PRIVATE_ID with
        | Some id => xml_value id
        | None => ""
        end
    end%string in
  if String.eqb impi "null" then ""%string else impi.

(** ** ClearwaterRegData *)

Definition add_reg_state_node (state : RegistrationState.t) (root : xml)
    (node_name : string) : xml :=
  let state_string :=
    match state with
    | RegistrationState.REGISTERED => STATE_REGISTERED
    | RegistrationState.UNREGISTERED => STATE_UNREGISTERED
    | _ => STATE_NOT_REGISTERED
    end in
  append_node root (allocate_node node_name (c_str state_string)).

(** The return code, and the new root.  The node is a clone that shares its strings
    with [prev_doc]; [shared] is what these have become when the root is printed. *)
Definition add_ims_subscription_node (shared : xml -> xml) (text : string) (root : xml)
    : HTTPCode * xml :=
  match parse_xml (c_str text) with
  | Some prev_doc =>
      match first_node prev_doc IMS_SUBSCRIPTION with
      | Some n => (HTTP_OK, append_node root (shared n))
      | None => (HTTP_SERVER_ERROR, root)
      end
  | None => (HTTP_SERVER_ERROR, root)
  end.

(** [addrs[i]] as a node with its priority attribute, if there is one. *)
Definition add_function_node (addrs : list string) (i : nat) (name priority : string)
    (cfs : xml) : xml :=
  match nth_error addrs i with
  | Some a =>
      append_node cfs (append_attribute (allocate_node name (c_str a)) CCF_ECF_PRIORITY priority)
  | None => cfs
  end.

Definition add_charging_addr_node (addrs : ChargingAddresses) (root : xml) : xml :=
  let cfs := allocate_node CHARGING_ADDRESSES "" in
  let cfs := add_function_node (ccfs addrs) 0 CCF CCF_PRIORITY_1 cfs in
  let cfs := add_function_node (ccfs addrs) 1 CCF CCF_PRIORITY_2 cfs in
  let cfs := add_function_node (ecfs addrs) 0 ECF ECF_PRIORITY_1 cfs in
  let cfs := add_function_node (ecfs addrs) 1 ECF ECF_PRIORITY_2 cfs in
  append_node root cfs.

(** The return code, and [xml_str], which the document is appended to.  [prev_doc] is
    a variable of the block that adds the subscription, and destroyed at the end of
    it, before the document is printed. *)
Definition build_ClearwaterRegData_xml (irs : RegSet) (xml_str : string)
    (prev_reg_state : RegistrationState.t) : HTTPCode * string :=
  let root := allocate_node CLEARWATER_REG_DATA "" in
  let root := add_reg_state_node (get_reg_state irs) root REGISTRATION_STATE in
  let root :=
    if RegistrationState.eqb prev_reg_state RegistrationState.UNKNOWN then root
    else add_reg_state_node prev_reg_state root PREVIOUS_REGISTRATION_STATE in
  let text := get_ims_sub_xml irs in
  let '(rc, root) :=
    if str_empty text then (HTTP_OK, root)
    else add_ims_subscription_node released text root in
  if http_eqb rc HTTP_SERVER_ERROR then (HTTP_SERVER_ERROR, xml_str)
  else
    let addrs := get_charging_addresses irs in
    let root := if addrs_empty addrs then root else add_charging_addr_node addrs root in
    (HTTP_OK, xml_str +:+ print_xml [root]).
End xml_utils.

(** ** Reference definition of the identities

    The identities of a document in order, each with its barring, and the
    first occurrence of each. *)
Section reference.
Context `{XmlLib} `{RegDataXMLUtils}.

Definition identity_of (pi : xml) : option (string * bool) :=
  let children := xml_children pi in
  match first_node children IDENTITY with
  | None => None
  | Some id =>
      Some (match first_node children EXTENSION with
            | Some e => parse_extension_identity (xml_value id) e
            | None => xml_value id
            end,
            match first_node children BARRING_INDICATION with
            | Some b => negb (String.eqb (xml_value b) STATE_UNBARRED)
            | None => false
            end)
  end.

Definition public_identity_nodes (user_data : string) : list xml :=
  match first_node (parsed_nodes user_data) IMS_SUBSCRIPTION with
  | None => []
  | Some n =>
      concat (map (fun sp => nodes_named PUBLIC_IDENTITY (xml_children sp))
                (nodes_named SERVICE_PROFILE (xml_children n)))
  end.

Definition identities (user_data : string) : list (string * bool) :=
  omap identity_of (public_identity_nodes user_data).

(** The entries whose identity is not in [seen] nor earlier in the list. *)
Fixpoint first_occurrences (seen : list string) (l : list (string * bool))
    : list (string * bool) :=
  match l with
  | [] => []
  | (u, b) :: l' =>
      if in_vector u seen then first_occurrences seen l'
      else (u, b) :: first_occurrences (seen ++ [u]) l'
  end.

Definition unbarred (l : list (string * bool)) : list string :=
  map fst (List.filter (fun e => negb (snd e)) l).

Lemma fold_nested (f : ids -> xml -> ids) (g : xml -> list xml) l s :
  fold_left (fun s x => fold_left f (g x) s) l s = fold_left f (concat (map g l)) s.
Proof.
  revert s. induction l as [|x l IH]; intros s; simpl; [done|]. by rewrite IH, fold_left_app.
Qed.

Lemma add_public_identity_step pi s :
  add_public_identity pi s =
  match identity_of pi with
  | None => s
  | Some (u, b) =>
      if in_vector u (public_ids s) then s
      else mkIds (public_ids s ++ [u])
             (if b then unbarred_public_ids s else unbarred_public_ids s ++ [u])
  end.
Proof.
  unfold add_public_identity, identity_of.
  destruct (first_node (xml_children pi) IDENTITY); [|done].
  destruct (first_node _ BARRING_INDICATION) as [b|].
  - by destruct (String.eqb (xml_value b) STATE_UNBARRED).
  - by rewrite String.eqb_refl.
Qed.

Lemma add_public_identities l s :
  fold_left (fun s pi => add_public_identity pi s) l s =
  (let new := first_occurrences (public_ids s) (omap identity_of l) in
   mkIds (public_ids s ++ map fst new) (unbarred_public_ids s ++ unbarred new)).
Proof.
  revert s. induction l as [|pi l IH]; intros s; simpl.
  { destruct s. unfold unbarred. simpl. by rewrite !app_nil_r. }
  rewrite add_public_identity_step, IH. destruct (identity_of pi) as [[u b]|]; simpl; [|done].
  destruct (in_vector u (public_ids s)) eqn:E; [done|]. cbv zeta. simpl.
  rewrite <- app_assoc. f_equal. unfold unbarred. simpl. by destruct b; simpl; [|rewrite <- app_assoc].
Qed.

Lemma get_ids_reference u d :
  get_public_and_default_ids u d =
  (let new := first_occurrences [] (identities u) in
   (map fst new, match unbarred new with [] => d | e :: _ => e end)).
Proof.
  unfold get_public_and_default_ids, identities, public_identity_nodes.
  destruct (first_node _ _) as [n|]; [|done].
  by rewrite (fold_nested (fun s pi => add_public_identity pi s)), add_public_identities.
Qed.

Lemma first_occurrences_elem seen l k :
  k ∈ map fst (first_occurrences seen l) <-> k ∈ map fst l /\ k ∉ seen.
Proof.
  revert seen. induction l as [|[u b] l IH]; intros seen; simpl.
  { split; [by intros ?%not_elem_of_nil|by intros [?%not_elem_of_nil _]]. }
  destruct (in_vector u seen) eqn:E; simpl.
  - apply in_vector_spec in E. rewrite IH, elem_of_cons.
    split; [tauto|]. intros [[->|?] ?]; tauto.
  - apply in_vector_false in E. rewrite !elem_of_cons, IH, elem_of_app, list_elem_of_singleton.
    destruct (decide (k = u)) as [->|]; tauto.
Qed.

Lemma first_occurrences_nodup seen l : NoDup (map fst (first_occurrences seen l)).
Proof.
  revert seen. induction l as [|[u b] l IH]; intros seen; simpl; [constructor|].
  destruct (in_vector u seen); [done|]. simpl. constructor; [|done].
  rewrite first_occurrences_elem, elem_of_app, list_elem_of_singleton. tauto.
Qed.

Lemma unbarred_incl l k : k ∈ unbarred l -> k ∈ map fst l.
Proof.
  unfold unbarred. rewrite !list_elem_of_In, !in_map_iff.
  intros (e & <- & [? _]%filter_In). eauto.
Qed.

Lemma get_ids_facts u d ids' d' :
  get_public_and_default_ids u d = (ids', d') ->
  NoDup ids' /\ (forall k, k ∈ ids' <-> k ∈ map fst (identities u)) /\ (d' = d \/ d' ∈ ids').
Proof.
  rewrite get_ids_reference. cbv zeta. intros [= <- <-].
  split; [apply first_occurrences_nodup|]. split.
  - intros k. rewrite first_occurrences_elem. split; [by intros [? _]|].
    split; [done|apply not_elem_of_nil].
  - destruct (unbarred _) as [|e l] eqn:E; [by left|]. right.
    apply unbarred_incl. rewrite E. by left.
Qed.

(** ** Properties *)

(** C33: [get_public_and_default_ids] returns the identities of the document in
    order, each once, and as default the first one that is unbarred where it
    first occurs; without an unbarred identity (so for a document that does
    not parse) the caller's default is left alone. *)
Theorem get_public_and_default_ids_correct u d :
  get_public_and_default_ids u d =
    (map fst (first_occurrences [] (identities u)),
     default d (head (unbarred (first_occurrences [] (identities u))))) /\
  NoDup (fst (get_public_and_default_ids u d)) /\
  (forall k, k ∈ fst (get_public_and_default_ids u d) <-> k ∈ map fst (identities u)).
Proof.
  destruct (get_public_and_default_ids u d) as [l d'] eqn:E.
  destruct (get_ids_facts _ _ _ _ E) as (Hn & Hk & _). split; [|done].
  rewrite <- E, get_ids_reference. cbv zeta. by destruct (unbarred _).
Qed.

(** The children of the root the builder should produce. *)
Definition state_node (name : string) (r : RegistrationState.t) : xml :=
  Node name (c_str match r with
                   | RegistrationState.REGISTERED => STATE_REGISTERED
                   | RegistrationState.UNREGISTERED => STATE_UNREGISTERED
                   | _ => STATE_NOT_REGISTERED
                   end) [] [].

Definition function_nodes (name p1 p2 : string) (l : list string) : list xml :=
  zip_with (fun a p => Node name (c_str a) [(CCF_ECF_PRIORITY, p)] []) (firstn 2 l) [p1; p2].

Definition charging_nodes (a : ChargingAddresses) : list xml :=
  if addrs_empty a then []
  else [Node CHARGING_ADDRESSES "" []
          (function_nodes CCF CCF_PRIORITY_1 CCF_PRIORITY_2 (ccfs a) ++
           function_nodes ECF ECF_PRIORITY_1 ECF_PRIORITY_2 (ecfs a))].

(** The IMSSubscription to embed: none for an empty profile, an error for a
    profile without one. *)
Definition embedded_subscription (text : string) : option (list xml) :=
  if str_empty text then Some []
  else match parse_xml (c_str text) with
       | Some nodes => (fun n => [n]) <$> first_node nodes IMS_SUBSCRIPTION
       | None => None
       end.

Lemma charging_root addrs n v a c :
  add_charging_addr_node addrs (Node n v a c) =
  Node n v a (c ++ [Node CHARGING_ADDRESSES "" []
          (function_nodes CCF CCF_PRIORITY_1 CCF_PRIORITY_2 (ccfs addrs) ++
           function_nodes ECF ECF_PRIORITY_1 ECF_PRIORITY_2 (ecfs addrs))]).
Proof.
  unfold add_charging_addr_node, add_function_node, function_nodes.
  by destruct (ccfs addrs) as [|? [|? ?]], (ecfs addrs) as [|? [|? ?]].
Qed.

(** C38: what is printed as the ClearwaterRegData document is, in this order, the
    registration state, the previous state when it is known, what the memory of the
    profile's IMSSubscription has become, if there is a profile, and at most two
    CCFs and two ECFs with their priorities when there are any.  The subscription
    shares its strings with a document that is destroyed before the printing, so
    that it is the profile's own only as long as that memory is not used again
    ([released] leaves the node as it is).  A profile without an IMSSubscription is
    a server error that leaves the output alone. *)
Theorem build_ClearwaterRegData_xml_correct irs xml_str prev :
  build_ClearwaterRegData_xml irs xml_str prev =
  match embedded_subscription (get_ims_sub_xml irs) with
  | None => (HTTP_SERVER_ERROR, xml_str)
  | Some sub =>
      (HTTP_OK, xml_str +:+ print_xml
        [Node CLEARWATER_REG_DATA "" []
           ([state_node REGISTRATION_STATE (get_reg_state irs)] ++
            (if RegistrationState.eqb prev RegistrationState.UNKNOWN then []
             else [state_node PREVIOUS_REGISTRATION_STATE prev]) ++
            map released sub ++ charging_nodes (get_charging_addresses irs))])
  end.
Proof.
  unfold build_ClearwaterRegData_xml, embedded_subscription, charging_nodes, add_reg_state_node.
  cbv zeta. set (root := if RegistrationState.eqb prev _ then _ else _).
  assert (Hroot : exists c, root = Node CLEARWATER_REG_DATA "" [] c /\
    c = [state_node REGISTRATION_STATE (get_reg_state irs)] ++
        (if RegistrationState.eqb prev RegistrationState.UNKNOWN then []
         else [state_node PREVIOUS_REGISTRATION_STATE prev])).
  { subst root. by destruct (RegistrationState.eqb _ _); eexists. }
  destruct Hroot as (c & -> & Hc).
  assert (Hd : forall sub,
    (if addrs_empty (get_charging_addresses irs) then Node CLEARWATER_REG_DATA "" [] (c ++ sub)
     else add_charging_addr_node (get_charging_addresses irs)
            (Node CLEARWATER_REG_DATA "" [] (c ++ sub))) =
    Node CLEARWATER_REG_DATA "" [] (c ++ sub ++ charging_nodes (get_charging_addresses irs))).
  { intros sub. unfold charging_nodes. destruct (addrs_empty _).
    - by rewrite app_nil_r.
    - by rewrite charging_root, <- app_assoc. }
  unfold add_ims_subscription_node. destruct (str_empty _).
  - specialize (Hd []). rewrite app_nil_r in Hd. unfold charging_nodes in Hd. simpl in Hd |- *.
    by rewrite Hd, Hc.
  - destruct (parse_xml _) as [nodes|]; [|done].
    destruct (first_node nodes _) as [n|]; [|done]. specialize (Hd [released n]). unfold charging_nodes in Hd.
    simpl in Hd |- *. by rewrite Hd, Hc.
Qed.
End reference.
