(* ===== verification/Irs.v ===== *)
(** * Implicit registration sets

    [MemcachedImplicitRegistrationSet] of [include/memcached_cache.h] and
    [src/memcached_cache.cpp]: the members, the setters handlers use, the
    tracking of which IMPIs and associated IMPUs were added, kept or deleted,
    and the merge with what a store holds. *)

From Stdlib Require Import String ZArith Lia.
From stdpp Require Import base list strings option.
From S2P Require Import Prelude StdMap Types Env Concrete ImpuStore XmlUtils.
Open Scope Z_scope.

(** ** Tracked identities *)

(** [MemcachedImplicitRegistrationSet::State] *)
Module State.
Inductive t := ADDED | UNCHANGED | DELETED.

#[global] Instance t_eq_dec : EqDecision t.
Proof. solve_decision. Defined.

Definition eqb (a b : t) : bool := bool_decide (a = b).

Lemma state_eqb_eq a b : eqb a b = true <-> a = b.
Proof. unfold eqb. apply bool_decide_eq_true. Qed.
End State.

Abbreviation Data := (std_map State.t).

(** [get_elements_in_state] *)
Definition get_elements_in_state (data : Data) (status : State.t) : list string :=
  map_keys_with (fun s => State.eqb s status) data.

(** [has_changed_data] *)
Definition has_changed_data (data : Data) : bool :=
  existsb (fun e => State.eqb (snd e) State.ADDED || State.eqb (snd e) State.DELETED) data.

(** [get_associated_impis], [get_associated_impus] *)
Definition present (data : Data) : list string :=
  map_keys_with (fun s => State.eqb s State.UNCHANGED || State.eqb s State.ADDED) data.

(** One entry of the second loop of [set_elements]. *)
Definition set_element (ignore : string) (data : Data) (entry : string) : Data :=
  if String.eqb entry ignore then data
  else match map_find data entry with
       | None => map_set data entry State.ADDED
       | Some State.DELETED => map_set data entry State.ADDED
       | Some _ => data
       end.

Definition set_elements (updated : list string) (data : Data) (ignore : string) : Data :=
  let data :=
    map_update (fun k s => if negb (in_vector k updated) then State.DELETED else s) data in
  fold_left (set_element ignore) updated data.

(** One entry of the first loop of [merge_data_sets]. *)
Definition merge_element (data : Data) (key : string) : Data :=
  match map_find data key with
  | None => map_set data key State.UNCHANGED
  | Some _ => data
  end.

Definition merge_data_sets (data : Data) (added : list string) : Data :=
  let data := fold_left merge_element added data in
  map_update (fun k s => if State.eqb s State.UNCHANGED && negb (in_vector k added)
                         then State.DELETED else s) data.

Definition delete_tracked (data : Data) : Data :=
  map_update (fun _ _ => State.DELETED) data.

(** ** The members *)
Record Irs := mkIrs {
  _default_impu : string;
  _store : option nat;
  _cas : Z;
  _ttl : Z;
  _refreshed : bool;
  _existing : bool;
  _impis : Data;
  _associated_impus : Data;
  _ims_sub_xml : string;
  _ims_sub_xml_set : bool;
  _charging_addresses : ChargingAddresses;
  _charging_addresses_set : bool;
  _registration_state : RegistrationState.t;
  _registration_state_set : bool
}.

(** The constructor from a record of a store; [now] is [time(0)]. *)
Definition irs_of_impu (b : ImpuBase) (d : DefaultData) (now : Z) : Irs := {|
  _default_impu := impu b;
  _store := store b;
  _cas := cas b;
  _ttl := to_int32 (expiry b - now);
  _refreshed := false;
  _existing := true;
  _impis := map_set_all [] (impis d) State.UNCHANGED;
  _associated_impus := map_set_all [] (associated_impus d) State.UNCHANGED;
  _ims_sub_xml := service_profile d;
  _ims_sub_xml_set := false;
  _charging_addresses := charging_addresses d;
  _charging_addresses_set := false;
  _registration_state := registration_state d;
  _registration_state_set := false
|}.

(** The default constructor leaves [_ttl] and [_registration_state] with
    indeterminate values, here its arguments. *)
Definition new_irs (ttl0 : Z) (state0 : RegistrationState.t) : Irs := {|
  _default_impu := "";
  _store := None;
  _cas := 0;
  _ttl := ttl0;
  _refreshed := true;
  _existing := false;
  _impis := [];
  _associated_impus := [];
  _ims_sub_xml := "";
  _ims_sub_xml_set := false;
  _charging_addresses := no_addrs;
  _charging_addresses_set := false;
  _registration_state := state0;
  _registration_state_set := false
|}.

Definition with_impis (f : Data -> Data) (i : Irs) : Irs :=
  mkIrs (_default_impu i) (_store i) (_cas i) (_ttl i) (_refreshed i) (_existing i)
    (f (_impis i)) (_associated_impus i) (_ims_sub_xml i) (_ims_sub_xml_set i)
    (_charging_addresses i) (_charging_addresses_set i)
    (_registration_state i) (_registration_state_set i).

Definition with_associated_impus (f : Data -> Data) (i : Irs) : Irs :=
  mkIrs (_default_impu i) (_store i) (_cas i) (_ttl i) (_refreshed i) (_existing i)
    (_impis i) (f (_associated_impus i)) (_ims_sub_xml i) (_ims_sub_xml_set i)
    (_charging_addresses i) (_charging_addresses_set i)
    (_registration_state i) (_registration_state_set i).

Definition with_ttl (ttl : Z) (i : Irs) : Irs :=
  mkIrs (_default_impu i) (_store i) (_cas i) ttl (_refreshed i) (_existing i)
    (_impis i) (_associated_impus i) (_ims_sub_xml i) (_ims_sub_xml_set i)
    (_charging_addresses i) (_charging_addresses_set i)
    (_registration_state i) (_registration_state_set i).

Definition mark_as_refreshed (i : Irs) : Irs :=
  mkIrs (_default_impu i) (_store i) (_cas i) (_ttl i) true (_existing i)
    (_impis i) (_associated_impus i) (_ims_sub_xml i) (_ims_sub_xml_set i)
    (_charging_addresses i) (_charging_addresses_set i)
    (_registration_state i) (_registration_state_set i).

(** ** The setters *)

Definition set_reg_state (s : RegistrationState.t) (i : Irs) : Irs :=
  mkIrs (_default_impu i) (_store i) (_cas i) (_ttl i) (_refreshed i) (_existing i)
    (_impis i) (_associated_impus i) (_ims_sub_xml i) (_ims_sub_xml_set i)
    (_charging_addresses i) (_charging_addresses_set i) s true.

Definition set_charging_addresses (a : ChargingAddresses) (i : Irs) : Irs :=
  mkIrs (_default_impu i) (_store i) (_cas i) (_ttl i) (_refreshed i) (_existing i)
    (_impis i) (_associated_impus i) (_ims_sub_xml i) (_ims_sub_xml_set i)
    a true (_registration_state i) (_registration_state_set i).

Definition set_ttl (ttl : Z) (i : Irs) : Irs := mark_as_refreshed (with_ttl ttl i).

Definition add_associated_impi (impi : string) (i : Irs) : Irs :=
  with_impis (fun d => map_set d impi State.ADDED) i.

Definition delete_associated_impi (impi : string) (i : Irs) : Irs :=
  with_impis (fun d => map_set d impi State.DELETED) i.

Definition delete_assoc_impus (i : Irs) : Irs := with_associated_impus delete_tracked i.
Definition delete_impis (i : Irs) : Irs := with_impis delete_tracked i.

Definition set_ims_sub_xml `{XmlLib} `{RegDataXMLUtils} (text : string) (i : Irs) : Irs :=
  let '(assoc_impus, default_impu) := get_public_and_default_ids text "" in
  mkIrs default_impu (_store i) (_cas i) (_ttl i) (_refreshed i) (_existing i)
    (_impis i) (set_elements assoc_impus (_associated_impus i) default_impu)
    text true (_charging_addresses i) (_charging_addresses_set i)
    (_registration_state i) (_registration_state_set i).

(** ** The getters *)

Definition get_associated_impis (i : Irs) : list string := present (_impis i).
Definition get_associated_impus (i : Irs) : list string := present (_associated_impus i).
Definition impis_in (s : State.t) (i : Irs) : list string := get_elements_in_state (_impis i) s.
Definition impus_in (s : State.t) (i : Irs) : list string :=
  get_elements_in_state (_associated_impus i) s.

Definition has_changed (i : Irs) : bool :=
  negb (_existing i) || _refreshed i || _ims_sub_xml_set i || _charging_addresses_set i ||
  _registration_state_set i || has_changed_data (_associated_impus i) ||
  has_changed_data (_impis i).

(** What [build_ClearwaterRegData_xml] reads. *)
Definition irs_view (i : Irs) : RegSet :=
  mkRegSet (_registration_state i) (_ims_sub_xml i) (_charging_addresses i).

(** ** Records for the store *)

(** [a + b] on [int]s: undefined when it overflows. *)
Definition add_int {W} (a b : Z) : IO W Z :=
  if (- 2 ^ 31 <=? a + b) && (a + b <? 2 ^ 31) then ret (a + b) else undefined.

Section records.
Context {W : Type} `{ImpuStoreOps W}.

(** [time(0)], and its conversion to [int] in [int now = time(0)]. *)
Definition time64 : IO W Z := fun w => Done (store_time w) w.
Definition time_int : IO W Z := fun w => Done (to_int32 (store_time w)) w.

Definition create_impu (i : Irs) (c : Z) (s : option nat) : IO W Impu :=
  now <- time_int ;;
  e <- add_int (_ttl i) now ;;
  ret (DefaultImpu (mkImpuBase (_default_impu i) c e s)
         (mkDefaultData (_registration_state i) (_charging_addresses i)
            (get_associated_impus i) (get_associated_impis i) (_ims_sub_xml i))).

(** [get_impu()]: without any CAS *)
Definition irs_get_impu (i : Irs) : IO W Impu := create_impu i 0 None.

Definition get_impu_from_impu (i : Irs) (with_cas : Impu) : IO W Impu :=
  create_impu i (cas (impu_base with_cas)) (store (impu_base with_cas)).

(** The CAS of the IRS is good for the store it came from; no store has the
    null pointer. *)
Definition get_impu_for_store (i : Irs) (s : nat) : IO W (option Impu) :=
  if bool_decide (_store i = Some s) then
    o <- create_impu i (_cas i) (_store i) ;; ret (Some o)
  else ret None.

Definition update_from_impu_from_store (i : Irs) (b : ImpuBase) (d : DefaultData) : IO W Irs :=
  let state := if _registration_state_set i then _registration_state i
               else registration_state d in
  let text := if _ims_sub_xml_set i then _ims_sub_xml i else service_profile d in
  let addrs := if _charging_addresses_set i then _charging_addresses i
               else charging_addresses d in
  let i := mkIrs (_default_impu i) (_store i) (_cas i) (_ttl i) (_refreshed i) (_existing i)
             (merge_data_sets (_impis i) (impis d)) (_associated_impus i)
             text (_ims_sub_xml_set i) addrs (_charging_addresses_set i)
             state (_registration_state_set i) in
  if _refreshed i then
    ret (with_associated_impus
           (fun data => fold_left (fun m k => map_emplace m k State.DELETED)
                          (associated_impus d) data) i)
  else
    now <- time_int ;;
    ret (with_associated_impus (fun data => merge_data_sets data (associated_impus d))
           (with_ttl (to_int32 (expiry b - now)) i)).
End records.

(** ** How the tracking behaves *)

Lemma set_element_find ig d e k :
  map_find (set_element ig d e) k =
  if String.eqb e k && negb (String.eqb e ig) then
    match map_find d k with
    | None | Some State.DELETED => Some State.ADDED
    | Some s => Some s
    end
  else map_find d k.
Proof.
  unfold set_element. destruct (String.eqb_spec e ig) as [->|]; [by rewrite andb_false_r|].
  rewrite andb_true_r. destruct (String.eqb_spec e k) as [->|Hne].
  - destruct (map_find d k) as [[]|] eqn:E; rewrite ?map_find_set_eq, ?E; done.
  - destruct (map_find d e) as [[]|]; rewrite ?map_find_set_ne by done; done.
Qed.

Lemma set_elements_fold_find ig l d k :
  map_find (fold_left (set_element ig) l d) k =
  if in_vector k l && negb (String.eqb k ig) then
    match map_find d k with
    | None | Some State.DELETED => Some State.ADDED
    | Some s => Some s
    end
  else map_find d k.
Proof.
  revert d. induction l as [|e l IH]; intros d; simpl; [done|].
  rewrite IH, set_element_find, (String.eqb_sym k e).
  destruct (String.eqb_spec e k) as [->|]; simpl; [|done].
  destruct (negb (String.eqb k ig)); rewrite ?andb_false_r; [|done].
  destruct (in_vector k l); simpl; by destruct (map_find d k) as [[]|].
Qed.

Lemma set_elements_find u d ig k :
  map_find (set_elements u d ig) k =
  if in_vector k u then
    if String.eqb k ig then map_find d k
    else match map_find d k with
         | None | Some State.DELETED => Some State.ADDED
         | Some s => Some s
         end
  else const State.DELETED <$> map_find d k.
Proof.
  unfold set_elements. rewrite set_elements_fold_find, map_find_update.
  destruct (in_vector k u); simpl; [|by destruct (map_find d k)].
  by destruct (String.eqb k ig), (map_find d k) as [[]|].
Qed.

Lemma merge_fold_find l d k :
  map_find (fold_left merge_element l d) k =
  match map_find d k with
  | Some s => Some s
  | None => if in_vector k l then Some State.UNCHANGED else None
  end.
Proof.
  revert d. induction l as [|e l IH]; intros d; simpl; [by destruct (map_find d k)|].
  rewrite IH. unfold merge_element. rewrite (String.eqb_sym k e).
  destruct (map_find d e) eqn:E; rewrite ?map_find_set;
    destruct (String.eqb_spec e k) as [->|]; simpl; rewrite ?E; try done.
Qed.

Lemma merge_data_sets_find d a k :
  map_find (merge_data_sets d a) k =
  match map_find d k with
  | None => if in_vector k a then Some State.UNCHANGED else None
  | Some State.UNCHANGED => Some (if in_vector k a then State.UNCHANGED else State.DELETED)
  | Some s => Some s
  end.
Proof.
  unfold merge_data_sets. rewrite map_find_update, merge_fold_find.
  destruct (map_find d k) as [[]|], (in_vector k a); done.
Qed.

Lemma fold_emplace_find l (d : Data) s k :
  map_find (fold_left (fun m k => map_emplace m k s) l d) k =
  match map_find d k with
  | Some v => Some v
  | None => if in_vector k l then Some s else None
  end.
Proof.
  revert d. induction l as [|e l IH]; intros d; simpl; [by destruct (map_find d k)|].
  rewrite IH, map_find_emplace, (String.eqb_sym k e).
  destruct (map_find d k); [done|]. by destruct (String.eqb e k).
Qed.

Lemma set_elements_ok u d ig : map_ok d -> map_ok (set_elements u d ig).
Proof.
  intros Hd. unfold set_elements. generalize (map_ok_update (fun k s =>
    if negb (in_vector k u) then State.DELETED else s) d Hd).
  generalize (map_update (fun k s => if negb (in_vector k u) then State.DELETED else s) d).
  clear. generalize u. intros l. induction l as [|e l IH]; intros d Hd; simpl; [done|].
  apply IH. unfold set_element. destruct (String.eqb e ig); [done|].
  destruct (map_find d e) as [[]|]; auto with homestead.
Qed.

Lemma merge_data_sets_ok d a : map_ok d -> map_ok (merge_data_sets d a).
Proof.
  intros Hd. unfold merge_data_sets. apply map_ok_update. revert d Hd.
  induction a as [|e a IH]; intros d Hd; simpl; [done|]. apply IH. unfold merge_element.
  destruct (map_find d e); auto with homestead.
Qed.

Lemma fold_emplace_ok l (d : Data) s :
  map_ok d -> map_ok (fold_left (fun m k => map_emplace m k s) l d).
Proof. revert d. induction l; simpl; auto with homestead. Qed.

Lemma elem_present d k :
  map_ok d ->
  k ∈ present d <-> map_find d k = Some State.UNCHANGED \/ map_find d k = Some State.ADDED.
Proof.
  intros Hd. unfold present. rewrite map_keys_with_elem by done. split.
  - intros (v & -> & [->%State.state_eqb_eq | ->%State.state_eqb_eq]%orb_prop); auto.
  - intros [E|E]; rewrite E; eexists; split; done.
Qed.

Lemma elem_in_state d s k :
  map_ok d -> k ∈ get_elements_in_state d s <-> map_find d k = Some s.
Proof.
  intros Hd. unfold get_elements_in_state. rewrite map_keys_with_elem by done. split.
  - by intros (v & E & ->%State.state_eqb_eq).
  - intros E. exists s. split; [done|]. by apply State.state_eqb_eq.
Qed.

Lemma present_set_all l k :
  k ∈ present (map_set_all [] l State.UNCHANGED) <-> k ∈ l.
Proof.
  rewrite elem_present by auto with homestead. rewrite map_find_set_all. simpl.
  rewrite <- in_vector_spec. destruct (in_vector k l); split; try done; auto. by intros [?|?].
Qed.

(** ** Well-formed registration sets *)

Definition irs_ok (i : Irs) : Prop :=
  map_ok (_impis i) /\ map_ok (_associated_impus i) /\ int32_range (_ttl i).

(** What a handler or the cache does to a registration set. *)
Inductive irs_step `{XmlLib} `{RegDataXMLUtils} : Irs -> Irs -> Prop :=
| step_xml i text : irs_step i (set_ims_sub_xml text i)
| step_state i s : irs_step i (set_reg_state s i)
| step_charging i a : irs_step i (set_charging_addresses a i)
| step_ttl i t : int32_range t -> irs_step i (set_ttl t i)
| step_add_impi i p : irs_step i (add_associated_impi p i)
| step_delete_impi i p : irs_step i (delete_associated_impi p i)
| step_delete_impus i : irs_step i (delete_assoc_impus i)
| step_delete_impis i : irs_step i (delete_impis i)
| step_refreshed i : irs_step i (mark_as_refreshed i)
| step_merge {W} `{ImpuStoreOps W} i b d j (w w' : W) :
    update_from_impu_from_store i b d w = Done j w' -> irs_step i j.

Lemma update_from_store_cases {W} `{ImpuStoreOps W} i b d (w : W) :
  exists j, update_from_impu_from_store i b d w = Done j w /\
    _impis j = merge_data_sets (_impis i) (impis d) /\
    _default_impu j = _default_impu i /\ _refreshed j = _refreshed i /\
    _existing j = _existing i /\ _cas j = _cas i /\ _store j = _store i /\
    (if _refreshed i
     then _ttl j = _ttl i /\ _associated_impus j =
            fold_left (fun m k => map_emplace m k State.DELETED) (associated_impus d)
              (_associated_impus i)
     else _ttl j = to_int32 (expiry b - to_int32 (store_time w)) /\
          _associated_impus j = merge_data_sets (_associated_impus i) (associated_impus d)) /\
    _registration_state j = (if _registration_state_set i then _registration_state i
                             else registration_state d) /\
    _ims_sub_xml j = (if _ims_sub_xml_set i then _ims_sub_xml i else service_profile d) /\
    _charging_addresses j = (if _charging_addresses_set i then _charging_addresses i
                             else charging_addresses d).
Proof. unfold update_from_impu_from_store. by destruct (_refreshed i); eexists. Qed.

Lemma irs_step_ok `{XmlLib} `{RegDataXMLUtils} i j : irs_step i j -> irs_ok i -> irs_ok j.
Proof.
  intros Hs (Hp & Hu & Ht). destruct Hs as [i text|i s|i a|i t Ht'|i p|i p|i|i|i|W ? i b d j w w' Hd];
    try by (split; [|split]; simpl; unfold delete_tracked; auto with homestead).
  - unfold set_ims_sub_xml. destruct (get_public_and_default_ids text "") as [l e].
    split; [done|split; [by apply set_elements_ok|done]].
  - destruct (update_from_store_cases i b d w) as (j' & E & Ep & _ & _ & _ & _ & _ & Hc & _).
    rewrite Hd in E. injection E as -> _. unfold irs_ok. rewrite Ep.
    destruct (_refreshed i); destruct Hc as [-> ->];
      auto using fold_emplace_ok, merge_data_sets_ok, to_int32_bounds.
Qed.

(** Every registration set the program can hold. *)
Inductive irs_reachable `{XmlLib} `{RegDataXMLUtils} : Irs -> Prop :=
| reach_stored b d now : irs_reachable (irs_of_impu b d now)
| reach_new ttl0 state0 : int32_range ttl0 -> irs_reachable (new_irs ttl0 state0)
| reach_step i j : irs_reachable i -> irs_step i j -> irs_reachable j.

Lemma irs_of_impu_ok b d now : irs_ok (irs_of_impu b d now).
Proof. split; [|split]; simpl; auto with homestead. Qed.

Lemma irs_reachable_ok `{XmlLib} `{RegDataXMLUtils} i : irs_reachable i -> irs_ok i.
Proof.
  induction 1; [apply irs_of_impu_ok| |by eapply irs_step_ok].
  split; [apply map_ok_nil|]. split; [apply map_ok_nil|done].
Qed.

Definition impu_data (i : Irs) : DefaultData :=
  mkDefaultData (_registration_state i) (_charging_addresses i)
    (get_associated_impus i) (get_associated_impis i) (_ims_sub_xml i).

Lemma create_impu_form {W} `{ImpuStoreOps W} i c s (w : W) :
  create_impu i c s w =
  if (- 2 ^ 31 <=? _ttl i + to_int32 (store_time w)) &&
     (_ttl i + to_int32 (store_time w) <? 2 ^ 31)
  then Done (DefaultImpu (mkImpuBase (_default_impu i) c
               (_ttl i + to_int32 (store_time w)) s) (impu_data i)) w
  else Undefined.
Proof. unfold create_impu, add_int, bind, time_int. by destruct (_ && _). Qed.

(** ** Properties *)

(** Whatever sequence of updates built a registration set, the record made
    of it lists each private and each associated identity once. *)
Theorem created_record_nodup `{XmlLib} `{RegDataXMLUtils} {W} `{ImpuStoreOps W}
    i c s (w w' : W) b d :
  irs_reachable i -> create_impu i c s w = Done (DefaultImpu b d) w' ->
  NoDup (impis d) /\ NoDup (associated_impus d) /\ impu b = _default_impu i /\ cas b = c.
Proof.
  intros (Hp & Hu & _)%irs_reachable_ok. rewrite create_impu_form.
  destruct (_ && _); [|done]. intros [= <- <- _].
  split; [by apply map_keys_with_nodup|]. split; [by apply map_keys_with_nodup|done].
Qed.

(** After [set_elements] the identities present are those of the new list,
    the ignored one only if it was present before, and every other identity
    that was tracked is marked deleted. *)
Theorem set_elements_correct updated data ignore k :
  map_ok data ->
  (k ∈ present (set_elements updated data ignore) <->
   k ∈ updated /\ (k <> ignore \/ k ∈ present data)) /\
  (k ∈ get_elements_in_state (set_elements updated data ignore) State.DELETED <->
   is_Some (map_find data k) /\
   (k ∉ updated \/ k = ignore /\ map_find data k = Some State.DELETED)).
Proof.
  intros Hd. rewrite !elem_present, elem_in_state, !set_elements_find
    by auto using set_elements_ok.
  rewrite <- in_vector_spec, is_Some_alt.
  destruct (map_find data k) as [[]|] eqn:E, (in_vector k updated),
    (String.eqb_spec k ignore); simpl; intuition (congruence || auto).
Qed.

Lemma set_elements_correct_witness :
  "b"%string ∈ present (set_elements ["b"%string; "d"%string] [("a"%string, State.UNCHANGED)] "d") <->
  "b"%string ∈ ["b"%string; "d"%string] /\
  ("b"%string <> "d"%string \/ "b"%string ∈ present [("a"%string, State.UNCHANGED)]).
Proof.
  apply (set_elements_correct ["b"%string; "d"%string] [("a"%string, State.UNCHANGED)] "d"%string
           "b"%string).
  repeat constructor.
Defined.

(** Merging with a store is a three-way merge: an identity is kept when it
    was added here, or when the store has it and it was not deleted here; one
    the store no longer has is deleted unless it was added here. *)
Theorem merge_data_sets_correct data added k :
  map_ok data ->
  (k ∈ present (merge_data_sets data added) <->
   map_find data k = Some State.ADDED \/
   k ∈ added /\ map_find data k <> Some State.DELETED) /\
  (k ∈ get_elements_in_state (merge_data_sets data added) State.DELETED <->
   map_find data k = Some State.DELETED \/
   map_find data k = Some State.UNCHANGED /\ k ∉ added).
Proof.
  intros Hd. rewrite elem_present, elem_in_state, !merge_data_sets_find
    by auto using merge_data_sets_ok.
  rewrite <- in_vector_spec.
  destruct (in_vector k added), (map_find data k) as [[]|]; simpl;
    intuition (congruence || auto).
Qed.

Lemma merge_data_sets_correct_witness :
  "b"%string ∈ present (merge_data_sets [("a"%string, State.UNCHANGED)] ["b"%string]) <->
  map_find [("a"%string, State.UNCHANGED)] "b" = Some State.ADDED \/
  "b"%string ∈ ["b"%string] /\
  map_find [("a"%string, State.UNCHANGED)] "b" <> Some State.DELETED.
Proof.
  apply (merge_data_sets_correct [("a"%string, State.UNCHANGED)] ["b"%string] "b"%string).
  repeat constructor.
Defined.

(** Setting the profile makes the first unbarred identity of the document
    the default one and associates every other identity with it; an
    identity that was associated before and is no longer in the document is
    marked deleted. *)
Theorem set_ims_sub_xml_correct `{XmlLib} `{RegDataXMLUtils} text i :
  irs_ok i ->
  let j := set_ims_sub_xml text i in
  _default_impu j = default ""%string (head (unbarred (first_occurrences [] (identities text)))) /\
  (forall k, k ∈ get_associated_impus j <->
     k ∈ map fst (identities text) /\
     (k <> _default_impu j \/ k ∈ get_associated_impus i)) /\
  (forall k, k ∈ get_associated_impus i -> k ∉ map fst (identities text) ->
     k ∈ impus_in State.DELETED j) /\
  _ims_sub_xml j = text /\ irs_ok j.
Proof.
  intros Hok. cbv zeta. pose proof Hok as (Hp & Hu & Ht).
  pose proof (irs_step_ok _ _ (step_xml i text) Hok) as Hj.
  pose proof (get_ids_reference text "") as E. cbv zeta in E.
  destruct (get_ids_facts _ _ _ _ E) as (_ & Hk & _).
  unfold set_ims_sub_xml, get_associated_impus, impus_in in *. rewrite E in *. simpl in *.
  split; [by destruct (unbarred _)|]. split; [|split; [|done]].
  - intros k. rewrite !elem_present, set_elements_find, <- Hk, <- in_vector_spec
      by auto using set_elements_ok.
    destruct (map_find (_associated_impus i) k) as [[]|] eqn:Ed, (in_vector k _),
      (String.eqb_spec k match unbarred (first_occurrences [] (identities text)) with
                         | [] => "" | e :: _ => e end); simpl; intuition (congruence || auto).
  - intros k. rewrite elem_present, elem_in_state, set_elements_find, <- Hk
      by auto using set_elements_ok.
    intros Hpres Hn. rewrite (proj2 (in_vector_false _ _) Hn). by destruct Hpres as [-> | ->].
Qed.

(** A registration set read from a store and written back unchanged is the
    same record (same identities, expiry, profile, CAS) as long as its expiry
    fits an [int]; from 2^31 seconds (January 2038) on, the addition of the TTL
    to the time overflows. *)
Theorem unmodified_record {W} `{ImpuStoreOps W} b d (w : W) :
  0 <= store_time w < 2 ^ 31 -> 0 <= expiry b - store_time w < 2 ^ 31 ->
  let i := irs_of_impu b d (store_time w) in
  if expiry b <? 2 ^ 31 then
    exists d', create_impu i (_cas i) (_store i) w = Done (DefaultImpu b d') w /\
      (forall k, k ∈ associated_impus d' <-> k ∈ associated_impus d) /\
      (forall k, k ∈ impis d' <-> k ∈ impis d) /\
      registration_state d' = registration_state d /\
      charging_addresses d' = charging_addresses d /\
      service_profile d' = service_profile d
  else create_impu i (_cas i) (_store i) w = Undefined.
Proof.
  intros Hnow Hx. cbv zeta. rewrite create_impu_form. simpl _ttl.
  rewrite !to_int32_id by (unfold int32_range; lia).
  replace (expiry b - store_time w + store_time w) with (expiry b) by lia.
  rewrite (proj2 (Z.leb_le _ _)) by lia. simpl andb. destruct (expiry b <? 2 ^ 31); [|done].
  eexists. split; [by destruct b|]. unfold impu_data, get_associated_impus, get_associated_impis.
  simpl. split; [intros k; apply present_set_all|]. split; [intros k; apply present_set_all|done].
Qed.

(** Refreshing from a store's record keeps what the caller has set (state,
    profile, charging addresses) and takes the rest from the record; the TTL
    and the associated identities of a set that is not being refreshed follow
    the record, those of a refreshed set win over it. *)
Theorem update_from_impu_from_store_correct {W} `{ImpuStoreOps W} i b d (w : W) :
  irs_ok i ->
  exists j, update_from_impu_from_store i b d w = Done j w /\
    _registration_state j =
      (if _registration_state_set i then _registration_state i else registration_state d) /\
    _ims_sub_xml j = (if _ims_sub_xml_set i then _ims_sub_xml i else service_profile d) /\
    _charging_addresses j =
      (if _charging_addresses_set i then _charging_addresses i else charging_addresses d) /\
    (if _refreshed i
     then _ttl j = _ttl i /\
       (forall k, k ∈ get_associated_impus j <-> k ∈ get_associated_impus i) /\
       (forall k, k ∈ associated_impus d -> k ∉ get_associated_impus i ->
          k ∈ impus_in State.DELETED j)
     else _ttl j = to_int32 (expiry b - to_int32 (store_time w)) /\
       (forall k, k ∈ get_associated_impus j <->
          k ∈ impus_in State.ADDED i \/
          k ∈ associated_impus d /\ k ∉ impus_in State.DELETED i)).
Proof.
  intros (_ & Hu & _).
  destruct (update_from_store_cases i b d w) as (j & E & _ & _ & _ & _ & _ & _ & Hc & Hr).
  exists j. split; [done|]. destruct Hr as (-> & -> & ->). do 3 (split; [done|]).
  unfold get_associated_impus, impus_in.
  destruct (_refreshed i); destruct Hc as [-> ->]; (split; [done|]).
  - split; intros k; rewrite ?elem_in_state, !elem_present, fold_emplace_find, <- ?in_vector_spec
      by auto using fold_emplace_ok.
    + destruct (map_find _ k) as [[]|] eqn:Ed, (in_vector k (associated_impus d)); intuition congruence.
    + intros -> Hn. destruct (map_find _ k) as [[]|] eqn:Ed; intuition congruence.
  - intros k. rewrite !elem_present, !elem_in_state, merge_data_sets_find, <- in_vector_spec
      by auto using merge_data_sets_ok.
    destruct (map_find _ k) as [[]|] eqn:Ed, (in_vector k (associated_impus d)); intuition congruence.
Qed.

(** ** Witnesses *)

Definition sample_profile : string := Xml.profile 0.

Definition sample_irs : Irs :=
  set_ttl 600 (set_reg_state RegistrationState.REGISTERED
    (add_associated_impi "a@b" (set_ims_sub_xml sample_profile
      (new_irs 0 RegistrationState.NOT_REGISTERED)))).

Lemma sample_reachable : irs_reachable sample_irs.
Proof.
  assert (H0 : int32_range 0) by (unfold int32_range; lia).
  assert (H1 : int32_range 600) by (unfold int32_range; lia).
  apply (reach_step _ _ (reach_step _ _ (reach_step _ _ (reach_step _ _ (reach_new _ _ H0)
    (step_xml _ _)) (step_add_impi _ _)) (step_state _ _)) (step_ttl _ _ H1)).
Qed.

Definition sample_base : ImpuBase := mkImpuBase "sip:a@b" 3 1000 (Some 0%nat).
Definition sample_data : DefaultData :=
  mkDefaultData RegistrationState.REGISTERED no_addrs ["sip:c@d"; "sip:x@b"] ["a@b"] sample_profile.

Lemma created_record_nodup_witness :
  exists b d,
    create_impu sample_irs 0 None (Mem.empty_at 500) = Done (DefaultImpu b d) (Mem.empty_at 500) /\
    (NoDup (impis d) /\ NoDup (associated_impus d) /\ impu b = _default_impu sample_irs /\ cas b = 0).
Proof.
  eexists _, _. split; [vm_compute; reflexivity|].
  eapply (created_record_nodup sample_irs 0 None (Mem.empty_at 500) (Mem.empty_at 500)).
  - apply sample_reachable.
  - vm_compute. reflexivity.
Defined.

Lemma set_ims_sub_xml_correct_witness :
  _default_impu (set_ims_sub_xml sample_profile (irs_of_impu sample_base sample_data 500)) =
  default ""%string (head (unbarred (first_occurrences [] (identities sample_profile)))).
Proof.
  apply (set_ims_sub_xml_correct sample_profile (irs_of_impu sample_base sample_data 500)).
  apply irs_of_impu_ok.
Defined.

Lemma unmodified_record_witness :
  let i := irs_of_impu sample_base sample_data (store_time (Mem.empty_at 500)) in
  exists d', create_impu i (_cas i) (_store i) (Mem.empty_at 500) =
    Done (DefaultImpu sample_base d') (Mem.empty_at 500) /\
    (forall k, k ∈ associated_impus d' <-> k ∈ associated_impus sample_data) /\
    (forall k, k ∈ impis d' <-> k ∈ impis sample_data) /\
    registration_state d' = registration_state sample_data /\
    charging_addresses d' = charging_addresses sample_data /\
    service_profile d' = service_profile sample_data.
Proof.
  assert (H0 : 0 <= store_time (Mem.empty_at 500) < 2 ^ 31) by (simpl; lia).
  assert (H1 : 0 <= expiry sample_base - store_time (Mem.empty_at 500) < 2 ^ 31) by (simpl; lia).
  pose proof (unmodified_record sample_base sample_data (Mem.empty_at 500) H0 H1) as Hx.
  change (expiry sample_base <? 2 ^ 31) with true in Hx. exact Hx.
Defined.

Lemma update_from_impu_from_store_correct_witness :
  exists j, update_from_impu_from_store (irs_of_impu sample_base sample_data 500) sample_base
              sample_data (Mem.empty_at 500) = Done j (Mem.empty_at 500) /\
    _registration_state j = RegistrationState.REGISTERED.
Proof.
  destruct (update_from_impu_from_store_correct (irs_of_impu sample_base sample_data 500)
              sample_base sample_data (Mem.empty_at 500) (irs_of_impu_ok _ _ _))
    as (j & E & Hs & _).
  exists j. split; [exact E|exact Hs].
Defined.
