(* ===== verification/MemcachedCache.v ===== *)
(** * The memcached cache

    [src/memcached_cache.cpp] and [src/base_hss_cache.cpp]: reading and
    writing implicit registration sets over a local store and remote ones.
    The code is blocking; every operation is an [IO] computation over the
    stores' world.  A registration set an operation updates through a pointer
    is passed in and returned.  Retry loops take [fuel] iterations at most. *)

From Stdlib Require Import String ZArith Lia.
From stdpp Require Import base list strings option.
From S2P Require Import Prelude StdMap Types Env Concrete ImpuStore XmlUtils Irs.
Open Scope Z_scope.

(** A pointer that the code dereferences. *)
Definition deref {W A} (p : option A) : IO W A :=
  match p with Some a => ret a | None => undefined end.

Definition contention (s : Store.Status) : bool := status_eqb s Store.DATA_CONTENTION.

(** The two member functions [perform_irs_impu_action] is called with. *)
Inductive irs_impu_action := SET_IMPU | DELETE_IMPU.

Section cache.
Context {W : Type} `{ImpuStoreOps W}.
Context (fuel : nat) (local_store : nat) (remote_stores : list nat).

(** ** Reading *)

(** Take the first successful answer of the remote stores, in their order. *)
Definition use_remote (s : Store.Status * option Impu) (r : Store.Status * option Impu)
    : Store.Status * option Impu :=
  if negb (status_eqb (fst s) Store.OK) && status_eqb (fst r) Store.OK
  then (Store.OK, snd r) else s.

(** The remote stores are read in parallel, each on its own; their answers are
    collected in order. *)
Definition get_impu_for_impu_gr (i : string) : IO W (Store.Status * option Impu) :=
  let* (status, out) := get_impu local_store i in
  if status_eqb status Store.NOT_FOUND then
    results <- foreach (fun r acc => x <- get_impu r i ;; ret (acc ++ [x])) remote_stores [] ;;
    ret (fold_left use_remote results (status, out))
  else ret (status, out).

(** The loop over remote stores, until one has the mapping. *)
Fixpoint first_remote_mapping (stores : list nat) (i : string)
    (status : Store.Status) : IO W (Store.Status * option ImpiMapping) :=
  match stores with
  | [] => ret (status, None)
  | r :: rest =>
      let* (remote_status, out) := get_impi_mapping r i in
      if status_eqb remote_status Store.OK then ret (remote_status, out)
      else first_remote_mapping rest i status
  end.

Definition get_impi_mapping_gr (i : string) : IO W (Store.Status * option ImpiMapping) :=
  let* (status, out) := get_impi_mapping local_store i in
  if status_eqb status Store.NOT_FOUND then first_remote_mapping remote_stores i status
  else ret (status, out).

Definition get_impus_for_impi (i : string) : IO W (Store.Status * list string) :=
  let* (status, out) := get_impi_mapping_gr i in
  if status_eqb status Store.OK then
    m <- deref out ;; ret (status, _default_impus m)
  else ret (status, []).

Definition get_implicit_registration_set_for_impu (i : string)
    : IO W (Store.Status * option Irs) :=
  let* (status, data) := get_impu_for_impu_gr i in
  let* (status, data) :=
    (if status_eqb status Store.OK then
       p <- deref data ;;
       match p with
       | DefaultImpu _ _ => ret (status, data)
       | AssociatedImpu _ default_impu =>
           let* (status, data) := get_impu_for_impu_gr default_impu in
           if status_eqb status Store.OK then
             q <- deref data ;;
             match q with
             | AssociatedImpu _ _ => ret (Store.NOT_FOUND, data)
             | DefaultImpu _ d =>
                 if has_associated_impu d i then ret (status, data)
                 else ret (Store.NOT_FOUND, data)
             end
           else ret (status, data)
       end
     else ret (status, data)) in
  if status_eqb status Store.OK then
    p <- deref data ;;
    match p with
    | DefaultImpu b d => now <- time64 ;; ret (status, Some (irs_of_impu b d now))
    | AssociatedImpu _ _ => undefined
    end
  else ret (status, None).

(** [BaseHssCache]: the sets of several identities *)
Fixpoint irss_for_impus_loop (impus : list string) (status : Store.Status)
    (result : list Irs) : IO W (Store.Status * list Irs) :=
  match impus with
  | [] => ret (status, result)
  | i :: rest =>
      let* (inner_status, irs) := get_implicit_registration_set_for_impu i in
      if status_eqb inner_status Store.OK then
        x <- deref irs ;; ret (status, result ++ [x])
      else if negb (status_eqb inner_status Store.NOT_FOUND) then ret (inner_status, result)
      else irss_for_impus_loop rest status result
  end.

Definition get_implicit_registration_sets_for_impus (impus : list string) (result : list Irs)
    : IO W (Store.Status * list Irs) :=
  let* (status, result) := irss_for_impus_loop impus Store.OK result in
  ret (status, if status_eqb status Store.OK then result else []).

Definition get_implicit_registration_sets_for_impi (impi : string) (result : list Irs)
    : IO W (Store.Status * list Irs) :=
  let* (status, impus) := get_impus_for_impi impi in
  if status_eqb status Store.OK then get_implicit_registration_sets_for_impus impus result
  else ret (status, result).

Fixpoint irss_for_impis_loop (impis : list string) (status : Store.Status)
    (result : list Irs) : IO W (Store.Status * list Irs) :=
  match impis with
  | [] => ret (status, result)
  | i :: rest =>
      let* (inner_status, inner_result) := get_implicit_registration_sets_for_impi i [] in
      if status_eqb inner_status Store.OK then
        irss_for_impis_loop rest status (result ++ inner_result)
      else if negb (status_eqb inner_status Store.NOT_FOUND) then ret (inner_status, result)
      else irss_for_impis_loop rest status result
  end.

Definition get_implicit_registration_sets_for_impis (impis : list string) (result : list Irs)
    : IO W (Store.Status * list Irs) :=
  let* (status, result) := irss_for_impis_loop impis Store.OK result in
  ret (status, if status_eqb status Store.OK then result else []).

(** ** Writing to one store *)

(** One attempt to take the IRS's IMPU out of an IMPI's mapping; [status] is
    what it was before. *)
Definition remove_impi_mapping (irs : Irs) (s : nat) (i : string) (status : Store.Status)
    : IO W Store.Status :=
  let* (inner_status, mapping) := get_impi_mapping s i in
  if status_eqb inner_status Store.OK then
    m <- deref mapping ;;
    if has_default_impu m (_default_impu irs) then
      let m := remove_default_impu m (_default_impu irs) in
      if is_empty m then delete_impi_mapping s m else set_impi_mapping s m
    else ret status
  else ret status.

(** One attempt to refresh an IMPI's mapping. *)
Definition refresh_impi_mapping (irs : Irs) (s : nat) (i : string) (_ : Store.Status)
    : IO W Store.Status :=
  let* (inner_status, mapping) := get_impi_mapping s i in
  m <- (if status_eqb inner_status Store.OK then
          m <- deref mapping ;;
          now <- time_int ;;
          e <- add_int (_ttl irs) now ;;
          let m := set_expiry m e in
          ret (if has_default_impu m (_default_impu irs) then m
               else add_default_impu m (_default_impu irs))
        else
          now <- time_int ;;
          e <- add_int (_ttl irs) now ;;
          ret (new_ImpiMapping i (_default_impu irs) e)) ;;
  set_impi_mapping s m.

(** One attempt to add a mapping, and the resolution of a conflict. *)
Definition add_impi_mapping (irs : Irs) (s : nat) (i : string)
    (st : Store.Status * ImpiMapping) : IO W (Store.Status * ImpiMapping) :=
  let mapping := snd st in
  status <- set_impi_mapping s mapping ;;
  if contention status then
    let* (inner_status, new_mapping) := get_impi_mapping s i in
    if status_eqb inner_status Store.OK then
      m <- deref new_mapping ;;
      now <- time_int ;;
      e <- add_int (_ttl irs) now ;;
      let m := set_expiry m e in
      if negb (has_default_impu m (_default_impu irs))
      then ret (status, add_default_impu m (_default_impu irs))
      else if negb (_refreshed irs) then ret (Store.OK, m)
      else ret (status, m)
    else if status_eqb inner_status Store.NOT_FOUND then ret (status, mapping)
    else ret (inner_status, mapping)
  else ret (status, mapping).

Definition update_irs_impi_mappings (irs : Irs) (s : nat) : IO W Store.Status :=
  status <- foreach (fun i status =>
              do_while fuel (remove_impi_mapping irs s i) contention status)
              (impis_in State.DELETED irs) Store.OK ;;
  status <- (if _refreshed irs then
               foreach (fun i status =>
                   do_while fuel (refresh_impi_mapping irs s i) contention status)
                 (impis_in State.UNCHANGED irs) status
             else ret status) ;;
  foreach (fun i status =>
      now <- time64 ;;
      let mapping := new_ImpiMapping i (_default_impu irs) (now + _ttl irs) in
      let* (status, _) := do_while fuel (add_impi_mapping irs s i)
                            (fun st => contention (fst st)) (status, mapping) in
      ret status)
    (impis_in State.ADDED irs) status.

(** One attempt to delete an associated IMPU; the status of the read is
    ignored. *)
Definition remove_associated_impu (irs : Irs) (s : nat) (i : string) (status : Store.Status)
    : IO W Store.Status :=
  let* (_, mapping) := get_impu s i in
  match mapping with
  | Some (AssociatedImpu b a) =>
      if String.eqb a (_default_impu irs) then delete_impu s (AssociatedImpu b a)
      else ret status
  | _ => ret status
  end.

(** Write an associated IMPU; the status of the write is ignored. *)
Definition put_associated_impu (irs : Irs) (s : nat) (i : string) (u : unit) : IO W unit :=
  now <- time64 ;;
  _ <- set_impu_without_cas s
         (AssociatedImpu (mkImpuBase i 0 (now + _ttl irs) (Some s)) (_default_impu irs)) ;;
  ret u.

Definition update_irs_associated_impus (irs : Irs) (s : nat) : IO W Store.Status :=
  status <- foreach (fun i status =>
              do_while fuel (remove_associated_impu irs s i) contention status)
              (impus_in State.DELETED irs) Store.OK ;;
  _ <- (if _refreshed irs
        then foreach (put_associated_impu irs s) (impus_in State.UNCHANGED irs) tt
        else ret tt) ;;
  _ <- foreach (put_associated_impu irs s) (impus_in State.ADDED irs) tt ;;
  ret status.

Definition create_irs_impu (irs : Irs) (s : nat) : IO W Store.Status :=
  impu <- irs_get_impu irs ;;
  if RegistrationState.eqb (_registration_state irs) RegistrationState.REGISTERED
  then set_impu_without_cas s impu
  else
    status <- add_impu s impu ;;
    ret (if contention status then Store.OK else status).

Definition run_action (a : irs_impu_action) (s : nat) (i : Impu) : IO W Store.Status :=
  match a with SET_IMPU => set_impu s i | DELETE_IMPU => delete_impu s i end.

(** One iteration of [perform_irs_impu_action]: the IRS, the IMPU to write
    when its CAS value is known, and the status. *)
Definition irs_impu_attempt (a : irs_impu_action) (s : nat)
    (st : Irs * option Impu * Store.Status) : IO W (Irs * option Impu * Store.Status) :=
  let '(irs, impu, _) := st in
  match impu with
  | Some i => status <- run_action a s i ;; ret (irs, None, status)
  | None =>
      let* (_, mapped_impu) := get_impu s (_default_impu irs) in
      match mapped_impu with
      | None =>
          match a with
          | DELETE_IMPU => ret (irs, None, Store.OK)
          | SET_IMPU =>
              i <- irs_get_impu irs ;;
              status <- run_action a s i ;; ret (irs, None, status)
          end
      | Some (DefaultImpu b d) =>
          irs <- update_from_impu_from_store irs b d ;;
          i <- get_impu_from_impu irs (DefaultImpu b d) ;;
          status <- run_action a s i ;; ret (irs, None, status)
      | Some (AssociatedImpu b x) =>
          if _refreshed irs then
            i <- get_impu_from_impu irs (AssociatedImpu b x) ;;
            status <- run_action a s i ;; ret (irs, None, status)
          else ret (irs, None, Store.ERROR)
      end
  end.

Definition perform_irs_impu_action (a : irs_impu_action) (irs : Irs) (s : nat)
    : IO W (Store.Status * Irs) :=
  impu <- get_impu_for_store irs s ;;
  let* (irs, _, status) :=
    do_while fuel (irs_impu_attempt a s) (fun st => contention (snd st))
      (irs, impu, Store.OK) in
  ret (status, irs).

Definition update_irs_impu (irs : Irs) (s : nat) : IO W (Store.Status * Irs) :=
  perform_irs_impu_action SET_IMPU irs s.

Definition delete_irs_impu (irs : Irs) (s : nat) : IO W (Store.Status * Irs) :=
  perform_irs_impu_action DELETE_IMPU (mark_as_refreshed irs) s.

(** The statuses of the second and third step are not used. *)
Definition put_irs_action (s : nat) (irs : Irs) : IO W (Store.Status * Irs) :=
  let* (status, irs) :=
    (if _existing irs then update_irs_impu irs s
     else status <- create_irs_impu irs s ;; ret (status, irs)) in
  if status_eqb status Store.OK then
    _ <- update_irs_associated_impus irs s ;;
    _ <- update_irs_impi_mappings irs s ;;
    ret (status, irs)
  else ret (status, irs).

Definition delete_irs_action (s : nat) (irs : Irs) : IO W (Store.Status * Irs) :=
  let* (status, irs) := delete_irs_impu irs s in
  let* (status, irs) :=
    (if status_eqb status Store.OK then
       let irs := delete_assoc_impus irs in
       status <- update_irs_associated_impus irs s ;; ret (status, irs)
     else ret (status, irs)) in
  if status_eqb status Store.OK then
    let irs := delete_impis irs in
    status <- update_irs_impi_mappings irs s ;; ret (status, irs)
  else ret (status, irs).

Fixpoint delete_irss_loop (s : nat) (irss : list Irs) (status : Store.Status)
    : IO W (Store.Status * list Irs) :=
  match irss with
  | [] => ret (status, [])
  | irs :: rest =>
      let* (status, irs) :=
        (if _existing irs then delete_irs_action s irs else ret (status, irs)) in
      let* (status, rest) := delete_irss_loop s rest status in
      ret (status, irs :: rest)
  end.

Definition delete_irss_action (s : nat) (irss : list Irs) : IO W (Store.Status * list Irs) :=
  delete_irss_loop s irss Store.OK.

(** ** IMS subscriptions: registration sets by default identity *)

Definition BaseImsSubscription (irss : list Irs) : std_map Irs :=
  fold_left (fun m irs => map_set m (_default_impu irs) irs) irss [].

Definition set_charging_addrs (a : ChargingAddresses) (sub : std_map Irs) : std_map Irs :=
  map_update (fun _ irs => set_charging_addresses a irs) sub.

Definition get_irs_for_default_impu (sub : std_map Irs) (i : string) : option Irs :=
  map_find sub i.

(** The status of [put_irs_action] is not used. *)
Fixpoint put_ims_sub_loop (s : nat) (sub : std_map Irs) : IO W (std_map Irs) :=
  match sub with
  | [] => ret []
  | (k, irs) :: rest =>
      let* (_, irs) := put_irs_action s irs in
      rest <- put_ims_sub_loop s rest ;; ret ((k, irs) :: rest)
  end.

Definition put_ims_sub_action (s : nat) (sub : std_map Irs)
    : IO W (Store.Status * std_map Irs) :=
  sub <- put_ims_sub_loop s sub ;; ret (Store.OK, sub).

(** ** Writing to all stores *)

(** [perform]: the action on the local store decides; on success the callback
    is called, then the action is performed on the remote stores.  The action
    updates the object [S] it is bound to. *)
Definition perform {S} (action : nat -> S -> IO W (Store.Status * S))
    (progress_cb : IO W unit) (s : S) : IO W (Store.Status * S) :=
  let* (status, s) := action local_store s in
  if status_eqb status Store.OK then
    progress_cb ;;;
    s <- foreach (fun r s => let* (_, s) := action r s in ret s) remote_stores s ;;
    ret (status, s)
  else ret (status, s).

Definition put_implicit_registration_set (irs : Irs) (progress_cb : IO W unit)
    : IO W (Store.Status * Irs) :=
  if has_changed irs then perform put_irs_action progress_cb irs
  else progress_cb ;;; ret (Store.OK, irs).

Definition delete_implicit_registration_set (irs : Irs) (progress_cb : IO W unit)
    : IO W (Store.Status * Irs) :=
  if _existing irs then perform delete_irs_action progress_cb irs
  else progress_cb ;;; ret (Store.OK, irs).

Definition delete_implicit_registration_sets (irss : list Irs) (progress_cb : IO W unit)
    : IO W (Store.Status * list Irs) :=
  perform delete_irss_action progress_cb irss.

Definition get_ims_subscription (impi : string) : IO W (Store.Status * option (std_map Irs)) :=
  let* (status, out) := get_impi_mapping_gr impi in
  if status_eqb status Store.OK then
    m <- deref out ;;
    let* (status, irss) := get_implicit_registration_sets_for_impus (_default_impus m) [] in
    if status_eqb status Store.OK then ret (status, Some (BaseImsSubscription irss))
    else ret (status, None)
  else ret (status, None).

Definition put_ims_subscription (sub : std_map Irs) (progress_cb : IO W unit)
    : IO W (Store.Status * std_map Irs) :=
  perform put_ims_sub_action progress_cb sub.
End cache.
