(* ===== verification/CacheProgress.v ===== *)
(** * Which stores an operation of the cache touches, and when

    The world of the stores is extended with a log of the accesses to each
    store and of the calls of the progress callback; the theorems describe the
    log every writing operation of the cache leaves. *)

From Stdlib Require Import String ZArith Lia.
From stdpp Require Import base list strings option.
From S2P Require Import Prelude StdMap Types Env Concrete ImpuStore XmlUtils Irs MemcachedCache.
Open Scope Z_scope.

Inductive event := Access (s : nat) | Progress.

Section logged.
Context {W : Type} `{ImpuStoreOps W}.

Definition logged : Type := W * list event.

(** An operation on store [s], logged. *)
Definition logging {A} (s : nat) (c : IO W A) : IO logged A :=
  fun wl => match c (fst wl) with
            | Done a w' => Done a (w', snd wl ++ [Access s])
            | Thrown => Thrown
            | Undefined => Undefined
            | OutOfFuel => OutOfFuel
            end.

#[export] Instance logged_ops : ImpuStoreOps logged := {|
  get_impu := fun s k => logging s (get_impu s k);
  set_impu := fun s i => logging s (set_impu s i);
  set_impu_without_cas := fun s i => logging s (set_impu_without_cas s i);
  add_impu := fun s i => logging s (add_impu s i);
  delete_impu := fun s i => logging s (delete_impu s i);
  get_impi_mapping := fun s k => logging s (get_impi_mapping s k);
  set_impi_mapping := fun s m => logging s (set_impi_mapping s m);
  delete_impi_mapping := fun s m => logging s (delete_impi_mapping s m);
  store_time := fun wl => store_time (fst wl)
|}.

(** The progress callback. *)
Definition progress : IO logged unit := fun wl => Done tt (fst wl, snd wl ++ [Progress]).

(** [c] only adds events that satisfy [P]. *)
Definition touches {A} (P : event -> Prop) (c : IO logged A) : Prop :=
  forall wl a wl', c wl = Done a wl' -> exists l, snd wl' = snd wl ++ l /\ Forall P l.

Lemma touches_ret {A} P (a : A) : touches P (ret a).
Proof. intros wl b wl' [= <- <-]. exists []. by rewrite app_nil_r. Qed.

Lemma touches_undefined {A} P : touches P (@undefined logged A).
Proof. by intros ???. Qed.

Lemma touches_bind {A B} P (c : IO logged A) (k : A -> IO logged B) :
  touches P c -> (forall a, touches P (k a)) -> touches P (bind c k).
Proof.
  intros Hc Hk wl b wl' (a & w1 & H1 & H2)%bind_inv.
  destruct (Hc _ _ _ H1) as (l1 & E1 & F1), (Hk _ _ _ _ H2) as (l2 & E2 & F2).
  exists (l1 ++ l2). rewrite E2, E1, <- app_assoc. split; [done|by apply list.Forall_app].
Qed.

Lemma touches_logging {A} (P : event -> Prop) s (c : IO W A) :
  P (Access s) -> touches P (logging s c).
Proof.
  intros Hs wl a wl'. unfold logging. destruct (c (fst wl)); [|done..].
  intros [= <- <-]. exists [Access s]. split; [done|by constructor].
Qed.

Lemma touches_foreach {X S} P (f : X -> S -> IO logged S) l s :
  (forall x s, x ∈ l -> touches P (f x s)) -> touches P (foreach f l s).
Proof.
  revert s. induction l as [|x l IH]; intros s Hf; simpl; [apply touches_ret|].
  apply touches_bind; [apply Hf; by left|]. intros s'. apply IH. intros y s0 Hy. apply Hf. by right.
Qed.

Lemma touches_do_while {A} P n (body : A -> IO logged A) again a :
  (forall a, touches P (body a)) -> touches P (do_while n body again a).
Proof.
  intros Hb. revert a. induction n as [|n IH]; intros a; simpl; [by intros ???|].
  apply touches_bind; [done|]. intros a'. destruct (again a'); [done|apply touches_ret].
Qed.

Lemma touches_time P : touches P (time64 (W := logged)) /\ touches P (time_int (W := logged)).
Proof. split; intros wl a wl' [= <- <-]; exists []; by rewrite app_nil_r. Qed.

Lemma touches_weaken {A} (P Q : event -> Prop) (c : IO logged A) :
  (forall e, P e -> Q e) -> touches P c -> touches Q c.
Proof.
  intros HPQ Hc wl a wl' E. destruct (Hc _ _ _ E) as (l & ? & Hl). exists l.
  split; [done|]. by eapply list.Forall_impl.
Qed.

(** Walk through a computation. *)
Ltac touch_with known :=
  repeat first
    [ known | apply touches_ret | apply touches_undefined
    | apply (proj1 (touches_time _)) | apply (proj2 (touches_time _))
    | apply touches_logging; reflexivity
    | apply touches_bind; [|intros ?]
    | apply touches_foreach; intros ? ? _
    | apply touches_do_while; intros ?
    | match goal with
      | |- touches _ (match ?x with _ => _ end) => destruct x
      | |- touches _ (let '_ := ?x in _) => destruct x
      end ].
Ltac touch := touch_with fail.

Definition only (s : nat) (e : event) : Prop := e = Access s.

Lemma touches_create_impu P i c s : touches P (create_impu (W := logged) i c s).
Proof. unfold create_impu, add_int. touch. Qed.

Lemma touches_update P i b d : touches P (update_from_impu_from_store (W := logged) i b d).
Proof. unfold update_from_impu_from_store. touch. Qed.

Lemma touches_mappings fuel irs s :
  touches (only s) (update_irs_impi_mappings (W := logged) fuel irs s).
Proof.
  unfold update_irs_impi_mappings, remove_impi_mapping, refresh_impi_mapping, add_impi_mapping,
    add_int, deref. touch.
Qed.

Lemma touches_associated fuel irs s :
  touches (only s) (update_irs_associated_impus (W := logged) fuel irs s).
Proof. unfold update_irs_associated_impus, remove_associated_impu, put_associated_impu. touch. Qed.

Lemma touches_irs_impu_action fuel a irs s :
  touches (only s) (perform_irs_impu_action (W := logged) fuel a irs s).
Proof.
  unfold perform_irs_impu_action, get_impu_for_store, irs_impu_attempt, get_impu_from_impu,
    irs_get_impu, run_action.
  touch_with ltac:(first [apply touches_create_impu | apply touches_update]).
Qed.

Lemma touches_put_irs fuel s irs : touches (only s) (put_irs_action (W := logged) fuel s irs).
Proof.
  unfold put_irs_action, update_irs_impu, create_irs_impu, irs_get_impu.
  touch_with ltac:(first [apply touches_create_impu | apply touches_mappings | apply touches_associated | apply touches_irs_impu_action]).
Qed.

Lemma touches_delete_irs fuel s irs : touches (only s) (delete_irs_action (W := logged) fuel s irs).
Proof.
  unfold delete_irs_action, delete_irs_impu.
  touch_with ltac:(first [apply touches_mappings | apply touches_associated | apply touches_irs_impu_action]).
Qed.

Lemma touches_delete_irss fuel s irss :
  touches (only s) (delete_irss_action (W := logged) fuel s irss).
Proof.
  unfold delete_irss_action. generalize Store.OK.
  induction irss as [|irs irss IH]; intros st; simpl;
    touch_with ltac:(first [apply IH | apply touches_delete_irs]).
Qed.

Lemma touches_put_sub fuel s sub : touches (only s) (put_ims_sub_action (W := logged) fuel s sub).
Proof.
  unfold put_ims_sub_action.
  assert (touches (only s) (put_ims_sub_loop (W := logged) fuel s sub)).
  { induction sub as [|[k irs] sub IH]; simpl;
      touch_with ltac:(first [apply IH | apply touches_put_irs]). }
  touch. done.
Qed.

(** The log of an operation that follows the contract of the callback. *)
Definition progress_contract (local_store : nat) (remote_stores : list nat)
    (before after : list event) (status : Store.Status) : Prop :=
  exists l1 l2,
    after = before ++ l1 ++ (if status_eqb status Store.OK then Progress :: l2 else []) /\
    Forall (only local_store) l1 /\
    Forall (fun e => exists r, r ∈ remote_stores /\ e = Access r) l2.

Lemma perform_log {S} (action : nat -> S -> IO logged (Store.Status * S)) ls rs s wl st s' wl' :
  (forall r s, touches (only r) (action r s)) ->
  perform ls rs action progress s wl = Done (st, s') wl' ->
  progress_contract ls rs (snd wl) (snd wl') st.
Proof.
  intros Ha. unfold perform. intros ([st1 s1] & w1 & H1 & H2)%bind_inv.
  destruct (Ha _ _ _ _ _ H1) as (l1 & E1 & F1).
  destruct (status_eqb st1 Store.OK) eqn:Est.
  - apply bind_inv in H2 as (u & w2 & [= <- <-] & H2).
    apply bind_inv in H2 as (s2 & w3 & H3 & [= <- <- <-]).
    assert (Hf : touches (fun e => exists r, r ∈ rs /\ e = Access r)
                   (foreach (fun r s => let* (_, s) := action r s in ret s) rs s1)).
    { apply touches_foreach. intros r x Hr. apply touches_bind; [|intros [? ?]; apply touches_ret].
      eapply touches_weaken, Ha. intros e ->. eauto. }
    destruct (Hf _ _ _ H3) as (l2 & E2 & F2). exists l1, l2. rewrite Est.
    split; [|done]. simpl in E2. rewrite E2, E1, <- !app_assoc. done.
  - injection H2 as <- <- <-. exists l1, []. rewrite Est, app_nil_r. by repeat constructor.
Qed.

Lemma contract_at_once ls rs before : progress_contract ls rs before (before ++ [Progress]) Store.OK.
Proof. exists [], []. rewrite status_eqb_refl. repeat constructor. Qed.

Lemma put_irs_log fuel ls rs irs wl st irs' wl' :
  put_implicit_registration_set fuel ls rs irs progress wl = Done (st, irs') wl' ->
  progress_contract ls rs (snd wl) (snd wl') st.
Proof.
  unfold put_implicit_registration_set. destruct (has_changed irs).
  - apply perform_log. intros r x. apply touches_put_irs.
  - intros [= <- <- <-]. apply contract_at_once.
Qed.

Lemma delete_irs_log fuel ls rs irs wl st irs' wl' :
  delete_implicit_registration_set fuel ls rs irs progress wl = Done (st, irs') wl' ->
  progress_contract ls rs (snd wl) (snd wl') st.
Proof.
  unfold delete_implicit_registration_set. destruct (_existing irs).
  - apply perform_log. intros r x. apply touches_delete_irs.
  - intros [= <- <- <-]. apply contract_at_once.
Qed.
End logged.

(** ** Properties *)

(** C12: storing a registration set first works on the local store only; if
    that succeeds the progress callback is called, once, before any remote
    store is touched, otherwise it is not called and the remote stores are
    left alone; the status is that of the local store.  The same holds for
    deleting one or several sets and for storing a subscription. *)
Theorem progress_exactly_once `{ImpuStoreOps W} fuel ls rs (wl wl' : @logged W) st :
  (forall irs irs', put_implicit_registration_set fuel ls rs irs progress wl = Done (st, irs') wl' ->
     progress_contract ls rs (snd wl) (snd wl') st) /\
  (forall irs irs', delete_implicit_registration_set fuel ls rs irs progress wl =
                      Done (st, irs') wl' ->
     progress_contract ls rs (snd wl) (snd wl') st) /\
  (forall irss irss', delete_implicit_registration_sets fuel ls rs irss progress wl =
                        Done (st, irss') wl' ->
     progress_contract ls rs (snd wl) (snd wl') st) /\
  (forall sub sub', put_ims_subscription fuel ls rs sub progress wl = Done (st, sub') wl' ->
     progress_contract ls rs (snd wl) (snd wl') st).
Proof.
  split; [|split; [|split]]; intros x x'.
  - apply put_irs_log.
  - apply delete_irs_log.
  - apply perform_log, touches_delete_irss.
  - apply perform_log, touches_put_sub.
Qed.

Definition start : @logged Mem.mem := (Mem.empty_at 500, []).

Lemma progress_exactly_once_witness :
  exists irs' wl', put_implicit_registration_set 2 0 [1%nat] sample_irs progress start =
                     Done (Store.OK, irs') wl' /\
    progress_contract 0 [1%nat] [] (snd wl') Store.OK.
Proof.
  assert (E : exists irs' wl', put_implicit_registration_set 2 0 [1%nat] sample_irs progress start =
                     Done (Store.OK, irs') wl') by (eexists _, _; vm_compute; reflexivity).
  destruct E as (irs' & wl' & E). exists irs', wl'. split; [exact E|].
  exact (proj1 (progress_exactly_once 2 0 [1%nat] start wl' Store.OK) sample_irs irs' E).
Defined.
