(* ===== verification/HssCache.v ===== *)
(** * The interface of a cache

    [HssCache] of [include/hss_cache.h] as a class: what the cache processor and
    the tasks above it call.  Its contract, which the comments of that file and
    of [include/hss_cache_processor.h] give, is the class [LawfulHssCache]: a
    read that succeeds gives its result, and a write calls the progress callback
    once when it succeeds and never otherwise.  [MemcachedCache] is a lawful
    instance. *)

From Stdlib Require Import String ZArith Lia.
From stdpp Require Import base list strings option.
From S2P Require Import Prelude StdMap Types Env Concrete ImpuStore XmlUtils Irs MemcachedCache CacheProgress.
Open Scope Z_scope.

Class HssCache (W : Type) := {
  cache_get_irs_for_impu : string -> IO W (Store.Status * option Irs);
  cache_get_irss_for_impis : list string -> IO W (Store.Status * list Irs);
  cache_get_irss_for_impus : list string -> IO W (Store.Status * list Irs);
  cache_put_irs : Irs -> IO W unit -> IO W (Store.Status * Irs);
  cache_delete_irs : Irs -> IO W unit -> IO W (Store.Status * Irs);
  cache_delete_irss : list Irs -> IO W unit -> IO W (Store.Status * list Irs);
  cache_get_ims_subscription : string -> IO W (Store.Status * option (std_map Irs));
  cache_put_ims_subscription :
    std_map Irs -> IO W unit -> IO W (Store.Status * std_map Irs)
}.

(** A progress callback whose calls can be counted. *)
Class ProgressCallback (W : Type) := {
  progress_cb : IO W unit;
  progress_calls : W -> nat;
  progress_cb_called : forall w, exists w',
    progress_cb w = Done tt w' /\ progress_calls w' = S (progress_calls w)
}.

(** A write with the callback that ends as [r]. *)
Definition called_on_success {W A} `{ProgressCallback W}
    (write : IO W unit -> IO W (Store.Status * A)) : Prop :=
  forall w st a w', write progress_cb w = Done (st, a) w' ->
    progress_calls w' = (progress_calls w + if status_eqb st Store.OK then 1 else 0)%nat.

Definition found_on_success {W A} (read : IO W (Store.Status * option A)) : Prop :=
  forall w st o w', read w = Done (st, o) w' -> st = Store.OK -> exists a, o = Some a.

Class LawfulHssCache (W : Type) `{HssCache W} `{ProgressCallback W} := {
  get_irs_found : forall impu, found_on_success (cache_get_irs_for_impu impu);
  get_subscription_found : forall impi, found_on_success (cache_get_ims_subscription impi);
  put_irs_called : forall irs, called_on_success (cache_put_irs irs);
  delete_irs_called : forall irs, called_on_success (cache_delete_irs irs);
  delete_irss_called : forall irss, called_on_success (cache_delete_irss irss);
  put_subscription_called : forall sub, called_on_success (cache_put_ims_subscription sub)
}.

(** ** [MemcachedCache] *)

Definition memcached_cache {W} `{ImpuStoreOps W} (fuel local_store : nat)
    (remote_stores : list nat) : HssCache W := {|
  cache_get_irs_for_impu := get_implicit_registration_set_for_impu local_store remote_stores;
  cache_get_irss_for_impis := fun impis =>
    get_implicit_registration_sets_for_impis local_store remote_stores impis [];
  cache_get_irss_for_impus := fun impus =>
    get_implicit_registration_sets_for_impus local_store remote_stores impus [];
  cache_put_irs := put_implicit_registration_set fuel local_store remote_stores;
  cache_delete_irs := delete_implicit_registration_set fuel local_store remote_stores;
  cache_delete_irss := delete_implicit_registration_sets fuel local_store remote_stores;
  cache_get_ims_subscription := get_ims_subscription local_store remote_stores;
  cache_put_ims_subscription := put_ims_subscription fuel local_store remote_stores
|}.

Lemma memcached_get_irs_found {W} `{ImpuStoreOps W} ls rs impu :
  found_on_success (get_implicit_registration_set_for_impu (W := W) ls rs impu).
Proof.
  unfold get_implicit_registration_set_for_impu. intros w st o w' Hd E0. subst st.
  apply bind_inv in Hd as ([st1 d1] & w1 & _ & Hd).
  apply bind_inv in Hd as ([st2 d2] & w2 & _ & Hd).
  destruct (status_eqb st2 Store.OK) eqn:E.
  - apply bind_inv in Hd as (p & w3 & _ & Hd). destruct p as [b d|b a]; [|done].
    apply bind_inv in Hd as (now & w4 & _ & Hd). injection Hd as _ <- _. eauto.
  - injection Hd as -> _ _. by rewrite status_eqb_refl in E.
Qed.

Lemma memcached_subscription_found {W} `{ImpuStoreOps W} ls rs impi :
  found_on_success (get_ims_subscription (W := W) ls rs impi).
Proof.
  unfold get_ims_subscription. intros w st o w' Hd E0. subst st.
  apply bind_inv in Hd as ([st1 m1] & w1 & _ & Hd).
  destruct (status_eqb st1 Store.OK) eqn:E1; [|injection Hd as -> _ _; by rewrite status_eqb_refl in E1].
  apply bind_inv in Hd as (m & w2 & _ & Hd). apply bind_inv in Hd as ([st2 irss] & w3 & _ & Hd).
  destruct (status_eqb st2 Store.OK) eqn:E2; [injection Hd as _ <- _; eauto|].
  injection Hd as -> _ _. by rewrite status_eqb_refl in E2.
Qed.

Section memcached.
Context {W : Type} `{ImpuStoreOps W}.

(** The calls of the callback in a log. *)
Definition is_progress (e : event) : bool := match e with Progress => true | Access _ => false end.

Definition calls_in (log : list event) : nat := length (List.filter is_progress log).

#[export] Program Instance logged_callback : ProgressCallback (@logged W) := {|
  progress_cb := progress;
  progress_calls := fun wl => calls_in (snd wl)
|}.
Next Obligation.
  intros [w log]. eexists. split; [reflexivity|]. unfold calls_in. cbn [snd].
  rewrite List.filter_app, length_app. simpl. lia.
Qed.

Lemma calls_app l1 l2 : calls_in (l1 ++ l2) = (calls_in l1 + calls_in l2)%nat.
Proof. unfold calls_in. by rewrite List.filter_app, length_app. Qed.

Lemma calls_none (P : event -> Prop) l :
  (forall e, P e -> e <> Progress) -> Forall P l -> calls_in l = 0%nat.
Proof.
  intros HP. unfold calls_in. induction 1 as [|e l He Hl IH]; [done|]. simpl.
  destruct e; [done|]. by destruct (HP _ He).
Qed.

Lemma contract_calls ls rs before after st :
  progress_contract ls rs before after st ->
  calls_in after = (calls_in before + if status_eqb st Store.OK then 1 else 0)%nat.
Proof.
  intros (l1 & l2 & -> & H1 & H2). rewrite !calls_app, (calls_none (only ls) l1); [|by intros e ->|done].
  destruct (status_eqb st Store.OK); [|done].
  change (Progress :: l2) with ([Progress] ++ l2).
  rewrite calls_app, (calls_none (fun e => exists r, r ∈ rs /\ e = Access r) l2); [done| |done].
  by intros e (r & _ & ->).
Qed.

#[export] Instance memcached_lawful fuel ls rs :
  LawfulHssCache (@logged W) (H := memcached_cache fuel ls rs).
Proof.
  split.
  - intros impu. apply memcached_get_irs_found.
  - intros impi. apply memcached_subscription_found.
  - intros irs w st a w' E. eapply contract_calls, put_irs_log. exact E.
  - intros irs w st a w' E. eapply contract_calls, delete_irs_log. exact E.
  - intros irss w st a w' E. eapply contract_calls, perform_log; [|exact E].
    intros. apply touches_delete_irss.
  - intros sub w st a w' E. eapply contract_calls, perform_log; [|exact E].
    intros. apply touches_put_sub.
Qed.
End memcached.
