(* ===== verification/CacheReads.v ===== *)
(** * Reading registration sets

    What the reading operations of [MemcachedCache.v] return, over stores that
    follow the contract [LawfulImpuStore], and how they treat failing stores. *)

From Stdlib Require Import String ZArith Lia.
From stdpp Require Import base list strings option.
From S2P Require Import Prelude StdMap Types Env Concrete ImpuStore XmlUtils Irs MemcachedCache.
Open Scope Z_scope.

(** The first value the stores have, in their order. *)
Fixpoint first_of {A} (f : nat -> option A) (stores : list nat) : option A :=
  match stores with
  | [] => None
  | s :: rest => match f s with Some a => Some a | None => first_of f rest end
  end.

Section reads.
Context {W : Type} `{LawfulImpuStore W}.
Context (ls : nat) (rs : list nat).

(** The record an identity has, the local store's first. *)
Definition impu_gr (w : W) (i : string) : option Impu :=
  first_of (fun s => stored_impu w s i) (ls :: rs).

Definition mapping_gr (w : W) (i : string) : option ImpiMapping :=
  first_of (fun s => stored_mapping w s i) (ls :: rs).

(** The default record an identity belongs to: its own, or the one its record
    points to if that one lists it. *)
Definition resolve (w : W) (i : string) : option (ImpuBase * DefaultData) :=
  match impu_gr w i with
  | Some (DefaultImpu b d) => Some (b, d)
  | Some (AssociatedImpu _ a) =>
      match impu_gr w a with
      | Some (DefaultImpu b d) => if has_associated_impu d i then Some (b, d) else None
      | _ => None
      end
  | None => None
  end.

Definition resolved_irs (w : W) (i : string) : option Irs :=
  (fun bd => irs_of_impu (fst bd) (snd bd) (store_time w)) <$> resolve w i.

Lemma get_impu_stored w s i :
  sound w ->
  get_impu s i w =
  Done (match stored_impu w s i with Some _ => Store.OK | None => Store.NOT_FOUND end,
        stored_impu w s i) w.
Proof. intros Hw. rewrite get_impu_law by done. by destruct (stored_impu w s i). Qed.

Lemma get_mapping_stored w s i :
  sound w ->
  get_impi_mapping s i w =
  Done (match stored_mapping w s i with Some _ => Store.OK | None => Store.NOT_FOUND end,
        stored_mapping w s i) w.
Proof. intros Hw. rewrite get_mapping_law by done. by destruct (stored_mapping w s i). Qed.

(** The answers of the remote stores. *)
Lemma remote_answers w i stores acc :
  sound w ->
  foreach (fun r acc => x <- get_impu r i ;; ret (acc ++ [x])) stores acc w =
  Done (acc ++ map (fun r => (match stored_impu w r i with
                              | Some _ => Store.OK | None => Store.NOT_FOUND end,
                              stored_impu w r i)) stores) w.
Proof.
  intros Hw. revert acc. induction stores as [|r stores IH]; intros acc; simpl.
  - by rewrite app_nil_r.
  - erewrite bind_done by (erewrite bind_done by (by apply get_impu_stored); reflexivity).
    by rewrite IH, <- app_assoc.
Qed.

Lemma use_remote_ok l x : fold_left use_remote l (Store.OK, x) = (Store.OK, x).
Proof. induction l as [|a l IH]; simpl; [done|]. unfold use_remote at 2. simpl. by rewrite IH. Qed.

Lemma use_remote_first w i stores :
  fold_left use_remote
    (map (fun r => (match stored_impu w r i with
                    | Some _ => Store.OK | None => Store.NOT_FOUND end,
                    stored_impu w r i)) stores) (Store.NOT_FOUND, None) =
  (match first_of (fun s => stored_impu w s i) stores with
   | Some _ => Store.OK | None => Store.NOT_FOUND end,
   first_of (fun s => stored_impu w s i) stores).
Proof.
  induction stores as [|r stores IH]; simpl; [done|].
  unfold use_remote at 2. simpl. destruct (stored_impu w r i) as [x|]; simpl.
  - apply use_remote_ok.
  - by rewrite IH.
Qed.

Lemma impu_gr_read w i :
  sound w ->
  get_impu_for_impu_gr ls rs i w =
  Done (match impu_gr w i with Some _ => Store.OK | None => Store.NOT_FOUND end, impu_gr w i) w.
Proof.
  intros Hw. unfold get_impu_for_impu_gr, impu_gr. simpl.
  erewrite bind_done by (by apply get_impu_stored).
  destruct (stored_impu w ls i) as [x|]; simpl; [done|].
  erewrite bind_done by (by apply remote_answers). simpl.
  unfold ret. by rewrite use_remote_first.
Qed.

Lemma mapping_gr_read w i :
  sound w ->
  get_impi_mapping_gr ls rs i w =
  Done (match mapping_gr w i with Some _ => Store.OK | None => Store.NOT_FOUND end,
        mapping_gr w i) w.
Proof.
  intros Hw. unfold get_impi_mapping_gr, mapping_gr. simpl.
  erewrite bind_done by (by apply get_mapping_stored).
  destruct (stored_mapping w ls i) as [x|]; simpl; [done|].
  induction rs as [|r l IH]; simpl; [done|].
  erewrite bind_done by (by apply get_mapping_stored).
  by destruct (stored_mapping w r i).
Qed.

Lemma irs_for_impu_read w i :
  sound w ->
  get_implicit_registration_set_for_impu ls rs i w =
  Done (match resolve w i with Some _ => Store.OK | None => Store.NOT_FOUND end,
        resolved_irs w i) w.
Proof.
  intros Hw. unfold get_implicit_registration_set_for_impu, resolved_irs, resolve.
  unfold bind, deref, ret. rewrite impu_gr_read by done.
  destruct (impu_gr w i) as [[b d|b a]|]; simpl; [done| |done].
  rewrite impu_gr_read by done.
  destruct (impu_gr w a) as [[b' d'|b' a']|]; simpl; [|done..].
  by destruct (has_associated_impu d' i).
Qed.

Lemma first_of_key w i b d : impu_gr w i = Some (DefaultImpu b d) -> impu b = i.
Proof.
  unfold impu_gr. induction (ls :: rs) as [|s l IH]; simpl; [done|].
  destruct (stored_impu w s i) as [x|] eqn:E; [|done].
  intros [= ->]. by apply stored_key in E as [? _].
Qed.

Lemma resolve_contains w i b d :
  resolve w i = Some (b, d) -> impu b = i \/ i ∈ associated_impus d.
Proof.
  unfold resolve. destruct (impu_gr w i) as [[b' d'|b' a]|] eqn:E; [| |done].
  - intros [= -> ->]. left. by eapply first_of_key.
  - destruct (impu_gr w a) as [[b2 d2|]|]; [|done..].
    destruct (has_associated_impu d2 i) eqn:Ha; [|done]. intros [= -> ->]. right.
    by apply in_vector_spec.
Qed.

(** The first of several identities that has a registration set. *)
Fixpoint first_resolved (w : W) (impus : list string) : option Irs :=
  match impus with
  | [] => None
  | i :: rest => match resolved_irs w i with Some x => Some x | None => first_resolved w rest end
  end.

Lemma irss_for_impus_loop_read w impus st acc :
  sound w ->
  irss_for_impus_loop ls rs impus st acc w =
  Done (st, acc ++ match first_resolved w impus with Some x => [x] | None => [] end) w.
Proof.
  intros Hw. induction impus as [|i impus IH]; simpl; [by rewrite app_nil_r|].
  erewrite bind_done by (by apply irs_for_impu_read). unfold resolved_irs.
  by destruct (resolve w i) as [[b d]|]; simpl.
Qed.

Lemma irss_for_impus_read w impus acc :
  sound w ->
  get_implicit_registration_sets_for_impus ls rs impus acc w =
  Done (Store.OK, acc ++ match first_resolved w impus with Some x => [x] | None => [] end) w.
Proof.
  intros Hw. unfold get_implicit_registration_sets_for_impus.
  by erewrite bind_done by (by apply irss_for_impus_loop_read).
Qed.

(** The registration set an IMPI leads to. *)
Definition irs_for_impi (w : W) (p : string) : option Irs :=
  m ← mapping_gr w p; first_resolved w (_default_impus m).

Lemma irss_for_impi_read w p acc :
  sound w ->
  get_implicit_registration_sets_for_impi ls rs p acc w =
  Done (match mapping_gr w p with Some _ => Store.OK | None => Store.NOT_FOUND end,
        acc ++ match irs_for_impi w p with Some x => [x] | None => [] end) w.
Proof.
  intros Hw. unfold get_implicit_registration_sets_for_impi, get_impus_for_impi, irs_for_impi.
  unfold bind, deref, ret. rewrite mapping_gr_read by done.
  destruct (mapping_gr w p) as [m|]; simpl.
  - by apply irss_for_impus_read.
  - by rewrite app_nil_r.
Qed.

Lemma irss_for_impis_read w ps :
  sound w ->
  get_implicit_registration_sets_for_impis ls rs ps [] w =
  Done (Store.OK, omap (irs_for_impi w) ps) w.
Proof.
  intros Hw. unfold get_implicit_registration_sets_for_impis.
  assert (Hl : forall st acc, irss_for_impis_loop ls rs ps st acc w =
                 Done (st, acc ++ omap (irs_for_impi w) ps) w).
  { induction ps as [|p l IH]; intros st acc; simpl; [by rewrite app_nil_r|].
    erewrite bind_done by (by apply irss_for_impi_read).
    destruct (irs_for_impi w p) as [x|] eqn:Ei; unfold irs_for_impi in Ei;
      destruct (mapping_gr w p) as [m|]; simpl in Ei |- *; try done.
    - by rewrite IH, <- app_assoc.
    - by rewrite app_nil_r. }
  by erewrite bind_done by apply Hl.
Qed.
End reads.

(** Answers of remote stores turn a status into OK or leave it. *)
Lemma use_remote_status l st x :
  fst (fold_left use_remote l (st, x)) = st \/ fst (fold_left use_remote l (st, x)) = Store.OK.
Proof.
  revert st x. induction l as [|r l IH]; intros st x; simpl; [by left|].
  unfold use_remote at 2 4. destruct (negb _ && _); [|apply IH].
  destruct (IH Store.OK (snd r)); by right.
Qed.

(** ** Properties *)

(** C30: reading an identity returns the record of the local store, or else of
    the first remote store that has one, and is NOT_FOUND only when none has;
    the same holds for the mapping of a private identity. *)
Theorem geo_redundant_reads `{LawfulImpuStore W} ls rs (w : W) i :
  sound w ->
  get_impu_for_impu_gr ls rs i w =
    Done (match impu_gr ls rs w i with Some _ => Store.OK | None => Store.NOT_FOUND end,
          impu_gr ls rs w i) w /\
  get_impi_mapping_gr ls rs i w =
    Done (match mapping_gr ls rs w i with Some _ => Store.OK | None => Store.NOT_FOUND end,
          mapping_gr ls rs w i) w.
Proof. intros Hw. split; [by apply impu_gr_read|by apply mapping_gr_read]. Qed.

(** An error of the local store other than NOT_FOUND is returned as it is,
    without asking the remote stores; after a local NOT_FOUND the errors of the
    remote stores never surface. *)
Theorem remote_errors_hidden `{ImpuStoreOps W} ls rs i (w w' : W) status out :
  get_impu_for_impu_gr ls rs i w = Done (status, out) w' ->
  exists local_status local_out w0,
    get_impu ls i w = Done (local_status, local_out) w0 /\
    (local_status <> Store.NOT_FOUND -> status = local_status /\ out = local_out /\ w' = w0) /\
    (local_status = Store.NOT_FOUND -> status = Store.OK \/ status = Store.NOT_FOUND).
Proof.
  unfold get_impu_for_impu_gr. intros ([st o] & w0 & E & H2)%bind_inv.
  exists st, o, w0. split; [done|]. destruct (status_eqb st Store.NOT_FOUND) eqn:Es.
  - apply status_eqb_eq in Es as ->. split; [done|]. intros _.
    apply bind_inv in H2 as (results & w1 & _ & H2). injection H2 as Hf _.
    pose proof (use_remote_status results Store.NOT_FOUND o) as Hu. rewrite Hf in Hu.
    simpl in Hu. tauto.
  - injection H2 as <- <- <-. split; [done|]. intros ->. by rewrite status_eqb_refl in Es.
Qed.

(** C22: the set returned for an identity is built from the default record the
    identity resolves to (its own, or the one its associated record points to
    if that lists it back), and contains the identity; anything else is
    NOT_FOUND. *)
Theorem get_irs_for_impu_correct `{LawfulImpuStore W} ls rs (w : W) i :
  sound w ->
  match resolve ls rs w i with
  | Some (b, d) =>
      get_implicit_registration_set_for_impu ls rs i w =
        Done (Store.OK, Some (irs_of_impu b d (store_time w))) w /\
      (i = _default_impu (irs_of_impu b d (store_time w)) \/
       i ∈ get_associated_impus (irs_of_impu b d (store_time w)))
  | None => get_implicit_registration_set_for_impu ls rs i w = Done (Store.NOT_FOUND, None) w
  end.
Proof.
  intros Hw. pose proof (irs_for_impu_read ls rs w i Hw) as E. unfold resolved_irs in E.
  destruct (resolve ls rs w i) as [[b d]|] eqn:R; [|exact E]. split; [exact E|].
  apply resolve_contains in R as [<-|R]; [by left|]. right. by apply present_set_all.
Qed.

(** For a list of public identities the cache returns at most one
    registration set, that of the first identity that has one; for a list of
    private identities, at most one for each. *)
Theorem get_irss_at_most_one `{LawfulImpuStore W} ls rs (w : W) l :
  sound w ->
  get_implicit_registration_sets_for_impus ls rs l [] w =
    Done (Store.OK, match first_resolved ls rs w l with Some x => [x] | None => [] end) w /\
  get_implicit_registration_sets_for_impis ls rs l [] w =
    Done (Store.OK, omap (irs_for_impi ls rs w) l) w.
Proof.
  intros Hw. split; [exact (irss_for_impus_read ls rs w l [] Hw)|by apply irss_for_impis_read].
Qed.

(** ** Witnesses *)

(** A sound store that holds a record. *)
Lemma populated :
  exists (w : Mem.mem) c, sound w /\ store_time w = 500 /\
    stored_impu w 0 "sip:a@b" = Some (restored sample_impu c 0).
Proof.
  assert (Hs : sound (Mem.empty_at 500)) by apply empty_sound.
  assert (Hc : can_store (W := Mem.mem) sample_impu) by apply sample_storable.
  destruct (set_impu_without_cas_stores (Mem.empty_at 500) 0 sample_impu Hs Hc eq_refl)
    as (w & c & _ & Hw & Ht & Hi & _).
  exists w, c. split; [done|]. split; [done|]. by rewrite Hi.
Qed.

Lemma geo_redundant_reads_witness :
  exists (w : Mem.mem) c,
    get_impu_for_impu_gr 0 [1%nat] "sip:a@b" w =
      Done (Store.OK, Some (restored sample_impu c 0)) w.
Proof.
  destruct populated as (w & c & Hw & _ & Hi). exists w, c.
  destruct (geo_redundant_reads 0 [1%nat] w "sip:a@b" Hw) as [E _].
  assert (Hg : impu_gr 0 [1%nat] w "sip:a@b" = Some (restored sample_impu c 0)).
  { unfold impu_gr, first_of. rewrite Hi. reflexivity. }
  rewrite Hg in E. exact E.
Defined.

Lemma remote_errors_hidden_witness :
  exists local_status local_out w0,
    get_impu 0 "sip:a@b" (Mem.empty_at 500) = Done (local_status, local_out) w0 /\
    (local_status <> Store.NOT_FOUND ->
       Store.NOT_FOUND = local_status /\ None = local_out /\ Mem.empty_at 500 = w0) /\
    (local_status = Store.NOT_FOUND ->
       Store.NOT_FOUND = Store.OK \/ Store.NOT_FOUND = Store.NOT_FOUND).
Proof.
  apply (remote_errors_hidden 0 [1%nat] "sip:a@b" (Mem.empty_at 500) (Mem.empty_at 500)
           Store.NOT_FOUND None).
  vm_compute. reflexivity.
Defined.

Lemma get_irs_for_impu_correct_witness :
  exists (w : Mem.mem) b d,
    get_implicit_registration_set_for_impu 0 [1%nat] "sip:a@b" w =
      Done (Store.OK, Some (irs_of_impu b d (store_time w))) w.
Proof.
  destruct populated as (w & c & Hw & _ & Hi).
  pose proof (get_irs_for_impu_correct 0 [1%nat] w "sip:a@b" Hw) as E.
  assert (Hr : exists b d, resolve 0 [1%nat] w "sip:a@b" = Some (b, d)).
  { unfold resolve, impu_gr, first_of. rewrite Hi. simpl. eexists _, _. reflexivity. }
  destruct Hr as (b & d & Hr). exists w, b, d. rewrite Hr in E. exact (proj1 E).
Defined.

Lemma get_irss_at_most_one_witness :
  get_implicit_registration_sets_for_impus 0 [1%nat] ["sip:a@b"; "sip:c@d"]%string []
    (Mem.empty_at 500) =
  Done (Store.OK, match first_resolved 0 [1%nat] (Mem.empty_at 500) ["sip:a@b"; "sip:c@d"]%string with
                  | Some x => [x] | None => [] end) (Mem.empty_at 500).
Proof.
  apply (get_irss_at_most_one 0 [1%nat] (Mem.empty_at 500) ["sip:a@b"; "sip:c@d"]%string).
  apply empty_sound.
Defined.
