(* ===== verification/Latency.v ===== *)
(** * What a read adds to the latency of a request

    The reads of [src/memcached_cache.cpp] with their stopwatches: the stopwatch
    of a request is paused while its thread waits for the network, and stopped
    while it waits for the remote stores, whose own stopwatches tell what to add.
    The time a read takes is a list of phases on its thread, and what happens
    between the reads is taken to take no time; the stopwatch is the one of
    cpp-common. *)

From Stdlib Require Import String ZArith Lia.
From stdpp Require Import base list strings option.
From S2P Require Import Prelude StdMap Types Env Concrete ImpuStore XmlUtils Irs MemcachedCache CacheReads.
Open Scope Z_scope.

(** [Utils::StopWatch]; [sw_pass] is time going by. *)
Class StopWatch (S : Type) := {
  sw_new : S;
  sw_start : S -> S;
  sw_stop : S -> S;
  sw_add_time : Z -> S -> S;
  sw_pass : Z -> S -> S;
  sw_read : S -> Z;
  sw_running : S -> bool
}.

(** It shows the time during which it ran, and what was added to it. *)
Class LawfulStopWatch (S : Type) `{StopWatch S} := {
  new_law : sw_read sw_new = 0 /\ sw_running sw_new = false;
  start_law : forall s, sw_read (sw_start s) = sw_read s /\ sw_running (sw_start s) = true;
  stop_law : forall s, sw_read (sw_stop s) = sw_read s /\ sw_running (sw_stop s) = false;
  add_law : forall t s,
    sw_read (sw_add_time t s) = sw_read s + t /\ sw_running (sw_add_time t s) = sw_running s;
  pass_law : forall t s, 0 <= t ->
    sw_read (sw_pass t s) = sw_read s + (if sw_running s then t else 0) /\
    sw_running (sw_pass t s) = sw_running s
}.

(** What a thread does: it computes, or waits for the network. *)
Inductive phase := Cpu (us : Z) | Io (us : Z).

Definition phase_ok (p : phase) : Prop := match p with Cpu t | Io t => 0 <= t end.

Fixpoint cpu_time (l : list phase) : Z :=
  match l with
  | [] => 0
  | Cpu t :: l => t + cpu_time l
  | Io _ :: l => cpu_time l
  end.

Section stopwatch.
Context {S : Type} `{StopWatch S}.

Definition pause_stopwatch (s : S) : S := sw_stop s.
Definition resume_stopwatch (s : S) : S := sw_start s.

(** An [IOHook]: what is called when the thread starts to wait, and when it ends. *)
Definition create_hook : (S -> S) * (S -> S) := (pause_stopwatch, resume_stopwatch).

(** A thread goes through [l] while it has the hook. *)
Fixpoint elapse (hook : (S -> S) * (S -> S)) (l : list phase) (s : S) : S :=
  match l with
  | [] => s
  | Cpu t :: l => elapse hook l (sw_pass t s)
  | Io t :: l => elapse hook l (snd hook (sw_pass t (fst hook s)))
  end.
End stopwatch.

Section reads.
Context {W S : Type} `{ImpuStoreOps W} `{StopWatch S}.
Context (local_store : nat) (remote_stores : list nat).

(** How long it takes to read a record from a store, how long the read of a remote
    store waits for a thread of the pool, and how long all of them take. *)
Context (phases_of : nat -> string -> W -> list phase).
Context (queued : nat -> string -> W -> Z) (waited : string -> W -> Z).

Definition observe {A} (f : W -> A) : IO W A := fun w => Done (f w) w.

(** The work item that reads a remote store; its stopwatch starts before it is
    queued. *)
Definition read_remote (stopwatch : option S) (i : string)
    (r : nat) (acc : list (Store.Status * option Impu * Z))
    : IO W (list (Store.Status * option Impu * Z)) :=
  wait <- observe (queued r i) ;;
  phases <- observe (phases_of r i) ;;
  result <- get_impu r i ;;
  let remote_time :=
    match stopwatch with
    | Some _ => sw_read (elapse create_hook phases (sw_pass wait (sw_start sw_new)))
    | None => 0
    end in
  ret (acc ++ [(result, remote_time)]).

(** The answers are collected in order, with the longest time. *)
Definition use_timed (s r : Store.Status * option Impu * Z) : Store.Status * option Impu * Z :=
  (use_remote (fst s) (fst r), if snd s <? snd r then snd r else snd s).

Definition get_impu_for_impu_gr_timed (i : string) (stopwatch : option S)
    : IO W (Store.Status * option Impu * option S) :=
  phases <- observe (phases_of local_store i) ;;
  let* (status, out) := get_impu local_store i in
  let stopwatch := option_map (elapse create_hook phases) stopwatch in
  if status_eqb status Store.NOT_FOUND then
    results <- foreach (read_remote stopwatch i) remote_stores [] ;;
    wait <- observe (waited i) ;;
    let stopwatch := option_map (fun s => sw_pass wait (sw_stop s)) stopwatch in
    let '(status, out, remote_time_to_add) := fold_left use_timed results (status, out, 0) in
    ret (status, out, option_map (fun s => sw_add_time remote_time_to_add (sw_start s)) stopwatch)
  else ret (status, out, stopwatch).

(** The mapping of a private identity: every store is read on this thread, with one
    hook. *)
Fixpoint first_remote_mapping_timed (stores : list nat) (i : string) (status : Store.Status)
    (stopwatch : option S) : IO W (Store.Status * option ImpiMapping * option S) :=
  match stores with
  | [] => ret (status, None, stopwatch)
  | r :: rest =>
      phases <- observe (phases_of r i) ;;
      let* (remote_status, out) := get_impi_mapping r i in
      let stopwatch := option_map (elapse create_hook phases) stopwatch in
      if status_eqb remote_status Store.OK then ret (remote_status, out, stopwatch)
      else first_remote_mapping_timed rest i status stopwatch
  end.

Definition get_impi_mapping_gr_timed (i : string) (stopwatch : option S)
    : IO W (Store.Status * option ImpiMapping * option S) :=
  phases <- observe (phases_of local_store i) ;;
  let* (status, out) := get_impi_mapping local_store i in
  let stopwatch := option_map (elapse create_hook phases) stopwatch in
  if status_eqb status Store.NOT_FOUND
  then first_remote_mapping_timed remote_stores i status stopwatch
  else ret (status, out, stopwatch).
End reads.

(** ** What the stopwatch shows *)

Section laws.
Context {S : Type} `{LawfulStopWatch S}.

Lemma new_started : sw_read (sw_start sw_new) = 0 /\ sw_running (sw_start sw_new) = true.
Proof. pose proof (start_law sw_new) as [-> ->]. by pose proof new_law as [-> _]. Qed.

Lemma pass_running t s :
  0 <= t -> sw_running s = true ->
  sw_read (sw_pass t s) = sw_read s + t /\ sw_running (sw_pass t s) = true.
Proof. intros Ht Hr. pose proof (pass_law t s Ht) as [-> ->]. by rewrite Hr. Qed.

Lemma pass_stopped t s :
  0 <= t -> sw_read (sw_pass t (sw_stop s)) = sw_read s.
Proof.
  intros Ht. pose proof (pass_law t (sw_stop s) Ht) as [-> _]. pose proof (stop_law s) as [-> ->]. lia.
Qed.

(** With the hook, only computing counts. *)
Lemma elapse_cpu l s :
  Forall phase_ok l -> sw_running s = true ->
  sw_read (elapse create_hook l s) = sw_read s + cpu_time l /\
  sw_running (elapse create_hook l s) = true.
Proof.
  intros Hl. revert s. induction Hl as [|p l Hp Hl IH]; intros s Hr; [simpl; split; [lia|done]|].
  destruct p as [t|t]; cbn [elapse cpu_time create_hook fst snd].
  - destruct (pass_running t s Hp Hr) as [E1 E2]. destruct (IH _ E2) as [-> ->]. rewrite E1. split; [lia|done].
  - unfold pause_stopwatch, resume_stopwatch. set (s1 := sw_pass t (sw_stop s)).
    pose proof (start_law s1) as [E1 E2]. destruct (IH _ E2) as [-> ->]. unfold s1 in *.
    by rewrite E1, pass_stopped.
Qed.

Lemma stopped_then_added t wait s :
  0 <= wait ->
  sw_read (sw_add_time t (sw_start (sw_pass wait (sw_stop s)))) = sw_read s + t /\
  sw_running (sw_add_time t (sw_start (sw_pass wait (sw_stop s)))) = true.
Proof.
  intros Hw. set (s1 := sw_pass wait (sw_stop s)). pose proof (add_law t (sw_start s1)) as [-> ->].
  pose proof (start_law s1) as [-> ->]. unfold s1. by rewrite pass_stopped.
Qed.
End laws.

(** The longest of some times that are not negative. *)
Fixpoint longest (l : list Z) : Z := match l with [] => 0 | t :: l => Z.max t (longest l) end.

Section latency.
Context {W S : Type} `{LawfulImpuStore W} `{LawfulStopWatch S}.
Context (ls : nat) (rs : list nat).
Context (phases_of : nat -> string -> W -> list phase).
Context (queued : nat -> string -> W -> Z) (waited : string -> W -> Z).
Context (Hphases : forall r i w, Forall phase_ok (phases_of r i w)).
Context (Hqueued : forall r i w, 0 <= queued r i w) (Hwaited : forall i w, 0 <= waited i w).

(** What the read of a remote store counts for. *)
Definition remote_latency (w : W) (i : string) (r : nat) : Z :=
  queued r i w + cpu_time (phases_of r i w).

(** What the read of a record counts for. *)
Definition impu_latency (w : W) (i : string) : Z :=
  cpu_time (phases_of ls i w) +
  match stored_impu w ls i with
  | Some _ => 0
  | None => longest (map (remote_latency w i) rs)
  end.

(** The stores a read of a mapping gets to. *)
Fixpoint until_found (w : W) (i : string) (stores : list nat) : list nat :=
  match stores with
  | [] => []
  | s :: rest => s :: match stored_mapping w s i with Some _ => [] | None => until_found w i rest end
  end.

Fixpoint total (l : list Z) : Z := match l with [] => 0 | t :: l => t + total l end.

Definition mapping_latency (w : W) (i : string) : Z :=
  total (map (fun s => cpu_time (phases_of s i w)) (until_found w i (ls :: rs))).

Lemma remote_timed w i (s : S) stores acc :
  sound w ->
  foreach (read_remote phases_of queued (Some s) i) stores acc w =
  Done (acc ++ map (fun r =>
    ((match stored_impu w r i with Some _ => Store.OK | None => Store.NOT_FOUND end,
      stored_impu w r i), remote_latency w i r)) stores) w.
Proof.
  intros Hw. revert acc. induction stores as [|r stores IH]; intros acc; simpl; [by rewrite app_nil_r|].
  assert (E : read_remote phases_of queued (Some s) i r acc w =
    Done (acc ++ [((match stored_impu w r i with Some _ => Store.OK | None => Store.NOT_FOUND end,
      stored_impu w r i), remote_latency w i r)]) w).
  { unfold read_remote, observe. erewrite bind_done by reflexivity. erewrite bind_done by reflexivity.
    erewrite bind_done by (by apply get_impu_stored). unfold ret. do 2 f_equal.
    destruct new_started as [En Er]. destruct (pass_running (queued r i w) _ (Hqueued r i w) Er) as [Ep Er2].
    destruct (elapse_cpu _ _ (Hphases r i w) Er2) as [-> _]. unfold remote_latency. by rewrite Ep, En. }
  by rewrite (bind_done _ _ _ _ _ E), IH, <- app_assoc.
Qed.

Lemma use_timed_split l s t :
  0 <= t ->
  fold_left use_timed l (s, t) = (fold_left use_remote (map fst l) s, Z.max t (longest (map snd l))).
Proof.
  revert s t. induction l as [|[r u] l IH]; intros s t Ht; cbn [fold_left map longest].
  { by rewrite Z.max_l. }
  unfold use_timed at 2. cbn [fst snd]. destruct (Z.ltb_spec t u).
  - rewrite IH by lia. f_equal. lia.
  - rewrite IH by lia. f_equal. lia.
Qed.

Lemma impu_read_timed w i s :
  sound w -> sw_running s = true ->
  exists s', get_impu_for_impu_gr_timed ls rs phases_of queued waited i (Some s) w =
      Done (match impu_gr ls rs w i with Some _ => Store.OK | None => Store.NOT_FOUND end,
            impu_gr ls rs w i, Some s') w /\
    sw_running s' = true /\ sw_read s' = sw_read s + impu_latency w i.
Proof.
  intros Hw Hr. unfold get_impu_for_impu_gr_timed, impu_latency, impu_gr. cbn [first_of].
  unfold observe at 1. erewrite bind_done by reflexivity. erewrite bind_done by (by apply get_impu_stored).
  destruct (elapse_cpu _ _ (Hphases ls i w) Hr) as [E1 E2].
  destruct (stored_impu w ls i) as [x|]; cbn [option_map]; [|rewrite status_eqb_refl].
  { eexists. split; [done|]. split; [done|]. rewrite E1. lia. }
  erewrite bind_done by (by apply remote_timed). unfold observe. erewrite bind_done by reflexivity.
  cbn [app option_map]. rewrite use_timed_split by lia. rewrite !map_map. cbn [fst snd].
  rewrite use_remote_first.
  set (t := Z.max 0 _). destruct (stopped_then_added t _ (elapse create_hook (phases_of ls i w) s) (Hwaited i w))
    as [E3 E4]. eexists. split; [done|]. split; [done|]. rewrite E3, E1. subst t.
  assert (Hl : forall l, 0 <= longest l) by (intros l; induction l; simpl; lia).
  rewrite Z.max_r by apply Hl. unfold remote_latency. lia.
Qed.

Lemma remote_mapping_timed w i stores s :
  sound w -> sw_running s = true ->
  exists s', first_remote_mapping_timed phases_of stores i Store.NOT_FOUND (Some s) w =
      Done (match first_of (fun r => stored_mapping w r i) stores with
            | Some _ => Store.OK | None => Store.NOT_FOUND end,
            first_of (fun r => stored_mapping w r i) stores, Some s') w /\
    sw_running s' = true /\
    sw_read s' = sw_read s + total (map (fun r => cpu_time (phases_of r i w)) (until_found w i stores)).
Proof.
  intros Hw. revert s. induction stores as [|r stores IH]; intros s Hr; cbn [first_remote_mapping_timed].
  { exists s. simpl. split; [done|]. split; [done|lia]. }
  unfold observe. erewrite bind_done by reflexivity. erewrite bind_done by (by apply get_mapping_stored).
  destruct (elapse_cpu _ _ (Hphases r i w) Hr) as [E1 E2]. cbn [option_map until_found first_of map total].
  destruct (stored_mapping w r i) as [m|].
  - eexists. split; [done|]. split; [done|]. rewrite E1. simpl. lia.
  - change (status_eqb Store.NOT_FOUND Store.OK) with false. cbn iota.
    destruct (IH _ E2) as (s' & -> & Hr' & Et). exists s'. split; [done|]. split; [done|].
    rewrite Et, E1. lia.
Qed.

Lemma mapping_read_timed w i s :
  sound w -> sw_running s = true ->
  exists s', get_impi_mapping_gr_timed ls rs phases_of i (Some s) w =
      Done (match mapping_gr ls rs w i with Some _ => Store.OK | None => Store.NOT_FOUND end,
            mapping_gr ls rs w i, Some s') w /\
    sw_running s' = true /\ sw_read s' = sw_read s + mapping_latency w i.
Proof.
  intros Hw Hr. destruct (remote_mapping_timed w i (ls :: rs) s Hw Hr) as (s' & E & Hr' & Et).
  exists s'. split; [|by split]. unfold mapping_gr. rewrite <- E. unfold get_impi_mapping_gr_timed.
  cbn [first_remote_mapping_timed]. unfold bind, observe. rewrite get_mapping_stored by done.
  by destruct (stored_mapping w ls i).
Qed.
End latency.

(** ** Property *)

(** C31: A read adds to the latency of a request the time its thread computes, and
    never the time it waits for the network.  For a record, the remote stores are
    read in parallel and only the slowest of their threads counts, with the time
    it was queued, and only when the local store has no record; for the mapping of a
    private identity, the stores are read one after another up to the first that
    has it.  The result is that of the read as it is without a stopwatch. *)
Theorem read_latency {W S : Type} `{LawfulImpuStore W} `{LawfulStopWatch S} ls rs
    (phases_of : nat -> string -> W -> list phase) (queued : nat -> string -> W -> Z)
    (waited : string -> W -> Z) (w : W) i (s : S) :
  (forall r i w, Forall phase_ok (phases_of r i w)) -> (forall r i w, 0 <= queued r i w) ->
  (forall i w, 0 <= waited i w) -> sound w -> sw_running s = true ->
  (exists status out s',
     get_impu_for_impu_gr_timed ls rs phases_of queued waited i (Some s) w = Done (status, out, Some s') w /\
     get_impu_for_impu_gr ls rs i w = Done (status, out) w /\
     sw_running s' = true /\ sw_read s' = sw_read s + impu_latency ls rs phases_of queued w i) /\
  (exists status out s',
     get_impi_mapping_gr_timed ls rs phases_of i (Some s) w = Done (status, out, Some s') w /\
     get_impi_mapping_gr ls rs i w = Done (status, out) w /\
     sw_running s' = true /\ sw_read s' = sw_read s + mapping_latency ls rs phases_of w i).
Proof.
  intros Hp Hq Hwt Hw Hr. split.
  - destruct (impu_read_timed ls rs _ _ _ Hp Hq Hwt w i s Hw Hr) as (s' & E & Hr' & Et).
    do 2 eexists. exists s'. rewrite (impu_gr_read ls rs w i Hw). eauto.
  - destruct (mapping_read_timed ls rs _ Hp w i s Hw Hr) as (s' & E & Hr' & Et).
    do 2 eexists. exists s'. rewrite (mapping_gr_read ls rs w i Hw). eauto.
Qed.

(** ** Witness *)

(** A stopwatch: what it shows, and whether it runs. *)
#[export] Instance pair_stopwatch : StopWatch (Z * bool) := {|
  sw_new := (0, false);
  sw_start := fun s => (fst s, true);
  sw_stop := fun s => (fst s, false);
  sw_add_time := fun t s => (fst s + t, snd s);
  sw_pass := fun t s => (fst s + (if snd s then t else 0), snd s);
  sw_read := fst;
  sw_running := snd
|}.

#[export] Instance pair_stopwatch_lawful : LawfulStopWatch (Z * bool).
Proof. by split. Qed.

(** Every read computes for 2 us, waits for the network for 700, and computes for 3. *)
Definition sample_phases (r : nat) (_ : string) (_ : Mem.mem) : list phase :=
  [Cpu 2; Io 700; Cpu (3 + Z.of_nat r)].

(** Neither the local store nor the two remote ones have the identity: 5 us for the
    local read, and 7 for the slower of the others, which was queued for 4. *)
Lemma read_latency_witness :
  exists s', get_impu_for_impu_gr_timed 0 [1; 2]%nat sample_phases (fun _ _ _ => 4) (fun _ _ => 900)
      "sip:a@b" (Some (100, true)) (Mem.empty_at 500) =
    Done (Store.NOT_FOUND, None, Some s') (Mem.empty_at 500) /\
    sw_read s' = 100 + 5 + (4 + 7).
Proof.
  destruct (read_latency 0 [1; 2]%nat sample_phases (fun _ _ _ => 4) (fun _ _ => 900)
              (Mem.empty_at 500) "sip:a@b" (100, true)) as [(status & out & s' & E & E2 & _ & Et) _].
  - intros r i w. repeat constructor; simpl; lia.
  - intros; lia.
  - intros; lia.
  - apply empty_sound.
  - reflexivity.
  - exists s'. rewrite E, Et.
    assert (E3 : get_impu_for_impu_gr 0 [1; 2]%nat "sip:a@b" (Mem.empty_at 500) =
      Done (Store.NOT_FOUND, None) (Mem.empty_at 500)) by (vm_compute; reflexivity).
    rewrite E2 in E3. injection E3 as -> ->. split; [reflexivity|vm_compute; reflexivity].
Defined.
