(* ===== verification/CacheWrites.v ===== *)
(** * Writing registration sets

    What storing and deleting a registration set does to a store that follows
    [LawfulImpuStore]: the operations end, and leave the default record, the
    associated records and the mappings of the private identities in step. *)

From Stdlib Require Import String ZArith Lia.
From stdpp Require Import base list strings option.
From S2P Require Import Prelude StdMap Types Env Concrete ImpuStore XmlUtils Irs MemcachedCache CacheReads.
Open Scope Z_scope.

Lemma same_key_true s k s' k' : same_key s k s' k' = true <-> s' = s /\ k' = k.
Proof.
  unfold same_key. rewrite andb_true_iff, Nat.eqb_eq, String.eqb_eq. intuition congruence.
Qed.

Lemma same_key_false s k s' k' : s' <> s \/ k' <> k -> same_key s k s' k' = false.
Proof.
  intros Hne. destruct (same_key s k s' k') eqn:E; [|done]. apply same_key_true in E. tauto.
Qed.

Section writes.
Context {W : Type} `{LawfulImpuStore W}.

(** [w'] is a world the cache reached from [w]: still sound, at the same time. *)
Definition ok_world (w w' : W) : Prop := sound w' /\ store_time w' = store_time w.

Lemma ok_world_trans w1 w2 w3 : ok_world w1 w2 -> ok_world w2 w3 -> ok_world w1 w3.
Proof. intros [_ E1] [? E2]. split; [done|congruence]. Qed.

(** A store a registration set can be written to: its TTL is positive, the
    addition to the time does not overflow, and its records can be stored. *)
Record writable (irs : Irs) (w : W) : Prop := {
  writable_ttl : 0 < _ttl irs;
  writable_time : 0 <= store_time w < 2 ^ 31;
  writable_sum : _ttl irs + store_time w < 2 ^ 31;
  writable_assoc : forall s a, can_store
    (AssociatedImpu (mkImpuBase a 0 (store_time w + _ttl irs) (Some s)) (_default_impu irs));
  writable_default : forall c s, can_store
    (DefaultImpu (mkImpuBase (_default_impu irs) c (_ttl irs + store_time w) s) (impu_data irs));
  writable_mapping : forall p,
    can_map (new_ImpiMapping p (_default_impu irs) (_ttl irs + store_time w))
}.

(** A registration set that can be deleted: the time it would expire at, which
    the code computes on the way, does not overflow. *)
Record deletable (irs : Irs) (w : W) : Prop := {
  deletable_ttl : 0 < _ttl irs;
  deletable_time : 0 <= store_time w < 2 ^ 31;
  deletable_sum : _ttl irs + store_time w < 2 ^ 31
}.

Lemma writable_deletable irs w : writable irs w -> deletable irs w.
Proof. by intros []. Qed.

Lemma deletable_world irs irs' w w' :
  ok_world w w' -> _ttl irs' = _ttl irs -> deletable irs w -> deletable irs' w'.
Proof. intros [_ Ht] He []. split; rewrite ?Ht, ?He; auto. Qed.

(** It is a matter of the time only. *)
Lemma writable_at irs w w' : store_time w' = store_time w -> writable irs w -> writable irs w'.
Proof. intros Ht []. split; rewrite ?Ht; auto. Qed.

Lemma writable_world irs w w' : ok_world w w' -> writable irs w -> writable irs w'.
Proof. intros [_ Ht]. by apply writable_at. Qed.

Lemma time_small' irs w : deletable irs w -> to_int32 (store_time w) = store_time w.
Proof. intros []. apply to_int32_id. unfold int32_range. lia. Qed.

Lemma time_small irs w : writable irs w -> to_int32 (store_time w) = store_time w.
Proof. intros Hw. by apply (time_small' irs), writable_deletable. Qed.

Definition assoc_record (irs : Irs) (w : W) (s : nat) (k : string) (c : Z) : Impu :=
  AssociatedImpu (mkImpuBase k c (store_time w + _ttl irs) (Some s)) (_default_impu irs).

(** ** Writing the associated records *)

Lemma put_associated_impus irs s l w :
  sound w -> writable irs w ->
  exists w', foreach (put_associated_impu irs s) l tt w = Done tt w' /\ ok_world w w' /\
    (forall s' k, stored_mapping w' s' k = stored_mapping w s' k) /\
    (forall k, k ∈ l -> exists c, stored_impu w' s k = Some (assoc_record irs w s k c)) /\
    (forall s' k, s' <> s \/ k ∉ l -> stored_impu w' s' k = stored_impu w s' k).
Proof.
  intros Hw Hwr. revert w Hw Hwr. induction l as [|a l IH]; intros w Hw Hwr; simpl.
  { exists w. split; [done|]. split; [done|]. split; [done|].
    split; [by intros k ?%not_elem_of_nil|done]. }
  pose proof (time_small _ _ Hwr) as Ht. destruct Hwr as [Httl Htm Hsum Ha Hd Hm] eqn:Ewr.
  destruct (set_impu_without_cas_stores w s (assoc_record irs w s a 0) Hw (Ha s a))
    as (w1 & c & E & Hs1 & Ht1 & Hi1 & Hm1); [simpl; lia|].
  assert (Hok : ok_world w w1) by done.
  destruct (IH w1 Hs1 (writable_world _ _ _ Hok Hwr)) as (w2 & E2 & Hok2 & Hm2 & Hin & Hout).
  exists w2. unfold put_associated_impu at 1, time64, bind. fold (assoc_record irs w s a 0).
  rewrite E. simpl. split; [exact E2|]. split; [by eapply ok_world_trans|].
  split; [intros; by rewrite Hm2, Hm1|]. unfold assoc_record in Hin |- *. rewrite Ht1 in Hin.
  split.
  - intros k Hk. destruct (decide (k ∈ l)) as [Hl|Hl]; [auto|].
    rewrite Hout, Hi1 by auto. apply elem_of_cons in Hk as [->|]; [|done].
    rewrite same_key_refl. by exists c.
  - intros s' k Hk. rewrite Hout, Hi1.
    + apply (fun Hf => Hf) in Hk. rewrite same_key_false; [done|].
      destruct Hk as [|Hk]; [by left|]. right. intros ->. apply Hk. by left.
    + destruct Hk as [|Hk]; [by left|]. right. intros Hl. apply Hk. by right.
Qed.

(** Deleting associated records under the keys [P]: those that point to this
    set's default identity go, nothing else changes. *)
Definition assoc_removed (irs : Irs) (s : nat) (P : string -> Prop) (w w' : W) : Prop :=
  ok_world w w' /\
  (forall s' k, stored_mapping w' s' k = stored_mapping w s' k) /\
  (forall k b, P k -> stored_impu w' s k <> Some (AssociatedImpu b (_default_impu irs))) /\
  (forall s' k, stored_impu w' s' k = stored_impu w s' k \/
     s' = s /\ P k /\ stored_impu w' s' k = None /\
     exists b, stored_impu w s' k = Some (AssociatedImpu b (_default_impu irs))).

Lemma remove_associated_impu_step fuel irs s a w :
  sound w -> (1 <= fuel)%nat ->
  exists w', do_while fuel (remove_associated_impu irs s a) contention Store.OK w =
      Done Store.OK w' /\ assoc_removed irs s (eq a) w w'.
Proof.
  intros Hw Hf. destruct fuel as [|f]; [lia|].
  assert (Hsame : (forall b, stored_impu w s a <> Some (AssociatedImpu b (_default_impu irs))) ->
            assoc_removed irs s (eq a) w w).
  { intros Hne. split; [done|]. split; [done|]. split; [by intros k b <-|by left]. }
  destruct (stored_impu w s a) as [[b d|b x]|] eqn:E.
  - exists w. split; [|by apply Hsame]. apply do_while_once; [|done]. unfold remove_associated_impu.
    by rewrite (bind_done _ _ _ _ _ (get_impu_stored w s a Hw)), E.
  - destruct (String.eqb_spec x (_default_impu irs)) as [->|Hne].
    + destruct (delete_impu_law w s (AssociatedImpu b (_default_impu irs)) Hw)
        as (w1 & Ed & Hs1 & Ht1 & Hi1 & Hm1).
      destruct (stored_key _ _ _ _ E) as (Hk & _). rewrite Hk in Hi1. exists w1. split.
      * apply do_while_once; [|done]. unfold remove_associated_impu.
        by rewrite (bind_done _ _ _ _ _ (get_impu_stored w s a Hw)), E, String.eqb_refl.
      * split; [done|]. split; [done|]. split; [intros k b' <-; by rewrite Hi1, same_key_refl|].
        intros s' k. rewrite Hi1. destruct (same_key s a s' k) eqn:Es; [|by left].
        apply same_key_true in Es as [-> ->]. right. eauto.
    + exists w. split; [|apply Hsame; congruence]. apply do_while_once; [|done].
      unfold remove_associated_impu.
      rewrite (bind_done _ _ _ _ _ (get_impu_stored w s a Hw)), E.
      by rewrite (proj2 (String.eqb_neq _ _)).
  - exists w. split; [|by apply Hsame]. apply do_while_once; [|done]. unfold remove_associated_impu.
    by rewrite (bind_done _ _ _ _ _ (get_impu_stored w s a Hw)), E.
Qed.

Lemma remove_associated_impus fuel irs s l w :
  sound w -> (1 <= fuel)%nat ->
  exists w', foreach (fun i status =>
        do_while fuel (remove_associated_impu irs s i) contention status) l Store.OK w =
      Done Store.OK w' /\ assoc_removed irs s (fun k => k ∈ l) w w'.
Proof.
  intros Hw Hf. revert w Hw. induction l as [|a l IH]; intros w Hw; simpl.
  { exists w. split; [done|]. split; [done|]. split; [done|].
    split; [by intros k b ?%not_elem_of_nil|by left]. }
  destruct (remove_associated_impu_step fuel irs s a w Hw Hf)
    as (w1 & E1 & Hok1 & Hm1 & Ha1 & Hv1).
  destruct (IH w1 (proj1 Hok1)) as (w2 & E2 & Hok2 & Hm2 & Hl2 & Hv2).
  exists w2. erewrite bind_done by exact E1. split; [exact E2|].
  split; [by eapply ok_world_trans|]. split; [intros; by rewrite Hm2, Hm1|]. split.
  - intros k b [->|Hk]%elem_of_cons; [|auto].
    destruct (Hv2 s a) as [->|(_ & _ & -> & _)]; auto.
  - intros s' k. destruct (Hv2 s' k) as [->|(-> & Hk & -> & b & Eb)].
    + destruct (Hv1 s' k) as [->|(-> & -> & -> & Hb)]; [by left|]. right.
      split; [done|]. split; [by left|done].
    + right. split; [done|]. split; [by right|]. split; [done|].
      destruct (Hv1 s k) as [<-|(_ & _ & Hn & _)]; [eauto|congruence].
Qed.

(** ** Writing the mappings of the private identities *)

Definition mapping_has (i : string) (o : option ImpiMapping) : Prop :=
  exists m, o = Some m /\ i ∈ _default_impus m.
Definition mapping_lacks (i : string) (o : option ImpiMapping) : Prop :=
  forall m, o = Some m -> i ∉ _default_impus m.

(** Only the mappings of [P] in store [s] change, and they satisfy [Q] after. *)
Definition mappings_changed (s : nat) (P : string -> Prop) (Q : option ImpiMapping -> Prop)
    (w w' : W) : Prop :=
  ok_world w w' /\
  (forall s' k, stored_impu w' s' k = stored_impu w s' k) /\
  (forall k, P k -> Q (stored_mapping w' s k)) /\
  (forall s' k, s' <> s \/ ~ P k -> stored_mapping w' s' k = stored_mapping w s' k).

Lemma mappings_same s p (Q : option ImpiMapping -> Prop) w :
  sound w -> Q (stored_mapping w s p) -> mappings_changed s (eq p) Q w w.
Proof. intros Hw HQ. split; [done|]. split; [done|]. by split; [intros k <-|]. Qed.

Lemma mapping_written_changed s p (Q : option ImpiMapping -> Prop) w w' v :
  mapping_written w w' s p v -> Q v -> mappings_changed s (eq p) Q w w'.
Proof.
  intros (Hs & Ht & Hi & Hm) HQ. split; [done|]. split; [done|]. split.
  - intros k <-. by rewrite Hm, same_key_refl.
  - intros s' k Hk. rewrite Hm, same_key_false; [done|]. destruct Hk as [|Hk]; [by left|].
    right. by intros ->.
Qed.

(** A loop over private identities, each handled on its own. *)
Lemma foreach_mappings irs s l (Q : option ImpiMapping -> Prop)
    (f : string -> Store.Status -> IO W Store.Status) (I : Irs -> W -> Prop) w :
  (forall w w', ok_world w w' -> I irs w -> I irs w') ->
  (forall p w, sound w -> I irs w ->
     exists w', f p Store.OK w = Done Store.OK w' /\ mappings_changed s (eq p) Q w w') ->
  sound w -> I irs w ->
  exists w', foreach f l Store.OK w = Done Store.OK w' /\
    mappings_changed s (fun p => p ∈ l) Q w w'.
Proof.
  intros HI Hf. revert w. induction l as [|p l IH]; intros w Hw Hi; simpl.
  { exists w. split; [done|]. split; [done|]. split; [done|].
    split; [by intros k ?%not_elem_of_nil|done]. }
  destruct (Hf p w Hw Hi) as (w1 & E1 & Hok1 & Hi1 & Hq1 & Hm1).
  destruct (IH w1 (proj1 Hok1) (HI _ _ Hok1 Hi)) as (w2 & E2 & Hok2 & Hi2 & Hq2 & Hm2).
  exists w2. erewrite bind_done by exact E1. split; [exact E2|].
  split; [by eapply ok_world_trans|]. split; [intros; by rewrite Hi2, Hi1|]. split.
  - intros k Hk. destruct (decide (k ∈ l)) as [|Hl]; [auto|].
    apply elem_of_cons in Hk as [->|]; [|done]. rewrite Hm2 by auto. auto.
  - intros s' k Hk. rewrite elem_of_cons in Hk. rewrite Hm2, Hm1; [done| |]; intuition congruence.
Qed.

Lemma remove_impi_mapping_step fuel irs s p w :
  sound w -> (1 <= fuel)%nat ->
  exists w', do_while fuel (remove_impi_mapping irs s p) contention Store.OK w =
      Done Store.OK w' /\
    mappings_changed s (eq p) (mapping_lacks (_default_impu irs)) w w'.
Proof.
  intros Hw Hf. destruct fuel as [|f]; [lia|].
  destruct (stored_mapping w s p) as [m|] eqn:E.
  2:{ exists w. split; [|apply mappings_same; [done|by rewrite E]].
      apply do_while_once; [|done]. unfold remove_impi_mapping.
      by rewrite (bind_done _ _ _ _ _ (get_mapping_stored w s p Hw)), E. }
  destruct (has_default_impu m (_default_impu irs)) eqn:Ed.
  2:{ exists w. split.
      - apply do_while_once; [|done]. unfold remove_impi_mapping.
        rewrite (bind_done _ _ _ _ _ (get_mapping_stored w s p Hw)), E. simpl.
        by rewrite bind_ret, Ed.
      - apply mappings_same; [done|]. rewrite E. intros m' [= <-]. by apply in_vector_false. }
  destruct (stored_mapping_key _ _ _ _ E) as [Hk _].
  destruct (stored_mapping_live _ _ _ _ Hw E) as [Hx Hcm].
  assert (Hnot : _default_impu irs ∉ _default_impus (remove_default_impu m (_default_impu irs))).
  { simpl. rewrite list_elem_of_In, filter_In, String.eqb_refl. by intros [_ ?]. }
  assert (Hstep : exists w1,
    remove_impi_mapping irs s p Store.OK w = Done Store.OK w1 /\
    mappings_changed s (eq p) (mapping_lacks (_default_impu irs)) w w1).
  { unfold remove_impi_mapping. rewrite (bind_done _ _ _ _ _ (get_mapping_stored w s p Hw)), E.
    simpl. rewrite bind_ret, Ed. destruct (is_empty _).
    - destruct (delete_mapping_law w s (remove_default_impu m (_default_impu irs)) Hw)
        as (w1 & -> & Hwr). exists w1. split; [done|].
      eapply mapping_written_changed; [simpl in Hwr; rewrite Hk in Hwr; exact Hwr|done].
    - destruct (set_mapping_hit w s (remove_default_impu m (_default_impu irs)) Hw
                  (can_map_remove _ _ Hcm)) as (w1 & c & -> & _ & Hwr); [done| |].
      { unfold current_mapping_cas. simpl. by rewrite Hk, E. }
      exists w1. split; [done|].
      eapply mapping_written_changed; [simpl in Hwr; rewrite Hk in Hwr; exact Hwr|].
      by intros m' [= <-]. }
  destruct Hstep as (w1 & E1 & Hch). exists w1. split; [by apply do_while_once|done].
Qed.

(** The expiry the code computes, and the mapping it then writes. *)
Lemma mapping_expiry irs w :
  writable irs w -> add_int (_ttl irs) (to_int32 (store_time w)) w = Done (_ttl irs + store_time w) w.
Proof.
  intros Hwr. rewrite (time_small _ _ Hwr). destruct Hwr. unfold add_int.
  rewrite (proj2 (Z.leb_le _ _)), (proj2 (Z.ltb_lt _ _)) by lia. done.
Qed.

(** What is written back for a mapping found in the store. *)
Definition refreshed_mapping (irs : Irs) (w : W) (m : ImpiMapping) : ImpiMapping :=
  let m := set_expiry m (_ttl irs + store_time w) in
  if has_default_impu m (_default_impu irs) then m else add_default_impu m (_default_impu irs).

Lemma refreshed_mapping_facts irs w s p m :
  sound w -> writable irs w -> stored_mapping w s p = Some m ->
  can_map (refreshed_mapping irs w m) /\ impi (refreshed_mapping irs w m) = p /\
  mapping_cas (refreshed_mapping irs w m) = current_mapping_cas w s p /\
  to_int32 (store_time w) < _expiry (refreshed_mapping irs w m) /\
  _default_impu irs ∈ _default_impus (refreshed_mapping irs w m).
Proof.
  intros Hw Hwr E. destruct (stored_mapping_key _ _ _ _ E) as [Hk _].
  destruct (stored_mapping_live _ _ _ _ Hw E) as [_ Hcm].
  rewrite (time_small _ _ Hwr).
  destruct (can_map_add m (_default_impu irs) (_ttl irs + store_time w) Hcm
              (writable_mapping _ _ Hwr _)) as [Hc1 Hc2].
  pose proof (writable_ttl _ _ Hwr). unfold current_mapping_cas. rewrite E.
  unfold refreshed_mapping. cbv zeta.
  destruct (has_default_impu (set_expiry m _) (_default_impu irs)) eqn:Ed; simpl;
    (do 4 (split; [done || lia|])).
  - by apply in_vector_spec in Ed.
  - apply elem_of_app. right. by left.
Qed.

(** Writing a mapping under the CAS value the store has. *)
Lemma set_mapping_current irs s p m w :
  sound w -> can_map m -> impi m = p -> mapping_cas m = current_mapping_cas w s p ->
  to_int32 (store_time w) < _expiry m -> _default_impu irs ∈ _default_impus m ->
  exists w', set_impi_mapping s m w = Done Store.OK w' /\
    mappings_changed s (eq p) (mapping_has (_default_impu irs)) w w'.
Proof.
  intros Hw Hcm <- Hcas Hx Hin.
  destruct (set_mapping_hit w s m Hw Hcm Hx Hcas) as (w1 & c & E & _ & Hwr).
  exists w1. split; [done|]. eapply mapping_written_changed; [exact Hwr|]. by eexists.
Qed.

Lemma new_mapping_facts irs w s p :
  writable irs w -> stored_mapping w s p = None ->
  let m := new_ImpiMapping p (_default_impu irs) (_ttl irs + store_time w) in
  can_map m /\ mapping_cas m = current_mapping_cas w s p /\
  to_int32 (store_time w) < _expiry m /\ _default_impu irs ∈ _default_impus m.
Proof.
  intros Hwr E. pose proof (writable_ttl _ _ Hwr). rewrite (time_small _ _ Hwr).
  unfold current_mapping_cas. rewrite E. simpl. split; [by apply (writable_mapping _ _ Hwr)|].
  split; [done|]. split; [lia|]. by left.
Qed.

Lemma refresh_impi_mapping_step fuel irs s p w :
  sound w -> writable irs w -> (1 <= fuel)%nat ->
  exists w', do_while fuel (refresh_impi_mapping irs s p) contention Store.OK w =
      Done Store.OK w' /\
    mappings_changed s (eq p) (mapping_has (_default_impu irs)) w w'.
Proof.
  intros Hw Hwr Hf. destruct fuel as [|f]; [lia|].
  enough (exists w', refresh_impi_mapping irs s p Store.OK w = Done Store.OK w' /\
            mappings_changed s (eq p) (mapping_has (_default_impu irs)) w w')
    as (w' & E & Hch) by (exists w'; split; [by apply do_while_once|done]).
  unfold refresh_impi_mapping. rewrite (bind_done _ _ _ _ _ (get_mapping_stored w s p Hw)).
  destruct (stored_mapping w s p) as [m|] eqn:E.
  - destruct (refreshed_mapping_facts _ _ _ _ _ Hw Hwr E) as (Hc & Hk & Hcas & Hx & Hin).
    destruct (set_mapping_current irs s p _ w Hw Hc Hk Hcas Hx Hin) as (w' & Es & Hch).
    exists w'. split; [|done]. unfold bind, deref, time_int, ret. simpl.
    rewrite mapping_expiry by done. exact Es.
  - destruct (new_mapping_facts irs w s p Hwr E) as (Hc & Hcas & Hx & Hin).
    destruct (set_mapping_current irs s p _ w Hw Hc eq_refl Hcas Hx Hin) as (w' & Es & Hch).
    exists w'. split; [|done]. unfold bind, time_int, ret. simpl.
    rewrite mapping_expiry by done. exact Es.
Qed.

Lemma add_impi_mapping_step fuel irs s p w :
  sound w -> writable irs w -> (2 <= fuel)%nat ->
  exists w' m, do_while fuel (add_impi_mapping irs s p) (fun st => contention (fst st))
      (Store.OK, new_ImpiMapping p (_default_impu irs) (store_time w + _ttl irs)) w =
      Done (Store.OK, m) w' /\
    mappings_changed s (eq p) (mapping_has (_default_impu irs)) w w'.
Proof.
  intros Hw Hwr Hf. destruct fuel as [|[|f]]; [lia..|]. rewrite (Z.add_comm (store_time w)).
  assert (Hset : forall n m st, impi m = p -> can_map m ->
            mapping_cas m = current_mapping_cas w s p ->
            to_int32 (store_time w) < _expiry m -> _default_impu irs ∈ _default_impus m ->
            exists w' m', do_while (S n) (add_impi_mapping irs s p) (fun st => contention (fst st))
                (st, m) w = Done (Store.OK, m') w' /\
              mappings_changed s (eq p) (mapping_has (_default_impu irs)) w w').
  { intros n m st Hk Hc Hcas Hx Hin.
    destruct (set_mapping_current irs s p m w Hw Hc Hk Hcas Hx Hin) as (w' & Es & Hch).
    exists w', m. split; [|done]. apply do_while_once; [|done].
    unfold add_impi_mapping. simpl. by rewrite (bind_done _ _ _ _ _ Es). }
  destruct (stored_mapping w s p) as [m|] eqn:E.
  2:{ destruct (new_mapping_facts irs w s p Hwr E) as (Hc & Hcas & Hx & Hin). by apply Hset. }
  destruct (refreshed_mapping_facts _ _ _ _ _ Hw Hwr E) as (Hc & Hk & Hcas & Hx & Hin).
  assert (Hmiss : set_impi_mapping s (new_ImpiMapping p (_default_impu irs)
                    (_ttl irs + store_time w)) w = Done Store.DATA_CONTENTION w).
  { apply set_mapping_miss; [done|by apply (writable_mapping _ _ Hwr)|].
    unfold current_mapping_cas. simpl. rewrite E.
    pose proof (proj2 (stored_mapping_key _ _ _ _ E)). congruence. }
  assert (Hget : exists st, add_impi_mapping irs s p
            (Store.OK, new_ImpiMapping p (_default_impu irs) (_ttl irs + store_time w)) w =
            Done (st, refreshed_mapping irs w m) w /\
            (contention st = false -> st = Store.OK /\ _default_impu irs ∈ _default_impus m)).
  { unfold add_impi_mapping. simpl snd. rewrite (bind_done _ _ _ _ _ Hmiss). simpl.
    rewrite (bind_done _ _ _ _ _ (get_mapping_stored w s p Hw)), E. simpl.
    unfold bind, deref, time_int, ret. rewrite mapping_expiry by done. unfold refreshed_mapping.
    cbv zeta. destruct (has_default_impu _ _) eqn:Ed; simpl; [|by eexists].
    apply in_vector_spec in Ed. destruct (_refreshed irs); simpl; by eexists. }
  destruct Hget as (st & Hget & Hst). destruct (contention st) eqn:Ec.
  - erewrite do_while_again by eassumption. by apply Hset.
  - destruct (Hst eq_refl) as [-> Hm]. exists w, (refreshed_mapping irs w m).
    split; [by apply do_while_once|]. apply mappings_same; [done|]. rewrite E. by eexists.
Qed.

(** The mappings that were there are refreshed, if the set is. *)
Lemma refresh_mappings_ok fuel irs s w :
  sound w -> writable irs w -> irs_ok irs -> (2 <= fuel)%nat ->
  exists w',
    (if _refreshed irs then
       foreach (fun i status => do_while fuel (refresh_impi_mapping irs s i) contention status)
         (impis_in State.UNCHANGED irs) Store.OK
     else ret Store.OK) w = Done Store.OK w' /\
    mappings_changed s (fun p => _refreshed irs = true /\ p ∈ impis_in State.UNCHANGED irs)
      (mapping_has (_default_impu irs)) w w'.
Proof.
  intros Hw Hwr (Hok & _) Hf. destruct (_refreshed irs).
  - destruct (foreach_mappings irs s (impis_in State.UNCHANGED irs)
                (mapping_has (_default_impu irs))
                (fun i st => do_while fuel (refresh_impi_mapping irs s i) contention st)
                writable w) as (w' & E & Hok' & Hi & Hq & Hm);
      [by apply writable_world| |done|done|].
    { intros p v Hv Hwv. apply refresh_impi_mapping_step; [done..|lia]. }
    exists w'. split; [done|]. split; [done|]. split; [done|].
    split; [intros k [_ Hk]; auto|]. intros s' k [|Hk]; apply Hm; [by left|].
    right. intros Hl. by apply Hk.
  - exists w. split; [done|]. split; [by split|]. split; [done|].
    by split; [intros k [? _]|].
Qed.

(** The three loops of [update_irs_impi_mappings] together. *)
Lemma update_mappings_ok fuel irs s w :
  sound w -> writable irs w -> irs_ok irs -> (2 <= fuel)%nat ->
  exists w', update_irs_impi_mappings fuel irs s w = Done Store.OK w' /\ ok_world w w' /\
    (forall s' k, stored_impu w' s' k = stored_impu w s' k) /\
    (forall p, p ∈ impis_in State.DELETED irs ->
       mapping_lacks (_default_impu irs) (stored_mapping w' s p)) /\
    (forall p, p ∈ impis_in State.ADDED irs \/
       _refreshed irs = true /\ p ∈ impis_in State.UNCHANGED irs ->
       mapping_has (_default_impu irs) (stored_mapping w' s p)) /\
    (forall s' p, s' <> s \/ map_find (_impis irs) p = None ->
       stored_mapping w' s' p = stored_mapping w s' p).
Proof.
  intros Hw Hwr Hirs Hf. pose proof Hirs as (Hok & _). unfold update_irs_impi_mappings.
  destruct (foreach_mappings irs s (impis_in State.DELETED irs) (mapping_lacks (_default_impu irs))
              (fun i st => do_while fuel (remove_impi_mapping irs s i) contention st) writable w)
    as (w1 & E1 & Hok1 & Hi1 & Hq1 & Hm1); [by apply writable_world| |done|done|].
  { intros p v Hv _. apply remove_impi_mapping_step; [done|lia]. }
  pose proof (writable_world _ _ _ Hok1 Hwr) as Hwr1. rewrite (bind_done _ _ _ _ _ E1).
  destruct (refresh_mappings_ok fuel irs s w1 ltac:(apply Hok1) Hwr1 Hirs Hf)
    as (w2 & E2 & Hok2 & Hi2 & Hq2 & Hm2).
  pose proof (writable_world _ _ _ Hok2 Hwr1) as Hwr2. rewrite (bind_done _ _ _ _ _ E2).
  destruct (foreach_mappings irs s (impis_in State.ADDED irs) (mapping_has (_default_impu irs))
              (fun i status => now <- time64 ;;
                 let mapping := new_ImpiMapping i (_default_impu irs) (now + _ttl irs) in
                 let* (status, _) := do_while fuel (add_impi_mapping irs s i)
                                       (fun st => contention (fst st)) (status, mapping) in
                 ret status) writable w2)
    as (w3 & E3 & Hok3 & Hi3 & Hq3 & Hm3); [by apply writable_world| |apply Hok2|done|].
  { intros p v Hv Hwv. destruct (add_impi_mapping_step fuel irs s p v Hv Hwv Hf)
      as (v' & m & Ev & Hch). exists v'. split; [|done].
    unfold time64. cbv zeta. unfold bind at 1. by rewrite (bind_done _ _ _ _ _ Ev). }
  exists w3. split; [exact E3|]. split; [eapply ok_world_trans, ok_world_trans; eassumption|].
  split; [intros; by rewrite Hi3, Hi2, Hi1|].
  assert (Hst : forall t p, p ∈ impis_in t irs <-> map_find (_impis irs) p = Some t).
  { intros. by apply elem_in_state. }
  split; [|split].
  - intros p Hp. pose proof (proj1 (Hst _ _) Hp) as Hd. rewrite Hm3, Hm2; [auto| |];
      right; rewrite Hst; intuition congruence.
  - intros p [Hp|Hp]; [auto|]. destruct Hp as [Hr Hp]. pose proof (proj1 (Hst _ _) Hp) as Hd.
    rewrite Hm3 by (right; rewrite Hst; congruence). by apply Hq2.
  - intros s' p Hp. rewrite Hm3, Hm2, Hm1; [done|..]; rewrite ?Hst; intuition congruence.
Qed.

(** ** A whole registration set in one store *)

(** The registration set is what store [s] holds: its default record, the
    associated records pointing to it, and the mappings of its private
    identities. *)
Definition irs_stored (irs : Irs) (t : Z) (w : W) (s : nat) : Prop :=
  (exists c, stored_impu w s (_default_impu irs) =
     Some (DefaultImpu (mkImpuBase (_default_impu irs) c (_ttl irs + t) (Some s)) (impu_data irs))) /\
  (forall a, a ∈ get_associated_impus irs ->
     exists c, stored_impu w s a =
       Some (AssociatedImpu (mkImpuBase a c (t + _ttl irs) (Some s)) (_default_impu irs))) /\
  (forall p, p ∈ get_associated_impis irs ->
     mapping_has (_default_impu irs) (stored_mapping w s p)).

Definition other_stores_kept (s : nat) (w w' : W) : Prop :=
  forall s' k, s' <> s -> stored_impu w' s' k = stored_impu w s' k /\
                          stored_mapping w' s' k = stored_mapping w s' k.

(** The default record of [irs] can be written to [s] as it is: blindly for a
    new registration, only into an empty place for a new unregistered set, and
    under its own CAS value for a set read from this store. *)
Definition may_write (irs : Irs) (w : W) (s : nat) : Prop :=
  (_existing irs = false /\ _registration_state irs = RegistrationState.REGISTERED) \/
  (_existing irs = false /\ _registration_state irs = RegistrationState.UNREGISTERED /\
   stored_impu w s (_default_impu irs) = None) \/
  (_existing irs = true /\ _store irs = Some s /\ _cas irs = current_cas w s (_default_impu irs) /\
   (_registration_state irs = RegistrationState.REGISTERED \/
    _registration_state irs = RegistrationState.UNREGISTERED)).

Lemma create_impu_timed irs w c s :
  deletable irs w ->
  create_impu irs c s w =
  Done (DefaultImpu (mkImpuBase (_default_impu irs) c (_ttl irs + store_time w) s) (impu_data irs)) w.
Proof.
  intros Hwr. rewrite create_impu_form, (time_small' _ _ Hwr). destruct Hwr.
  by rewrite (proj2 (Z.leb_le _ _)), (proj2 (Z.ltb_lt _ _)) by lia.
Qed.

Lemma create_impu_writable irs w c s :
  writable irs w ->
  create_impu irs c s w =
  Done (DefaultImpu (mkImpuBase (_default_impu irs) c (_ttl irs + store_time w) s) (impu_data irs)) w.
Proof. intros Hwr. by apply create_impu_timed, writable_deletable. Qed.

(** The record of a set that is written at time [t]. *)
Definition default_record (irs : Irs) (s : nat) (t c : Z) : Impu :=
  DefaultImpu (mkImpuBase (_default_impu irs) c (_ttl irs + t) (Some s)) (impu_data irs).

Lemma restored_record irs s t c0 s0 c :
  _registration_state irs = RegistrationState.REGISTERED \/
  _registration_state irs = RegistrationState.UNREGISTERED ->
  restored (DefaultImpu (mkImpuBase (_default_impu irs) c0 (_ttl irs + t) s0) (impu_data irs)) c s =
  default_record irs s t c.
Proof. intros Hr. unfold restored, default_record, impu_data. simpl. by destruct Hr as [-> | ->]. Qed.

Lemma write_default fuel irs s w :
  sound w -> writable irs w -> (1 <= fuel)%nat -> may_write irs w s ->
  exists w' c,
    (if _existing irs then update_irs_impu fuel irs s
     else status <- create_irs_impu irs s ;; ret (status, irs)) w = Done (Store.OK, irs) w' /\
    impu_written w w' s (_default_impu irs) (Some (default_record irs s (store_time w) c)) /\
    (_existing irs = true -> c <> _cas irs).
Proof.
  intros Hw Hwr Hf Hmay.
  assert (Hx : to_int32 (store_time w) < _ttl irs + store_time w).
  { rewrite (time_small _ _ Hwr). pose proof (writable_ttl _ _ Hwr). lia. }
  destruct Hmay as [[-> Hr]|[(-> & Hr & Hn)|(-> & Hs & Hcas & Hr)]].
  - destruct (set_impu_without_cas_stores w s _ Hw (writable_default _ _ Hwr 0 None) Hx)
      as (w1 & c & E & Hwrt). rewrite restored_record in Hwrt by auto. exists w1, c. split; [|by split].
    unfold create_irs_impu, irs_get_impu, bind. rewrite create_impu_writable, Hr by done.
    simpl. by rewrite E.
  - destruct (add_impu_hit w s _ Hw (writable_default _ _ Hwr 0 None) Hx Hn)
      as (w1 & c & E & Hwrt). rewrite restored_record in Hwrt by auto. exists w1, c. split; [|by split].
    unfold create_irs_impu, irs_get_impu, bind. rewrite create_impu_writable, Hr by done.
    simpl. by rewrite E.
  - destruct (set_impu_hit w s _ Hw (writable_default _ _ Hwr (_cas irs) (Some s)) Hx Hcas)
      as (w1 & c & E & Hne & Hwrt). rewrite restored_record in Hwrt by auto. exists w1, c. split; [|by split].
    unfold update_irs_impu, perform_irs_impu_action, get_impu_for_store.
    rewrite Hs, bool_decide_true by done. unfold bind at 1 2.
    rewrite create_impu_writable by done. destruct fuel as [|f]; [lia|]. simpl.
    unfold bind. by rewrite E.
Qed.

(** The record of an identity, if there is one, does not lead to the set. *)
Definition leads_elsewhere (irs : Irs) (w : W) (s : nat) (k : string) : Prop :=
  forall b, stored_impu w s k <> Some (AssociatedImpu b (_default_impu irs)).

(** The associated records after all three loops. *)
Lemma update_associated_ok fuel irs s w :
  sound w -> writable irs w -> irs_ok irs -> (1 <= fuel)%nat -> _refreshed irs = true ->
  exists w', update_irs_associated_impus fuel irs s w = Done Store.OK w' /\ ok_world w w' /\
    (forall s' k, stored_mapping w' s' k = stored_mapping w s' k) /\
    (forall a, a ∈ get_associated_impus irs ->
       exists c, stored_impu w' s a = Some (assoc_record irs w s a c)) /\
    (forall s' k, s' <> s -> stored_impu w' s' k = stored_impu w s' k) /\
    (forall k b d, k ∉ get_associated_impus irs ->
       stored_impu w s k = Some (DefaultImpu b d) -> stored_impu w' s k = Some (DefaultImpu b d)) /\
    (forall k, k ∈ impus_in State.DELETED irs -> leads_elsewhere irs w' s k).
Proof.
  intros Hw Hwr (_ & Hok & _) Hf Hr. unfold update_irs_associated_impus. rewrite Hr.
  destruct (remove_associated_impus fuel irs s (impus_in State.DELETED irs) w Hw Hf)
    as (w1 & E1 & Hok1 & Hm1 & Hg1 & Hv1). rewrite (bind_done _ _ _ _ _ E1).
  destruct (put_associated_impus irs s (impus_in State.UNCHANGED irs) w1 (proj1 Hok1)
              (writable_world _ _ _ Hok1 Hwr)) as (w2 & E2 & Hok2 & Hm2 & Hin2 & Hout2).
  rewrite (bind_done _ _ _ _ _ E2).
  destruct (put_associated_impus irs s (impus_in State.ADDED irs) w2 (proj1 Hok2)
              (writable_world _ _ _ Hok2 (writable_world _ _ _ Hok1 Hwr)))
    as (w3 & E3 & Hok3 & Hm3 & Hin3 & Hout3).
  rewrite (bind_done _ _ _ _ _ E3). exists w3. split; [done|].
  split; [eapply ok_world_trans, ok_world_trans; eassumption|].
  split; [intros; by rewrite Hm3, Hm2, Hm1|].
  assert (Hpres : forall k, k ∈ get_associated_impus irs <->
            k ∈ impus_in State.UNCHANGED irs \/ k ∈ impus_in State.ADDED irs).
  { intros k. unfold get_associated_impus, impus_in. by rewrite elem_present, !elem_in_state. }
  unfold assoc_record in *. rewrite (proj2 Hok2), (proj2 Hok1) in Hin3. rewrite (proj2 Hok1) in Hin2.
  split; [|split; [|split]].
  - intros a [Ha|Ha]%Hpres; [|auto].
    destruct (decide (a ∈ impus_in State.ADDED irs)); [auto|]. rewrite Hout3 by auto. auto.
  - intros s' k Hs. rewrite Hout3, Hout2 by auto. by destruct (Hv1 s' k) as [|[-> _]].
  - intros k b d Hk E. rewrite Hpres in Hk. rewrite Hout3, Hout2 by tauto.
    destruct (Hv1 s k) as [->|(_ & _ & _ & b' & E')]; [done|congruence].
  - intros k Hk b. assert (Hno : (k ∉ impus_in State.UNCHANGED irs) /\ (k ∉ impus_in State.ADDED irs)).
    { unfold impus_in in *. rewrite !elem_in_state in * by done. rewrite Hk. by split. }
    rewrite Hout3, Hout2 by tauto. by apply Hg1.
Qed.

(** Once the default record of a set is in place, the rest of it is written. *)
Lemma put_irs_rest fuel irs0 irs s w w1 c :
  sound w -> writable irs w -> irs_ok irs -> (2 <= fuel)%nat -> _refreshed irs = true ->
  _default_impu irs ∉ get_associated_impus irs ->
  (if _existing irs0 then update_irs_impu fuel irs0 s
   else status <- create_irs_impu irs0 s ;; ret (status, irs0)) w = Done (Store.OK, irs) w1 ->
  impu_written w w1 s (_default_impu irs) (Some (default_record irs s (store_time w) c)) ->
  exists w', put_irs_action fuel s irs0 w = Done (Store.OK, irs) w' /\ ok_world w w' /\
    stored_impu w' s (_default_impu irs) = Some (default_record irs s (store_time w) c) /\
    irs_stored irs (store_time w) w' s /\ other_stores_kept s w w' /\
    (forall p, p ∈ impis_in State.DELETED irs ->
       mapping_lacks (_default_impu irs) (stored_mapping w' s p)) /\
    (forall k, k ∈ impus_in State.DELETED irs -> leads_elsewhere irs w' s k).
Proof.
  intros Hw Hwr Hok Hf Hr Hnot E1 (Hs1 & Ht1 & Hi1 & Hm1). unfold put_irs_action.
  assert (Hok1 : ok_world w w1) by done. pose proof (writable_world _ _ _ Hok1 Hwr) as Hwr1.
  rewrite (bind_done _ _ _ _ _ E1). simpl.
  destruct (update_associated_ok fuel irs s w1 Hs1 Hwr1 Hok ltac:(lia) Hr)
    as (w2 & E2 & Hok2 & Hm2 & Ha2 & Ho2 & Hd2 & Hg2). rewrite (bind_done _ _ _ _ _ E2).
  destruct (update_mappings_ok fuel irs s w2 (proj1 Hok2) (writable_world _ _ _ Hok2 Hwr1) Hok Hf)
    as (w3 & E3 & Hok3 & Hi3 & Hdel3 & Hadd3 & Hm3). rewrite (bind_done _ _ _ _ _ E3).
  assert (Hrec : stored_impu w3 s (_default_impu irs) = Some (default_record irs s (store_time w) c)).
  { rewrite Hi3. apply Hd2; [done|]. by rewrite Hi1, same_key_refl. }
  exists w3. split; [done|]. split; [eapply ok_world_trans, ok_world_trans; eassumption|].
  split; [done|]. split; [split; [|split]|split; [|split]].
  - by exists c.
  - intros a Ha. rewrite Hi3. destruct (Ha2 a Ha) as [c' Hc']. exists c'.
    rewrite Hc'. unfold assoc_record. by rewrite Ht1.
  - intros p Hp. apply Hadd3. unfold get_associated_impis in Hp.
    rewrite elem_present in Hp by apply Hok. unfold impis_in. rewrite !elem_in_state by apply Hok.
    tauto.
  - intros s' k Hs. split.
    + rewrite Hi3, Ho2, Hi1, same_key_false by auto. done.
    + rewrite Hm3, Hm2, Hm1 by auto. done.
  - auto.
  - intros k Hk b. rewrite Hi3. by apply Hg2.
Qed.

(** Storing a registration set in one store. *)
Lemma put_irs_ok fuel irs s w :
  sound w -> writable irs w -> irs_ok irs -> (2 <= fuel)%nat -> _refreshed irs = true ->
  _default_impu irs ∉ get_associated_impus irs -> may_write irs w s ->
  exists w', put_irs_action fuel s irs w = Done (Store.OK, irs) w' /\ ok_world w w' /\
    irs_stored irs (store_time w) w' s /\ other_stores_kept s w w' /\
    (forall p, p ∈ impis_in State.DELETED irs ->
       mapping_lacks (_default_impu irs) (stored_mapping w' s p)) /\
    (forall k, k ∈ impus_in State.DELETED irs -> leads_elsewhere irs w' s k).
Proof.
  intros Hw Hwr Hok Hf Hr Hnot Hmay.
  destruct (write_default fuel irs s w Hw Hwr ltac:(lia) Hmay) as (w1 & c & E1 & Hwrt & _).
  destruct (put_irs_rest fuel irs irs s w w1 c Hw Hwr Hok Hf Hr Hnot E1 Hwrt)
    as (w' & E & Hok' & _ & Hrest). by exists w'.
Qed.

(** ** All stores *)

Lemma irs_stored_kept irs t w w' s s' :
  other_stores_kept s w w' -> s' <> s -> irs_stored irs t w s' -> irs_stored irs t w' s'.
Proof.
  intros Hk Hs (Hd & Ha & Hp).
  assert (Hi : forall k, stored_impu w' s' k = stored_impu w s' k) by (intros k; by apply Hk).
  assert (Hm : forall k, stored_mapping w' s' k = stored_mapping w s' k) by (intros k; by apply Hk).
  split; [by rewrite Hi|]. split; [intros a; rewrite Hi; apply Ha|].
  intros p. rewrite Hm. apply Hp.
Qed.

(** What an identity of a stored set resolves to. *)
Lemma stored_resolves irs t ls rs w i :
  irs_stored irs t w ls -> i = _default_impu irs \/ i ∈ get_associated_impus irs ->
  exists c, resolve ls rs w i =
    Some (mkImpuBase (_default_impu irs) c (_ttl irs + t) (Some ls), impu_data irs).
Proof.
  intros ((c & Hd) & Ha & _) Hi. exists c. unfold resolve, impu_gr. simpl.
  destruct (decide (i = _default_impu irs)) as [->|Hne]; [by rewrite Hd|].
  destruct Hi as [|Hi]; [done|]. destruct (Ha i Hi) as [c' ->]. simpl. rewrite Hd. simpl.
  unfold has_associated_impu, impu_data. simpl. by rewrite (proj2 (in_vector_spec _ _) Hi).
Qed.

(** ** Deleting *)

Lemma delete_tracked_find d k :
  map_find (delete_tracked d) k = const State.DELETED <$> map_find d k.
Proof. unfold delete_tracked. by rewrite map_find_update. Qed.

Lemma delete_tracked_only d s :
  s <> State.DELETED -> get_elements_in_state (delete_tracked d) s = [].
Proof.
  intros Hs. unfold get_elements_in_state, map_keys_with, delete_tracked, map_update.
  induction d as [|[k v] d IH]; simpl; [done|]. by destruct s.
Qed.

(** The registration set after it has been deleted somewhere: it may have learnt
    of more identities to remove. *)
Definition same_set (irs irs' : Irs) : Prop :=
  (_default_impu irs' = _default_impu irs /\ _ttl irs' = _ttl irs /\
   _existing irs' = _existing irs) /\ irs_ok irs' /\
  (forall k, is_Some (map_find (_impis irs) k) -> is_Some (map_find (_impis irs') k)) /\
  (forall k, is_Some (map_find (_associated_impus irs) k) ->
     is_Some (map_find (_associated_impus irs') k)).

Lemma delete_default fuel irs s w :
  sound w -> deletable irs w -> irs_ok irs -> (1 <= fuel)%nat ->
  exists w' irs', delete_irs_impu fuel irs s w = Done (Store.OK, irs') w' /\
    impu_written w w' s (_default_impu irs) None /\ same_set irs irs'.
Proof.
  intros Hw Hwr Hok Hf. destruct fuel as [|f]; [lia|].
  unfold delete_irs_impu, perform_irs_impu_action, get_impu_for_store.
  assert (Hwr1 : deletable (mark_as_refreshed irs) w) by (destruct Hwr; split; auto).
  assert (Hsame : same_set irs (mark_as_refreshed irs)) by done.
  assert (Hdel : forall i, impu_id i = _default_impu irs ->
            exists w', delete_impu s i w = Done Store.OK w' /\
              impu_written w w' s (_default_impu irs) None).
  { intros i <-. by apply delete_impu_law. }
  destruct (bool_decide _).
  { unfold bind at 1 2. rewrite create_impu_timed by done.
    edestruct Hdel as (w' & E & Hwrt); [|exists w', (mark_as_refreshed irs); split; [|done]].
    2:{ simpl. unfold bind. by rewrite E. } done. }
  rewrite bind_ret. cbn [do_while]. unfold irs_impu_attempt at 1.
  unfold bind at 1 2 3. rewrite get_impu_stored by done. simpl.
  destruct (stored_impu w s (_default_impu irs)) as [[b d|b x]|] eqn:E.
  - destruct (update_from_store_cases (mark_as_refreshed irs) b d w)
      as (j & Ej & Hp & Hdi & _ & Hex & _ & _ & [Htt Hu] & _).
    assert (Hstep : irs_ok j).
    { destruct Hok as (Ho1 & Ho2 & Ho3). split; [|split].
      - rewrite Hp. by apply merge_data_sets_ok.
      - rewrite Hu. by apply fold_emplace_ok.
      - by rewrite Htt. }
    assert (Hc : create_impu j (cas b) (store b) w =
              Done (DefaultImpu (mkImpuBase (_default_impu irs) (cas b)
                      (_ttl irs + store_time w) (store b)) (impu_data j)) w).
    { rewrite create_impu_form, Htt, Hdi. simpl. rewrite (time_small' _ _ Hwr). destruct Hwr.
      by rewrite (proj2 (Z.leb_le _ _)), (proj2 (Z.ltb_lt _ _)) by lia. }
    edestruct Hdel as (w' & Ed & Hwrt); [|exists w', j; split; [|split; [exact Hwrt|]]].
    2:{ unfold bind. rewrite Ej. unfold get_impu_from_impu. simpl. rewrite Hc, Ed. done. }
    { done. }
    split; [by rewrite Hdi, Htt, Hex|]. split; [done|]. rewrite Hp, Hu. simpl.
    split; intros k [v Hv]; [rewrite merge_data_sets_find|rewrite fold_emplace_find];
      rewrite Hv; by destruct v; eexists.
  - unfold get_impu_from_impu, bind. rewrite create_impu_timed by done.
    edestruct Hdel as (w' & Ed & Hwrt); [|exists w', (mark_as_refreshed irs); split; [|done]].
    2:{ simpl. by rewrite Ed. } done.
  - exists w, (mark_as_refreshed irs). split; [done|]. split; [|done].
    split; [done|]. split; [done|]. split; [|done]. intros s' k.
    destruct (same_key s _ s' k) eqn:Es; [|done]. apply same_key_true in Es as [-> ->]. done.
Qed.

Lemma deleted_same irs irs1 :
  same_set irs irs1 -> same_set irs (delete_impis (delete_assoc_impus irs1)).
Proof.
  intros (Hid & (Ho1 & Ho2 & Ho3) & Hp & Hu). split; [exact Hid|]. split; [|split].
  - by split; [apply map_ok_update|split; [apply map_ok_update|]].
  - intros k Hk. simpl. rewrite delete_tracked_find. by destruct (Hp k Hk) as [v ->].
  - intros k Hk. simpl. rewrite delete_tracked_find. by destruct (Hu k Hk) as [v ->].
Qed.

Lemma delete_irs_ok fuel irs s w :
  sound w -> deletable irs w -> irs_ok irs -> (1 <= fuel)%nat ->
  exists w' irs', delete_irs_action fuel s irs w = Done (Store.OK, irs') w' /\ ok_world w w' /\
    same_set irs irs' /\
    stored_impu w' s (_default_impu irs) = None /\
    (forall a b, is_Some (map_find (_associated_impus irs) a) ->
       stored_impu w' s a <> Some (AssociatedImpu b (_default_impu irs))) /\
    (forall p, is_Some (map_find (_impis irs) p) ->
       mapping_lacks (_default_impu irs) (stored_mapping w' s p)) /\
    (forall s' k, stored_impu w s' k = None -> stored_impu w' s' k = None) /\
    (forall s' k, s' <> s -> stored_mapping w' s' k = stored_mapping w s' k).
Proof.
  intros Hw Hwr Hok Hf. unfold delete_irs_action.
  destruct (delete_default fuel irs s w Hw Hwr Hok Hf)
    as (w1 & irs1 & E1 & (Hs1 & Ht1 & Hi1 & Hm1) & Hsame).
  pose proof Hsame as ((Hdi & _) & Hok1 & Hkp & Hku).
  rewrite (bind_done _ _ _ _ _ E1). cbn [status_eqb].
  rewrite status_eqb_refl. set (irs2 := delete_assoc_impus irs1).
  destruct (remove_associated_impus fuel irs2 s (impus_in State.DELETED irs2) w1 Hs1 Hf)
    as (w2 & E2 & Hok2 & Hm2 & Ha2 & Hv2).
  assert (E2' : update_irs_associated_impus fuel irs2 s w1 = Done Store.OK w2).
  { unfold update_irs_associated_impus. rewrite (bind_done _ _ _ _ _ E2). unfold impus_in, irs2.
    simpl. rewrite !delete_tracked_only by done. by destruct (_refreshed irs1). }
  unfold bind at 1 2. rewrite E2'. cbv iota. unfold ret at 1. cbv iota. rewrite status_eqb_refl.
  set (irs3 := delete_impis irs2).
  destruct (foreach_mappings irs3 s (impis_in State.DELETED irs3)
              (mapping_lacks (_default_impu irs3))
              (fun i st => do_while fuel (remove_impi_mapping irs3 s i) contention st)
              (fun _ _ => True) w2)
    as (w3 & E3 & Hok3 & Hi3 & Hq3 & Hm3); [done| |apply Hok2|done|].
  { intros p v Hv _. by apply remove_impi_mapping_step. }
  assert (E3' : update_irs_impi_mappings fuel irs3 s w2 = Done Store.OK w3).
  { unfold update_irs_impi_mappings. rewrite (bind_done _ _ _ _ _ E3). unfold impis_in, irs3.
    simpl. rewrite !delete_tracked_only by done. by destruct (_refreshed irs1). }
  exists w3, irs3. split; [by rewrite (bind_done _ _ _ _ _ E3')|].
  split; [eapply ok_world_trans, ok_world_trans; [| |exact Hok3]; [|exact Hok2]; done|].
  split; [by apply deleted_same|].
  change (_default_impu irs3) with (_default_impu irs1) in *.
  change (_default_impu irs2) with (_default_impu irs1) in *. rewrite Hdi in *.
  split; [|split; [|split; [|split]]].
  - rewrite Hi3. destruct (Hv2 s (_default_impu irs)) as [->|(_ & _ & -> & _)]; [|done].
    by rewrite Hi1, same_key_refl.
  - intros a b Ha. rewrite Hi3. apply Ha2. unfold impus_in. rewrite elem_in_state.
    + simpl. rewrite delete_tracked_find. by destruct (Hku a Ha) as [v ->].
    + simpl. unfold delete_tracked. apply map_ok_update, Hok1.
  - intros p Hp. apply Hq3. unfold impis_in. rewrite elem_in_state.
    + simpl. rewrite delete_tracked_find. by destruct (Hkp p Hp) as [v ->].
    + simpl. unfold delete_tracked. apply map_ok_update, Hok1.
  - intros s' k Hn. rewrite Hi3. destruct (Hv2 s' k) as [->|(-> & _ & -> & _)]; [|done].
    rewrite Hi1. by destruct (same_key _ _ _ _).
  - intros s' k Hn. rewrite Hm3, Hm2 by (by left). by rewrite Hm1.
Qed.

(** ** Deleting at every site *)

(** An action that works in any store and leaves there a state that lasts does so
    in all stores. *)
Lemma perform_everywhere {S} (action : nat -> S -> IO W (Store.Status * S)) (I : S -> W -> Prop)
    (R : nat -> W -> Prop) ls rs x w :
  (forall s x w, I x w -> exists w' x', action s x w = Done (Store.OK, x') w' /\
     ok_world w w' /\ I x' w' /\ R s w' /\ forall s', s' <> s -> R s' w -> R s' w') ->
  I x w ->
  exists w' x', perform ls rs action (ret tt) x w = Done (Store.OK, x') w' /\ ok_world w w' /\
    I x' w' /\ forall s, s ∈ ls :: rs -> R s w'.
Proof.
  intros Ha Hx. unfold perform.
  destruct (Ha ls x w Hx) as (w1 & x1 & E1 & Hok1 & Hx1 & Hr1 & _).
  rewrite (bind_done _ _ _ _ _ E1), status_eqb_refl. unfold ret at 1. unfold bind at 1.
  assert (Hl : forall l w1 x1, ok_world w w1 -> I x1 w1 -> R ls w1 -> exists w' x',
    foreach (fun r s => let* (_, s) := action r s in ret s) l x1 w1 = Done x' w' /\
    ok_world w w' /\ I x' w' /\ R ls w' /\ (forall s, R s w1 -> R s w') /\
    forall s, s ∈ l -> R s w').
  { clear -Ha. induction l as [|r l IH]; intros w1 x1 Hok Hx Hr; cbn [foreach].
    { exists w1, x1. repeat (split; [done|]). by intros s ?%not_elem_of_nil. }
    destruct (Ha r x1 w1 Hx) as (w2 & x2 & E2 & Hok2 & Hx2 & Hr2 & Hk2).
    assert (Hk : forall s, R s w1 -> R s w2)
      by (intros s Hs; destruct (decide (s = r)) as [->|]; auto).
    destruct (IH w2 x2) as (w3 & x3 & E3 & Hok3 & Hx3 & Hr3 & Hk3 & Hl3);
      [by eapply ok_world_trans|done|auto|].
    exists w3, x3. split; [unfold bind; rewrite E2; exact E3|].
    repeat (split; [by auto|]). intros s [->|Hs]%elem_of_cons; auto. }
  destruct (Hl rs w1 x1 Hok1 Hx1 Hr1) as (w' & x' & E & Hok & Hx' & Hr & _ & Hall).
  exists w', x'. rewrite (bind_done _ _ _ _ _ E). split; [done|]. split; [done|]. split; [done|].
  intros s [->|Hs]%elem_of_cons; auto.
Qed.

Definition to_delete (w : W) (irs : Irs) : Prop :=
  deletable irs w /\ irs_ok irs /\ _existing irs = true.

Lemma to_delete_same w w' irs irs' :
  ok_world w w' -> same_set irs irs' -> to_delete w irs -> to_delete w' irs'.
Proof.
  intros Hok ((_ & Ht & He) & Hok' & _) (Hd & _ & Hx). split; [by eapply deletable_world|].
  by rewrite He.
Qed.

Lemma same_set_trans i1 i2 i3 : same_set i1 i2 -> same_set i2 i3 -> same_set i1 i3.
Proof.
  intros ((E1 & E2 & E3) & _ & Hp & Hu) ((F1 & F2 & F3) & Hok & Hp' & Hu').
  split; [by rewrite F1, F2, F3|]. split; [done|]. split; auto.
Qed.

(** One set, at every site. *)
Lemma delete_irs_everywhere fuel ls rs irs w :
  sound w -> (1 <= fuel)%nat -> to_delete w irs ->
  exists w' irs', perform ls rs (delete_irs_action fuel) (ret tt) irs w = Done (Store.OK, irs') w' /\
    ok_world w w' /\
    forall s, s ∈ ls :: rs -> stored_impu w' s (_default_impu irs) = None /\
      forall p, is_Some (map_find (_impis irs) p) ->
        mapping_lacks (_default_impu irs) (stored_mapping w' s p).
Proof.
  intros Hw Hf Hd.
  destruct (perform_everywhere (delete_irs_action fuel)
    (fun i v => sound v /\ to_delete v i /\ (i = irs \/ same_set irs i))
    (fun s v => stored_impu v s (_default_impu irs) = None /\
       forall p, is_Some (map_find (_impis irs) p) ->
         mapping_lacks (_default_impu irs) (stored_mapping v s p)) ls rs irs w)
    as (w' & irs' & E & Hok & _ & Hall); [|by split; [|split; [|left]]|by exists w', irs'].
  intros s i v (Hv & Hdi & Hi).
  destruct (delete_irs_ok fuel i s v Hv (proj1 Hdi) (proj1 (proj2 Hdi)) Hf)
    as (v' & i' & E & Hok & Hs & Hg & _ & Hm & Hn & Hk).
  assert (Hii : same_set irs i') by (destruct Hi as [->|Hi]; [done|by eapply same_set_trans]).
  assert (Hdef : _default_impu i = _default_impu irs) by (destruct Hi as [->|[[? _] _]]; done).
  assert (Himp : forall p, is_Some (map_find (_impis irs) p) -> is_Some (map_find (_impis i) p))
    by (destruct Hi as [->|(_ & _ & ? & _)]; auto).
  exists v', i'. split; [done|]. split; [done|]. split; [|split].
  - split; [apply Hok|]. split; [exact (to_delete_same _ _ _ _ Hok Hs Hdi)|by right].
  - rewrite <- Hdef. split; [done|]. intros p Hp. by apply Hm, Himp.
  - intros s' Hne [Hg' Hm']. split; [by apply Hn|]. intros p Hp. rewrite Hk by done. by apply Hm'.
Qed.

(** Several sets, one after the other. *)
Lemma delete_irss_ok fuel irss s w :
  sound w -> (1 <= fuel)%nat -> Forall (to_delete w) irss ->
  exists w' irss', delete_irss_action fuel s irss w = Done (Store.OK, irss') w' /\ ok_world w w' /\
    Forall2 same_set irss irss' /\
    (forall irs, irs ∈ irss -> stored_impu w' s (_default_impu irs) = None) /\
    (forall s' k, stored_impu w s' k = None -> stored_impu w' s' k = None).
Proof.
  unfold delete_irss_action. intros Hw Hf. revert w Hw.
  induction irss as [|irs irss IH]; intros w Hw Hall; cbn [delete_irss_loop].
  { exists w, []. split; [done|]. split; [done|]. split; [by constructor|].
    split; [by intros i ?%not_elem_of_nil|done]. }
  apply list.Forall_cons in Hall as [(Hwr & Hok & He) Hall].
  destruct (delete_irs_ok fuel irs s w Hw Hwr Hok Hf)
    as (w1 & irs1 & E1 & Hok1 & Hs1 & Hd1 & _ & _ & Hr1 & _).
  destruct (IH w1 (proj1 Hok1)) as (w2 & irss2 & E2 & Hok2 & Hs2 & Hd2 & Hr2).
  { eapply list.Forall_impl; [exact Hall|]. intros i (Hi & ? & ?). split; [|done].
    by eapply deletable_world. }
  exists w2, (irs1 :: irss2). rewrite He, (bind_done _ _ _ _ _ E1), (bind_done _ _ _ _ _ E2).
  split; [done|]. split; [by eapply ok_world_trans|]. split; [by constructor|]. split; [|auto].
  intros i [->|Hi]%elem_of_cons; auto.
Qed.

Lemma delete_irss_everywhere fuel ls rs irss w :
  sound w -> (1 <= fuel)%nat -> Forall (to_delete w) irss ->
  exists w' irss',
    perform ls rs (delete_irss_action fuel) (ret tt) irss w = Done (Store.OK, irss') w' /\
    ok_world w w' /\
    forall s irs, s ∈ ls :: rs -> irs ∈ irss -> stored_impu w' s (_default_impu irs) = None.
Proof.
  intros Hw Hf Hd.
  destruct (perform_everywhere (delete_irss_action fuel)
    (fun l v => sound v /\ Forall (to_delete v) l /\
       map _default_impu l = map _default_impu irss)
    (fun s v => forall irs, irs ∈ irss -> stored_impu v s (_default_impu irs) = None) ls rs irss w)
    as (w' & irss' & E & Hok & _ & Hall); [|done|by exists w', irss'; split; [|split; [|auto]]].
  intros s l v (Hv & Hdl & Hn).
  destruct (delete_irss_ok fuel l s v Hv Hf Hdl) as (v' & l' & E & Hok & Hs & Hg & Hr).
  exists v', l'. split; [done|]. split; [done|]. split; [|split].
  - split; [apply Hok|]. rewrite <- Hn. clear -Hs Hdl Hok.
    induction Hs as [|i i' l l' Hi Hl IH]; [done|].
    apply list.Forall_cons in Hdl as [Hd Hdl]. destruct (IH Hdl) as [IH1 IH2]. split.
    + constructor; [by eapply to_delete_same|done].
    + cbn [map]. by rewrite IH2, (proj1 (proj1 Hi)).
  - intros irs Hin. apply list_elem_of_In, (in_map _default_impu) in Hin. rewrite <- Hn in Hin.
    apply in_map_iff in Hin as (i & <- & Hi%list_elem_of_In). by apply Hg.
  - intros s' _ Hs' irs Hin. by apply Hr, Hs'.
Qed.

(** No identity resolves to a set whose default record is gone everywhere. *)
Lemma gone_unresolved ls rs w i b d :
  resolve ls rs w i = Some (b, d) -> exists s, s ∈ ls :: rs /\ stored_impu w s (impu b) <> None.
Proof.
  unfold resolve. intros Hr.
  assert (Hgr : forall k, impu_gr ls rs w k <> None ->
    exists s, s ∈ ls :: rs /\ stored_impu w s k <> None).
  { intros k. unfold impu_gr. induction (ls :: rs) as [|s l IH]; [done|]. simpl.
    destruct (stored_impu w s k) eqn:E; [intros _|intros (s' & Hs' & Hk)%IH].
    - exists s. split; [by left|by rewrite E].
    - exists s'. split; [by right|done]. }
  destruct (impu_gr ls rs w i) as [[b1 d1|b1 a]|] eqn:Ei; [| |done].
  - injection Hr as <- <-. apply Hgr. rewrite (first_of_key _ _ _ _ _ _ Ei). by rewrite Ei.
  - destruct (impu_gr ls rs w a) as [[b2 d2|]|] eqn:Ea; [|done..].
    destruct (has_associated_impu d2 i); [|done]. injection Hr as <- <-. apply Hgr.
    rewrite (first_of_key _ _ _ _ _ _ Ea). by rewrite Ea.
Qed.
End writes.

(** ** Properties *)

(** C20: writing a refreshed set to one store ends with OK, for a new registration, for
    a new unregistered set whose place is empty and for a set that still has the
    CAS value it was read with: the store then holds the set, its default record,
    a record for each associated identity and a mapping for each private one; what
    was removed is gone, since no private identity removed from the set maps to it
    and the record of no associated identity removed from it leads to it; and the
    other stores are untouched. *)
Theorem put_irs_action_correct `{LawfulImpuStore W} fuel s irs (w : W) :
  sound w -> writable irs w -> irs_ok irs -> (2 <= fuel)%nat -> _refreshed irs = true ->
  _default_impu irs ∉ get_associated_impus irs -> may_write irs w s ->
  exists w', put_irs_action fuel s irs w = Done (Store.OK, irs) w' /\
    irs_stored irs (store_time w) w' s /\ other_stores_kept s w w' /\
    (forall p, p ∈ impis_in State.DELETED irs ->
       mapping_lacks (_default_impu irs) (stored_mapping w' s p)) /\
    (forall k, k ∈ impus_in State.DELETED irs -> leads_elsewhere irs w' s k).
Proof.
  intros Hw Hwr Hok Hf Hr Hnot Hmay.
  destruct (put_irs_ok fuel irs s w Hw Hwr Hok Hf Hr Hnot Hmay) as (w' & E & _ & Hrest). eauto.
Qed.

(** C23: deleting a set ends with OK whatever the stores hold under its name;
    afterwards, at every site, no identity resolves to the deleted set, and none of its
    private identities maps to it. *)
Theorem delete_then_get `{LawfulImpuStore W} fuel ls rs irs (w : W) :
  sound w -> to_delete w irs -> (1 <= fuel)%nat ->
  exists w' irs',
    delete_implicit_registration_set fuel ls rs irs (ret tt) w = Done (Store.OK, irs') w' /\
    (forall i b d, resolve ls rs w' i = Some (b, d) -> impu b <> _default_impu irs) /\
    get_implicit_registration_set_for_impu ls rs (_default_impu irs) w' =
      Done (Store.NOT_FOUND, None) w' /\
    (forall s p, s ∈ ls :: rs -> p ∈ get_associated_impis irs ->
       mapping_lacks (_default_impu irs) (stored_mapping w' s p)).
Proof.
  intros Hw Hd Hf.
  destruct (delete_irs_everywhere fuel ls rs irs w Hw Hf Hd) as (w' & irs' & E & Hok' & Hall).
  exists w', irs'. destruct Hd as (_ & Hok & He).
  assert (Hgone : forall i b d, resolve ls rs w' i = Some (b, d) -> impu b <> _default_impu irs).
  { intros i b d (s & Hs & Hn)%gone_unresolved Hb. apply Hn. rewrite Hb. by apply Hall. }
  split; [by unfold delete_implicit_registration_set; rewrite He|]. split; [done|]. split.
  - rewrite irs_for_impu_read by apply Hok'. unfold resolved_irs.
    replace (resolve ls rs w' (_default_impu irs)) with (@None (ImpuBase * DefaultData)); [done|].
    unfold resolve, impu_gr.
    enough (first_of (fun s => stored_impu w' s (_default_impu irs)) (ls :: rs) = None) as -> by done.
    assert (Hn : forall s, s ∈ ls :: rs -> stored_impu w' s (_default_impu irs) = None)
      by (intros s Hs; by apply Hall).
    clear -Hn. induction (ls :: rs) as [|s l IH]; [done|]. simpl. rewrite Hn by left.
    apply IH. intros s' Hs'. apply Hn. by right.
  - intros s p Hs Hp. apply (Hall s Hs). unfold get_associated_impis in Hp.
    rewrite elem_present in Hp by apply Hok. destruct Hp as [-> | ->]; by eexists.
Qed.

(** When the write of a mapping that loses an identity meets a conflict and
    the mapping is gone (or has lost the identity) by the time it is read
    again, the loop never ends: the status keeps the old conflict. *)
Theorem remove_mapping_loops_forever `{ImpuStoreOps W} irs s p m (w w1 w2 : W) st out :
  get_impi_mapping s p w = Done (Store.OK, Some m) w1 ->
  has_default_impu m (_default_impu irs) = true ->
  (let m' := remove_default_impu m (_default_impu irs) in
   if is_empty m' then delete_impi_mapping s m' else set_impi_mapping s m') w1 =
    Done Store.DATA_CONTENTION w2 ->
  get_impi_mapping s p w2 = Done (st, out) w2 ->
  match st, out with
  | Store.OK, Some m2 => has_default_impu m2 (_default_impu irs) = false
  | Store.OK, None => False
  | _, _ => True
  end ->
  forall fuel l, impis_in State.DELETED irs = p :: l ->
    update_irs_impi_mappings fuel irs s w = OutOfFuel.
Proof.
  intros E1 Hhas E2 E3 Hst fuel l Hl. unfold update_irs_impi_mappings. rewrite Hl.
  enough (do_while fuel (remove_impi_mapping irs s p) contention Store.OK w = OutOfFuel) as E.
  { unfold bind at 1. simpl. unfold bind at 1. by rewrite E. }
  destruct fuel as [|f]; [done|].
  erewrite do_while_again with (a' := Store.DATA_CONTENTION) (w' := w2); [|..|done].
  - apply (do_while_diverges _ _ (fun st w => st = Store.DATA_CONTENTION /\ w = w2)); [|done].
    intros a v [-> ->]. exists Store.DATA_CONTENTION, w2. split; [|done].
    unfold remove_impi_mapping. rewrite (bind_done _ _ _ _ _ E3).
    destruct st; simpl; try done. destruct out as [m2|]; [|done]. simpl.
    by rewrite bind_ret, Hst.
  - unfold remove_impi_mapping. rewrite (bind_done _ _ _ _ _ E1). simpl. by rewrite bind_ret, Hhas.
Qed.

(** ** Witnesses *)

Lemma sample_writable : writable sample_irs (Mem.empty_at 500).
Proof.
  split; try (simpl; lia).
  - intros s a. split; [reflexivity|]. split; [unfold int64_range; simpl; lia|].
    split; [vm_compute; reflexivity|]. eexists _, _. split; vm_compute; reflexivity.
  - intros c s. split; [reflexivity|]. split; [unfold int64_range; simpl; lia|].
    split; [vm_compute; reflexivity|]. eexists _, _. split; vm_compute; reflexivity.
  - intros p. split; [reflexivity|unfold int64_range; simpl; lia].
Qed.

Lemma sample_default_not_associated :
  _default_impu sample_irs ∉ get_associated_impus sample_irs.
Proof. apply in_vector_false. reflexivity. Qed.

Lemma put_irs_action_correct_witness :
  exists w', put_irs_action 2 0 sample_irs (Mem.empty_at 500) = Done (Store.OK, sample_irs) w' /\
    irs_stored sample_irs (store_time (Mem.empty_at 500)) w' 0 /\ other_stores_kept 0 (Mem.empty_at 500) w' /\
    (forall p, p ∈ impis_in State.DELETED sample_irs ->
       mapping_lacks (_default_impu sample_irs) (stored_mapping w' 0 p)) /\
    (forall k, k ∈ impus_in State.DELETED sample_irs -> leads_elsewhere sample_irs w' 0 k).
Proof.
  apply (put_irs_action_correct 2 0 sample_irs (Mem.empty_at 500)).
  - apply empty_sound.
  - apply sample_writable.
  - apply irs_reachable_ok, sample_reachable.
  - lia.
  - reflexivity.
  - apply sample_default_not_associated.
  - left. split; reflexivity.
Defined.

Definition stored_irs : Irs := irs_of_impu sample_base sample_data 500.

Lemma stored_writable : writable stored_irs (Mem.empty_at 500).
Proof.
  assert (Ht : _ttl stored_irs = 500) by (vm_compute; reflexivity).
  split; rewrite ?Ht; try (simpl; lia).
  - intros s a. split; [reflexivity|]. split; [unfold int64_range; simpl; lia|].
    split; [vm_compute; reflexivity|]. eexists _, _. split; vm_compute; reflexivity.
  - intros c s. split; [reflexivity|]. split; [unfold int64_range; simpl; lia|].
    split; [vm_compute; reflexivity|]. eexists _, _. split; vm_compute; reflexivity.
  - intros p. split; [reflexivity|unfold int64_range; simpl; lia].
Qed.

Lemma delete_then_get_witness :
  exists w' irs',
    delete_implicit_registration_set 1 0 [1%nat] stored_irs (ret tt) (Mem.empty_at 500) =
      Done (Store.OK, irs') w' /\
    (forall i b d, resolve 0 [1%nat] w' i = Some (b, d) -> impu b <> _default_impu stored_irs) /\
    get_implicit_registration_set_for_impu 0 [1%nat] (_default_impu stored_irs) w' =
      Done (Store.NOT_FOUND, None) w' /\
    (forall s p, s ∈ [0; 1]%nat -> p ∈ get_associated_impis stored_irs ->
       mapping_lacks (_default_impu stored_irs) (stored_mapping w' s p)).
Proof.
  apply (delete_then_get 1 0 [1%nat] stored_irs (Mem.empty_at 500)).
  - apply empty_sound.
  - split; [apply writable_deletable, stored_writable|]. split; [apply irs_of_impu_ok|reflexivity].
  - lia.
Defined.

(** A race: the mapping is read, another node changes it and then removes it. *)
Module Race.
Inductive phase := Present | Gone.

Definition mapping : ImpiMapping := mkImpiMapping "a@b" 5 1000 ["sip:a@b"; "sip:c@d"]%string.

#[global] Instance ops : ImpuStoreOps phase := {|
  get_impu := fun _ _ => ret (Store.NOT_FOUND, None);
  set_impu := fun _ _ => ret Store.OK;
  set_impu_without_cas := fun _ _ => ret Store.OK;
  add_impu := fun _ _ => ret Store.OK;
  delete_impu := fun _ _ => ret Store.OK;
  get_impi_mapping := fun _ _ w =>
    match w with
    | Present => Done (Store.OK, Some mapping) Present
    | Gone => Done (Store.NOT_FOUND, None) Gone
    end;
  set_impi_mapping := fun _ _ _ => Done Store.DATA_CONTENTION Gone;
  delete_impi_mapping := fun _ _ => ret Store.OK;
  store_time := fun _ => 500
|}.

Definition irs : Irs :=
  delete_associated_impi "a@b" (irs_of_impu sample_base sample_data 500).
End Race.

Lemma remove_mapping_loops_forever_witness :
  impis_in State.DELETED Race.irs = ["a@b"] /\
  (forall fuel, update_irs_impi_mappings fuel Race.irs 0 Race.Present = OutOfFuel).
Proof.
  split; [reflexivity|]. intros fuel.
  apply (remove_mapping_loops_forever Race.irs 0 "a@b" Race.mapping Race.Present Race.Present
           Race.Gone Store.NOT_FOUND None) with (l := []); reflexivity.
Defined.
