(* ===== verification/CacheMerges.v ===== *)
(** * Writing a set where there may be a record already

    [put_irs_action] and [put_implicit_registration_set] of [src/memcached_cache.cpp]
    for a set that is new or was read, whatever the stores hold.  A set that was
    read and whose CAS value does not fit is merged with the record that is there
    and written again.  So two devices that register for a public identity that
    is registered already, each in a task of its own, are both registered in the
    end; of two first registrations, which have read no record, the later one
    overwrites the other. *)

From Stdlib Require Import String ZArith Lia.
From stdpp Require Import base list strings option.
From S2P Require Import Prelude StdMap Types Env Concrete ImpuStore XmlUtils Irs MemcachedCache CacheReads CacheWrites.
Open Scope Z_scope.

(** A refreshed set after it has been merged with a record. *)
Definition remerge (i : Irs) (d : DefaultData) : Irs :=
  mkIrs (_default_impu i) (_store i) (_cas i) (_ttl i) (_refreshed i) (_existing i)
    (merge_data_sets (_impis i) (impis d))
    (fold_left (fun m k => map_emplace m k State.DELETED) (associated_impus d) (_associated_impus i))
    (if _ims_sub_xml_set i then _ims_sub_xml i else service_profile d) (_ims_sub_xml_set i)
    (if _charging_addresses_set i then _charging_addresses i else charging_addresses d)
    (_charging_addresses_set i)
    (if _registration_state_set i then _registration_state i else registration_state d)
    (_registration_state_set i).

Lemma update_remerge {W} `{ImpuStoreOps W} i b d (w : W) :
  _refreshed i = true -> update_from_impu_from_store i b d w = Done (remerge i d) w.
Proof. intros Hr. unfold update_from_impu_from_store, remerge. cbn [_refreshed]. by rewrite Hr. Qed.

Lemma remerge_ok i d : irs_ok i -> irs_ok (remerge i d).
Proof.
  intros (Hp & Hu & Ht). split; [|split]; [by apply merge_data_sets_ok|by apply fold_emplace_ok|done].
Qed.

(** The private identities that are left: those added here, and those of the record
    that have not been deleted here. *)
Lemma remerge_impis i d k :
  irs_ok i ->
  k ∈ get_associated_impis (remerge i d) <->
  map_find (_impis i) k = Some State.ADDED \/
  (map_find (_impis i) k <> Some State.DELETED /\ k ∈ impis d).
Proof.
  intros Hi. unfold get_associated_impis. rewrite elem_present by apply (remerge_ok i d Hi).
  cbn [remerge _impis]. rewrite merge_data_sets_find, <- in_vector_spec.
  destruct (map_find (_impis i) k) as [[]|], (in_vector k (impis d)); intuition congruence.
Qed.

(** The associated identities are those of the set alone. *)
Lemma remerge_impus i d :
  irs_ok i -> forall k, k ∈ get_associated_impus (remerge i d) -> k ∈ get_associated_impus i.
Proof.
  intros Hi k. unfold get_associated_impus.
  rewrite elem_present by apply (remerge_ok i d Hi). rewrite elem_present by apply Hi.
  cbn [remerge _associated_impus].
  rewrite fold_emplace_find. destruct (map_find (_associated_impus i) k) as [[]|]; [tauto..|].
  destruct (in_vector k (associated_impus d)); intuition congruence.
Qed.

Section merges.
Context {W : Type} `{LawfulImpuStore W}.

(** A set that was read from the record with base [b] in store [s], changed by an
    assignment and ready to be written back. *)
Record prepared (b : ImpuBase) (s : nat) (irs : Irs) : Prop := {
  prepared_existing : _existing irs = true;
  prepared_store : _store irs = Some s;
  prepared_cas : _cas irs = cas b;
  prepared_default : _default_impu irs = impu b;
  prepared_refreshed : _refreshed irs = true;
  prepared_ok : irs_ok irs;
  prepared_state_set : _registration_state_set irs = true;
  prepared_registered : _registration_state irs = RegistrationState.REGISTERED;
  prepared_impus : _default_impu irs ∉ get_associated_impus irs
}.

Lemma remerge_prepared b s irs d : prepared b s irs -> prepared b s (remerge irs d).
Proof.
  intros [? ? ? ? ? Hok Hset Hreg Hnot]. split; try done; [by apply remerge_ok|..].
  - cbn. by rewrite Hset.
  - intros Hin. by apply Hnot, (remerge_impus irs d Hok).
Qed.

(** ** The default record, whatever is there *)

Definition state_known (i : Irs) : Prop :=
  _registration_state i = RegistrationState.REGISTERED \/
  _registration_state i = RegistrationState.UNREGISTERED.

(** What a set is merged into where it meets a record. *)
Definition met_record (w : W) (i : Irs) (s : nat) : Irs :=
  match stored_impu w s (_default_impu i) with
  | Some (DefaultImpu _ d) => remerge i d
  | _ => i
  end.

(** A read, and a write under the CAS value that was read. *)
Lemma attempt_met i s w st :
  sound w -> _refreshed i = true ->
  let j := met_record w i s in
  writable j w -> state_known j ->
  exists w' c, irs_impu_attempt SET_IMPU s (i, None, st) w = Done (j, None, Store.OK) w' /\
    impu_written w w' s (_default_impu j) (Some (default_record j s (store_time w) c)).
Proof.
  intros Hw Hr j Hwj Hst. unfold irs_impu_attempt.
  rewrite (bind_done _ _ _ _ _ (get_impu_stored w s (_default_impu i) Hw)). cbn iota beta.
  assert (Hset : forall c0 s0, c0 = current_cas w s (_default_impu j) ->
    exists w' c, (o <- create_impu j c0 s0 ;; status <- run_action SET_IMPU s o ;;
                  ret (j, None : option Impu, status)) w = Done (j, None, Store.OK) w' /\
      impu_written w w' s (_default_impu j) (Some (default_record j s (store_time w) c))).
  { intros c0 s0 Hc. assert (Hx : to_int32 (store_time w) < _ttl j + store_time w).
    { rewrite (time_small _ _ Hwj). pose proof (writable_ttl _ _ Hwj). lia. }
    destruct (set_impu_hit w s _ Hw (writable_default _ _ Hwj c0 s0) Hx Hc)
      as (w1 & c & E1 & _ & Hwrt). rewrite restored_record in Hwrt by done. exists w1, c.
    split; [|exact Hwrt]. rewrite (bind_done _ _ _ _ _ (create_impu_writable _ _ _ _ Hwj)).
    cbn [run_action]. by rewrite (bind_done _ _ _ _ _ E1). }
  unfold met_record in j. unfold current_cas in Hset.
  destruct (stored_impu w s (_default_impu i)) as [[b d|b a]|] eqn:E; cbv iota.
  - rewrite (bind_done _ _ _ _ _ (update_remerge i b d w Hr)). apply (Hset (cas b) (store b)).
    change (_default_impu j) with (_default_impu i). by rewrite E.
  - rewrite Hr. apply (Hset (cas b) (store b)). unfold j. by rewrite E.
  - apply (Hset 0 None). unfold j. by rewrite E.
Qed.

(** What becomes of a set that is written to a store: a set that was read keeps its
    data only where it still has the CAS value of the store. *)
Definition met (w : W) (i : Irs) (s : nat) : Irs :=
  if _existing i &&
     negb (bool_decide (_store i = Some s /\ _cas i = current_cas w s (_default_impu i)))
  then met_record w i s else i.

Lemma met_cases w i s :
  met w i s = i \/ exists b d, stored_impu w s (_default_impu i) = Some (DefaultImpu b d) /\ met w i s = remerge i d.
Proof.
  unfold met, met_record. destruct (_existing i && _); [|by left].
  destruct (stored_impu _ _ _) as [[b d|]|]; [right; by exists b, d|by left..].
Qed.

(** A set as the tasks write it. *)
Record to_write (i : Irs) : Prop := {
  to_write_refreshed : _refreshed i = true;
  to_write_ok : irs_ok i;
  to_write_impus : _default_impu i ∉ get_associated_impus i
}.

Lemma remerge_to_write i d : to_write i -> to_write (remerge i d).
Proof.
  intros [Hr Hok Hnot]. split; [done|by apply remerge_ok|].
  intros Hin. by apply Hnot, (remerge_impus i d Hok).
Qed.

Lemma met_to_write w i s : to_write i -> to_write (met w i s).
Proof.
  intros Hi. destruct (met_cases w i s) as [-> |(b & d & _ & ->)]; [done|]. by apply remerge_to_write.
Qed.

(** Nothing else that decides on later writes changes. *)
Lemma met_fields w i s :
  _default_impu (met w i s) = _default_impu i /\ _existing (met w i s) = _existing i /\
  _ttl (met w i s) = _ttl i.
Proof. by destruct (met_cases w i s) as [-> |(b & d & _ & ->)]. Qed.

(** The default record of a set that was read: written at once under its own CAS
    value, or after a read. *)
Lemma write_met fuel i s w :
  sound w -> (2 <= fuel)%nat -> _existing i = true -> _refreshed i = true -> writable i w ->
  let j := met w i s in
  writable j w -> state_known j ->
  exists w' c, update_irs_impu fuel i s w = Done (Store.OK, j) w' /\
    impu_written w w' s (_default_impu j) (Some (default_record j s (store_time w) c)).
Proof.
  intros Hw Hf He Hr Hwr j Hwj Hst.
  assert (Ej : j = if bool_decide (_store i = Some s /\ _cas i = current_cas w s (_default_impu i))
    then i else met_record w i s).
  { unfold j, met. rewrite He. by destruct (bool_decide _). }
  clearbody j. destruct (bool_decide _) eqn:Hd; subst j.
  { apply bool_decide_eq_true in Hd as [Hs Hc].
    destruct (write_default fuel i s w Hw Hwr ltac:(lia)) as (w' & c & E & Hwrt & _).
    { right. right. done. }
    rewrite He in E. by exists w', c. }
  set (j := met_record w i s) in *. apply bool_decide_eq_false in Hd.
  unfold update_irs_impu, perform_irs_impu_action, get_impu_for_store.
  destruct (bool_decide (_store i = Some s)) eqn:Hs.
  - apply bool_decide_eq_true in Hs. destruct fuel as [|[|n]]; [lia..|].
    destruct (attempt_met i s w Store.DATA_CONTENTION Hw Hr Hwj Hst) as (w' & c & E & Hwrt).
    exists w', c. split; [|exact Hwrt].
    assert (Hmiss : set_impu s (DefaultImpu (mkImpuBase (_default_impu i) (_cas i)
              (_ttl i + store_time w) (_store i)) (impu_data i)) w = Done Store.DATA_CONTENTION w).
    { apply set_impu_miss; [done|by apply writable_default|]. cbn. tauto. }
    unfold bind at 1 2. rewrite create_impu_writable by done. unfold ret at 1.
    rewrite (bind_done _ _ w (j, None, Store.OK) w'); [done|].
    rewrite do_while_again with (a' := (i, None, Store.DATA_CONTENTION)) (w' := w); [|..|done].
    { by apply do_while_once. }
    unfold irs_impu_attempt. cbn [run_action]. by rewrite (bind_done _ _ _ _ _ Hmiss).
  - destruct fuel as [|n]; [lia|].
    destruct (attempt_met i s w Store.OK Hw Hr Hwj Hst) as (w' & c & E & Hwrt).
    exists w', c. split; [|exact Hwrt]. rewrite bind_ret.
    rewrite (bind_done _ _ w (j, None, Store.OK) w'); [done|]. by apply do_while_once.
Qed.

(** A new set can be written where it is registered or there is no record. *)
Definition new_fits (w : W) (i : Irs) (s : nat) : Prop :=
  _existing i = false -> _registration_state i = RegistrationState.REGISTERED \/
    (_registration_state i = RegistrationState.UNREGISTERED /\
     stored_impu w s (_default_impu i) = None).

Lemma put_met fuel i s w :
  sound w -> (2 <= fuel)%nat -> to_write i -> writable i w -> new_fits w i s ->
  let j := met w i s in
  writable j w -> state_known j ->
  exists w', put_irs_action fuel s i w = Done (Store.OK, j) w' /\ ok_world w w' /\
    irs_stored j (store_time w) w' s /\ other_stores_kept s w w'.
Proof.
  intros Hw Hf Hi Hwr Hnew j Hwj Hst. pose proof (met_to_write w i s Hi) as [Hr Hok Hnot].
  fold j in Hr, Hok, Hnot.
  assert (Hfirst : exists w1 c,
    (if _existing i then update_irs_impu fuel i s
     else status <- create_irs_impu i s ;; ret (status, i)) w = Done (Store.OK, j) w1 /\
    impu_written w w1 s (_default_impu j) (Some (default_record j s (store_time w) c))).
  { destruct (_existing i) eqn:He.
    - apply write_met; [done..|apply Hi|done|done|done].
    - assert (Ej : j = i) by (unfold j, met; by rewrite He). rewrite Ej.
      destruct (write_default fuel i s w Hw Hwr ltac:(lia)) as (w1 & c & E & Hwrt & _).
      { destruct (Hnew He) as [Hreg|[Hun Hn]]; [by left|by right; left]. }
      rewrite He in E. by exists w1, c. }
  destruct Hfirst as (w1 & c & E & Hwrt).
  destruct (put_irs_rest fuel i j s w w1 c Hw Hwj Hok Hf Hr Hnot E Hwrt)
    as (w' & E' & Hok' & _ & Hs & Ho & _). by exists w'.
Qed.

(** ** All stores *)

(** The sets written to the stores of a list, one after the other: what one write
    has merged goes on to the next. *)
Fixpoint sets_written (w : W) (i : Irs) (l : list nat) : list Irs :=
  match l with
  | [] => []
  | s :: l => let j := met w i s in j :: sets_written w j l
  end.

Lemma met_other w w' i s s' : other_stores_kept s w w' -> s' <> s -> met w' i s' = met w i s'.
Proof.
  intros Ho Hs. unfold met, met_record, current_cas. by rewrite (proj1 (Ho s' (_default_impu i) Hs)).
Qed.

Lemma sets_written_other w w' i s l :
  other_stores_kept s w w' -> s ∉ l -> sets_written w' i l = sets_written w i l.
Proof.
  intros Ho. revert i. induction l as [|s' l IH]; intros i Hs; [done|]. simpl.
  apply not_elem_of_cons in Hs as [Hne Hs].
  by rewrite (met_other _ _ _ _ _ Ho), IH by (done || congruence).
Qed.

Lemma put_stores fuel l i w :
  sound w -> (2 <= fuel)%nat -> NoDup l -> to_write i -> writable i w ->
  (forall s, s ∈ l -> new_fits w i s) ->
  Forall (fun j => writable j w /\ state_known j) (sets_written w i l) ->
  exists w', foreach (fun r s => let* (_, s) := put_irs_action fuel r s in ret s) l i w =
      Done (List.last (sets_written w i l) i) w' /\ ok_world w w' /\
    (forall s j, (s, j) ∈ zip l (sets_written w i l) -> irs_stored j (store_time w) w' s) /\
    (forall s j, s ∉ l -> irs_stored j (store_time w) w s -> irs_stored j (store_time w) w' s).
Proof.
  intros Hw Hf. revert w i Hw. induction l as [|r l IH]; intros w i Hw Hnd Hi Hwr Hnew Hall; simpl.
  { exists w. split; [done|]. split; [done|]. by split; [intros s j ?%not_elem_of_nil|]. }
  apply list.NoDup_cons in Hnd as [Hnr Hnd]. cbn [sets_written] in Hall.
  apply list.Forall_cons in Hall as [[Hwj Hst] Hall].
  destruct (put_met fuel i r w Hw Hf Hi Hwr (Hnew r ltac:(left)) Hwj Hst)
    as (w1 & E1 & Hok1 & Hs1 & Ho1).
  set (j := met w i r) in *. destruct (met_fields w i r) as (Hd & He & _).
  fold j in Hd, He.
  assert (Esets : sets_written w1 j l = sets_written w j l) by by eapply sets_written_other.
  destruct (IH w1 j (proj1 Hok1) Hnd (met_to_write w i r Hi) (writable_world _ _ _ Hok1 Hwj))
    as (w2 & E2 & Hok2 & Hin2 & Hout2).
  { intros s Hs Hex. rewrite He in Hex. assert (Ej : j = i) by (unfold j, met; by rewrite Hex).
    rewrite Ej. assert (Hne : s <> r) by congruence. rewrite (proj1 (Ho1 s _ Hne)).
    apply (Hnew s); [by right|done]. }
  { rewrite Esets. eapply list.Forall_impl; [exact Hall|].
    intros k [Hk ?]. split; [by eapply writable_world|done]. }
  rewrite (proj2 Hok1), Esets in *. exists w2. split.
  { unfold bind at 1. unfold bind at 1. rewrite E1. unfold ret at 1. rewrite E2.
    destruct (sets_written w j l) as [|k ks]; [done|]. simpl. f_equal. clear.
    revert k. induction ks as [|k' ks IH]; intros k; [done|]. apply IH. }
  split; [by eapply ok_world_trans|]. split.
  - intros s k [[= -> ->]|Hin]%elem_of_cons; [|by apply Hin2].
    apply Hout2; [done|exact Hs1].
  - intros s k Hs Hk. apply not_elem_of_cons in Hs as [Hne Hs]. apply Hout2; [done|].
    by eapply irs_stored_kept.
Qed.

(** ** Properties *)


(** Two registrations that have both found no record overwrite each other: the set
    that is written last is what the store holds, without the private identities
    of the other. *)
Lemma first_registrations_overwrite fuel s w first second :
  sound w -> (2 <= fuel)%nat -> to_write first -> to_write second ->
  _existing first = false -> _existing second = false ->
  _registration_state first = RegistrationState.REGISTERED ->
  _registration_state second = RegistrationState.REGISTERED ->
  writable first w -> writable second w ->
  exists w1 w2,
    put_irs_action fuel s first w = Done (Store.OK, first) w1 /\
    put_irs_action fuel s second w1 = Done (Store.OK, second) w2 /\
    exists c, stored_impu w2 s (_default_impu second) = Some (default_record second s (store_time w) c).
Proof.
  intros Hw Hf H1 H2 He1 He2 Hr1 Hr2 Hwr1 Hwr2.
  assert (Hmet : forall w i, _existing i = false -> met w i s = i) by (intros w' i He; unfold met; by rewrite He).
  destruct (put_met fuel first s w Hw Hf H1 Hwr1) as (w1 & E1 & Hok1 & _); rewrite ?Hmet; try done;
    [by left|by left|]. rewrite Hmet in E1 by done.
  pose proof (writable_world _ _ _ Hok1 Hwr2) as Hwr2'.
  destruct (put_met fuel second s w1 (proj1 Hok1) Hf H2 Hwr2') as (w2 & E2 & _ & [[c Hc] _] & _);
    rewrite ?Hmet; try done; [by left|by left|]. rewrite Hmet in E2, Hc by done.
  exists w1, w2. split; [done|]. split; [done|]. exists c. by rewrite Hc, (proj2 Hok1).
Qed.

End merges.

(** ** Witness *)

(** A store that holds a set. *)
Definition registered_mem : Mem.mem :=
  match put_irs_action 2 0 sample_irs (Mem.empty_at 500) with
  | Done _ w => w
  | _ => Mem.empty_at 500
  end.

Lemma registered_mem_ok : ok_world (Mem.empty_at 500) registered_mem.
Proof.
  destruct (put_irs_ok 2 sample_irs 0 (Mem.empty_at 500)) as (w & E & Hok & _).
  - apply empty_sound.
  - apply sample_writable.
  - apply irs_reachable_ok, sample_reachable.
  - lia.
  - reflexivity.
  - apply sample_default_not_associated.
  - left. split; reflexivity.
  - unfold registered_mem. by rewrite E.
Qed.

(** A device [k] registers. *)
Definition registering (b : ImpuBase) (d : DefaultData) (k : string) : Irs :=
  set_ttl 600 (set_reg_state RegistrationState.REGISTERED
    (add_associated_impi k (irs_of_impu b d 500))).

Ltac writable_at_500 :=
  apply (writable_at _ (Mem.empty_at 500)); [apply registered_mem_ok|];
  split; [vm_compute; reflexivity|simpl; lia|vm_compute; reflexivity|..];
  intros; (split; [reflexivity|]); [split..|]; unfold int64_range;
  try (vm_compute; split; congruence); try (split; [vm_compute; reflexivity|]);
  eexists _, _; split; vm_compute; reflexivity.

(** A set that was read before the record of [registered_mem] was written, and a
    remote store that has none. *)
Definition read_before : Irs :=
  registering (mkImpuBase "sip:a@b" 7 1100 (Some 0%nat)) (impu_data sample_irs) "phone@b".


