(* ===== verification/CacheErrors.v ===== *)
(** * What the status of a write to the cache tells

    The writes of [src/memcached_cache.cpp] over stores that may fail in any way: no
    law of the stores is assumed. *)

From Stdlib Require Import String ZArith Lia.
From stdpp Require Import base list strings option.
From S2P Require Import Prelude StdMap Types Env Concrete ImpuStore XmlUtils Irs MemcachedCache CacheReads CacheWrites.
Open Scope Z_scope.

Section errors.
Context {W : Type} `{ImpuStoreOps W} (fuel : nat) (ls : nat) (rs : list nat).

(** The first step of a write: the default record. *)
Definition write_default_record (s : nat) (irs : Irs) : IO W (Store.Status * Irs) :=
  if _existing irs then update_irs_impu fuel irs s
  else status <- create_irs_impu irs s ;; ret (status, irs).

(** A run of steps, each with a status, that ends at the first that fails. *)
Inductive until_failure : list (IO W Store.Status) -> W -> Store.Status -> W -> Prop :=
| all_done w : until_failure [] w Store.OK w
| step_done c l w w1 st w' :
    c w = Done Store.OK w1 -> until_failure l w1 st w' -> until_failure (c :: l) w st w'
| step_failed c l w st w' : c w = Done st w' -> st <> Store.OK -> until_failure (c :: l) w st w'.

Lemma put_irs_status s irs st i w w' :
  put_irs_action fuel s irs w = Done (st, i) w' ->
  exists w1, write_default_record s irs w = Done (st, i) w1 /\
    (st <> Store.OK -> w' = w1) /\
    (st = Store.OK -> exists st2 w2 st3, update_irs_associated_impus fuel i s w1 = Done st2 w2 /\
       update_irs_impi_mappings fuel i s w2 = Done st3 w').
Proof.
  intros ([st1 i1] & w1 & E1 & E)%bind_inv. exists w1.
  destruct (status_eqb st1 Store.OK) eqn:Es.
  - apply bind_inv in E as (st2 & w2 & E2 & E). apply bind_inv in E as (st3 & w3 & E3 & E).
    injection E as <- <- <-. split; [exact E1|]. split; [|by eauto].
    intros Hn. by destruct st1.
  - injection E as <- <- <-. split; [exact E1|]. split; [done|]. intros ->. by rewrite status_eqb_refl in Es.
Qed.

Lemma delete_irs_status s irs st i w w' :
  delete_irs_action fuel s irs w = Done (st, i) w' ->
  exists st1 i1 w1, delete_irs_impu fuel irs s w = Done (st1, i1) w1 /\
    if status_eqb st1 Store.OK then
      until_failure [update_irs_associated_impus fuel (delete_assoc_impus i1) s;
                     update_irs_impi_mappings fuel (delete_impis (delete_assoc_impus i1)) s] w1 st w'
    else st = st1 /\ w' = w1.
Proof.
  intros ([st1 i1] & w1 & E1 & E)%bind_inv. exists st1, i1, w1. split; [done|].
  destruct (status_eqb st1 Store.OK) eqn:Es.
  - apply bind_inv in E as ([st2 i2] & w2 & E2 & E).
    apply bind_inv in E2 as (st2' & w2' & E2 & E2'). injection E2' as -> <- ->.
    destruct (status_eqb st2 Store.OK) eqn:Es2.
    + assert (st2 = Store.OK) as -> by by destruct st2.
      apply bind_inv in E as (st3 & w3 & E3 & E). injection E as <- _ <-.
      eapply step_done; [exact E2|]. destruct (decide (st3 = Store.OK)) as [->|Hn].
      * eapply step_done; [exact E3|constructor].
      * by apply step_failed.
    + injection E as <- _ <-. apply step_failed; [exact E2|]. intros ->.
      by rewrite status_eqb_refl in Es2.
  - apply bind_inv in E as ([st2 i2] & w2 & E2 & E). injection E2 as <- <- <-. rewrite Es in E.
    by injection E as <- _ <-.
Qed.

(** The status of the local store is the status of the operation. *)
Lemma perform_status {S} (action : nat -> S -> IO W (Store.Status * S)) cb x st y w w' :
  perform ls rs action cb x w = Done (st, y) w' ->
  exists y1 w1, action ls x w = Done (st, y1) w1 /\ (st <> Store.OK -> w' = w1).
Proof.
  intros ([st1 y1] & w1 & E1 & E)%bind_inv. destruct (status_eqb st1 Store.OK) eqn:Es.
  - apply bind_inv in E as ([] & w2 & E2 & E). apply bind_inv in E as (y2 & w3 & E3 & E).
    injection E as <- <- <-. exists y1, w1. split; [done|]. intros Hn. by destruct st1.
  - injection E as <- <- <-. by exists y1, w1.
Qed.

(** The status of the last set that is deleted. *)
Definition last_status (l : list (bool * Store.Status)) (st : Store.Status) : Store.Status :=
  fold_left (fun st e => if fst e : bool then snd e else st) l st.

Lemma delete_irss_status s irss st0 st l w w' :
  delete_irss_loop fuel s irss st0 w = Done (st, l) w' ->
  exists sts, map fst sts = map _existing irss /\ st = last_status sts st0.
Proof.
  revert st0 l w. induction irss as [|irs irss IH]; intros st0 l w.
  - intros [= <- _ _]. by exists [].
  - intros ([st1 i1] & w1 & E1 & E)%bind_inv. apply bind_inv in E as ([st2 l2] & w2 & E2 & E).
    injection E as <- _ <-. destruct (IH _ _ _ E2) as (sts & Hf & ->).
    exists ((_existing irs, st1) :: sts). cbn [map fst]. rewrite Hf. split; [done|].
    cbn [last_status fold_left fst snd]. destruct (_existing irs); [done|].
    by injection E1 as <- _ _.
Qed.

(** C39: Over stores that fail in any way, the status a write of a registration set
    reports is that of its default record in the local store, and nothing else:
    when that write fails nothing more is done, anywhere; and when it succeeds the
    write is reported as done, whatever becomes of the associated records, of the
    mappings of the private identities and of the remote sites.  A deletion
    reports its first failing step in the local store, and does none after it. *)
Theorem write_status irs cb st i (w w' : W) :
  (put_implicit_registration_set fuel ls rs irs cb w = Done (st, i) w' -> has_changed irs = true ->
   exists i1 w1, write_default_record ls irs w = Done (st, i1) w1 /\
     (st <> Store.OK -> i = i1 /\ w' = w1)) /\
  (delete_implicit_registration_set fuel ls rs irs cb w = Done (st, i) w' -> _existing irs = true ->
   exists st1 i1 w1 w2, delete_irs_impu fuel irs ls w = Done (st1, i1) w1 /\
     (if status_eqb st1 Store.OK then
        until_failure [update_irs_associated_impus fuel (delete_assoc_impus i1) ls;
                       update_irs_impi_mappings fuel (delete_impis (delete_assoc_impus i1)) ls] w1 st w2
      else st = st1 /\ w2 = w1) /\
     (st <> Store.OK -> w' = w2)).
Proof.
  split.
  - unfold put_implicit_registration_set. intros Hp Hc. rewrite Hc in Hp.
    apply bind_inv in Hp as ([st1 y1] & w1 & E1 & E).
    destruct (put_irs_status _ _ _ _ _ _ E1) as (w0 & E0 & Hn & _).
    destruct (status_eqb st1 Store.OK) eqn:Es.
    + apply bind_inv in E as ([] & w2 & E2 & E). apply bind_inv in E as (y2 & w3 & E3 & E).
      injection E as <- <- <-. exists y1, w0. split; [done|]. intros Hne. by destruct st1.
    + injection E as <- <- <-. exists y1, w0. split; [done|]. auto.
  - unfold delete_implicit_registration_set. intros Hp Hc. rewrite Hc in Hp.
    destruct (perform_status _ _ _ _ _ _ _ Hp) as (y1 & w2 & E1 & Hn).
    destruct (delete_irs_status _ _ _ _ _ _ E1) as (st1 & i1 & w1 & E0 & Hs).
    exists st1, i1, w1, w2. split; [done|]. split; [|done]. exact Hs.
Qed.
End errors.

(** ** A store that loses the mappings *)

(** The mappings cannot be written; all else works. *)
Definition no_mappings : ImpuStoreOps Mem.mem := {|
  get_impu := get_impu;
  set_impu := set_impu;
  set_impu_without_cas := set_impu_without_cas;
  add_impu := add_impu;
  delete_impu := delete_impu;
  get_impi_mapping := get_impi_mapping;
  set_impi_mapping := fun _ _ => ret Store.ERROR;
  delete_impi_mapping := fun _ _ => ret Store.ERROR;
  store_time := store_time
|}.

(** The write is reported as done although the private identity is not mapped. *)
Lemma write_status_witness :
  exists w', put_implicit_registration_set (H := no_mappings) 2 0 [] sample_irs (ret tt)
    (Mem.empty_at 500) = Done (Store.OK, sample_irs) w' /\
  stored_mapping w' 0 "a@b" = None /\
  exists i1 w1, write_default_record (H := no_mappings) 2 0 sample_irs (Mem.empty_at 500) =
    Done (Store.OK, i1) w1.
Proof.
  eexists. split; [vm_compute; reflexivity|]. split; [vm_compute; reflexivity|].
  destruct (proj1 (write_status (H := no_mappings) 2 0 [] sample_irs (ret tt) Store.OK sample_irs
    (Mem.empty_at 500) _) ltac:(vm_compute; reflexivity) ltac:(vm_compute; reflexivity))
    as (i1 & w1 & E & _). exists i1, w1. exact E.
Defined.
