(* ===== verification/HttpTasks.v ===== *)
(** * HTTP tasks

    What the tasks of [src/http_handlers.cpp] share: the request as the HTTP
    stack presents it, the static configuration of [HssCacheTask], and the
    actions a task can take.  A task's methods are handlers: they update its
    members and issue actions in order. *)

From Stdlib Require Import String Ascii ZArith Lia.
From stdpp Require Import base list strings option.
From S2P Require Import Prelude Types Env Irs.
Import HssConnection.

(** [HttpStack::Request]; a missing parameter or header is empty. *)
Record Request := mkRequest {
  method : htp_method;
  path : string;
  full_path : string;
  file : string;
  param : string -> string;
  header : string -> string;
  get_rx_body : string
}.

(** What a task does.  [BadPointer] is the dereference of a null pointer or of
    one whose target has another type; [Throws] an exception that leaves the
    task. *)
Inductive action :=
| AddContent (body : string)
| SendHttpReply (rc : HTTPCode)
| DeleteThis
| SendMAR (r : MultimediaAuthRequest)
| SendUAR (r : UserAuthRequest)
| SendLIR (r : LocationInfoRequest)
| SendSAR (r : ServerAssignmentRequest)
| CacheGetIrs (impu : string)
| CachePutIrs (irs : Irs)
| CacheDeleteIrs (irs : Irs)
| RecordPenalty
| HealthCheckPassed
| BadPointer
| Throws.

Definition send_http_reply {T} (rc : HTTPCode) : Handler T action unit := hemit (SendHttpReply rc).
Definition delete_this {T} : Handler T action unit := hemit DeleteThis.

(** Functions of cpp-common the tasks call on their parameters. *)
Class HttpUtils := {
  base64_decode : string -> string;
  url_unescape : string -> string
}.

(** [path.substr(n, path.find_first_of("/", n) - n)] for a prefix of length
    [n]: up to the next slash, or all when there is none; [None] when the path
    is shorter than the prefix, where [substr] throws. *)
Fixpoint to_slash (s : string) : string :=
  match s with
  | EmptyString => EmptyString
  | String a s' => if Ascii.eqb a "/" then EmptyString else String a (to_slash s')
  end.

Fixpoint path_id (prefix path : string) : option string :=
  match prefix, path with
  | EmptyString, _ => Some (to_slash path)
  | String _ _, EmptyString => None
  | String _ prefix', String _ path' => path_id prefix' path'
  end.

Definition is_reply (a : action) : bool := match a with SendHttpReply _ => true | _ => false end.
Definition is_delete (a : action) : bool := match a with DeleteThis => true | _ => false end.
Definition is_fault (a : action) : bool :=
  match a with BadPointer | Throws => true | _ => false end.

Definition replies (l : list action) : list HTTPCode :=
  omap (fun a => match a with SendHttpReply rc => Some rc | _ => None end) l.

(** A task that has answered with [rc] and is gone: one reply, one deletion,
    which is the last thing it does, and no fault. *)
Definition answered (l : list action) (rc : HTTPCode) : Prop :=
  replies l = [rc] /\ exists l', l = l' ++ [DeleteThis] /\
  existsb is_delete l' = false /\ existsb is_fault l = false.

(** The configured server name is used unless the request has one. *)
Definition server_name_or (configured provided : string) : string :=
  if str_empty provided then configured else provided.

Lemma path_id_prefix prefix rest : path_id prefix (prefix +:+ rest) = Some (to_slash rest).
Proof. induction prefix as [|a p IH]; [by destruct rest|exact IH]. Qed.

Lemma to_slash_id id rest :
  to_slash id = id -> to_slash (id +:+ String "/" rest) = id.
Proof.
  induction id as [|a id IH]; [done|]. cbn [to_slash].
  change (String a id +:+ String "/" rest) with (String a (id +:+ String "/" rest)).
  cbn [to_slash]. destruct (Ascii.eqb a "/"); [done|]. intros [= E]. by rewrite IH.
Qed.

(** Parameters without escapes, for concrete requests. *)
Module Plain.
#[global] Instance utils : HttpUtils := {|
  base64_decode := fun s => s;
  url_unescape := fun s => s
|}.
End Plain.
