(* ===== verification/HttpImpi.v ===== *)
(** * Private-identity and location tasks

    [ImpiTask] with its subclasses [ImpiDigestTask] and [ImpiAvTask],
    [ImpiRegistrationStatusTask] and [ImpuLocationInfoTask] of
    [src/http_handlers.cpp]: each sends one request to the HSS and answers
    from the response. *)

From Stdlib Require Import String Ascii ZArith Lia.
From stdpp Require Import base list strings option.
From S2P Require Import Prelude Types Env Irs Concrete HttpTasks.
Import HssConnection.

(** ** JSON names *)
Definition JSON_DIGEST_HA1 : string := "digest_ha1".
Definition JSON_DIGEST : string := "digest".
Definition JSON_HA1 : string := "ha1".
Definition JSON_REALM : string := "realm".
Definition JSON_QOP : string := "qop".
Definition JSON_AUTH : string := "auth".
Definition JSON_AKA : string := "aka".
Definition JSON_CHALLENGE : string := "challenge".
Definition JSON_RESPONSE : string := "response".
Definition JSON_CRYPTKEY : string := "cryptkey".
Definition JSON_INTEGRITYKEY : string := "integritykey".
Definition JSON_VERSION : string := "version".
Definition JSON_RC : string := "result-code".
Definition JSON_SCSCF : string := "scscf".
Definition JSON_WILDCARD : string := "wildcard-identity".
Definition AUTH_FIELD_NAME : string := "resync-auth".
Definition SERVER_NAME_FIELD : string := "server-name".

Record ImpiConfig := mkImpiConfig {
  scheme_unknown : string;
  cfg_scheme_digest : string;
  cfg_scheme_akav1 : string;
  cfg_scheme_akav2 : string
}.

(** The members of an [ImpiTask], and its dynamic type. *)
Inductive ImpiKind := ImpiDigestTask | ImpiAvTask.

Record ImpiTask := mkImpiTask {
  impi : string;
  impu : string;
  scheme : string;
  authorization : string;
  provided_server_name : string
}.

Definition new_impi_task : ImpiTask := mkImpiTask "" "" "" "" "".

Section impi_tasks.
Context `{JsonLib} `{HttpUtils}.
Context (configured_server_name : string).

(** ** Parsing *)

(** [ImpiDigestTask::parse_request]; [None] is the exception of [substr]. *)
Definition digest_parse_request (cfg : ImpiConfig) (req : Request) : option (bool * ImpiTask) :=
  match path_id "/impi/" (path req) with
  | None => None
  | Some i =>
      Some (true, mkImpiTask i (param req "public_id") (cfg_scheme_digest cfg) ""
                    (param req SERVER_NAME_FIELD))
  end.

(** [ImpiAvTask::parse_request] *)
Definition av_parse_request (cfg : ImpiConfig) (req : Request) : option (bool * ImpiTask) :=
  match path_id "/impi/" (path req) with
  | None => None
  | Some i =>
      let s := file req in
      let chosen :=
        if String.eqb s "av" then Some (scheme_unknown cfg)
        else if String.eqb s "digest" then Some (cfg_scheme_digest cfg)
        else if String.eqb s "aka" then Some (cfg_scheme_akav1 cfg)
        else if String.eqb s "aka2" then Some (cfg_scheme_akav2 cfg)
        else None in
      match chosen with
      | None => Some (false, mkImpiTask i "" "" "" "")
      | Some sch =>
          Some (true, mkImpiTask i (param req "impu") sch
                        (base64_decode (param req AUTH_FIELD_NAME))
                        (param req SERVER_NAME_FIELD))
      end
  end.

Definition parse_request (k : ImpiKind) (cfg : ImpiConfig) (req : Request)
    : option (bool * ImpiTask) :=
  match k with
  | ImpiDigestTask => digest_parse_request cfg req
  | ImpiAvTask => av_parse_request cfg req
  end.

(** ** Request *)

Definition send_mar : Handler ImpiTask action unit :=
  (t <- hget ;;
   hemit (SendMAR (mkMultimediaAuthRequest (impi t) (impu t)
            (server_name_or configured_server_name (provided_server_name t))
            (scheme t) (authorization t))))%h.

Definition get_av : Handler ImpiTask action unit :=
  (t <- hget ;;
   if str_empty (impu t) then send_http_reply HTTP_NOT_FOUND ;;; delete_this
   else send_mar)%h.

Definition impi_run (k : ImpiKind) (cfg : ImpiConfig) (req : Request)
    : Handler ImpiTask action unit :=
  (match parse_request k cfg req with
   | None => hemit Throws
   | Some (ok, t) =>
       hmodify (fun _ => t) ;;;
       if ok then get_av else send_http_reply HTTP_NOT_FOUND ;;; delete_this
   end)%h.

(** ** Replies *)

Definition json_body (l : list (string * json)) : string := c_str (serialize (JObj l)).

Definition digest_send_reply_digest (av : DigestAuthVector) : Handler ImpiTask action unit :=
  (hemit (AddContent (json_body [str_member JSON_DIGEST_HA1 (ha1 av)])) ;;;
   send_http_reply HTTP_OK)%h.

Definition digest_send_reply_aka (_ : AKAAuthVector) : Handler ImpiTask action unit :=
  send_http_reply HTTP_NOT_FOUND.

Definition av_send_reply_digest (av : DigestAuthVector) : Handler ImpiTask action unit :=
  (let qop_value := if str_empty (qop av) then JSON_AUTH else qop av in
   hemit (AddContent (json_body
     [(JSON_DIGEST, JObj [str_member JSON_HA1 (ha1 av); str_member JSON_REALM (realm av);
                          str_member JSON_QOP qop_value])])) ;;;
   send_http_reply HTTP_OK)%h.

Definition av_send_reply_aka (av : AKAAuthVector) : Handler ImpiTask action unit :=
  (hemit (AddContent (json_body
     [(JSON_AKA, JObj [str_member JSON_CHALLENGE (challenge av);
                       str_member JSON_RESPONSE (response av);
                       str_member JSON_CRYPTKEY (crypt_key av);
                       str_member JSON_INTEGRITYKEY (integrity_key av);
                       (JSON_VERSION, JInt (version av))])])) ;;;
   send_http_reply HTTP_OK)%h.

Definition send_reply_digest (k : ImpiKind) (av : DigestAuthVector) : Handler ImpiTask action unit :=
  match k with
  | ImpiDigestTask => digest_send_reply_digest av
  | ImpiAvTask => av_send_reply_digest av
  end.

Definition send_reply_aka (k : ImpiKind) (av : AKAAuthVector) : Handler ImpiTask action unit :=
  match k with
  | ImpiDigestTask => digest_send_reply_aka av
  | ImpiAvTask => av_send_reply_aka av
  end.

(** The vector is cast to the type its scheme implies. *)
Definition on_mar_response (k : ImpiKind) (cfg : ImpiConfig) (maa : MultimediaAuthAnswer)
    : Handler ImpiTask action unit :=
  ((match maa_result maa with
    | SUCCESS =>
        let s := maa_scheme maa in
        if String.eqb s (cfg_scheme_digest cfg) then
          match maa_av maa with
          | Some (Digest av) => send_reply_digest k av
          | _ => hemit BadPointer
          end
        else if String.eqb s (cfg_scheme_akav1 cfg) then
          match maa_av maa with
          | Some (AKA av) => send_reply_aka k av
          | _ => hemit BadPointer
          end
        else if String.eqb s (cfg_scheme_akav2 cfg) then
          match maa_av maa with
          | Some (AKA av) => send_reply_aka k (set_version 2 av)
          | _ => hemit BadPointer
          end
        else send_http_reply HTTP_NOT_FOUND
    | SERVER_UNAVAILABLE => send_http_reply HTTP_SERVER_UNAVAILABLE
    | NOT_FOUND => send_http_reply HTTP_NOT_FOUND
    | TIMEOUT => hemit RecordPenalty ;;; send_http_reply HTTP_GATEWAY_TIMEOUT
    | _ => send_http_reply HTTP_SERVER_ERROR
    end) ;;;
   delete_this)%h.

(** ** Registration status *)

Record StatusTask := mkStatusTask {
  st_impi : string;
  st_impu : string;
  st_visited_network : string;
  st_authorization_type : string;
  st_emergency : bool
}.

Definition registration_status_run (default_realm : string) (req : Request)
    : Handler StatusTask action unit :=
  (match path_id "/impi/" (path req) with
   | None => hemit Throws
   | Some i =>
       let visited := param req "visited-network" in
       let t := mkStatusTask i (param req "impu")
                  (if str_empty visited then default_realm else visited)
                  (param req "auth-type") (String.eqb (param req "sos") "true") in
       hmodify (fun _ => t) ;;;
       hemit (SendUAR (mkUserAuthRequest (st_impi t) (st_impu t) (st_visited_network t)
                         (st_authorization_type t) (st_emergency t)))
   end)%h.

(** The members written for the server: its name if the HSS assigned one, or
    the capabilities a server must have. *)
Definition server_members (server : string) (caps : ServerCapabilities) : list (string * json) :=
  if negb (str_empty server) then [str_member JSON_SCSCF server]
  else (if negb (str_empty (cap_server_name caps))
        then [str_member JSON_SCSCF (cap_server_name caps)] else []) ++ write_capabilities caps.

Definition on_uar_response (health_checker : bool) (uaa : UserAuthAnswer)
    : Handler StatusTask action unit :=
  ((match uaa_result uaa with
    | SUCCESS =>
        hemit (AddContent (json_body
          ((JSON_RC, JInt (uaa_json_result uaa)) ::
           server_members (uaa_server uaa) (uaa_server_capabilities uaa)))) ;;;
        send_http_reply HTTP_OK ;;;
        (if health_checker then hemit HealthCheckPassed else hret tt)
    | NOT_FOUND => send_http_reply HTTP_NOT_FOUND
    | FORBIDDEN => send_http_reply HTTP_FORBIDDEN
    | TIMEOUT => hemit RecordPenalty ;;; send_http_reply HTTP_GATEWAY_TIMEOUT
    | SERVER_UNAVAILABLE => send_http_reply HTTP_SERVER_UNAVAILABLE
    | _ => send_http_reply HTTP_SERVER_ERROR
    end) ;;;
   delete_this)%h.

(** ** Location information *)

Record LocationTask := mkLocationTask {
  loc_impu : string;
  loc_originating : string;
  loc_authorization_type : string
}.

Definition location_info_run (req : Request) : Handler LocationTask action unit :=
  (match path_id "/impu/" (path req) with
   | None => hemit Throws
   | Some i =>
       let t := mkLocationTask i (param req "originating") (param req "auth-type") in
       hmodify (fun _ => t) ;;;
       hemit (SendLIR (mkLocationInfoRequest (loc_impu t) (loc_originating t)
                         (loc_authorization_type t)))
   end)%h.

Definition on_lir_response (lia : LocationInfoAnswer) : Handler LocationTask action unit :=
  ((match lia_result lia with
    | SUCCESS =>
        hemit (AddContent (json_body
          ((JSON_RC, JInt (lia_json_result lia)) ::
           server_members (lia_server lia) (lia_server_capabilities lia) ++
           (if negb (str_empty (lia_wildcard_impu lia))
            then [str_member JSON_WILDCARD (lia_wildcard_impu lia)] else [])))) ;;;
        send_http_reply HTTP_OK
    | NOT_FOUND => send_http_reply HTTP_NOT_FOUND
    | TIMEOUT => hemit RecordPenalty ;;; send_http_reply HTTP_GATEWAY_TIMEOUT
    | SERVER_UNAVAILABLE => send_http_reply HTTP_SERVER_UNAVAILABLE
    | _ => send_http_reply HTTP_SERVER_ERROR
    end) ;;;
   delete_this)%h.
End impi_tasks.

(** ** What a task does from request to end *)

Definition outputs {T A} (r : A * T * list action) : list action := snd r.
Definition members {T A} (r : A * T * list action) : T := snd (fst r).

(** The reply code an HSS result leads to. *)
Definition code_of_result (rc : ResultCode) : HTTPCode :=
  match rc with
  | SUCCESS => HTTP_OK
  | NOT_FOUND => HTTP_NOT_FOUND
  | TIMEOUT => HTTP_GATEWAY_TIMEOUT
  | SERVER_UNAVAILABLE => HTTP_SERVER_UNAVAILABLE
  | _ => HTTP_SERVER_ERROR
  end.

Section flows.
Context `{JsonLib} `{HttpUtils}.
Context (configured_server_name : string).

(** [run], then the response to the request it sent, if any. *)
Definition impi_flow (k : ImpiKind) (cfg : ImpiConfig) (req : Request)
    (maa : MultimediaAuthRequest -> MultimediaAuthAnswer) : list action :=
  let r := impi_run configured_server_name k cfg req new_impi_task in
  match outputs r with
  | [SendMAR m] => SendMAR m :: outputs (on_mar_response k cfg (maa m) (members r))
  | l => l
  end.

(** What the connections to the HSS guarantee of an answer: on success the
    auth vector is there and is of the kind its scheme names. *)
Definition av_matches (cfg : ImpiConfig) (a : MultimediaAuthAnswer) : Prop :=
  maa_result a = SUCCESS ->
  if String.eqb (maa_scheme a) (cfg_scheme_digest cfg) then exists v, maa_av a = Some (Digest v)
  else if String.eqb (maa_scheme a) (cfg_scheme_akav1 cfg) ||
          String.eqb (maa_scheme a) (cfg_scheme_akav2 cfg)
  then exists v, maa_av a = Some (AKA v)
  else True.

(** The reply to a successful answer. *)
Definition success_code (k : ImpiKind) (cfg : ImpiConfig) (a : MultimediaAuthAnswer) : HTTPCode :=
  if String.eqb (maa_scheme a) (cfg_scheme_digest cfg) then HTTP_OK
  else if String.eqb (maa_scheme a) (cfg_scheme_akav1 cfg) ||
          String.eqb (maa_scheme a) (cfg_scheme_akav2 cfg)
  then match k with ImpiDigestTask => HTTP_NOT_FOUND | ImpiAvTask => HTTP_OK end
  else HTTP_NOT_FOUND.

(** A private-identity task answers exactly once and deletes itself as its
    last action, without touching an auth vector of the wrong kind, whatever
    the request and the answer: 404 when the request has no public identity or
    an unknown scheme, otherwise one code per HSS result; a digest task answers
    404 to an AKA vector. *)
Theorem impi_task_answers_once k cfg req maa :
  path_id "/impi/" (path req) <> None ->
  (forall m, av_matches cfg (maa m)) ->
  exists ok t, parse_request k cfg req = Some (ok, t) /\
  if ok && negb (str_empty (impu t)) then
    let m := mkMultimediaAuthRequest (impi t) (impu t)
               (server_name_or configured_server_name (provided_server_name t))
               (scheme t) (authorization t) in
    exists l, impi_flow k cfg req maa = SendMAR m :: l /\
      answered l (match maa_result (maa m) with
                  | SUCCESS => success_code k cfg (maa m)
                  | r => code_of_result r
                  end)
  else answered (impi_flow k cfg req maa) HTTP_NOT_FOUND.
Proof.
  intros Hpath Hav.
  assert (Hp : exists ok t, parse_request k cfg req = Some (ok, t)).
  { destruct (path_id "/impi/" (path req)) as [i|] eqn:E; [|done].
    destruct k; simpl; [unfold digest_parse_request|unfold av_parse_request]; rewrite E;
      repeat case_match_any; eauto. }
  destruct Hp as (ok & t & Hp). exists ok, t. split; [done|].
  unfold impi_flow, impi_run. rewrite Hp. destruct ok; simpl.
  2:{ split; [done|]. by exists [SendHttpReply HTTP_NOT_FOUND]. }
  unfold get_av, hbind, hmodify, hget. destruct (str_empty (impu t)) eqn:Ei; simpl; rewrite ?Ei; simpl.
  { split; [done|]. by exists [SendHttpReply HTTP_NOT_FOUND]. }
  eexists. split; [done|]. set (m := mkMultimediaAuthRequest _ _ _ _ _).
  specialize (Hav m). unfold av_matches in Hav. unfold on_mar_response, success_code.
  destruct (maa_result (maa m)); simpl;
    try (split; [done|]; eexists [_] || eexists [_; _]; done).
  - specialize (Hav eq_refl). destruct (String.eqb _ (cfg_scheme_digest cfg)).
    { destruct Hav as [v ->]. destruct k; (split; [done|]; by eexists [_; _]). }
    destruct (String.eqb _ (cfg_scheme_akav1 cfg)); simpl in Hav |- *.
    { destruct Hav as [v ->]. destruct k; (split; [done|]); [by eexists [_]|by eexists [_; _]]. }
    destruct (String.eqb _ (cfg_scheme_akav2 cfg)); simpl in Hav |- *.
    { destruct Hav as [v ->]. destruct k; (split; [done|]); [by eexists [_]|by eexists [_; _]]. }
    split; [done|]. by eexists [_].
  - split; [done|]. by eexists [_; _].
Qed.

(** The answers to a User-Authorization and to a Location-Info answer are
    sent exactly once, with the code of the HSS result (403 for a
    User-Authorization that is forbidden), a body only on success, and the
    task deletes itself last. *)
Theorem status_and_location_answer_once hc st loc uaa lia :
  answered (outputs (on_uar_response hc uaa st))
    (match uaa_result uaa with FORBIDDEN => HTTP_FORBIDDEN | r => code_of_result r end) /\
  answered (outputs (on_lir_response lia loc)) (code_of_result (lia_result lia)) /\
  (forall b, AddContent b ∈ outputs (on_uar_response hc uaa st) -> uaa_result uaa = SUCCESS) /\
  (forall b, AddContent b ∈ outputs (on_lir_response lia loc) -> lia_result lia = SUCCESS) /\
  (HealthCheckPassed ∈ outputs (on_uar_response hc uaa st) <->
   hc = true /\ uaa_result uaa = SUCCESS).
Proof.
  split; [|split; [|split; [|split]]].
  - unfold on_uar_response, answered, outputs. destruct (uaa_result uaa); simpl;
      try (split; [done|]; eexists [_] || eexists [_; _]; done).
    + destruct hc; (split; [done|]); [by eexists [_; _; _]|by eexists [_; _]].
    + split; [done|]. by eexists [_; _].
  - unfold on_lir_response, answered, outputs. destruct (lia_result lia); simpl;
      try (split; [done|]; eexists [_] || eexists [_; _]; done);
      (split; [done|]; by eexists [_; _]).
  - intros b. rewrite list_elem_of_In. unfold on_uar_response.
    destruct (uaa_result uaa), hc; simpl; intuition congruence.
  - intros b. rewrite list_elem_of_In. unfold on_lir_response.
    destruct (lia_result lia); simpl; intuition congruence.
  - rewrite list_elem_of_In. unfold on_uar_response.
    destruct (uaa_result uaa), hc; simpl; intuition congruence.
Qed.
End flows.

(** ** Witness *)

Definition sample_config : ImpiConfig :=
  mkImpiConfig "Unknown" "SIP Digest" "Digest-AKAv1-MD5" "Digest-AKAv2-SHA-256".

Definition sample_request : Request :=
  mkRequest htp_method_GET "/impi/a@b/av" "/impi/a@b/av" "av"
    (fun k => if String.eqb k "impu" then "sip:a@b" else "")%string (fun _ => ""%string) "".

Definition sample_maa (_ : MultimediaAuthRequest) : MultimediaAuthAnswer :=
  mkMultimediaAuthAnswer SUCCESS (Some (Digest (mkDigestAuthVector "ha1" "b" ""))) "SIP Digest".

Lemma impi_task_answers_once_witness :
  exists ok t, parse_request ImpiAvTask sample_config sample_request = Some (ok, t) /\
    exists l m, impi_flow "sprout" ImpiAvTask sample_config sample_request sample_maa =
                  SendMAR m :: l /\ answered l HTTP_OK.
Proof.
  assert (Hpath : path_id "/impi/" (path sample_request) <> None) by (vm_compute; discriminate).
  assert (Hav : forall m, av_matches sample_config (sample_maa m)).
  { intros m _. eexists. reflexivity. }
  destruct (impi_task_answers_once "sprout" ImpiAvTask sample_config sample_request sample_maa
              Hpath Hav) as (ok & t & Hp & Hf).
  exists ok, t. split; [exact Hp|].
  assert (Hok : ok = true /\ t = mkImpiTask "a@b" "sip:a@b" "Unknown" "" "").
  { vm_compute in Hp. injection Hp as <- <-. split; reflexivity. }
  destruct Hok as [-> ->]. destruct Hf as (l & E & Ha). exists l. eexists. split; [exact E|exact Ha].
Defined.
