(* ===== verification/HttpRegData.v ===== *)
(** * The registration-data task

    [ImpuRegDataTask] of [src/http_handlers.cpp]: the PUT and GET of
    [/impu/<public ID>/reg-data].  Every method is a handler with its name; the
    asynchronous operations of the cache and of the HSS connection are actions,
    their completions are events ([reg_event]) that run the callbacks. *)

From Stdlib Require Import String Ascii ZArith Lia.
From stdpp Require Import base list strings option.
From S2P Require Import Prelude StdMap Types Env Concrete ImpuStore XmlUtils Irs HttpTasks.
Import HssConnection.
Open Scope Z_scope.

Module RequestType.
Inductive t :=
| UNKNOWN | REG | CALL | DEREG_USER | DEREG_ADMIN | DEREG_TIMEOUT
| DEREG_AUTH_FAIL | DEREG_AUTH_TIMEOUT.

#[global] Instance t_eq_dec : EqDecision t.
Proof. solve_decision. Defined.
End RequestType.

Record RegDataConfig := mkRegDataConfig {
  hss_configured : bool;
  hss_reregistration_time : Z;
  record_ttl : Z;
  support_shared_ifcs : bool
}.

(** The members of the task. *)
Record RegTask := mkRegTask {
  _impi : string;
  _impu : string;
  _type : RequestType.t;
  _irs : option Irs;
  _cached_reg_state : RegistrationState.t;
  _http_rc : HTTPCode;
  _provided_server_name : string;
  _sprout_wildcard : string;
  _hss_wildcard : string
}.

Definition new_reg_task : RegTask :=
  mkRegTask "" "" RequestType.UNKNOWN None RegistrationState.UNKNOWN HTTP_OK "" "" "".

Definition set_impi (i : string) (t : RegTask) : RegTask :=
  mkRegTask i (_impu t) (_type t) (_irs t) (_cached_reg_state t) (_http_rc t)
    (_provided_server_name t) (_sprout_wildcard t) (_hss_wildcard t).
Definition set_type (ty : RequestType.t) (t : RegTask) : RegTask :=
  mkRegTask (_impi t) (_impu t) ty (_irs t) (_cached_reg_state t) (_http_rc t)
    (_provided_server_name t) (_sprout_wildcard t) (_hss_wildcard t).
Definition set_irs (i : option Irs) (t : RegTask) : RegTask :=
  mkRegTask (_impi t) (_impu t) (_type t) i (_cached_reg_state t) (_http_rc t)
    (_provided_server_name t) (_sprout_wildcard t) (_hss_wildcard t).
Definition set_cached (s : RegistrationState.t) (t : RegTask) : RegTask :=
  mkRegTask (_impi t) (_impu t) (_type t) (_irs t) s (_http_rc t)
    (_provided_server_name t) (_sprout_wildcard t) (_hss_wildcard t).
Definition set_http_rc (rc : HTTPCode) (t : RegTask) : RegTask :=
  mkRegTask (_impi t) (_impu t) (_type t) (_irs t) (_cached_reg_state t) rc
    (_provided_server_name t) (_sprout_wildcard t) (_hss_wildcard t).
Definition set_hss_wildcard (w : string) (t : RegTask) : RegTask :=
  mkRegTask (_impi t) (_impu t) (_type t) (_irs t) (_cached_reg_state t) (_http_rc t)
    (_provided_server_name t) (_sprout_wildcard t) w.

(** ** Request types *)

Definition is_deregistration_request (ty : RequestType.t) : bool :=
  match ty with
  | RequestType.DEREG_USER | RequestType.DEREG_ADMIN | RequestType.DEREG_TIMEOUT => true
  | _ => false
  end.

Definition is_auth_failure_request (ty : RequestType.t) : bool :=
  match ty with
  | RequestType.DEREG_AUTH_FAIL | RequestType.DEREG_AUTH_TIMEOUT => true
  | _ => false
  end.

Definition sar_type_for_request (ty : RequestType.t) : Cx.ServerAssignmentType :=
  match ty with
  | RequestType.DEREG_USER => Cx.USER_DEREGISTRATION
  | RequestType.DEREG_ADMIN => Cx.ADMINISTRATIVE_DEREGISTRATION
  | RequestType.DEREG_TIMEOUT => Cx.TIMEOUT_DEREGISTRATION
  | RequestType.DEREG_AUTH_FAIL => Cx.AUTHENTICATION_FAILURE
  | RequestType.DEREG_AUTH_TIMEOUT => Cx.AUTHENTICATION_TIMEOUT
  | _ => Cx.ADMINISTRATIVE_DEREGISTRATION
  end.

Section bodies.
Context `{JsonLib}.

(** A string member of a body that is a JSON object. *)
Definition body_string (body key : string) : option string :=
  match parse_json (c_str body) with
  | Some doc => match member doc key with Some (JStr s) => Some (c_str s) | _ => None end
  | None => None
  end.

Definition request_type_from_body (body : string) : RequestType.t :=
  let reqtype := default ""%string (body_string body "reqtype") in
  if String.eqb reqtype "reg" then RequestType.REG
  else if String.eqb reqtype "call" then RequestType.CALL
  else if String.eqb reqtype "dereg-user" then RequestType.DEREG_USER
  else if String.eqb reqtype "dereg-admin" then RequestType.DEREG_ADMIN
  else if String.eqb reqtype "dereg-timeout" then RequestType.DEREG_TIMEOUT
  else if String.eqb reqtype "dereg-auth-failed" then RequestType.DEREG_AUTH_FAIL
  else if String.eqb reqtype "dereg-auth-timeout" then RequestType.DEREG_AUTH_TIMEOUT
  else RequestType.UNKNOWN.

Definition server_name_from_body (body : string) : string :=
  default ""%string (body_string body "server_name").

Definition wildcard_from_body (body : string) : string :=
  default ""%string (body_string body "wildcard_identity").
End bodies.

(** [wildcard_id()] and [public_id()]: the HSS's wildcard over Sprout's, and a
    wildcard over the identity of the request. *)
Definition wildcard_id (t : RegTask) : string :=
  if str_empty (_hss_wildcard t) then _sprout_wildcard t else _hss_wildcard t.

Definition public_id (t : RegTask) : string :=
  if str_empty (wildcard_id t) then _impu t else wildcard_id t.

Section reg_data.
Context `{JsonLib} `{XmlLib} `{RegDataXMLUtils} `{HttpUtils}.
Context (cfg : RegDataConfig) (configured_server_name : string) (req : Request).
(** The indeterminate members of a registration set that is created empty. *)
Context (ttl0 : Z) (state0 : RegistrationState.t).

Abbreviation Task := (Handler RegTask action).

(** Run [k] on the registration set the task holds. *)
Definition with_irs {A} (dflt : A) (k : Irs -> Task A) : Task A :=
  (t <- hget ;;
   match _irs t with
   | Some i => k i
   | None => hemit BadPointer ;;; hret dflt
   end)%h.

Definition update_irs (f : Irs -> Irs) : Task unit :=
  with_irs tt (fun i => hmodify (set_irs (Some (f i)))).

Definition get_reg_data : Task unit :=
  (t <- hget ;; hemit (CacheGetIrs (public_id t)))%h.

Definition run : Task unit :=
  (match path_id "/impu/" (full_path req) with
   | None => hemit Throws
   | Some i =>
       hmodify (fun t => mkRegTask (url_unescape (param req "private_id")) (url_unescape i)
                  (_type t) (_irs t) (_cached_reg_state t) (_http_rc t)
                  (server_name_from_body (get_rx_body req))
                  (wildcard_from_body (get_rx_body req)) (_hss_wildcard t)) ;;;
       match method req with
       | htp_method_PUT =>
           let ty := request_type_from_body (get_rx_body req) in
           hmodify (set_type ty) ;;;
           if bool_decide (ty = RequestType.UNKNOWN)
           then send_http_reply HTTP_BAD_REQUEST ;;; delete_this
           else get_reg_data
       | htp_method_GET => hmodify (set_type RequestType.UNKNOWN) ;;; get_reg_data
       | htp_method_OTHER => send_http_reply HTTP_BADMETHOD ;;; delete_this
       end
   end)%h.

(** The read-only variant of the management interface. *)
Definition read_run : Task unit :=
  if method_eqb (method req) htp_method_GET then run
  else (send_http_reply HTTP_BADMETHOD ;;; delete_this)%h.

Definition send_reply : Task unit :=
  (t <- hget ;;
   rc <- (if negb (http_eqb (_http_rc t) HTTP_OK) then hret (_http_rc t)
          else with_irs HTTP_SERVER_ERROR (fun i =>
            let prev :=
              match _type t with
              | RequestType.REG | RequestType.CALL => _cached_reg_state t
              | _ => RegistrationState.UNKNOWN
              end in
            let '(rc, xml_str) := build_ClearwaterRegData_xml (irs_view i) "" prev in
            (if http_eqb rc HTTP_OK then hemit (AddContent xml_str) else hret tt) ;;;
            hret rc)) ;;
   send_http_reply rc)%h.

Definition send_server_assignment_request (ty : Cx.ServerAssignmentType) : Task unit :=
  (t <- hget ;;
   hemit (SendSAR (mkServerAssignmentRequest (_impi t) (_impu t)
            (server_name_or configured_server_name (_provided_server_name t)) ty
            (support_shared_ifcs cfg)
            (if str_empty (_hss_wildcard t) then _sprout_wildcard t else _hss_wildcard t))))%h.

(** The private identity to use, and whether it is a new binding. *)
Definition find_binding (i : Irs) : Task bool :=
  (t <- hget ;;
   let profile := _ims_sub_xml i in
   if str_empty (HttpRegData._impi t) then
     hmodify (set_impi (get_private_id profile)) ;;; hret false
   else hret (negb (str_empty profile) &&
              negb (in_vector (HttpRegData._impi t) (get_associated_impis i))))%h.

Definition process_received_reg_data : Task unit :=
  with_irs tt (fun i =>
    hmodify (set_cached (_registration_state i)) ;;;
    if method_eqb (method req) htp_method_GET then send_reply ;;; delete_this
    else
      new_binding <- find_binding i ;;
      t <- hget ;;
      let cache_not_allowed := String.eqb (header req "Cache-control") "no-cache" in
      match _type t with
      | RequestType.REG =>
          if RegistrationState.eqb (_cached_reg_state t) RegistrationState.REGISTERED &&
             negb new_binding then
            let record_age := record_ttl cfg - _ttl i in
            update_irs (set_reg_state RegistrationState.REGISTERED) ;;;
            if hss_reregistration_time cfg <=? record_age
            then send_server_assignment_request Cx.RE_REGISTRATION
            else if cache_not_allowed
            then send_server_assignment_request Cx.RE_REGISTRATION
            else send_reply ;;; delete_this
          else
            update_irs (set_reg_state RegistrationState.REGISTERED) ;;;
            update_irs (add_associated_impi (HttpRegData._impi t)) ;;;
            send_server_assignment_request Cx.REGISTRATION
      | RequestType.CALL =>
          if RegistrationState.eqb (_cached_reg_state t) RegistrationState.NOT_REGISTERED then
            update_irs (set_reg_state RegistrationState.UNREGISTERED) ;;;
            send_server_assignment_request Cx.UNREGISTERED_USER
          else send_reply ;;; delete_this
      | ty =>
          if is_deregistration_request ty then
            if negb (RegistrationState.eqb (_cached_reg_state t) RegistrationState.NOT_REGISTERED)
            then
              update_irs (set_reg_state RegistrationState.NOT_REGISTERED) ;;;
              send_server_assignment_request (sar_type_for_request ty)
            else send_http_reply HTTP_BAD_REQUEST ;;; delete_this
          else if is_auth_failure_request ty
          then send_server_assignment_request (sar_type_for_request ty)
          else delete_this
      end)%h.

Definition on_get_reg_data_success (i : Irs) : Task unit :=
  (hmodify (set_irs (Some i)) ;;; process_received_reg_data)%h.

Definition on_get_reg_data_failure (rc : Store.Status) : Task unit :=
  (match rc with
   | Store.NOT_FOUND =>
       if method_eqb (method req) htp_method_PUT then
         hmodify (set_irs (Some (set_reg_state RegistrationState.NOT_REGISTERED
                                   (new_irs ttl0 state0)))) ;;;
         process_received_reg_data
       else send_http_reply HTTP_NOT_FOUND ;;; delete_this
   | _ => send_http_reply HTTP_GATEWAY_TIMEOUT ;;; delete_this
   end)%h.

(** The SIP URI check of the source only logs. *)
Definition put_in_cache : Task unit :=
  with_irs tt (fun i =>
    if negb (match get_public_ids (_ims_sub_xml i) with [] => true | _ => false end)
    then hemit (CachePutIrs i)
    else (send_reply ;;; delete_this)%h).

Definition on_put_reg_data_progress : Task unit := send_reply.
Definition on_put_reg_data_success : Task unit := delete_this.
Definition on_put_reg_data_failure (_ : Store.Status) : Task unit :=
  (send_http_reply HTTP_SERVER_UNAVAILABLE ;;; delete_this)%h.

(** What follows once the result of the SAR is known. *)
Definition after_sar (rc : ResultCode) (saa : ServerAssignmentAnswer) : Task unit :=
  (t <- hget ;;
   if rc_eqb rc SUCCESS && negb (is_deregistration_request (_type t)) &&
      negb (is_auth_failure_request (_type t)) then
     update_irs (set_charging_addresses (saa_charging_addresses saa)) ;;;
     update_irs (set_ims_sub_xml (saa_service_profile saa)) ;;;
     update_irs (set_ttl (record_ttl cfg)) ;;;
     put_in_cache
   else if is_deregistration_request (_type t) && negb (rc_eqb rc SERVER_UNAVAILABLE)
   then with_irs tt (fun i => hemit (CacheDeleteIrs i))
   else send_reply ;;; delete_this)%h.

Definition on_sar_response (saa : ServerAssignmentAnswer) : Task unit :=
  (let rc := saa_result saa in
   match rc with
   | SUCCESS => after_sar rc saa
   | SERVER_UNAVAILABLE => hmodify (set_http_rc HTTP_SERVER_UNAVAILABLE) ;;; after_sar rc saa
   | NOT_FOUND => hmodify (set_http_rc HTTP_NOT_FOUND) ;;; after_sar rc saa
   | NEW_WILDCARD =>
       t <- hget ;;
       let current_wildcard := wildcard_id t in
       hmodify (set_hss_wildcard (saa_wildcard_impu saa)) ;;;
       if String.eqb current_wildcard (saa_wildcard_impu saa)
       then hmodify (set_http_rc HTTP_SERVER_ERROR) ;;; after_sar rc saa
       else hmodify (set_irs None) ;;; get_reg_data
   | TIMEOUT =>
       hemit RecordPenalty ;;; hmodify (set_http_rc HTTP_GATEWAY_TIMEOUT) ;;; after_sar rc saa
   | _ => hmodify (set_http_rc HTTP_SERVER_ERROR) ;;; after_sar rc saa
   end)%h.

Definition on_del_impu_benign (not_found : bool) : Task unit := send_reply.
Definition on_del_impu_progress : Task unit := on_del_impu_benign false.
Definition on_del_impu_success : Task unit := delete_this.
Definition on_del_impu_failure (status : Store.Status) : Task unit :=
  (match status with
   | Store.NOT_FOUND => on_del_impu_benign true ;;; delete_this
   | _ =>
       t <- hget ;;
       send_http_reply (if http_eqb (_http_rc t) HTTP_OK then HTTP_SERVER_UNAVAILABLE
                        else _http_rc t) ;;;
       delete_this
   end)%h.
End reg_data.
