(* ===== verification/RegDataSystem.v ===== *)
(** * The registration-data task in its environment

    The task of [HttpRegData.v] as a state machine: between two events it
    waits for the cache or the HSS, and an event runs the callback it is for.
    The environment keeps the contracts proved elsewhere: a read of the cache
    succeeds or fails once; a write calls the progress callback once and then
    completes, or fails without calling it ([CacheProgress.v]); a SAR is
    answered once.  The registration set a write works on is the task's, so a
    completion event carries the set as the cache left it. *)

From Stdlib Require Import String Ascii ZArith Lia.
From stdpp Require Import base list strings option.
From S2P Require Import Prelude StdMap Types Env Concrete ImpuStore XmlUtils Irs HttpTasks HttpRegData.
Import HssConnection.
Open Scope Z_scope.

Inductive reg_event :=
| GetOk (i : Irs)
| GetFailed (rc : Store.Status)
| SarAnswer (saa : ServerAssignmentAnswer)
| PutProgress (i : Irs)
| PutDone
| PutFailed (rc : Store.Status) (i : Irs)
| DelProgress (i : Irs)
| DelDone
| DelFailed (rc : Store.Status) (i : Irs).

Inductive pending :=
| Getting | AwaitingSar | Putting | PutReplied | Deleting | DelReplied | Finished.

#[export] Instance pending_eq_dec : EqDecision pending.
Proof. solve_decision. Defined.

(** The events a waiting task can get. *)
Definition enabled (p : pending) (e : reg_event) : Prop :=
  match p, e with
  | Getting, GetOk _ => True
  | Getting, GetFailed rc => rc <> Store.OK
  | AwaitingSar, SarAnswer _ => True
  | Putting, PutProgress _ => True
  | Putting, PutFailed rc _ => rc <> Store.OK
  | PutReplied, PutDone => True
  | Deleting, DelProgress _ => True
  | Deleting, DelFailed rc _ => rc <> Store.OK
  | DelReplied, DelDone => True
  | _, _ => False
  end.

(** What the task waits for after the actions [o] (none: a progress callback). *)
Definition waiting_for (o : list action) (p : pending) : pending :=
  match rev o with
  | DeleteThis :: _ => Finished
  | CacheGetIrs _ :: _ => Getting
  | SendSAR _ :: _ => AwaitingSar
  | CachePutIrs _ :: _ => Putting
  | CacheDeleteIrs _ :: _ => Deleting
  | _ => match p with Putting => PutReplied | Deleting => DelReplied | _ => p end
  end.

Record system := mkSystem {
  sys_task : RegTask;
  sys_pending : pending;
  sys_log : list action
}.

Section system.
Context `{JsonLib} `{XmlLib} `{RegDataXMLUtils} `{HttpUtils}.
Context (cfg : RegDataConfig) (configured_server_name : string) (req : Request).
Context (ttl0 : Z) (state0 : RegistrationState.t).

Definition handle (e : reg_event) : Handler RegTask action unit :=
  (match e with
   | GetOk i => on_get_reg_data_success cfg configured_server_name req i
   | GetFailed rc => on_get_reg_data_failure cfg configured_server_name req ttl0 state0 rc
   | SarAnswer saa => on_sar_response cfg saa
   | PutProgress i => hmodify (set_irs (Some i)) ;;; on_put_reg_data_progress
   | PutDone => on_put_reg_data_success
   | PutFailed rc i => hmodify (set_irs (Some i)) ;;; on_put_reg_data_failure rc
   | DelProgress i => hmodify (set_irs (Some i)) ;;; on_del_impu_progress
   | DelDone => on_del_impu_success
   | DelFailed rc i => hmodify (set_irs (Some i)) ;;; on_del_impu_failure rc
   end)%h.

Definition react (e : reg_event) (s : system) : system :=
  let '(_, t, o) := handle e (sys_task s) in
  mkSystem t (waiting_for o (sys_pending s)) (sys_log s ++ o).

Definition initial : system :=
  let '(_, t, o) := run req new_reg_task in mkSystem t (waiting_for o Finished) o.

(** The states after a sequence of events. *)
Inductive steps : system -> list reg_event -> system -> Prop :=
| steps_nil s : steps s [] s
| steps_cons s e es s' :
    enabled (sys_pending s) e -> steps (react e s) es s' -> steps s (e :: es) s'.

(** ** What a handler's actions can look like *)

Definition silent (l : list action) : Prop :=
  replies l = [] /\ existsb is_delete l = false /\ existsb is_fault l = false.

(** The handler answered and deleted the task, or it issued one request after
    silent actions, holding a registration set unless it asked for one. *)
Inductive handled : RegTask -> list action -> Prop :=
| handled_answered t o rc : answered o rc -> handled t o
| handled_get t l k : silent l -> handled t (l ++ [CacheGetIrs k])
| handled_sar t i l r : silent l -> _irs t = Some i -> method req = htp_method_PUT ->
    handled t (l ++ [SendSAR r])
| handled_put t i l j : silent l -> _irs t = Some i -> method req = htp_method_PUT ->
    handled t (l ++ [CachePutIrs j])
| handled_delete t i l j : silent l -> _irs t = Some i -> method req = htp_method_PUT ->
    handled t (l ++ [CacheDeleteIrs j]).

(** A PUT has a known request type. *)
Definition typed (t : RegTask) : Prop :=
  method req = htp_method_PUT -> _type t <> RequestType.UNKNOWN.

Lemma answered_reply l rc : silent l -> answered (l ++ [SendHttpReply rc; DeleteThis]) rc.
Proof.
  intros (Hr & Hd & Hf). unfold answered, replies in *. rewrite omap_app, Hr, existsb_app, Hf.
  split; [done|]. exists (l ++ [SendHttpReply rc]). rewrite <- app_assoc, existsb_app, Hd. done.
Qed.

Lemma silent_nil : silent [].
Proof. done. Qed.

(** [send_reply] with a registration set, or with a failure to report. *)
Lemma send_reply_form t :
  _irs t <> None \/ _http_rc t <> HTTP_OK ->
  exists l rc, send_reply t = (tt, t, l ++ [SendHttpReply rc]) /\ silent l.
Proof.
  intros Ht. unfold send_reply, hbind, hget. simpl. destruct (http_eqb (_http_rc t) HTTP_OK) eqn:E; simpl.
  - assert (Hi : _irs t <> None).
    { destruct Ht as [|Ht]; [done|]. by apply bool_decide_eq_true in E. }
    unfold with_irs, hbind, hget. destruct (_irs t) as [i|] eqn:Ei; [|done]. simpl. rewrite ?Ei. simpl.
    destruct (build_ClearwaterRegData_xml _ _ _) as [rc x]. simpl.
    destruct (http_eqb rc HTTP_OK); simpl.
    + exists [AddContent x], rc. done.
    + exists [], rc. done.
  - exists [], (_http_rc t). done.
Qed.

Lemma reply_and_delete t :
  _irs t <> None \/ _http_rc t <> HTTP_OK ->
  exists o rc, (send_reply ;;; delete_this)%h t = (tt, t, o) /\ answered o rc.
Proof.
  intros Ht. destruct (send_reply_form t Ht) as (l & rc & E & Hl).
  exists (l ++ [SendHttpReply rc; DeleteThis]), rc. unfold hbind. rewrite E. simpl.
  rewrite <- app_assoc. split; [done|by apply answered_reply].
Qed.

(** ** The decision for a PUT, as a table *)

Inductive decision :=
| AnswerFromCache
| RejectRequest
| Assign (ty : Cx.ServerAssignmentType) (state : option RegistrationState.t) (add_impi : bool).

(** Which Server-Assignment-Request (if any) a request of type [ty] leads to,
    from the state in the cache, the TTL left, whether the private identity is
    new to the set and whether the client forbids an answer from the cache. *)
Definition decide_request (ty : RequestType.t) (cached : RegistrationState.t) (ttl : Z)
    (new_binding no_cache : bool) : decision :=
  match ty with
  | RequestType.REG =>
      match cached with
      | RegistrationState.REGISTERED =>
          if new_binding then
            Assign Cx.REGISTRATION (Some RegistrationState.REGISTERED) true
          else if (hss_reregistration_time cfg <=? record_ttl cfg - ttl) || no_cache then
            Assign Cx.RE_REGISTRATION (Some RegistrationState.REGISTERED) false
          else AnswerFromCache
      | _ => Assign Cx.REGISTRATION (Some RegistrationState.REGISTERED) true
      end
  | RequestType.CALL =>
      match cached with
      | RegistrationState.NOT_REGISTERED =>
          Assign Cx.UNREGISTERED_USER (Some RegistrationState.UNREGISTERED) false
      | _ => AnswerFromCache
      end
  | RequestType.DEREG_USER | RequestType.DEREG_ADMIN | RequestType.DEREG_TIMEOUT =>
      match cached with
      | RegistrationState.NOT_REGISTERED => RejectRequest
      | _ => Assign (sar_type_for_request ty) (Some RegistrationState.NOT_REGISTERED) false
      end
  | RequestType.DEREG_AUTH_FAIL | RequestType.DEREG_AUTH_TIMEOUT | RequestType.UNKNOWN =>
      Assign (sar_type_for_request ty) None false
  end.

(** The private identity the request is for. *)
Definition effective_impi (t : RegTask) (i : Irs) : string :=
  if str_empty (_impi t) then get_private_id (_ims_sub_xml i) else _impi t.

Definition is_new_binding (t : RegTask) (i : Irs) : bool :=
  negb (str_empty (_impi t)) && negb (str_empty (_ims_sub_xml i)) &&
  negb (in_vector (_impi t) (get_associated_impis i)).

Definition no_cache : bool := String.eqb (header req "Cache-control") "no-cache".

(** The registration set after a decision. *)
Definition assigned_irs (state : option RegistrationState.t) (add_impi : bool) (p : string)
    (i : Irs) : Irs :=
  let i := match state with Some s => set_reg_state s i | None => i end in
  if add_impi then add_associated_impi p i else i.

Definition sar_for (ty : Cx.ServerAssignmentType) (t : RegTask) : ServerAssignmentRequest :=
  mkServerAssignmentRequest (_impi t) (_impu t)
    (server_name_or configured_server_name (_provided_server_name t)) ty
    (support_shared_ifcs cfg) (wildcard_id t).

(** The task once the binding is known. *)
Definition bound_task (t : RegTask) (i : Irs) : RegTask :=
  set_impi (effective_impi t i) (set_cached (_registration_state i) t).

Definition put_decision (t : RegTask) (i : Irs) : decision :=
  decide_request (_type t) (_registration_state i) (_ttl i) (is_new_binding t i) no_cache.

Lemma process_put i t :
  _irs t = Some i -> method req = htp_method_PUT -> _type t <> RequestType.UNKNOWN ->
  process_received_reg_data cfg configured_server_name req t =
  match put_decision t i with
  | AnswerFromCache =>
      (send_reply ;;; delete_this)%h
        (set_irs (Some match _type t with
                       | RequestType.REG => set_reg_state RegistrationState.REGISTERED i
                       | _ => i
                       end) (bound_task t i))
  | RejectRequest => (tt, bound_task t i, [SendHttpReply HTTP_BAD_REQUEST; DeleteThis])
  | Assign ty state add =>
      let i' := assigned_irs state add (effective_impi t i) i in
      (tt, set_irs (Some i') (bound_task t i), [SendSAR (sar_for ty (bound_task t i))])
  end.
Proof.
  intros Hi Hm Hty. destruct t as [impi impu ty irs cached rc name sw hw]. simpl in Hi, Hty. subst irs.
  unfold process_received_reg_data, put_decision, bound_task, find_binding, effective_impi,
    is_new_binding, no_cache, update_irs, with_irs, send_server_assignment_request, sar_for,
    assigned_irs, decide_request, wildcard_id.
  rewrite Hm. change (method_eqb htp_method_PUT htp_method_GET) with false.
  unfold hbind, hget, hmodify, hemit, hret, send_http_reply, delete_this, set_irs, set_impi,
    set_cached. simpl.
  destruct (str_empty impi); simpl;
    [|destruct (negb (str_empty (_ims_sub_xml i)) &&
                negb (in_vector impi (get_associated_impis i))); simpl];
    destruct ty, (_registration_state i); simpl; try done;
    try (destruct (hss_reregistration_time cfg <=? record_ttl cfg - _ttl i); simpl);
    try (destruct (String.eqb (header req "Cache-control") "no-cache"); simpl); try done;
    by destruct (send_reply _) as [[[] ?] ?].
Qed.

(** ** The reaction to a Server-Assignment-Answer *)

(** The code a failed answer is reported with. *)
Definition failure_code (rc : ResultCode) (current : HTTPCode) : HTTPCode :=
  match rc with
  | SUCCESS => current
  | SERVER_UNAVAILABLE => HTTP_SERVER_UNAVAILABLE
  | NOT_FOUND => HTTP_NOT_FOUND
  | TIMEOUT => HTTP_GATEWAY_TIMEOUT
  | _ => HTTP_SERVER_ERROR
  end.

Definition penalty (rc : ResultCode) : list action :=
  match rc with TIMEOUT => [RecordPenalty] | _ => [] end.

(** A NEW_WILDCARD answer that does bring another wildcard. *)
Definition wildcard_changed (t : RegTask) (saa : ServerAssignmentAnswer) : bool :=
  rc_eqb (saa_result saa) NEW_WILDCARD &&
  negb (String.eqb (wildcard_id t) (saa_wildcard_impu saa)).

Definition refreshed_irs (saa : ServerAssignmentAnswer) (i : Irs) : Irs :=
  set_ttl (record_ttl cfg)
    (set_ims_sub_xml (saa_service_profile saa)
       (set_charging_addresses (saa_charging_addresses saa) i)).

(** The task once the result is recorded. *)
Definition informed_task (t : RegTask) (saa : ServerAssignmentAnswer) : RegTask :=
  let t := match saa_result saa with
           | NEW_WILDCARD => set_hss_wildcard (saa_wildcard_impu saa) t
           | _ => t
           end in
  set_http_rc (failure_code (saa_result saa) (_http_rc t)) t.

Lemma refreshed_irs_xml saa i : _ims_sub_xml (refreshed_irs saa i) = saa_service_profile saa.
Proof.
  unfold refreshed_irs, set_ims_sub_xml, set_ttl, mark_as_refreshed, with_ttl. simpl.
  by destruct (get_public_and_default_ids (saa_service_profile saa) "").
Qed.

Definition assigns (ty : RequestType.t) : bool :=
  negb (is_deregistration_request ty) && negb (is_auth_failure_request ty).

Lemma sar_form saa i t :
  _irs t = Some i ->
  on_sar_response cfg saa t =
  (if wildcard_changed t saa then
     let t' := set_irs None (set_hss_wildcard (saa_wildcard_impu saa) t) in
     (tt, t', [CacheGetIrs (public_id t')])
   else
     let t' := informed_task t saa in
     let rc := saa_result saa in
     if rc_eqb rc SUCCESS && assigns (_type t) then
       let i' := refreshed_irs saa i in
       match get_public_ids (saa_service_profile saa) with
       | [] => (send_reply ;;; delete_this)%h (set_irs (Some i') t')
       | _ => (tt, set_irs (Some i') t', [CachePutIrs i'])
       end
     else if is_deregistration_request (_type t) && negb (rc_eqb rc SERVER_UNAVAILABLE) then
       (tt, t', penalty rc ++ [CacheDeleteIrs i])
     else
       let '(_, t2, o) := (send_reply ;;; delete_this)%h t' in (tt, t2, penalty rc ++ o)).
Proof.
  intros Hi. destruct t as [impi impu ty irs cached hrc name sw hw]. simpl in Hi. subst irs.
  pose proof (refreshed_irs_xml saa i) as Hx.
  unfold on_sar_response, after_sar, wildcard_changed, informed_task, assigns, put_in_cache,
    update_irs, with_irs, get_reg_data.
  unfold hbind, hget, hmodify, hemit, hret, delete_this, set_irs, set_http_rc, set_hss_wildcard.
  unfold refreshed_irs in *.
  destruct (saa_result saa) eqn:Er; simpl.
  - destruct ty; simpl; rewrite ?Hx; try destruct (get_public_ids _); simpl; try done;
      by destruct (send_reply _) as [[[] ?] ?].
  - destruct ty; simpl; try done; by destruct (send_reply _) as [[[] ?] ?].
  - destruct ty; simpl; try done; by destruct (send_reply _) as [[[] ?] ?].
  - destruct ty; simpl; try done; by destruct (send_reply _) as [[[] ?] ?].
  - destruct ty; simpl; try done; by destruct (send_reply _) as [[[] ?] ?].
  - unfold wildcard_id. simpl. destruct (String.eqb _ _); simpl; [|done].
    destruct ty; simpl; try done; by destruct (send_reply _) as [[[] ?] ?].
  - destruct ty; simpl; try done; by destruct (send_reply _) as [[[] ?] ?].
  - destruct ty; simpl; try done; by destruct (send_reply _) as [[[] ?] ?].
  - destruct ty; simpl; try done; by destruct (send_reply _) as [[[] ?] ?].
Qed.

(** ** Every handler answers or asks for one thing *)

Lemma reply_handled t :
  _irs t <> None \/ _http_rc t <> HTTP_OK ->
  exists o, (send_reply ;;; delete_this)%h t = (tt, t, o) /\ handled t o.
Proof.
  intros Ht. destruct (reply_and_delete t Ht) as (o & rc & E & Ha).
  exists o. split; [done|by eapply handled_answered].
Qed.

Lemma one_reply_handled t rc : handled t [SendHttpReply rc; DeleteThis].
Proof. eapply handled_answered, (answered_reply []), silent_nil. Qed.

Lemma get_method i t :
  _irs t = Some i -> method req <> htp_method_PUT -> method req <> htp_method_OTHER ->
  process_received_reg_data cfg configured_server_name req t =
  (send_reply ;;; delete_this)%h (set_cached (_registration_state i) t).
Proof.
  intros Hi Hp Ho. unfold process_received_reg_data, with_irs.
  unfold hbind at 1, hget at 1. rewrite Hi. unfold hbind at 1, hmodify at 1.
  destruct (method req) eqn:Em; [|done..]. change (method_eqb htp_method_GET htp_method_GET) with true.
  cbv iota. by destruct ((send_reply ;;; delete_this)%h _) as [[[] ?] ?].
Qed.

Lemma process_handled i t :
  _irs t = Some i -> typed t -> method req <> htp_method_OTHER ->
  exists t' o, process_received_reg_data cfg configured_server_name req t = (tt, t', o) /\
    handled t' o /\ typed t'.
Proof.
  intros Hi Hty Ho. destruct (decide (method req = htp_method_PUT)) as [Hm|Hm].
  2:{ rewrite (get_method i) by done.
      destruct (reply_handled (set_cached (_registration_state i) t)) as (o & E & Hh);
        [left; simpl; congruence|]. by eauto. }
  rewrite (process_put i) by auto. destruct (put_decision t i) as [| |ty st add].
  - match goal with |- context [(send_reply ;;; delete_this)%h ?a] =>
      destruct (reply_handled a ltac:(by left)) as (o & E & Hh) end.
    eexists _, _. split; [exact E|]. by split.
  - eexists _, _. split; [done|]. split; [apply one_reply_handled|done].
  - eexists _, _. split; [done|]. split; [|done].
    by eapply (handled_sar _ _ []); [apply silent_nil|done|].
Qed.

Lemma penalty_silent rc : silent (penalty rc).
Proof. by destruct rc. Qed.

Lemma sar_handled i t saa :
  _irs t = Some i -> typed t -> method req = htp_method_PUT ->
  exists t' o, on_sar_response cfg saa t = (tt, t', o) /\ handled t' o /\ typed t'.
Proof.
  intros Hi Hty Hm. rewrite (sar_form saa i) by done.
  destruct (wildcard_changed t saa).
  { eexists _, _. split; [done|]. split; [apply (handled_get _ []), silent_nil|done]. }
  cbv zeta. assert (Hinf : _irs (informed_task t saa) = Some i /\ _type (informed_task t saa) = _type t).
  { unfold informed_task. by destruct (saa_result saa). }
  destruct Hinf as [Hi' Ht'].
  assert (Htyped : forall t2, _type t2 = _type t -> typed t2) by (intros t2 E _; rewrite E; auto).
  destruct (rc_eqb (saa_result saa) SUCCESS && assigns (_type t)).
  - destruct (get_public_ids (saa_service_profile saa)) as [|p l].
    + match goal with |- context [(send_reply ;;; delete_this)%h ?a] =>
        destruct (reply_handled a ltac:(by left)) as (o & E & Hh) end.
      eexists _, _. split; [exact E|]. split; [done|by apply Htyped].
    + eexists _, _. split; [done|]. split; [|by apply Htyped].
      by eapply (handled_put _ _ []); [apply silent_nil|done|].
  - destruct (is_deregistration_request (_type t) && _).
    + eexists _, _. split; [done|]. split; [|by apply Htyped].
      eapply handled_delete; [apply penalty_silent|done|done].
    + destruct (reply_and_delete (informed_task t saa)) as (o & rc & E & Ha);
        [left; congruence|]. rewrite E.
      eexists _, _. split; [done|]. split; [|by apply Htyped].
      destruct Ha as (Hr & l' & -> & Hd & Hf).
      destruct (penalty_silent (saa_result saa)) as (Pr & Pd & Pf).
      apply (handled_answered _ _ rc). unfold answered, replies in *. rewrite omap_app, Pr, existsb_app, Pf.
      split; [done|]. exists (penalty (saa_result saa) ++ l').
      rewrite <- app_assoc, existsb_app, Pd. done.
Qed.

Lemma run_handled :
  path_id "/impu/" (full_path req) <> None ->
  exists t o, run req new_reg_task = (tt, t, o) /\ handled t o /\
    (typed t \/ exists rc, answered o rc) /\
    _http_rc t = HTTP_OK /\ _hss_wildcard t = ""%string /\
    (method req = htp_method_OTHER -> exists rc, answered o rc) /\
    (forall a, a ∈ o -> is_reply a = true \/ a = DeleteThis \/ exists k, a = CacheGetIrs k).
Proof.
  intros Hp. unfold run. destruct (path_id "/impu/" (full_path req)) as [i|]; [|done].
  unfold get_reg_data, send_http_reply, delete_this, hbind, hmodify, hget, hemit.
  destruct (method req) eqn:Em; simpl.
  - eexists _, _. split; [done|]. split; [apply (handled_get _ []), silent_nil|].
    split; [left; intros E; congruence|]. split; [done|]. split; [done|]. split; [done|].
    intros a [<-|[]]%list_elem_of_In. eauto.
  - destruct (bool_decide _) eqn:Eb; simpl.
    + eexists _, _. split; [done|]. split; [apply one_reply_handled|].
      split; [right; eexists; by apply (answered_reply [])|].
      split; [done|]. split; [done|]. split; [done|].
      intros a [<-|[<-|[]]]%list_elem_of_In; auto.
    + eexists _, _. split; [done|]. split; [apply (handled_get _ []), silent_nil|].
      split; [left; intros _ E; by apply bool_decide_eq_false in Eb|]. split; [done|]. split; [done|].
      split; [done|]. intros a [<-|[]]%list_elem_of_In. eauto.
  - eexists _, _. split; [done|]. split; [apply one_reply_handled|].
    split; [left; intros E; congruence|]. split; [done|]. split; [done|].
    split; [intros _; eexists; by apply (answered_reply [])|].
    intros a [<-|[<-|[]]]%list_elem_of_In; auto.
Qed.

(** ** The invariant *)

Definition unanswered (l : list action) : Prop := silent l.

Definition replied (l : list action) : Prop :=
  (exists rc, replies l = [rc]) /\ existsb is_delete l = false /\ existsb is_fault l = false.

Definition waiting_ok (t : RegTask) : Prop := typed t /\ method req <> htp_method_OTHER.

Definition phase_ok (s : system) : Prop :=
  match sys_pending s with
  | Finished => exists rc, answered (sys_log s) rc
  | Getting => unanswered (sys_log s) /\ waiting_ok (sys_task s)
  | AwaitingSar | Putting | Deleting =>
      unanswered (sys_log s) /\ waiting_ok (sys_task s) /\ method req = htp_method_PUT /\
      _irs (sys_task s) <> None
  | PutReplied | DelReplied => replied (sys_log s)
  end.

Lemma silent_app l1 l2 : silent l1 -> silent l2 -> silent (l1 ++ l2).
Proof.
  intros (Hr1 & Hd1 & Hf1) (Hr2 & Hd2 & Hf2). unfold silent, replies in *.
  by rewrite omap_app, !existsb_app, Hr1, Hr2, Hd1, Hd2, Hf1, Hf2.
Qed.

Lemma answered_app l o rc : silent l -> answered o rc -> answered (l ++ o) rc.
Proof.
  intros (Hr & Hd & Hf) (Ho & o' & -> & Hd' & Hf'). unfold answered, replies in *.
  rewrite omap_app, Hr, existsb_app, Hf. split; [done|].
  exists (l ++ o'). by rewrite <- app_assoc, existsb_app, Hd.
Qed.

Lemma waiting_for_last l a p :
  waiting_for (l ++ [a]) p = waiting_for [a] p.
Proof. unfold waiting_for. by rewrite rev_unit. Qed.

Lemma answered_waiting o rc p : answered o rc -> waiting_for o p = Finished.
Proof. intros (_ & o' & -> & _). by rewrite waiting_for_last. Qed.

Lemma silent_request l a :
  silent l -> is_reply a = false -> is_delete a = false -> is_fault a = false -> silent (l ++ [a]).
Proof. intros Hl Hr Hd Hf. apply silent_app; [done|]. unfold silent. simpl. rewrite Hd, Hf. by destruct a. Qed.

(** A handler run in a state without a reply leads to a good state. *)
Lemma handled_phase_ok t o log p :
  unanswered log -> handled t o -> typed t \/ (exists rc, answered o rc) ->
  method req <> htp_method_OTHER \/ (exists rc, answered o rc) ->
  phase_ok (mkSystem t (waiting_for o p) (log ++ o)).
Proof.
  intros Hlog Hh Hty Ho. unfold phase_ok. simpl.
  assert (Hfin : forall rc, answered o rc ->
            match waiting_for o p with
            | Finished => exists rc, answered (log ++ o) rc
            | Getting => unanswered (log ++ o) /\ waiting_ok t
            | AwaitingSar | Putting | Deleting =>
                unanswered (log ++ o) /\ waiting_ok t /\ method req = htp_method_PUT /\ _irs t <> None
            | PutReplied | DelReplied => replied (log ++ o)
            end).
  { intros rc Ha. rewrite (answered_waiting _ _ _ Ha). exists rc. by apply answered_app. }
  destruct Hty as [Hty|[rc Ha]]; [|by eapply Hfin].
  destruct Ho as [Ho|[rc Ha]]; [|by eapply Hfin].
  inversion Hh; subst; [by eapply Hfin|..]; rewrite waiting_for_last; simpl;
    rewrite app_assoc; (split; [by apply silent_request; [apply silent_app|..]|]);
    (split; [done|]); (split; [done|congruence]) || done.
Qed.

Lemma initial_ok : path_id "/impu/" (full_path req) <> None -> phase_ok initial.
Proof.
  intros Hp. destruct (run_handled Hp) as (t & o & E & Hh & Hty & _ & _ & Ho & _).
  unfold initial. rewrite E. apply (handled_phase_ok t o []); [done|done|done|].
  destruct (method req); [by left|by left|]. right. auto.
Qed.

Lemma progress_ok t log p i :
  unanswered log -> p = Putting \/ p = Deleting ->
  exists o, (hmodify (set_irs (Some i)) ;;; send_reply)%h t = (tt, set_irs (Some i) t, o) /\
    waiting_for o p = (match p with Putting => PutReplied | _ => DelReplied end) /\
    replied (log ++ o).
Proof.
  intros Hlog Hp. destruct (send_reply_form (set_irs (Some i) t) ltac:(by left)) as (l & rc & E & Hl).
  exists (l ++ [SendHttpReply rc]). unfold hbind, hmodify. rewrite E. split; [done|].
  split; [rewrite waiting_for_last; by destruct Hp as [-> | ->]|].
  rewrite app_assoc. destruct (silent_app _ _ Hlog Hl) as (Hr & Hd & Hf). unfold replied, replies in *.
  rewrite omap_app, Hr, (existsb_app is_delete (log ++ l)), (existsb_app is_fault (log ++ l)), Hd, Hf.
  split; [by exists rc|done].
Qed.

Lemma delete_ok l : replied l -> exists rc, answered (l ++ [DeleteThis]) rc.
Proof.
  intros ([rc Hr] & Hd & Hf). exists rc. unfold answered, replies in *.
  rewrite omap_app, Hr, existsb_app, Hf. split; [done|]. by exists l.
Qed.

Lemma reply_phase_ok t rc log p :
  unanswered log -> waiting_ok t ->
  phase_ok (let '(_, t', o) := (send_http_reply rc ;;; delete_this)%h t in
            mkSystem t' (waiting_for o p) (log ++ o)).
Proof.
  intros Hl [Hty Ho].
  apply (handled_phase_ok t [SendHttpReply rc; DeleteThis]); auto using one_reply_handled.
Qed.

Lemma react_ok s e : phase_ok s -> enabled (sys_pending s) e -> phase_ok (react e s).
Proof.
  destruct s as [t p log]. unfold phase_ok at 1, react. simpl. intros Hs He.
  destruct p, e; simpl in He; try done; simpl handle.
  - destruct Hs as (Hl & Hty & Ho).
    destruct (process_handled i (set_irs (Some i) t)) as (t' & o & E & Hh & Ht'); [done..|].
    unfold on_get_reg_data_success. unfold hbind at 1, hmodify at 1. rewrite E.
    apply handled_phase_ok; auto.
  - destruct Hs as (Hl & Hty & Ho). unfold on_get_reg_data_failure. destruct rc; try done.
    + destruct (method_eqb (method req) htp_method_PUT).
      * destruct (process_handled (set_reg_state RegistrationState.NOT_REGISTERED (new_irs ttl0 state0))
          (set_irs (Some (set_reg_state RegistrationState.NOT_REGISTERED (new_irs ttl0 state0))) t))
          as (t' & o & E & Hh & Ht'); [done..|].
        unfold hbind at 1, hmodify at 1. rewrite E. apply handled_phase_ok; auto.
      * by apply reply_phase_ok.
    + by apply reply_phase_ok.
    + by apply reply_phase_ok.
  - destruct Hs as (Hl & (Hty & Ho) & Hm & Hi). destruct (_irs t) as [i|] eqn:Ei; [|done].
    destruct (sar_handled i t saa Ei Hty Hm) as (t' & o & E & Hh & Ht'). rewrite E.
    apply handled_phase_ok; auto.
  - destruct Hs as (Hl & _). unfold on_put_reg_data_progress.
    destruct (progress_ok t log Putting i Hl ltac:(by left)) as (o & E & Hw & Hr).
    rewrite E, Hw. done.
  - destruct Hs as (Hl & (Hty & Ho) & _). by apply reply_phase_ok.
  - by apply delete_ok.
  - destruct Hs as (Hl & _). unfold on_del_impu_progress, on_del_impu_benign.
    destruct (progress_ok t log Deleting i Hl ltac:(by right)) as (o & E & Hw & Hr).
    rewrite E, Hw. done.
  - destruct Hs as (Hl & (Hty & Ho) & _). unfold on_del_impu_failure, on_del_impu_benign.
    destruct rc; try done.
    + destruct (reply_handled (set_irs (Some i) t) ltac:(by left)) as (o & E & Hh).
      unfold hbind at 1, hmodify at 1. rewrite E. apply handled_phase_ok; auto.
    + by apply reply_phase_ok.
    + by apply reply_phase_ok.
  - by apply delete_ok.
Qed.

Lemma steps_ok s es s' : steps s es s' -> phase_ok s -> phase_ok s'.
Proof. induction 1; auto using react_ok. Qed.

(** ** One event, in detail *)

(** What a read of the cache leads to. *)
Definition after_get (i : Irs) (t : RegTask) (log : list action) : system :=
  match method req with
  | htp_method_PUT =>
      match put_decision t i with
      | AnswerFromCache =>
          let t' := set_irs (Some match _type t with
                                  | RequestType.REG => set_reg_state RegistrationState.REGISTERED i
                                  | _ => i
                                  end) (bound_task t i) in
          mkSystem t' Finished (log ++ snd ((send_reply ;;; delete_this)%h t'))
      | RejectRequest =>
          mkSystem (bound_task t i) Finished
            (log ++ [SendHttpReply HTTP_BAD_REQUEST; DeleteThis])
      | Assign ty state add =>
          mkSystem (set_irs (Some (assigned_irs state add (effective_impi t i) i)) (bound_task t i))
            AwaitingSar (log ++ [SendSAR (sar_for ty (bound_task t i))])
      end
  | _ =>
      let t' := set_cached (_registration_state i) t in
      mkSystem t' Finished (log ++ snd ((send_reply ;;; delete_this)%h t'))
  end.

Lemma reply_react t log p :
  _irs t <> None \/ _http_rc t <> HTTP_OK ->
  (let '(_, t', o) := (send_reply ;;; delete_this)%h t in
   mkSystem t' (waiting_for o p) (log ++ o)) =
  mkSystem t Finished (log ++ snd ((send_reply ;;; delete_this)%h t)).
Proof.
  intros Ht. destruct (reply_and_delete t Ht) as (o & rc & E & Ha). rewrite E. simpl.
  by rewrite (answered_waiting _ _ _ Ha).
Qed.

Lemma process_react i t log p :
  _irs t = Some i -> typed t -> method req <> htp_method_OTHER ->
  (let '(_, t', o) := process_received_reg_data cfg configured_server_name req t in
   mkSystem t' (waiting_for o p) (log ++ o)) = after_get i t log.
Proof.
  intros Hi Hty Ho. unfold after_get.
  destruct (decide (method req = htp_method_PUT)) as [Hm|Hm].
  - rewrite Hm, (process_put i) by auto. destruct (put_decision t i) as [| |ty st add]; [|done|done].
    apply reply_react. by left.
  - rewrite (get_method i) by done. rewrite reply_react by (left; simpl; congruence).
    by destruct (method req).
Qed.

(** What an answer of the HSS leads to. *)
Definition after_answer (saa : ServerAssignmentAnswer) (i : Irs) (t : RegTask)
    (log : list action) : system :=
  if wildcard_changed t saa then
    let t' := set_irs None (set_hss_wildcard (saa_wildcard_impu saa) t) in
    mkSystem t' Getting (log ++ [CacheGetIrs (public_id t')])
  else
    let t' := informed_task t saa in
    let rc := saa_result saa in
    if rc_eqb rc SUCCESS && assigns (_type t) then
      let i' := refreshed_irs saa i in
      let t' := set_irs (Some i') t' in
      match get_public_ids (saa_service_profile saa) with
      | [] => mkSystem t' Finished (log ++ snd ((send_reply ;;; delete_this)%h t'))
      | _ => mkSystem t' Putting (log ++ [CachePutIrs i'])
      end
    else if is_deregistration_request (_type t) && negb (rc_eqb rc SERVER_UNAVAILABLE) then
      mkSystem t' Deleting (log ++ penalty rc ++ [CacheDeleteIrs i])
    else mkSystem t' Finished (log ++ penalty rc ++ snd ((send_reply ;;; delete_this)%h t')).

Lemma sar_react saa i t log p :
  _irs t = Some i ->
  (let '(_, t', o) := on_sar_response cfg saa t in
   mkSystem t' (waiting_for o p) (log ++ o)) = after_answer saa i t log.
Proof.
  intros Hi. rewrite (sar_form saa i) by done. unfold after_answer.
  destruct (wildcard_changed t saa); [done|]. cbv zeta.
  assert (Hinf : _irs (informed_task t saa) = Some i).
  { unfold informed_task. by destruct (saa_result saa). }
  destruct (rc_eqb (saa_result saa) SUCCESS && assigns (_type t)).
  - destruct (get_public_ids _); [|done]. apply reply_react. by left.
  - destruct (is_deregistration_request (_type t) && _).
    + by rewrite waiting_for_last.
    + destruct (reply_and_delete (informed_task t saa)) as (o & rc & E & Ha); [left; congruence|].
      rewrite E. simpl. f_equal. destruct Ha as (_ & l' & -> & _).
      by rewrite app_assoc, waiting_for_last.
Qed.

(** Every event of a good state, in these terms. *)
Lemma react_form s e :
  phase_ok s -> enabled (sys_pending s) e ->
  match e with
  | GetOk i => react e s = after_get i (set_irs (Some i) (sys_task s)) (sys_log s)
  | GetFailed Store.NOT_FOUND =>
      if method_eqb (method req) htp_method_PUT then
        let i := set_reg_state RegistrationState.NOT_REGISTERED (new_irs ttl0 state0) in
        react e s = after_get i (set_irs (Some i) (sys_task s)) (sys_log s)
      else react e s = mkSystem (sys_task s) Finished
                         (sys_log s ++ [SendHttpReply HTTP_NOT_FOUND; DeleteThis])
  | GetFailed _ => react e s = mkSystem (sys_task s) Finished
                                 (sys_log s ++ [SendHttpReply HTTP_GATEWAY_TIMEOUT; DeleteThis])
  | SarAnswer saa =>
      exists i, _irs (sys_task s) = Some i /\
        react e s = after_answer saa i (sys_task s) (sys_log s)
  | PutProgress _ => sys_pending (react e s) = PutReplied
  | DelProgress _ => sys_pending (react e s) = DelReplied
  | _ => sys_pending (react e s) = Finished
  end.
Proof.
  destruct s as [t p log]. unfold phase_ok, react. simpl. intros Hs He.
  destruct p, e; simpl in He; try done; simpl handle.
  - destruct Hs as (Hl & Hty & Ho). unfold on_get_reg_data_success.
    unfold hbind at 1, hmodify at 1. rewrite <- (process_react i _ log Getting) by done.
    by destruct (process_received_reg_data _ _ _ _) as [[[] ?] ?].
  - destruct Hs as (Hl & Hty & Ho). destruct rc; try done. unfold on_get_reg_data_failure.
    destruct (method_eqb (method req) htp_method_PUT); [|done]. cbv zeta.
    unfold hbind at 1, hmodify at 1.
    set (i := set_reg_state RegistrationState.NOT_REGISTERED (new_irs ttl0 state0)).
    rewrite <- (process_react i _ log Getting) by done.
    by destruct (process_received_reg_data _ _ _ _) as [[[] ?] ?].
  - destruct Hs as (Hl & _ & _ & Hi). destruct (_irs t) as [i|] eqn:Ei; [|done].
    exists i. split; [done|]. by apply sar_react.
  - destruct Hs as (Hl & _). unfold on_put_reg_data_progress.
    destruct (progress_ok t log Putting i Hl ltac:(by left)) as (o & E & Hw & Hr). by rewrite E.
  - destruct Hs as (Hl & _). unfold on_del_impu_progress, on_del_impu_benign.
    destruct (progress_ok t log Deleting i Hl ltac:(by right)) as (o & E & Hw & Hr). by rewrite E.
  - unfold on_del_impu_failure, on_del_impu_benign. destruct rc; try done.
    destruct (reply_and_delete (set_irs (Some i) t) ltac:(by left)) as (o & rc & E & Ha).
    unfold hbind at 1, hmodify at 1. rewrite E. simpl. by rewrite (answered_waiting _ _ _ Ha).
Qed.

(** ** Runs of the task *)

Lemma reachable es s :
  path_id "/impu/" (full_path req) <> None -> steps initial es s -> phase_ok s.
Proof. eauto using steps_ok, initial_ok. Qed.

Lemma some_event p : p <> Finished -> exists e, enabled p e.
Proof.
  intros Hp. destruct p; [..|done].
  - by exists (GetFailed Store.NOT_FOUND).
  - by exists (SarAnswer (saa_of_rc TIMEOUT)).
  - by exists (PutFailed Store.NOT_FOUND (new_irs ttl0 state0)).
  - by exists PutDone.
  - by exists (DelFailed Store.NOT_FOUND (new_irs ttl0 state0)).
  - by exists DelDone.
Qed.

(** C1: Whatever the cache and the HSS answer, a registration-data task never
    dereferences a missing registration set, and when it is finished it has sent
    exactly one reply and deleted itself, once, as its last action; until then
    it is not deleted, has replied at most once and waits for an event. *)
Theorem reg_data_answers_once es s :
  path_id "/impu/" (full_path req) <> None -> steps initial es s ->
  existsb is_fault (sys_log s) = false /\
  (sys_pending s = Finished -> exists rc, answered (sys_log s) rc) /\
  (sys_pending s <> Finished ->
    existsb is_delete (sys_log s) = false /\ (length (replies (sys_log s)) <= 1)%nat /\
    exists e, enabled (sys_pending s) e).
Proof.
  intros Hp Hs. pose proof (reachable _ _ Hp Hs) as Hok. pose proof (some_event (sys_pending s)) as He.
  unfold phase_ok in Hok. destruct (sys_pending s);
    repeat match goal with
    | H : _ /\ _ |- _ => destruct H
    | H : unanswered _ |- _ => destruct H as (Hr & ? & ?); rewrite ?Hr
    | H : replied _ |- _ => destruct H as ([? Hr] & ? & ?); rewrite ?Hr
    | H : exists rc, answered _ rc |- _ => destruct H as [rc Ha]; pose proof Ha as (_ & ? & _ & _ & ?)
    end; (split; [done|]); (split; [eauto|]); intros Hn; try done;
    (split; [done|]); (split; [simpl; lia|]); auto.
Qed.

(** ** Termination *)

Definition is_new_wildcard (e : reg_event) : bool :=
  match e with SarAnswer saa => rc_eqb (saa_result saa) NEW_WILDCARD | _ => false end.

Definition new_wildcards (es : list reg_event) : nat := length (List.filter is_new_wildcard es).

(** Events left without another wildcard. *)
Definition rank (p : pending) : nat :=
  match p with
  | Getting => 4 | AwaitingSar => 3 | Putting | Deleting => 2 | PutReplied | DelReplied => 1
  | Finished => 0
  end.

Lemma after_get_rank i t log : (rank (sys_pending (after_get i t log)) <= 3)%nat.
Proof.
  unfold after_get. destruct (method req); [simpl; lia| |simpl; lia].
  destruct (put_decision t i); simpl; lia.
Qed.

Lemma after_answer_rank saa i t log :
  (rank (sys_pending (after_answer saa i t log)) <=
   if rc_eqb (saa_result saa) NEW_WILDCARD then 4 else 2)%nat.
Proof.
  unfold after_answer, wildcard_changed.
  destruct (rc_eqb (saa_result saa) NEW_WILDCARD); simpl;
    repeat case_match; simpl; lia.
Qed.

Lemma react_rank s e :
  phase_ok s -> enabled (sys_pending s) e ->
  (S (rank (sys_pending (react e s))) <=
   rank (sys_pending s) + if is_new_wildcard e then 2 else 0)%nat.
Proof.
  intros Hs He. pose proof (react_form s e Hs He) as Hf.
  destruct e as [i|rc|saa|i| |rc i|i| |rc i], (sys_pending s); simpl in He; try done; simpl rank;
    try (rewrite Hf; simpl; lia); try (simpl; lia).
  - rewrite Hf. pose proof (after_get_rank i (set_irs (Some i) (sys_task s)) (sys_log s)). simpl. lia.
  - destruct rc; try done; try (rewrite Hf; simpl; lia).
    destruct (method_eqb _ _); cbv zeta in Hf; rewrite Hf; [|simpl; lia].
    match goal with |- context [after_get ?i ?t ?l] => pose proof (after_get_rank i t l) end.
    simpl. lia.
  - destruct Hf as (i & _ & Hf). rewrite Hf.
    pose proof (after_answer_rank saa i (sys_task s) (sys_log s)).
    unfold is_new_wildcard. destruct (rc_eqb _ _); lia.
Qed.

Lemma steps_rank s es s' :
  steps s es s' -> phase_ok s ->
  (length es + rank (sys_pending s') <= rank (sys_pending s) + 2 * new_wildcards es)%nat.
Proof.
  induction 1 as [s|s e es s' He Hs IH]; intros Hok; [simpl; lia|].
  specialize (IH (react_ok _ _ Hok He)). pose proof (react_rank s e Hok He) as Hr.
  unfold new_wildcards in *. cbn [List.filter List.length].
  destruct (is_new_wildcard e); cbn [List.length]; lia.
Qed.

(** A registration-data task ends: without another wildcard from the HSS it
    handles at most four events (a read, an answer, a progress and a completion),
    and each NEW_WILDCARD answer adds at most two. *)
Theorem reg_data_terminates es s :
  path_id "/impu/" (full_path req) <> None -> steps initial es s ->
  (length es <= 4 + 2 * new_wildcards es)%nat /\
  (length es = 4 + 2 * new_wildcards es -> sys_pending s = Finished)%nat.
Proof.
  intros Hp Hs. pose proof (steps_rank _ _ _ Hs (initial_ok Hp)) as Hr.
  assert (Hi : (rank (sys_pending initial) <= 4)%nat) by (destruct (sys_pending initial); simpl; lia).
  split; [lia|]. intros E. destruct (sys_pending s); simpl in Hr; try lia. done.
Qed.

(** ** The table of decisions and the reaction to an answer *)

(** C9: A PUT whose registration set has been read does what the table
    [decide_request] says for its type, the cached state, the age of the record,
    the private identity and the cache control: it is answered from the cache,
    rejected, or assigned by a SAR of the table's type after the table's changes
    to the set. *)
Theorem put_request_decision i es s :
  path_id "/impu/" (full_path req) <> None -> method req = htp_method_PUT ->
  steps initial es s -> sys_pending s = Getting ->
  react (GetOk i) s =
  (let t := set_irs (Some i) (sys_task s) in
   match decide_request (_type t) (_registration_state i) (_ttl i) (is_new_binding t i) no_cache with
   | AnswerFromCache =>
       let t' := set_irs (Some match _type t with
                               | RequestType.REG => set_reg_state RegistrationState.REGISTERED i
                               | _ => i
                               end) (bound_task t i) in
       mkSystem t' Finished (sys_log s ++ snd ((send_reply ;;; delete_this)%h t'))
   | RejectRequest =>
       mkSystem (bound_task t i) Finished
         (sys_log s ++ [SendHttpReply HTTP_BAD_REQUEST; DeleteThis])
   | Assign ty state add =>
       mkSystem (set_irs (Some (assigned_irs state add (effective_impi t i) i)) (bound_task t i))
         AwaitingSar (sys_log s ++ [SendSAR (sar_for ty (bound_task t i))])
   end).
Proof.
  intros Hp Hm Hs Hg. pose proof (reachable _ _ Hp Hs) as Hok.
  assert (He : enabled (sys_pending s) (GetOk i)) by by rewrite Hg.
  pose proof (react_form s _ Hok He) as Hf. cbn iota in Hf. rewrite Hf. unfold after_get.
  by rewrite Hm.
Qed.

(** C13: An answer to a SAR is acted on as [after_answer] says: a changed wildcard
    starts a new read of the cache for it; a successful assignment refreshes the
    set from the answer and writes it (or replies at once when the profile has no
    identity); any answer to a deregistration but SERVER_UNAVAILABLE deletes the
    set; everything else is answered with the code of [failure_code]. *)
Theorem sar_answer_reaction saa es s :
  path_id "/impu/" (full_path req) <> None -> steps initial es s ->
  sys_pending s = AwaitingSar ->
  exists i, _irs (sys_task s) = Some i /\
    react (SarAnswer saa) s = after_answer saa i (sys_task s) (sys_log s).
Proof.
  intros Hp Hs Hg. pose proof (reachable _ _ Hp Hs) as Hok.
  apply (react_form s (SarAnswer saa)); [done|]. by rewrite Hg.
Qed.

(** ** Which requests change anything *)

(** Membership in a concrete list of actions. *)
Ltac in_list :=
  rewrite ?elem_of_app, ?elem_of_cons, ?elem_of_nil in *;
  intuition (subst; simpl in *; congruence || auto).

Definition is_change (a : action) : bool :=
  match a with SendSAR _ | CachePutIrs _ | CacheDeleteIrs _ => true | _ => false end.

Lemma send_reply_shape t :
  exists o, send_reply t = (tt, t, o) /\ forall a, a ∈ o -> is_change a = false.
Proof.
  unfold send_reply, hbind, hget. simpl.
  destruct (negb (http_eqb (_http_rc t) HTTP_OK)); simpl.
  { eexists. split; [done|]. intros a. in_list. }
  unfold with_irs, hbind, hget. simpl. destruct (_irs t) as [i|]; simpl.
  - destruct (build_ClearwaterRegData_xml _ _ _) as [rc x]. simpl.
    destruct (http_eqb rc HTTP_OK); simpl; (eexists; split; [done|]); intros a;
      in_list.
  - eexists. split; [done|]. intros a. in_list.
Qed.

Lemma send_reply_quiet t a : a ∈ snd (send_reply t) -> is_change a = false.
Proof. destruct (send_reply_shape t) as (o & -> & Ho). apply Ho. Qed.

Lemma reply_delete_quiet t a :
  a ∈ snd ((send_reply ;;; delete_this)%h t) -> is_change a = false.
Proof.
  pose proof (send_reply_quiet t a) as Hq. unfold hbind.
  destruct (send_reply t) as [[[] t1] o]. simpl in *. in_list.
Qed.

(** Why an action that changes something is issued on an event. *)
Definition justified (e : reg_event) (t : RegTask) (a : action) : Prop :=
  match a with
  | SendSAR _ => method req = htp_method_PUT
  | CachePutIrs i' =>
      exists saa i, e = SarAnswer saa /\ saa_result saa = SUCCESS /\ assigns (_type t) = true /\
        get_public_ids (saa_service_profile saa) <> [] /\ i' = refreshed_irs saa i
  | CacheDeleteIrs _ =>
      exists saa, e = SarAnswer saa /\ saa_result saa <> SERVER_UNAVAILABLE /\
        is_deregistration_request (_type t) = true
  | _ => True
  end.

Lemma rc_eqb_spec a b : rc_eqb a b = true <-> a = b.
Proof. unfold rc_eqb. apply bool_decide_eq_true. Qed.

Lemma penalty_quiet rc a : a ∈ penalty rc -> is_change a = false.
Proof. destruct rc; simpl; in_list. Qed.

Lemma after_get_changes i t log e a :
  is_change a = true -> a ∈ sys_log (after_get i t log) -> a ∈ log \/ justified e t a.
Proof.
  intros Hc. unfold after_get. destruct (method req) eqn:Em.
  2: destruct (put_decision t i).
  all: cbn [sys_log]; rewrite elem_of_app; intros [Ha|Ha]; [by left|];
    try (apply reply_delete_quiet in Ha; congruence); try in_list.
Qed.

Lemma after_answer_changes saa i t log a :
  is_change a = true -> a ∈ sys_log (after_answer saa i t log) ->
  a ∈ log \/ justified (SarAnswer saa) t a.
Proof.
  intros Hc. unfold after_answer. destruct (wildcard_changed t saa).
  { simpl. in_list. }
  cbv zeta. destruct (rc_eqb (saa_result saa) SUCCESS && assigns (_type t)) eqn:Es.
  - apply andb_true_iff in Es as [Es Ha]. apply rc_eqb_spec in Es.
    destruct (get_public_ids (saa_service_profile saa)) as [|p l] eqn:Ep; simpl;
      rewrite elem_of_app; (intros [?|Hin]; [by left|]).
    + apply reply_delete_quiet in Hin. congruence.
    + rewrite elem_of_cons, elem_of_nil in Hin. destruct Hin as [-> | []]. right.
      exists saa, i. rewrite Ep. done.
  - destruct (is_deregistration_request (_type t) && _) eqn:Ed; simpl;
      rewrite !elem_of_app; (intros [?|[Hin|Hin]]; [by left|by apply penalty_quiet in Hin; congruence|]).
    + rewrite elem_of_cons, elem_of_nil in Hin. destruct Hin as [-> | []]. right.
      apply andb_true_iff in Ed as [Ed Hn]. exists saa. split; [done|]. split; [|done].
      intros E. rewrite E in Hn. done.
    + apply reply_delete_quiet in Hin. congruence.
Qed.

(** The other events only reply and delete the task. *)
Lemma react_quiet s e a :
  (forall i, e <> GetOk i) -> e <> GetFailed Store.NOT_FOUND -> (forall saa, e <> SarAnswer saa) ->
  a ∈ sys_log (react e s) -> is_change a = true -> a ∈ sys_log s.
Proof.
  destruct s as [t p log]. unfold react. simpl. intros Hn1 Hn2 Hn3 Ha Hc.
  assert (Hq : is_change a = false -> a ∈ log) by congruence.
  destruct e as [i|rc|saa|i| |rc i|i| |rc i]; simpl in *; try congruence;
    unfold on_get_reg_data_failure, on_put_reg_data_progress, on_put_reg_data_success,
      on_put_reg_data_failure, on_del_impu_progress, on_del_impu_success, on_del_impu_failure,
      on_del_impu_benign in Ha.
  - destruct rc; try congruence; simpl in Ha; in_list.
  - unfold hbind at 1, hmodify in Ha. pose proof (send_reply_quiet (set_irs (Some i) t) a) as Hs.
    destruct (send_reply _) as [[[] ?] o]. simpl in *. in_list.
  - in_list.
  - in_list.
  - unfold hbind at 1, hmodify in Ha. pose proof (send_reply_quiet (set_irs (Some i) t) a) as Hs.
    destruct (send_reply _) as [[[] ?] o]. simpl in *. in_list.
  - in_list.
  - unfold hbind at 1, hmodify in Ha.
    pose proof (reply_delete_quiet (set_irs (Some i) t) a) as Hs.
    destruct rc; simpl in *; try in_list.
    destruct ((send_reply ;;; delete_this)%h _) as [[[] ?] o]. simpl in *. in_list.
Qed.

Lemma react_changes s e a :
  phase_ok s -> enabled (sys_pending s) e -> is_change a = true ->
  a ∈ sys_log (react e s) -> a ∈ sys_log s \/ justified e (sys_task s) a.
Proof.
  intros Hs He Hc Ha. pose proof (react_form s e Hs He) as Hf.
  destruct e as [i|rc|saa| | | | | |]; try by (left; eapply react_quiet; [..|exact Ha|exact Hc]; congruence).
  - rewrite Hf in Ha. apply (after_get_changes i (set_irs (Some i) (sys_task s)) _ (GetOk i)) in Ha;
      [|done]. destruct Ha; [by left|]. right. by destruct a.
  - destruct (decide (rc = Store.NOT_FOUND)) as [-> |Hn]; [|left; eapply react_quiet; eauto; congruence].
    destruct (method_eqb (method req) htp_method_PUT); cbv zeta in Hf; rewrite Hf in Ha.
    + match type of Ha with a ∈ sys_log (after_get ?i ?t ?l) =>
        apply (after_get_changes i t l (GetFailed Store.NOT_FOUND)) in Ha end; [|done].
      destruct Ha; [by left|]. right. by destruct a.
    + simpl in Ha. in_list.
  - destruct Hf as (i & _ & Hf). rewrite Hf in Ha. by apply after_answer_changes in Ha.
Qed.

Lemma react_type s e :
  phase_ok s -> enabled (sys_pending s) e -> _type (sys_task (react e s)) = _type (sys_task s).
Proof.
  intros Hs He. pose proof (react_form s e Hs He) as Hf.
  assert (Hg : forall i t log, _type (sys_task (after_get i t log)) = _type t).
  { intros i t log. unfold after_get. destruct (method req); try done.
    destruct (put_decision t i); done. }
  assert (Ha : forall saa i t log, _type (sys_task (after_answer saa i t log)) = _type t).
  { intros saa i t log. unfold after_answer, informed_task. destruct (wildcard_changed t saa); [done|].
    cbv zeta. destruct (saa_result saa); simpl; repeat (case_match; simpl); done. }
  destruct e as [i|rc|saa|i| |rc i|i| |rc i].
  - by rewrite Hf, Hg.
  - destruct rc; try by rewrite Hf.
    destruct (method_eqb (method req) htp_method_PUT); cbv zeta in Hf; by rewrite Hf, ?Hg.
  - destruct Hf as (i & _ & Hf). by rewrite Hf, Ha.
  - unfold react. simpl. unfold on_put_reg_data_progress, hbind at 1, hmodify.
    destruct (send_reply_shape (set_irs (Some i) (sys_task s))) as (o & E & _). by rewrite E.
  - done.
  - done.
  - unfold react. simpl. unfold on_del_impu_progress, on_del_impu_benign, hbind at 1, hmodify.
    destruct (send_reply_shape (set_irs (Some i) (sys_task s))) as (o & E & _). by rewrite E.
  - done.
  - unfold react. simpl. unfold on_del_impu_failure, on_del_impu_benign, hbind, hmodify.
    destruct rc; simpl; try done.
    destruct (send_reply_shape (set_irs (Some i) (sys_task s))) as (o & E & _). by rewrite E.
Qed.

Lemma justified_type e t t' a : _type t' = _type t -> justified e t a -> justified e t' a.
Proof. intros E. unfold justified. rewrite E. done. Qed.

Lemma steps_changes s es s' a :
  steps s es s' -> phase_ok s -> is_change a = true -> a ∈ sys_log s' ->
  a ∈ sys_log s \/ exists e, e ∈ es /\ justified e (sys_task s') a.
Proof.
  intros Hs. induction Hs as [s|s e es s' He Hs IH]; intros Hok Hc Ha; [by left|].
  pose proof (react_ok s e Hok He) as Hok'. destruct (IH Hok' Hc Ha) as [Hin|(e' & Hin & Hj)].
  - destruct (react_changes s e a Hok He Hc Hin) as [|Hj]; [by left|]. right.
    exists e. split; [left|]. apply (justified_type e (sys_task s)); [|done].
    rewrite <- (react_type s e Hok He). clear IH Ha Hin Hj Hok He. revert Hok'.
    induction Hs as [|s1 e1 es1 s2 He1 Hs1 IH]; intros Hok'; [done|].
    rewrite IH by by apply react_ok. by apply react_type.
  - right. exists e'. split; [by right|done].
Qed.

Lemma initial_changes a :
  path_id "/impu/" (full_path req) <> None -> a ∈ sys_log initial -> is_change a = false.
Proof.
  intros Hp. destruct (run_handled Hp) as (t & o & E & _ & _ & _ & _ & _ & Ho).
  unfold initial. rewrite E. simpl. intros Ha. destruct (Ho a Ha) as [Hr|[-> |[k ->]]]; [|done..].
  by destruct a.
Qed.

Lemma no_answers es s0 s1 saa :
  method req <> htp_method_PUT -> steps s0 es s1 -> phase_ok s0 -> SarAnswer saa ∉ es.
Proof.
  intros Hm. induction 1 as [s0|s0 e0 es0 s1 He0 Hs0 IH]; intros Hok; [by intros ?%elem_of_nil|].
  rewrite elem_of_cons. intros [<- |Hin]; [|exact (IH (react_ok _ _ Hok He0) Hin)].
  unfold phase_ok in Hok. destruct (sys_pending s0); simpl in He0; try done.
  by destruct Hok as (_ & _ & ? & _).
Qed.

(** A request that is not a PUT changes nothing: no SAR is sent and nothing
    is written to the cache or deleted from it. *)
Theorem get_request_changes_nothing a es s :
  path_id "/impu/" (full_path req) <> None -> method req <> htp_method_PUT ->
  steps initial es s -> a ∈ sys_log s -> is_change a = false.
Proof.
  intros Hp Hm Hs Ha. destruct (is_change a) eqn:Hc; [|done].
  destruct (steps_changes _ _ _ a Hs (initial_ok Hp) Hc Ha) as [Hi|(e & He & Hj)].
  - apply initial_changes in Hi; congruence.
  - assert (Hn : forall saa, SarAnswer saa ∉ es).
    { intros saa. by apply (no_answers es initial s saa Hm Hs), initial_ok. }
    destruct a; simpl in Hj; try done;
      [destruct Hj as (saa & i & -> & _)|destruct Hj as (saa & -> & _)]; by apply Hn in He.
Qed.

(** C21: A registration set is written to the cache only after the HSS accepted an
    assignment, and it then carries the answer's profile and charging addresses and
    the configured lifetime; a set is deleted only for a deregistration request,
    after an answer other than SERVER_UNAVAILABLE. *)
Theorem cache_changes_follow_sar es s :
  path_id "/impu/" (full_path req) <> None -> steps initial es s ->
  (forall i', CachePutIrs i' ∈ sys_log s ->
    exists saa i, SarAnswer saa ∈ es /\ saa_result saa = SUCCESS /\
      assigns (_type (sys_task s)) = true /\ get_public_ids (saa_service_profile saa) <> [] /\
      i' = set_ttl (record_ttl cfg)
             (set_ims_sub_xml (saa_service_profile saa)
                (set_charging_addresses (saa_charging_addresses saa) i))) /\
  (forall i', CacheDeleteIrs i' ∈ sys_log s ->
    exists saa, SarAnswer saa ∈ es /\ saa_result saa <> SERVER_UNAVAILABLE /\
      is_deregistration_request (_type (sys_task s)) = true).
Proof.
  intros Hp Hs. split; intros i' Ha;
    (eapply steps_changes in Ha as [Hi|(e & He & Hj)]; [..|exact Hs|by apply initial_ok|done];
      [by apply initial_changes in Hi|]).
  - destruct Hj as (saa & i & -> & Hr & Ht & Hi & ->). by exists saa, i.
  - destruct Hj as (saa & -> & Hr & Ht). by exists saa.
Qed.

(** ** Two wildcards without end *)

Definition wild (w : string) : reg_event :=
  SarAnswer (mkServerAssignmentAnswer NEW_WILDCARD no_addrs "" w).

(** A subscriber the cache does not know, and an HSS that answers every SAR with
    the other of two wildcards. *)
Definition ping_pong (w1 w2 : string) : list reg_event :=
  [GetFailed Store.NOT_FOUND; wild w1; GetFailed Store.NOT_FOUND; wild w2].

Definition retrying (s : system) (w : string) : Prop :=
  phase_ok s /\ sys_pending s = Getting /\ _type (sys_task s) = RequestType.REG /\
  wildcard_id (sys_task s) = w.

Lemma retry_round s w w' :
  method req = htp_method_PUT -> retrying s w -> w' <> w -> w' <> ""%string ->
  exists s', steps s [GetFailed Store.NOT_FOUND; wild w'] s' /\ retrying s' w'.
Proof.
  intros Hm (Hok & Hg & Hty & Hw) Hne Hne'.
  assert (He : enabled (sys_pending s) (GetFailed Store.NOT_FOUND)) by by rewrite Hg.
  pose proof (react_form s _ Hok He) as Hf. cbn iota in Hf. rewrite Hm in Hf.
  change (method_eqb htp_method_PUT htp_method_PUT) with true in Hf. cbv iota zeta in Hf.
  set (i := set_reg_state RegistrationState.NOT_REGISTERED (new_irs ttl0 state0)) in *.
  pose proof (react_ok s _ Hok He) as Hok1.
  assert (Hr1 : sys_pending (react (GetFailed Store.NOT_FOUND) s) = AwaitingSar /\
    _type (sys_task (react (GetFailed Store.NOT_FOUND) s)) = RequestType.REG /\
    wildcard_id (sys_task (react (GetFailed Store.NOT_FOUND) s)) = w).
  { rewrite Hf. unfold after_get. rewrite Hm. unfold put_decision. simpl. rewrite Hty. simpl.
    by rewrite Hty. }
  destruct Hr1 as (Hp1 & Hty1 & Hw1). set (s1 := react (GetFailed Store.NOT_FOUND) s) in *.
  assert (He1 : enabled (sys_pending s1) (wild w')) by by rewrite Hp1.
  pose proof (react_form s1 _ Hok1 He1) as (i1 & Hi1 & Hf1).
  exists (react (wild w') s1). split; [by repeat econstructor|].
  split; [by apply react_ok|]. unfold after_answer, wildcard_changed in Hf1. simpl in Hf1.
  rewrite Hw1 in Hf1. replace (String.eqb w w') with false in Hf1
    by (symmetry; apply String.eqb_neq; congruence). simpl in Hf1. rewrite Hf1. simpl.
  split; [done|]. split; [done|]. unfold wildcard_id. simpl. by destruct w'.
Qed.

Lemma steps_trans s1 s2 s3 es1 es2 : steps s1 es1 s2 -> steps s2 es2 s3 -> steps s1 (es1 ++ es2) s3.
Proof. induction 1; simpl; [done|]. intros. constructor; auto. Qed.

(** The check that a new wildcard differs from the current one does not bound
    the retries: an HSS that answers with two wildcards in turn keeps a
    registration of an unknown subscriber reading the cache and sending SARs for
    any number of rounds. *)
Theorem wildcard_retries_unbounded n w1 w2 :
  path_id "/impu/" (full_path req) <> None -> method req = htp_method_PUT ->
  request_type_from_body (get_rx_body req) = RequestType.REG ->
  w1 <> w2 -> w1 <> ""%string -> w2 <> ""%string -> wildcard_from_body (get_rx_body req) = w2 ->
  exists s, steps initial (concat (replicate n (ping_pong w1 w2))) s /\ sys_pending s = Getting.
Proof.
  intros Hp Hm Ht Hw He1 He2 Hb.
  assert (Hi : retrying initial w2).
  { pose proof (initial_ok Hp) as Hok. split; [done|]. revert Hok. unfold initial, run.
    destruct (path_id "/impu/" (full_path req)) as [x|]; [|done]. rewrite Hm, Ht, Hb. done. }
  assert (Hr : exists s, steps initial (concat (replicate n (ping_pong w1 w2))) s /\ retrying s w2).
  { clear Hb. revert Hi. generalize initial. induction n as [|n IH]; intros s0 Hi.
    - exists s0. split; [constructor|done].
    - destruct (retry_round s0 w2 w1) as (s1 & Hs1 & Hr1); [done..|].
      destruct (retry_round s1 w1 w2) as (s2 & Hs2 & Hr2); [done..|].
      destruct (IH s2 Hr2) as (s3 & Hs3 & Hr3). exists s3. split; [|done].
      simpl. apply (steps_trans _ _ _ [_; _] _ Hs1). apply (steps_trans _ _ _ [_; _] _ Hs2). done. }
  destruct Hr as (s & Hs & _ & Hg & _). by exists s.
Qed.
End system.

(** ** Witnesses *)

Definition sample_reg_config : RegDataConfig := mkRegDataConfig true 1800 7200 true.

Definition sample_body (ty w : string) : string :=
  serialize (JObj [("reqtype", JStr ty); ("server_name", JStr ""); ("wildcard_identity", JStr w)])%string.

Definition sample_put (ty w : string) : Request :=
  mkRequest htp_method_PUT "/impu/sip:a@b/reg-data" "/impu/sip:a@b/reg-data" ""
    (fun k => if String.eqb k "private_id" then "a@b" else "")%string
    (fun _ => ""%string) (sample_body ty w).

Definition sample_get : Request :=
  mkRequest htp_method_GET "/impu/sip:a@b/reg-data" "/impu/sip:a@b/reg-data" ""
    (fun _ => ""%string) (fun _ => ""%string) "".

Definition sample_saa (rc : ResultCode) : ServerAssignmentAnswer :=
  mkServerAssignmentAnswer rc (mkChargingAddresses ["ccf"%string] []) (Xml.profile 0) "".

Definition sample_set : Irs := new_irs 0 RegistrationState.UNKNOWN.

Definition sample_initial (r : Request) : system := initial r.

Definition sample_react (r : Request) (s : system) (e : reg_event) : system :=
  react sample_reg_config "sip:sprout" r 0 RegistrationState.UNKNOWN e s.

Definition after_events (r : Request) (es : list reg_event) : system :=
  List.fold_left (sample_react r) es (sample_initial r).

(** The events of a run are enabled one after the other. *)
Fixpoint all_enabled (r : Request) (s : system) (es : list reg_event) : Prop :=
  match es with
  | [] => True
  | e :: es => enabled (sys_pending s) e /\ all_enabled r (sample_react r s e) es
  end.

Lemma run_steps r es :
  all_enabled r (sample_initial r) es ->
  steps sample_reg_config "sip:sprout" r 0 RegistrationState.UNKNOWN (initial r) es
    (after_events r es).
Proof.
  unfold after_events. change (initial r) with (sample_initial r). generalize (sample_initial r).
  induction es as [|e es IH]; intros s; simpl; [constructor|].
  intros [He Hes]. constructor; auto.
Qed.

Definition registration : list reg_event :=
  [GetFailed Store.NOT_FOUND; SarAnswer (sample_saa SUCCESS); PutProgress sample_set; PutDone].

Definition deregistration : list reg_event :=
  [GetOk (set_reg_state RegistrationState.REGISTERED sample_set);
   SarAnswer (sample_saa NOT_FOUND); DelFailed Store.NOT_FOUND sample_set].

Ltac run_enabled := apply run_steps; vm_compute; repeat split; discriminate || exact I.

Lemma reg_data_answers_once_witness :
  exists rc, answered (sys_log (after_events (sample_put "reg" "") registration)) rc.
Proof.
  assert (Hp : path_id "/impu/" (full_path (sample_put "reg" "")) <> None)
    by (vm_compute; discriminate).
  assert (Hs : steps sample_reg_config "sip:sprout" (sample_put "reg" "") 0
                 RegistrationState.UNKNOWN (initial (sample_put "reg" "")) registration
                 (after_events (sample_put "reg" "") registration)) by run_enabled.
  apply (reg_data_answers_once _ _ _ _ _ _ _ Hp Hs). vm_compute. reflexivity.
Defined.

Lemma reg_data_terminates_witness :
  sys_pending (after_events (sample_put "reg" "") registration) = Finished.
Proof.
  assert (Hp : path_id "/impu/" (full_path (sample_put "reg" "")) <> None)
    by (vm_compute; discriminate).
  assert (Hs : steps sample_reg_config "sip:sprout" (sample_put "reg" "") 0
                 RegistrationState.UNKNOWN (initial (sample_put "reg" "")) registration
                 (after_events (sample_put "reg" "") registration)) by run_enabled.
  apply (reg_data_terminates _ _ _ _ _ _ _ Hp Hs). reflexivity.
Defined.

Lemma put_request_decision_witness :
  exists m, In (SendSAR m) (sys_log (sample_react (sample_put "dereg-user" "")
    (sample_initial (sample_put "dereg-user" ""))
    (GetOk (set_reg_state RegistrationState.REGISTERED sample_set)))) /\
    sar_type m = Cx.USER_DEREGISTRATION.
Proof.
  assert (Hp : path_id "/impu/" (full_path (sample_put "dereg-user" "")) <> None)
    by (vm_compute; discriminate).
  assert (Hs : steps sample_reg_config "sip:sprout" (sample_put "dereg-user" "") 0
                 RegistrationState.UNKNOWN (initial (sample_put "dereg-user" "")) []
                 (initial (sample_put "dereg-user" ""))) by constructor.
  pose proof (put_request_decision sample_reg_config "sip:sprout" (sample_put "dereg-user" "") 0
    RegistrationState.UNKNOWN (set_reg_state RegistrationState.REGISTERED sample_set) [] _ Hp
    eq_refl Hs ltac:(vm_compute; reflexivity)) as E.
  unfold sample_react, sample_initial. rewrite E. vm_compute. eexists.
  split; [right; left; reflexivity|reflexivity].
Defined.

Lemma sar_answer_reaction_witness :
  sys_pending (sample_react (sample_put "dereg-user" "")
    (after_events (sample_put "dereg-user" "") (firstn 1 deregistration))
    (SarAnswer (sample_saa NOT_FOUND))) = Deleting.
Proof.
  assert (Hp : path_id "/impu/" (full_path (sample_put "dereg-user" "")) <> None)
    by (vm_compute; discriminate).
  assert (Hs : steps sample_reg_config "sip:sprout" (sample_put "dereg-user" "") 0
                 RegistrationState.UNKNOWN (initial (sample_put "dereg-user" ""))
                 (firstn 1 deregistration)
                 (after_events (sample_put "dereg-user" "") (firstn 1 deregistration)))
    by run_enabled.
  destruct (sar_answer_reaction _ _ _ _ _ (sample_saa NOT_FOUND) _ _ Hp Hs
              ltac:(vm_compute; reflexivity)) as (i & Hi & E).
  unfold sample_react.
  rewrite E. vm_compute. reflexivity.
Defined.

Lemma get_request_changes_nothing_witness :
  is_change (AddContent "x") = false /\
  existsb is_change (sys_log (after_events sample_get [GetOk sample_set])) = false.
Proof.
  assert (Hp : path_id "/impu/" (full_path sample_get) <> None) by (vm_compute; discriminate).
  assert (Hs : steps sample_reg_config "sip:sprout" sample_get 0
                 RegistrationState.UNKNOWN (initial sample_get) [GetOk sample_set]
                 (after_events sample_get [GetOk sample_set])) by run_enabled.
  split; [reflexivity|]. apply not_true_is_false. intros (a & Ha & E)%existsb_exists.
  assert (Hm : method sample_get <> htp_method_PUT) by discriminate.
  rewrite (get_request_changes_nothing _ _ _ _ _ a _ _ Hp Hm Hs) in E; [discriminate|].
  apply list_elem_of_In. exact Ha.
Defined.

Lemma cache_changes_follow_sar_witness :
  exists i, CachePutIrs i ∈ sys_log (after_events (sample_put "reg" "") (firstn 2 registration)) /\
    exists saa, SarAnswer saa ∈ firstn 2 registration /\ saa_result saa = SUCCESS.
Proof.
  assert (Hp : path_id "/impu/" (full_path (sample_put "reg" "")) <> None)
    by (vm_compute; discriminate).
  assert (Hs : steps sample_reg_config "sip:sprout" (sample_put "reg" "") 0
                 RegistrationState.UNKNOWN (initial (sample_put "reg" "")) (firstn 2 registration)
                 (after_events (sample_put "reg" "") (firstn 2 registration))) by run_enabled.
  destruct (cache_changes_follow_sar _ _ _ _ _ _ _ Hp Hs) as [Hput _].
  assert (Hin : exists i, CachePutIrs i ∈
    sys_log (after_events (sample_put "reg" "") (firstn 2 registration))).
  { vm_compute. eexists. right. right. left. }
  destruct Hin as [i Hi]. exists i. split; [exact Hi|].
  destruct (Hput i Hi) as (saa & i0 & H1 & H2 & _). exists saa. split; assumption.
Defined.

Lemma wildcard_retries_unbounded_witness :
  exists s, steps sample_reg_config "sip:sprout" (sample_put "reg" "sip:*2") 0
    RegistrationState.UNKNOWN (initial (sample_put "reg" "sip:*2"))
    (concat (replicate 100 (ping_pong "sip:*1" "sip:*2"))) s /\ sys_pending s = Getting.
Proof.
  apply (wildcard_retries_unbounded _ _ (sample_put "reg" "sip:*2") _ _ 100 "sip:*1" "sip:*2");
    try discriminate; vm_compute; try discriminate; reflexivity.
Defined.
