(* ===== verification/CacheProcessor.v ===== *)
(** * The cache processor

    [src/hss_cache_processor.cpp]: each operation of the cache becomes a work
    item for the thread pool; when it runs, it calls the cache, known by its
    interface ([HssCache]), and then one of the callbacks.  The last part puts the processor, the cache and the
    registration-data task together: the completions of the cache are events the
    task accepts, and a write ends it. *)

From Stdlib Require Import String ZArith Lia.
From stdpp Require Import base list strings option.
From S2P Require Import Prelude StdMap Types Env Concrete ImpuStore XmlUtils Irs MemcachedCache CacheProgress HssCache HttpTasks HttpRegData RegDataSystem.
Open Scope Z_scope.

(** The callback a work item calls, with the object the cache worked on. *)
Inductive completion (A : Type) :=
| Success (a : A)
| Failure (rc : Store.Status) (a : A).
Arguments Success {A} a.
Arguments Failure {A} rc a.

Section processor.
Context {W : Type} {cache : HssCache W}.

(** [success_cb(result)] when the status is OK, else [failure_cb(rc)]. *)
Definition work {A} (operation : IO W (Store.Status * A)) : IO W (completion A) :=
  let* (rc, result) := operation in
  if status_eqb rc Store.OK then ret (Success result) else ret (Failure rc result).

Definition process_get_irs_for_impu (impu : string) : IO W (completion (option Irs)) :=
  work (cache_get_irs_for_impu impu).

Definition process_get_irss_for_impis (impis : list string) : IO W (completion (list Irs)) :=
  work (cache_get_irss_for_impis impis).

Definition process_get_irss_for_impus (impus : list string) : IO W (completion (list Irs)) :=
  work (cache_get_irss_for_impus impus).

Definition process_put_irs (irs : Irs) (progress_cb : IO W unit) : IO W (completion Irs) :=
  work (cache_put_irs irs progress_cb).

Definition process_delete_irs (irs : Irs) (progress_cb : IO W unit) : IO W (completion Irs) :=
  work (cache_delete_irs irs progress_cb).

Definition process_delete_irss (irss : list Irs) (progress_cb : IO W unit)
    : IO W (completion (list Irs)) :=
  work (cache_delete_irss irss progress_cb).

Definition process_get_ims_subscription (impi : string)
    : IO W (completion (option (std_map Irs))) :=
  work (cache_get_ims_subscription impi).

Definition process_put_ims_subscription (sub : std_map Irs) (progress_cb : IO W unit)
    : IO W (completion (std_map Irs)) :=
  work (cache_put_ims_subscription sub progress_cb).
End processor.

Lemma work_inv {W A} (op : IO W (Store.Status * A)) w c w' :
  work op w = Done c w' ->
  exists rc a, op w = Done (rc, a) w' /\
    ((rc = Store.OK /\ c = Success a) \/ (rc <> Store.OK /\ c = Failure rc a)).
Proof.
  unfold work. intros ([rc a] & w1 & Hop & Hc)%bind_inv. exists rc, a.
  destruct (status_eqb rc Store.OK) eqn:E; injection Hc as <- <-; (split; [done|]).
  - left. split; [|done]. by destruct rc.
  - right. split; [|done]. by intros ->.
Qed.

Lemma work_done {W A} (op : IO W (Store.Status * A)) w rc a w' :
  op w = Done (rc, a) w' ->
  work op w = Done (if status_eqb rc Store.OK then Success a else Failure rc a) w'.
Proof. intros E. unfold work. rewrite (bind_done _ _ _ _ _ E). by destruct (status_eqb rc Store.OK). Qed.

(** The calls of the progress callback during a work item. *)
Definition progressed {W} `{ProgressCallback W} (w w' : W) : nat :=
  progress_calls w' - progress_calls w.

(** A work item that writes: the callback is called when it succeeds. *)
Lemma work_progress {W A} `{ProgressCallback W} (write : IO W unit -> IO W (Store.Status * A)) w c w' :
  called_on_success write -> work (write progress_cb) w = Done c w' ->
  match c with
  | Success _ => progressed w w' = 1%nat
  | Failure rc _ => rc <> Store.OK /\ progressed w w' = 0%nat
  end.
Proof.
  intros Hw (rc & a & E & Hc)%work_inv. apply Hw in E. unfold progressed.
  destruct Hc as [[-> ->]|[Hn ->]]; [rewrite status_eqb_refl in E; lia|].
  split; [done|]. replace (status_eqb rc Store.OK) with false in E by by destruct rc. lia.
Qed.

(** ** Events for the registration-data task *)

Definition get_event (c : completion (option Irs)) : option reg_event :=
  match c with
  | Success (Some i) => Some (GetOk i)
  | Success None => None
  | Failure rc _ => Some (GetFailed rc)
  end.

(** A write: the calls of the progress callback ([i]: the set at that time), then
    the completion. *)
Definition put_events (i : Irs) (calls : nat) (c : completion Irs) : list reg_event :=
  replicate calls (PutProgress i) ++
  [match c with Success _ => PutDone | Failure rc irs => PutFailed rc irs end].

Definition delete_events (i : Irs) (calls : nat) (c : completion Irs) : list reg_event :=
  replicate calls (DelProgress i) ++
  [match c with Success _ => DelDone | Failure rc irs => DelFailed rc irs end].

Section task.
Context {W : Type} `{LawfulHssCache W}.
Context `{JsonLib} `{XmlLib} `{RegDataXMLUtils} `{HttpUtils}.
Context (cfg : RegDataConfig) (server_name : string) (req : Request).
Context (ttl0 : Z) (state0 : RegistrationState.t).

#[local] Abbreviation run := (steps cfg server_name req ttl0 state0).
#[local] Abbreviation reacts := (react cfg server_name req ttl0 state0).

Lemma finish_in_two s e1 e2 p :
  phase_ok req s -> enabled (sys_pending s) e1 ->
  sys_pending (reacts e1 s) = p -> enabled p e2 ->
  (forall s1, sys_pending s1 = p -> phase_ok req s1 -> sys_pending (reacts e2 s1) = Finished) ->
  exists s', run s [e1; e2] s' /\ sys_pending s' = Finished.
Proof.
  intros Hok He1 Hp He2 Hf. set (s1 := reacts e1 s) in *.
  exists (reacts e2 s1). split.
  - constructor; [done|]. constructor; [by fold s1; rewrite Hp|]. constructor.
  - apply Hf; [done|]. by apply react_ok.
Qed.

Lemma finish_in_one s e :
  phase_ok req s -> enabled (sys_pending s) e -> sys_pending (reacts e s) = Finished ->
  exists s', run s [e] s' /\ sys_pending s' = Finished.
Proof. intros Hok He Hf. exists (reacts e s). by repeat constructor. Qed.

Lemma get_served impu (w w' : W) c :
  process_get_irs_for_impu impu w = Done c w' ->
  exists e, get_event c = Some e /\ enabled Getting e.
Proof.
  intros (rc & o & Hop & Hc)%work_inv.
  destruct Hc as [[-> ->]|[Hn ->]]; [|by exists (GetFailed rc)].
  destruct (get_irs_found _ _ _ _ _ Hop eq_refl) as [i ->]. by exists (GetOk i).
Qed.

Lemma put_served s irs i (w w' : W) c :
  phase_ok req s -> sys_pending s = Putting -> process_put_irs irs progress_cb w = Done c w' ->
  exists s', run s (put_events i (progressed w w') c) s' /\ sys_pending s' = Finished.
Proof.
  intros Hok Hpend Hc. apply (work_progress (cache_put_irs irs)) in Hc; [|apply put_irs_called].
  unfold put_events. destruct c as [a|rc o]; [|destruct Hc as [Hn Hc]]; rewrite Hc; cbn [replicate app].
  - apply (finish_in_two s _ _ PutReplied); [done| |..]; try done; [by rewrite Hpend|].
    apply (react_form cfg server_name req ttl0 state0 s (PutProgress i)); [done|by rewrite Hpend].
  - assert (He : enabled (sys_pending s) (PutFailed rc o)) by by rewrite Hpend.
    apply finish_in_one; [done..|]. apply (react_form cfg server_name req ttl0 state0 s _ Hok He).
Qed.

Lemma delete_served s irs i (w w' : W) c :
  phase_ok req s -> sys_pending s = Deleting ->
  process_delete_irs irs progress_cb w = Done c w' ->
  exists s', run s (delete_events i (progressed w w') c) s' /\ sys_pending s' = Finished.
Proof.
  intros Hok Hpend Hc. apply (work_progress (cache_delete_irs irs)) in Hc; [|apply delete_irs_called].
  unfold delete_events. destruct c as [a|rc o]; [|destruct Hc as [Hn Hc]]; rewrite Hc; cbn [replicate app].
  - apply (finish_in_two s _ _ DelReplied); [done| |..]; try done; [by rewrite Hpend|].
    apply (react_form cfg server_name req ttl0 state0 s (DelProgress i)); [done|by rewrite Hpend].
  - assert (He : enabled (sys_pending s) (DelFailed rc o)) by by rewrite Hpend.
    apply finish_in_one; [done..|]. apply (react_form cfg server_name req ttl0 state0 s _ Hok He).
Qed.

(** A cache that keeps the contract of [HssCache], through the processor, is
    the environment the registration-data task counts on: a read completes with an
    event the task accepts; and a write or a deletion that completes calls the
    callbacks in an order the task accepts, after which the task is finished. *)
Theorem cache_serves_task es s :
  path_id "/impu/" (full_path req) <> None -> run (initial req) es s ->
  (forall impu (w w' : W) c, sys_pending s = Getting ->
     process_get_irs_for_impu impu w = Done c w' ->
     exists e, get_event c = Some e /\ enabled (sys_pending s) e) /\
  (forall irs i (w w' : W) c, sys_pending s = Putting ->
     process_put_irs irs progress_cb w = Done c w' ->
     exists s', run s (put_events i (progressed w w') c) s' /\ sys_pending s' = Finished) /\
  (forall irs i (w w' : W) c, sys_pending s = Deleting ->
     process_delete_irs irs progress_cb w = Done c w' ->
     exists s', run s (delete_events i (progressed w w') c) s' /\ sys_pending s' = Finished).
Proof.
  intros Hp Hs. pose proof (reachable cfg server_name req ttl0 state0 es s Hp Hs) as Hok.
  split; [|split].
  - intros impu w w' c Hg Hc. rewrite Hg. by eapply get_served.
  - intros irs i w w' c Hpend. by apply put_served.
  - intros irs i w w' c Hpend. by apply delete_served.
Qed.
End task.

(** ** Witness *)

Lemma cache_serves_task_witness :
  exists c wl', process_put_irs (cache := memcached_cache 2 0 [1%nat]) sample_irs progress_cb start = Done c wl' /\
  exists s', steps sample_reg_config "sip:sprout" (sample_put "reg" "") 0 RegistrationState.UNKNOWN
    (after_events (sample_put "reg" "") (firstn 2 registration))
    (put_events sample_irs (progressed start wl') c) s' /\ sys_pending s' = Finished.
Proof.
  assert (E : exists c wl', process_put_irs (cache := memcached_cache 2 0 [1%nat]) sample_irs progress_cb start =
                Done c wl') by (eexists _, _; vm_compute; reflexivity).
  destruct E as (c & wl' & E). exists c, wl'. split; [exact E|].
  assert (Hp : path_id "/impu/" (full_path (sample_put "reg" "")) <> None)
    by (vm_compute; discriminate).
  assert (Hs : steps sample_reg_config "sip:sprout" (sample_put "reg" "") 0
                 RegistrationState.UNKNOWN (initial (sample_put "reg" "")) (firstn 2 registration)
                 (after_events (sample_put "reg" "") (firstn 2 registration))) by run_enabled.
  assert (Hpend : sys_pending (after_events (sample_put "reg" "") (firstn 2 registration)) = Putting)
    by (vm_compute; reflexivity).
  exact (proj1 (proj2 (cache_serves_task (H := memcached_cache 2 0 [1%nat]) _ _ _ _ _ _ _ Hp Hs))
           sample_irs sample_irs _ _ _ Hpend E).
Defined.
