(* ===== verification/Node.v ===== *)
(** * A node: many registration-data tasks over one cache

    The tasks of [src/http_handlers.cpp] run side by side on the threads of the
    HTTP stack, and the work items they give to the cache processor
    ([src/hss_cache_processor.cpp]) run one by one in any order.  A node is the
    stores and the tasks that have arrived; a step is the arrival of a request, or
    the completion of what one task waits for: a work item, run over the stores
    with its callbacks, or the answer of the HSS.  The cache is known by its
    interface ([HssCache]).  Every task of a node runs as [RegDataSystem] lets it,
    so what holds there of one task in any environment holds of all of them. *)

From Stdlib Require Import String ZArith Lia.
From stdpp Require Import base list strings option.
From S2P Require Import Prelude StdMap Types Env Concrete ImpuStore XmlUtils Irs MemcachedCache CacheProgress HssCache HttpTasks HttpRegData RegDataSystem CacheProcessor.
Import HssConnection.
Open Scope Z_scope.

Record node (W : Type) := mkNode {
  stores : W;
  tasks : list (Request * system)
}.
Arguments mkNode {W} stores tasks.
Arguments stores {W} n.
Arguments tasks {W} n.

Inductive node_label :=
| Arrives (req : Request)
| Completes (k : nat) (es : list reg_event).

Section node.
Context {W : Type} `{LawfulHssCache W}.
Context `{JsonLib} `{XmlLib} `{RegDataXMLUtils} `{HttpUtils}.
Context (cfg : RegDataConfig) (server_name : string).
Context (ttl0 : Z) (state0 : RegistrationState.t).

(** What a task waits for is the last thing it asked for. *)
Definition awaited (s : system) : option action := list.last (sys_log s).

(** How a request of a task is served: what happens to the stores, and the events
    the task gets. *)
Inductive served : action -> W -> list reg_event -> W -> Prop :=
| served_get impu w c w' e :
    process_get_irs_for_impu impu w = Done c w' -> get_event c = Some e ->
    served (CacheGetIrs impu) w [e] w'
| served_put irs i w c w' :
    process_put_irs irs progress_cb w = Done c w' ->
    served (CachePutIrs irs) w (put_events i (progressed w w') c) w'
| served_delete irs i w c w' :
    process_delete_irs irs progress_cb w = Done c w' ->
    served (CacheDeleteIrs irs) w (delete_events i (progressed w w') c) w'
| served_sar sar saa w : served (SendSAR sar) w [SarAnswer saa] w.

Definition reacts (req : Request) (s : system) (es : list reg_event) : system :=
  fold_left (fun s e => react cfg server_name req ttl0 state0 e s) es s.

Inductive node_step : node W -> node_label -> node W -> Prop :=
| step_arrives w ts req :
    path_id "/impu/" (full_path req) <> None ->
    node_step (mkNode w ts) (Arrives req) (mkNode w (ts ++ [(req, initial req)]))
| step_completes w ts k req s a es w' :
    ts !! k = Some (req, s) -> sys_pending s <> Finished ->
    awaited s = Some a -> served a w es w' ->
    node_step (mkNode w ts) (Completes k es) (mkNode w' (<[k := (req, reacts req s es)]> ts)).

Inductive node_run : node W -> list node_label -> node W -> Prop :=
| node_nil n : node_run n [] n
| node_cons n1 l n2 ls n3 : node_step n1 l n2 -> node_run n2 ls n3 -> node_run n1 (l :: ls) n3.

(** ** What a waiting task has asked for *)

Definition asked (s : system) : Prop :=
  match sys_pending s with
  | Getting => exists k, awaited s = Some (CacheGetIrs k)
  | AwaitingSar => exists r, awaited s = Some (SendSAR r)
  | Putting => exists i, awaited s = Some (CachePutIrs i)
  | Deleting => exists i, awaited s = Some (CacheDeleteIrs i)
  | PutReplied | DelReplied | Finished => True
  end.

Lemma asked_after t p log a :
  waiting_for [a] Finished = p -> asked (mkSystem t p (log ++ [a])).
Proof.
  unfold asked, awaited. cbn [sys_pending sys_log]. rewrite last_snoc.
  intros <-. destruct a; cbn; eauto.
Qed.

Lemma after_get_asked req i t log : asked (after_get cfg server_name req i t log).
Proof.
  unfold after_get. destruct (method req); try done.
  destruct (put_decision _ _ _ _); try done. by apply asked_after.
Qed.

Lemma after_answer_asked saa i t log : asked (after_answer cfg saa i t log).
Proof.
  unfold after_answer. destruct (wildcard_changed t saa); [by apply asked_after|]. cbv zeta.
  destruct (rc_eqb (saa_result saa) SUCCESS && assigns (_type t)).
  - destruct (get_public_ids _); [done|by apply asked_after].
  - destruct (is_deregistration_request (_type t) && _); [|done]. rewrite app_assoc. by apply asked_after.
Qed.

Lemma react_asked req s e :
  phase_ok req s -> enabled (sys_pending s) e -> asked (react cfg server_name req ttl0 state0 e s).
Proof.
  intros Hok He. pose proof (react_form cfg server_name req ttl0 state0 s e Hok He) as Hf.
  assert (Hp : forall s' : system, match sys_pending s' with
            | Finished | PutReplied | DelReplied => asked s' | _ => True end).
  { intros s'. unfold asked. by destruct (sys_pending s'). }
  specialize (Hp (react cfg server_name req ttl0 state0 e s)).
  destruct e as [i|rc|saa|i| |rc i|i| |rc i]; try by rewrite Hf in Hp.
  - rewrite Hf. apply after_get_asked.
  - destruct rc; try by rewrite Hf.
    destruct (method_eqb _ _); cbv zeta in Hf; rewrite Hf; [apply after_get_asked|done].
  - destruct Hf as (i & _ & Hf). rewrite Hf. apply after_answer_asked.
Qed.

Lemma initial_asked req : path_id "/impu/" (full_path req) <> None -> asked (initial req).
Proof.
  intros Hp. unfold initial, run. destruct (path_id "/impu/" (full_path req)); [|done].
  unfold get_reg_data, send_http_reply, delete_this, hbind, hmodify, hget, hemit.
  destruct (method req); [by apply (asked_after _ _ [])| |done]. cbv zeta.
  destruct (bool_decide _); [done|by apply (asked_after _ _ [])].
Qed.

(** ** A task between the steps of the node *)

(** Between steps a task waits for the cache or the HSS, or is finished: the calls
    of a work item are over. *)
Definition at_rest (p : pending) : Prop := p <> PutReplied /\ p <> DelReplied.

Definition task_ok (req : Request) (s : system) : Prop :=
  path_id "/impu/" (full_path req) <> None /\ phase_ok req s /\ asked s /\ at_rest (sys_pending s).

Lemma initial_task_ok req : path_id "/impu/" (full_path req) <> None -> task_ok req (initial req).
Proof.
  intros Hp. split; [done|]. split; [by apply initial_ok|]. split; [by apply initial_asked|].
  unfold initial, run. destruct (path_id "/impu/" (full_path req)); [|done].
  unfold get_reg_data, send_http_reply, delete_this, hbind, hmodify, hget, hemit.
  destruct (method req); [done| |done]. cbv zeta. by destruct (bool_decide _).
Qed.

Lemma steps_reacts req s es s' :
  steps cfg server_name req ttl0 state0 s es s' -> s' = reacts req s es.
Proof. induction 1; [done|]. done. Qed.

(** One event that leaves the task at rest. *)
Lemma one_event req s e :
  task_ok req s -> enabled (sys_pending s) e ->
  at_rest (sys_pending (react cfg server_name req ttl0 state0 e s)) ->
  steps cfg server_name req ttl0 state0 s [e] (reacts req s [e]) /\ task_ok req (reacts req s [e]).
Proof.
  intros (Hp & Hok & _ & _) He Hr. split; [by repeat constructor|].
  split; [done|]. split; [by apply react_ok|]. split; [by apply react_asked|done].
Qed.

Lemma ended req s es :
  path_id "/impu/" (full_path req) <> None -> phase_ok req s ->
  (exists s', steps cfg server_name req ttl0 state0 s es s' /\ sys_pending s' = Finished) ->
  steps cfg server_name req ttl0 state0 s es (reacts req s es) /\ task_ok req (reacts req s es).
Proof.
  intros Hp Hok (s' & Hs & Hf). rewrite <- (steps_reacts _ _ _ _ Hs). split; [done|].
  split; [done|]. split; [by eapply steps_ok|]. unfold asked, at_rest. by rewrite Hf.
Qed.

Lemma after_get_rest req i t log : at_rest (sys_pending (after_get cfg server_name req i t log)).
Proof. unfold after_get. destruct (method req); try done. by destruct (put_decision _ _ _ _). Qed.

Lemma after_answer_rest saa i t log : at_rest (sys_pending (after_answer cfg saa i t log)).
Proof. unfold after_answer. repeat case_match; done. Qed.

(** A completion is a run of the task. *)
Lemma served_steps req s a w es w' :
  task_ok req s -> sys_pending s <> Finished -> awaited s = Some a -> served a w es w' ->
  steps cfg server_name req ttl0 state0 s es (reacts req s es) /\ task_ok req (reacts req s es).
Proof.
  intros Ht Hnf Ha Hs. pose proof Ht as (Hp & Hok & Hask & Hrest).
  unfold asked in Hask. destruct (sys_pending s) eqn:Hpend; try done; try (by destruct Hrest);
    destruct Hask as [x Hx]; rewrite Ha in Hx; injection Hx as ->; inversion Hs; subst.
  - match goal with Hg : process_get_irs_for_impu _ _ = Done _ _ |- _ =>
      destruct (get_served _ _ _ _ Hg) as (e' & Ee & He) end. simplify_eq.
    apply one_event; [done|by rewrite Hpend|].
    assert (He' : enabled (sys_pending s) e) by by rewrite Hpend.
    pose proof (react_form cfg server_name req ttl0 state0 s e Hok He') as Hf.
    destruct e as [i|rc| | | | | | |]; simpl in He; try done.
    + rewrite Hf. apply after_get_rest.
    + destruct rc; try by rewrite Hf.
      destruct (method_eqb _ _); cbv zeta in Hf; rewrite Hf; [apply after_get_rest|done].
  - apply one_event; [done|by rewrite Hpend|].
    destruct (react_form cfg server_name req ttl0 state0 s (SarAnswer saa) Hok) as (i & _ & ->);
      [by rewrite Hpend|]. apply after_answer_rest.
  - apply ended; [done..|]. by eapply put_served.
  - apply ended; [done..|]. by eapply delete_served.
Qed.

(** ** Runs of a node *)

Fixpoint arrivals (ls : list node_label) : list Request :=
  match ls with
  | [] => []
  | Arrives req :: ls => req :: arrivals ls
  | Completes _ _ :: ls => arrivals ls
  end.

(** The events task [k] has had. *)
Fixpoint events_of (k : nat) (ls : list node_label) : list reg_event :=
  match ls with
  | [] => []
  | Completes j es :: ls => (if Nat.eqb j k then es else []) ++ events_of k ls
  | Arrives _ :: ls => events_of k ls
  end.

Lemma arrivals_app l1 l2 : arrivals (l1 ++ l2) = arrivals l1 ++ arrivals l2.
Proof. induction l1 as [|[] l1 IH]; simpl; [done|by rewrite IH|done]. Qed.

Lemma events_of_app k l1 l2 : events_of k (l1 ++ l2) = events_of k l1 ++ events_of k l2.
Proof. induction l1 as [|[] l1 IH]; simpl; [done|done|]. by rewrite IH, app_assoc. Qed.

Definition tasks_ok (n : node W) : Prop :=
  forall k req s, tasks n !! k = Some (req, s) -> task_ok req s.

Lemma node_step_ok n l n' : node_step n l n' -> tasks_ok n -> tasks_ok n'.
Proof.
  destruct 1 as [w ts req Hp|w ts k req s a es w' Hk Hnf Ha Hs]; intros Hok j req' s'; cbn [tasks].
  - intros [Hj|[_ Hj]]%lookup_app_Some; [by eapply Hok|].
    apply list_lookup_singleton_Some in Hj as [_ [= <- <-]]. by apply initial_task_ok.
  - intros Hj. destruct (decide (j = k)) as [-> |Hne].
    + rewrite list_lookup_insert_eq in Hj by by eapply lookup_lt_Some. injection Hj as <- <-.
      eapply served_steps; [by eapply Hok|done..].
    + rewrite list_lookup_insert_ne in Hj by done. by eapply Hok.
Qed.

Lemma node_run_ok n ls n' : node_run n ls n' -> tasks_ok n -> tasks_ok n'.
Proof. induction 1; eauto using node_step_ok. Qed.

Lemma node_run_snoc n1 ls n2 l n3 :
  node_run n1 ls n2 -> node_step n2 l n3 -> node_run n1 (ls ++ [l]) n3.
Proof. induction 1; simpl; repeat econstructor; eauto. Qed.

(** A task of a node, seen on its own. *)
Definition ran (ls : list node_label) (k : nat) (req : Request) (s : system) : Prop :=
  arrivals ls !! k = Some req /\
  steps cfg server_name req ttl0 state0 (initial req) (events_of k ls) s.

Definition all_ran (ls : list node_label) (n : node W) : Prop :=
  length (arrivals ls) = length (tasks n) /\
  (forall k, (length (tasks n) <= k)%nat -> events_of k ls = []) /\
  forall k req s, tasks n !! k = Some (req, s) -> ran ls k req s.

Lemma node_step_ran ls n l n' :
  node_step n l n' -> tasks_ok n -> all_ran ls n -> all_ran (ls ++ [l]) n'.
Proof.
  destruct 1 as [w ts req Hp|w ts k req s a es w' Hk Hnf Ha Hs]; intros Hok (Hlen & Hnone & Hran);
    unfold all_ran; cbn [tasks] in *.
  - split; [rewrite arrivals_app, !length_app, Hlen; done|]. split.
    { intros j Hj. rewrite length_app in Hj. rewrite events_of_app, app_nil_r. apply Hnone. lia. }
    intros j req' s' Hj. unfold ran. rewrite arrivals_app, events_of_app, app_nil_r.
    apply lookup_app_Some in Hj as [Hj|[Hge Hj]].
    + destruct (Hran _ _ _ Hj) as [Hr Hst]. split; [by apply lookup_app_l_Some|done].
    + apply list_lookup_singleton_Some in Hj as [Hz [= <- <-]]. rewrite Hnone by done.
      split; [|constructor]. rewrite lookup_app_r by lia. by rewrite Hlen, Hz.
  - rewrite length_insert. split; [by rewrite arrivals_app, app_nil_r|]. split.
    { intros j Hj. rewrite events_of_app, Hnone by done. cbn. apply lookup_lt_Some in Hk.
      destruct (Nat.eqb_spec k j); [lia|done]. }
    intros j req' s' Hj. unfold ran. rewrite arrivals_app, events_of_app, app_nil_r. cbn.
    destruct (Nat.eqb_spec k j) as [<- |Hne].
    + rewrite list_lookup_insert_eq in Hj by by eapply lookup_lt_Some. injection Hj as <- <-.
      destruct (Hran _ _ _ Hk) as [Hr Hst]. split; [done|]. rewrite app_nil_r.
      eapply steps_trans; [exact Hst|]. eapply served_steps; [by eapply Hok|done..].
    + rewrite list_lookup_insert_ne in Hj by done. rewrite !app_nil_r. by apply Hran.
Qed.

Lemma node_run_ran l1 n l2 n' :
  node_run n l2 n' -> tasks_ok n -> all_ran l1 n -> all_ran (l1 ++ l2) n'.
Proof.
  intros Hr. revert l1. induction Hr as [n|n1 l n2 ls n3 Hs Hr IH]; intros l1 Hok Hran.
  - by rewrite app_nil_r.
  - change (l :: ls) with ([l] ++ ls). rewrite app_assoc. apply IH; [by eapply node_step_ok|].
    by eapply node_step_ran.
Qed.

(** ** Counting steps *)

(** The completions a task still needs, without another wildcard. *)
Definition turns (s : system) : nat :=
  match sys_pending s with
  | Getting => 3 | AwaitingSar => 2 | Putting | Deleting | PutReplied | DelReplied => 1
  | Finished => 0
  end.

Definition turns_left (n : node W) : nat := sum_list_with (fun x => turns x.2) (tasks n).

Definition completions (ls : list node_label) : nat :=
  length (List.filter (fun l => match l with Completes _ _ => true | _ => false end) ls).

(** The NEW_WILDCARD answers in a run. *)
Fixpoint wildcards (ls : list node_label) : nat :=
  match ls with
  | [] => 0
  | Completes _ es :: ls => new_wildcards es + wildcards ls
  | Arrives _ :: ls => wildcards ls
  end.

Lemma sum_insert {X} (f : X -> nat) l k x y :
  l !! k = Some x -> (sum_list_with f (<[k := y]> l) + f x = sum_list_with f l + f y)%nat.
Proof.
  revert k. induction l as [|z l IH]; intros [|k]; simpl; [done..| |].
  - intros [= ->]. lia.
  - intros Hk%IH. lia.
Qed.

Lemma served_turns req s a es w w' :
  task_ok req s -> sys_pending s <> Finished -> awaited s = Some a -> served a w es w' ->
  (S (turns (reacts req s es)) <= turns s + 2 * new_wildcards es)%nat.
Proof.
  intros Ht Hnf Ha Hs. pose proof Ht as (_ & Hok & _ & Hrest).
  destruct (served_steps _ _ _ _ _ _ Ht Hnf Ha Hs) as (Hst & _ & _ & _ & Hrest').
  pose proof (steps_rank _ _ _ _ _ _ _ _ Hst Hok) as Hr.
  assert (Hlen : (1 <= length es)%nat).
  { destruct Hs; [simpl; lia|..|simpl; lia]; unfold put_events, delete_events; rewrite length_app; simpl; lia. }
  unfold turns. unfold at_rest in *.
  destruct (sys_pending s) eqn:Hp; try done; try (by destruct Hrest);
    destruct (sys_pending (reacts req s es)); try (by destruct Hrest'); simpl rank in Hr; lia.
Qed.

Lemma node_step_turns n l n' :
  node_step n l n' -> tasks_ok n ->
  (completions [l] + turns_left n' <= turns_left n + 3 * length (arrivals [l]) + 2 * wildcards [l])%nat.
Proof.
  destruct 1 as [w ts req Hp|w ts k req s a es w' Hk Hnf Ha Hs]; intros Hok; unfold turns_left;
    cbn [tasks].
  - rewrite sum_list_with_app. simpl. assert ((turns (initial req) <= 3)%nat); [|lia].
    unfold turns. destruct (sys_pending (initial req)); lia.
  - pose proof (served_turns req s a es w w' (Hok _ _ _ Hk) Hnf Ha Hs) as Ht.
    pose proof (sum_insert (fun x : Request * system => turns x.2) ts k _ (req, reacts req s es) Hk) as Hsum.
    simpl in *. lia.
Qed.

Lemma node_run_turns n ls n' :
  node_run n ls n' -> tasks_ok n ->
  (completions ls + turns_left n' <= turns_left n + 3 * length (arrivals ls) + 2 * wildcards ls)%nat.
Proof.
  induction 1 as [n|n1 l n2 ls n3 Hs Hr IH]; intros Hok; [simpl; lia|].
  pose proof (node_step_turns _ _ _ Hs Hok) as Hone. specialize (IH (node_step_ok _ _ _ Hs Hok)).
  unfold completions in *. destruct l; simpl in *; lia.
Qed.

(** ** Going on *)

(** What a task has asked for can come: the HSS can always answer, or give up, and
    an operation of the cache may return from the stores of the moment or run on. *)
Definition returns (a : action) (w : W) : Prop :=
  match a with
  | CacheGetIrs impu => exists c w', process_get_irs_for_impu impu w = Done c w'
  | CachePutIrs irs => exists c w', process_put_irs irs progress_cb w = Done c w'
  | CacheDeleteIrs irs => exists c w', process_delete_irs irs progress_cb w = Done c w'
  | SendSAR _ => True
  | _ => False
  end.

Lemma returns_served a w : returns a w -> exists es w', served a w es w'.
Proof.
  destruct a; simpl; try done.
  - intros _. exists [SarAnswer (saa_of_rc TIMEOUT)], w. constructor.
  - intros (c & w' & E). destruct (get_served _ _ _ _ E) as (e & Ee & _).
    exists [e], w'. by econstructor.
  - intros (c & w' & E). eexists _, w'. by apply (served_put _ irs).
  - intros (c & w' & E). eexists _, w'. by apply (served_delete _ irs).
Qed.

Lemma asked_awaited req s :
  task_ok req s -> sys_pending s <> Finished -> exists a, awaited s = Some a.
Proof.
  intros (_ & _ & Hask & Hrest) Hnf. unfold asked, at_rest in *.
  destruct (sys_pending s); try done; try (by destruct Hrest); destruct Hask as [x Hx]; eauto.
Qed.

(** A task that waits goes on as soon as what it waits for returns, whatever the
    others do, and then needs fewer completions. *)
Definition goes_on (n : node W) (k : nat) (req : Request) (s : system) : Prop :=
  exists a, awaited s = Some a /\
    (returns a (stores n) -> exists es n', node_step n (Completes k es) n') /\
    forall es n', node_step n (Completes k es) n' ->
      (forall j, j <> k -> tasks n' !! j = tasks n !! j) /\
      exists s', tasks n' !! k = Some (req, s') /\
        (S (turns s') <= turns s + 2 * new_wildcards es)%nat.

Lemma unfinished_goes_on n k req s :
  tasks_ok n -> tasks n !! k = Some (req, s) -> sys_pending s <> Finished -> goes_on n k req s.
Proof.
  intros Hok Hk Hnf. pose proof (Hok _ _ _ Hk) as Ht.
  destruct (asked_awaited req s Ht Hnf) as [a Ha]. exists a. split; [done|]. split.
  - intros (es & w' & Hs)%returns_served. destruct n as [w ts]. eexists _, _.
    by eapply step_completes.
  - intros es n'. inversion 1 as [|w ts k' req' s' a' es' w' Hk' Hnf' Ha' Hs]; subst. cbn [tasks] in *.
    rewrite Hk in Hk'. injection Hk' as <- <-. rewrite Ha in Ha'. injection Ha' as <-. split.
    + intros j Hj. by rewrite list_lookup_insert_ne.
    + exists (reacts req s es). split; [|by eapply served_turns].
      rewrite list_lookup_insert_eq; [done|]. by eapply lookup_lt_Some.
Qed.

Lemma finished_turns s : turns s = 0%nat <-> sys_pending s = Finished.
Proof. unfold turns. destruct (sys_pending s); split; intros; done || lia. Qed.

(** ** Running a node *)

(** Serve a request, with [saa] for the answer of the HSS. *)
Definition serve_request (saa : ServerAssignmentAnswer) (a : action) (w : W)
    : option (list reg_event * W) :=
  match a with
  | CacheGetIrs impu =>
      match process_get_irs_for_impu impu w with
      | Done c w' => match get_event c with Some e => Some ([e], w') | None => None end
      | _ => None
      end
  | CachePutIrs irs =>
      match process_put_irs irs progress_cb w with
      | Done c w' => Some (put_events irs (progressed w w') c, w')
      | _ => None
      end
  | CacheDeleteIrs irs =>
      match process_delete_irs irs progress_cb w with
      | Done c w' => Some (delete_events irs (progressed w w') c, w')
      | _ => None
      end
  | SendSAR _ => Some ([SarAnswer saa], w)
  | _ => None
  end.

(** A schedule: the next request, or the task that is served next. *)
Definition advance (saa : ServerAssignmentAnswer) (l : Request + nat) (n : node W)
    : option (node_label * node W) :=
  match l with
  | inl req =>
      match path_id "/impu/" (full_path req) with
      | Some _ => Some (Arrives req, mkNode (stores n) (tasks n ++ [(req, initial req)]))
      | None => None
      end
  | inr k =>
      match tasks n !! k with
      | Some (req, s) =>
          match sys_pending s, awaited s with
          | Finished, _ | _, None => None
          | _, Some a =>
              match serve_request saa a (stores n) with
              | Some (es, w') =>
                  Some (Completes k es, mkNode w' (<[k := (req, reacts req s es)]> (tasks n)))
              | None => None
              end
          end
      | None => None
      end
  end.

Fixpoint simulate (saa : ServerAssignmentAnswer) (schedule : list (Request + nat)) (n : node W)
    : option (list node_label * node W) :=
  match schedule with
  | [] => Some ([], n)
  | l :: rest =>
      match advance saa l n with
      | Some (lab, n1) =>
          match simulate saa rest n1 with
          | Some (labs, n2) => Some (lab :: labs, n2)
          | None => None
          end
      | None => None
      end
  end.

Lemma serve_request_served saa a w es w' :
  serve_request saa a w = Some (es, w') -> served a w es w'.
Proof.
  unfold serve_request. intros E. repeat case_match; simplify_eq; by econstructor.
Qed.

Lemma advance_step saa l n lab n' : advance saa l n = Some (lab, n') -> node_step n lab n'.
Proof.
  destruct n as [w ts], l as [req|k]; unfold advance; cbn [stores tasks].
  - destruct (path_id "/impu/" (full_path req)) eqn:E; [|done]. intros [= <- <-]. constructor. by rewrite E.
  - destruct (ts !! k) as [[req s]|] eqn:Hk; [|done].
    destruct (decide (sys_pending s = Finished)) as [Hf|Hf]; [by rewrite Hf|].
    destruct (awaited s) as [a|] eqn:Ha; [|by destruct (sys_pending s)].
    destruct (serve_request saa a w) as [[es w']|] eqn:Hs; [|by destruct (sys_pending s)].
    intros E. assert (E' : Some (Completes k es, mkNode w' (<[k := (req, reacts req s es)]> ts)) = Some (lab, n'))
      by by destruct (sys_pending s).
    injection E' as <- <-. econstructor; [done..|]. by eapply serve_request_served.
Qed.

Lemma simulate_run saa schedule n labs n' :
  simulate saa schedule n = Some (labs, n') -> node_run n labs n'.
Proof.
  revert n labs. induction schedule as [|l rest IH]; intros n labs; simpl; [intros [= <- <-]; constructor|].
  destruct (advance saa l n) as [[lab n1]|] eqn:Ea; [|done].
  destruct (simulate saa rest n1) as [[labs' n2]|] eqn:Es; [|done].
  intros [= <- <-]. econstructor; [by eapply advance_step|by apply IH].
Qed.

(** ** Properties *)

(** C3: A node refines its tasks: whatever requests arrive and in whatever order the work
    items of the cache and the answers of the HSS complete, over a cache that keeps
    its contract, every task is in a state it could have reached alone with the
    events it was given.  So no task uses a missing registration set; a finished
    one has answered its request exactly once and deleted itself; any other has
    not answered and waits for the last thing it asked for. *)
Theorem node_refines_tasks w ls n :
  node_run (mkNode w []) ls n ->
  length (tasks n) = length (arrivals ls) /\
  forall k req s, tasks n !! k = Some (req, s) ->
    arrivals ls !! k = Some req /\
    steps cfg server_name req ttl0 state0 (initial req) (events_of k ls) s /\
    existsb is_fault (sys_log s) = false /\
    (sys_pending s = Finished -> exists rc, answered (sys_log s) rc) /\
    (sys_pending s <> Finished ->
       replies (sys_log s) = [] /\ existsb is_delete (sys_log s) = false /\
       exists a, awaited s = Some a).
Proof.
  intros Hr. assert (Hok0 : tasks_ok (mkNode w [])) by by intros ????.
  assert (Hran0 : all_ran [] (mkNode w [])).
  { split; [done|]. split; [done|]. by intros ????. }
  destruct (node_run_ran [] _ _ _ Hr Hok0 Hran0) as (Hlen & _ & Hran). cbn in Hlen. split; [done|].
  intros k req s Hk. destruct (Hran _ _ _ Hk) as [Harr Hst].
  destruct (node_run_ok _ _ _ Hr Hok0 _ _ _ Hk) as (Hp & Hok & Hask & Hrest).
  split; [done|]. split; [done|]. unfold phase_ok, asked, at_rest in *.
  destruct (sys_pending s); try (by destruct Hrest).
  5: { destruct Hok as [rc Ha]. pose proof Ha as (_ & o & _ & _ & Hf). split; [done|].
       split; [by exists rc|done]. }
  all: match type of Hok with _ /\ _ => destruct Hok as [(Hrep & Hdel & Hf) _] end;
    destruct Hask as [x Hx]; (split; [done|]); (split; [done|]); intros _; eauto.
Qed.

(** C4: No task of a node waits for another, and none goes on for ever by itself: in a
    run, the completions are at most three for each request and two for each
    NEW_WILDCARD answer of the HSS.  In any state a node can reach, a task that
    needs no more completions has answered its request, exactly once, and deleted
    itself; any other waits for one operation of the cache or an answer of the HSS,
    and as soon as that returns, from the stores of the moment, there is a step by
    which the task alone goes on and needs one completion less, but for the two more
    that a NEW_WILDCARD answer brings.  (An operation of the cache need not return:
    its loops have no bound while others write.) *)
Theorem node_ends w ls n :
  node_run (mkNode w []) ls n ->
  (completions ls + turns_left n <= 3 * length (arrivals ls) + 2 * wildcards ls)%nat /\
  forall k req s, tasks n !! k = Some (req, s) ->
    (turns s = 0%nat -> exists rc, answered (sys_log s) rc) /\
    (turns s <> 0%nat -> goes_on n k req s).
Proof.
  intros Hr. assert (Hok0 : tasks_ok (mkNode w [])) by by intros ????.
  pose proof (node_run_turns _ _ _ Hr Hok0) as Ht. unfold turns_left at 2 in Ht. simpl in Ht.
  pose proof (node_run_ok _ _ _ Hr Hok0) as Hok. split; [lia|].
  intros k req s Hk. rewrite finished_turns. split.
  - intros Hf. destruct (Hok _ _ _ Hk) as (_ & Hp & _). unfold phase_ok in Hp. by rewrite Hf in Hp.
  - intros Hnf. by apply unfinished_goes_on.
Qed.
End node.

(** ** Witnesses *)

(** Two registrations of one identity, interleaved: both read the cache before the
    HSS has answered either, and then both write. *)
Definition two_registrations : list (Request + nat) :=
  [inl (sample_put "reg" ""); inl (sample_put "reg" "");
   inr 0%nat; inr 1%nat; inr 1%nat; inr 0%nat; inr 0%nat; inr 1%nat].

Definition simulate_memcached :=
  simulate (H := memcached_cache 2 0 [1%nat]) sample_reg_config "sip:sprout" 0
    RegistrationState.UNKNOWN (sample_saa SUCCESS) two_registrations (mkNode start []).

Lemma node_refines_tasks_witness :
  exists ls n, simulate_memcached = Some (ls, n) /\ length (tasks n) = 2%nat /\
    forall k req s, tasks n !! k = Some (req, s) -> exists rc, answered (sys_log s) rc.
Proof.
  assert (E : exists ls n, simulate_memcached = Some (ls, n) /\
    forallb (fun x => match sys_pending x.2 with Finished => true | _ => false end) (tasks n) = true)
    by (eexists _, _; split; vm_compute; reflexivity).
  destruct E as (ls & n & E & Hf). exists ls, n. split; [exact E|].
  destruct (node_refines_tasks (H := memcached_cache 2 0 [1%nat]) _ _ _ _ start ls n
              (simulate_run _ _ _ _ _ _ _ _ _ E)) as [Hlen Hall].
  split.
  - assert (E2 : option_map (fun x => length (tasks (snd x))) simulate_memcached = Some 2%nat)
      by (vm_compute; reflexivity).
    rewrite E in E2. injection E2 as E2. exact E2.
  - intros k req s Hk. destruct (Hall k req s Hk) as (_ & _ & _ & Ha & _). apply Ha.
    rewrite forallb_forall in Hf. specialize (Hf (req, s)). simpl in Hf.
    destruct (sys_pending s); try reflexivity;
      (discriminate Hf; apply list_elem_of_In; eapply list_elem_of_lookup_2; exact Hk).
Defined.

(** Both have arrived and one has read the cache: either can go on. *)
Definition both_arrived :=
  simulate (H := memcached_cache 2 0 [1%nat]) sample_reg_config "sip:sprout" 0
    RegistrationState.UNKNOWN (sample_saa SUCCESS) (firstn 3 two_registrations) (mkNode start []).

Lemma node_ends_witness :
  exists ls n, both_arrived = Some (ls, n) /\ turns_left n = 5%nat /\
    forall k, (k < 2)%nat -> exists es n',
      node_step (H := memcached_cache 2 0 [1%nat]) sample_reg_config "sip:sprout" 0
        RegistrationState.UNKNOWN n (Completes k es) n'.
Proof.
  assert (E : exists ls n, both_arrived = Some (ls, n) /\ turns_left n = 5%nat /\
    exists t0 t1 r i, tasks n = [t0; t1] /\ turns t0.2 = 2%nat /\ turns t1.2 = 3%nat /\
      awaited t0.2 = Some (SendSAR r) /\ awaited t1.2 = Some (CacheGetIrs i) /\
      returns (H := memcached_cache 2 0 [1%nat]) (CacheGetIrs i) (stores n))
    by (eexists _, _; split; [vm_compute; reflexivity|];
        split; [vm_compute; reflexivity|];
        eexists _, _, _, _; split; [reflexivity|];
        split; [vm_compute; reflexivity|]; split; [vm_compute; reflexivity|];
        split; [vm_compute; reflexivity|]; split; [vm_compute; reflexivity|];
        eexists _, _; vm_compute; reflexivity).
  destruct E as (ls & n & E & Ht & [req0 s0] & [req1 s1] & r & i & Hts & H0 & H1 & Ha0 & Ha1 & Hret).
  exists ls, n. split; [exact E|]. split; [exact Ht|].
  destruct (node_ends (H := memcached_cache 2 0 [1%nat]) _ _ _ _ start ls n
    (simulate_run _ _ _ _ _ _ _ _ _ E)) as [_ Hall].
  intros [|[|k]] Hk; [| |lia].
  - destruct (Hall 0%nat req0 s0) as [_ Hgo]; [rewrite Hts; reflexivity|].
    destruct Hgo as (a & Ha & Hstep & _); [cbn in H0; rewrite H0; discriminate|].
    apply Hstep. cbn in Ha0. rewrite Ha0 in Ha. injection Ha as <-. exact I.
  - destruct (Hall 1%nat req1 s1) as [_ Hgo]; [rewrite Hts; reflexivity|].
    destruct Hgo as (a & Ha & Hstep & _); [cbn in H1; rewrite H1; discriminate|].
    apply Hstep. cbn in Ha1. rewrite Ha1 in Ha. injection Ha as <-. exact Hret.
Defined.
