(* ===== verification/CxMessages.v ===== *)
(** * Cx messages

    [src/cx.cpp] and the accessors of [include/cx.h]: how the Cx requests and
    answers are built from AVPs and read back.  A message is its command and its
    AVPs in order; an AVP has a name of the dictionary and a value of the
    dictionary's type, so reading a value at another type does not occur in a
    parsed message (it gives an empty value here).  The AVPs the stack adds on
    its own account, and the conversions of binary strings, are parameters. *)

From Stdlib Require Import String Ascii ZArith Lia.
From stdpp Require Import base list strings option.
From S2P Require Import Prelude Types.
Import Types.Cx.
Open Scope Z_scope.

(** ** The dictionary *)

Inductive command :=
| USER_AUTHORIZATION_REQUEST | USER_AUTHORIZATION_ANSWER
| LOCATION_INFO_REQUEST | LOCATION_INFO_ANSWER
| MULTIMEDIA_AUTH_REQUEST | MULTIMEDIA_AUTH_ANSWER
| SERVER_ASSIGNMENT_REQUEST | SERVER_ASSIGNMENT_ANSWER
| REGISTRATION_TERMINATION_REQUEST | REGISTRATION_TERMINATION_ANSWER
| PUSH_PROFILE_REQUEST | PUSH_PROFILE_ANSWER.

(** The Cx dictionary, after the names it inherits from the base dictionary. *)
Inductive avp_name :=
| SESSION_ID | VENDOR_SPECIFIC_APPLICATION_ID | ORIGIN_HOST | ORIGIN_REALM
| AUTH_SESSION_STATE | DESTINATION_HOST | DESTINATION_REALM | USER_NAME
| RESULT_CODE | EXPERIMENTAL_RESULT | EXPERIMENTAL_RESULT_CODE
| DIGEST_HA1 | DIGEST_REALM | DIGEST_QOP
| PUBLIC_IDENTITY | SIP_AUTH_DATA_ITEM | SIP_AUTH_SCHEME | SIP_AUTHORIZATION
| SIP_NUMBER_AUTH_ITEMS | SERVER_NAME | SIP_DIGEST_AUTHENTICATE
| CX_DIGEST_HA1 | CX_DIGEST_REALM | VISITED_NETWORK_IDENTIFIER
| SERVER_CAPABILITIES | MANDATORY_CAPABILITY | OPTIONAL_CAPABILITY
| SERVER_ASSIGNMENT_TYPE | USER_AUTHORIZATION_TYPE | ORIGINATING_REQUEST
| USER_DATA_ALREADY_AVAILABLE | USER_DATA | CX_DIGEST_QOP | SIP_AUTHENTICATE
| CONFIDENTIALITY_KEY | INTEGRITY_KEY | ASSOCIATED_IDENTITIES
| DEREGISTRATION_REASON | REASON_CODE | IDENTITY_WITH_EMERGENCY_REGISTRATION
| CHARGING_INFORMATION | PRIMARY_CHARGING_COLLECTION_FUNCTION_NAME
| SECONDARY_CHARGING_COLLECTION_FUNCTION_NAME
| PRIMARY_EVENT_CHARGING_FUNCTION_NAME | SECONDARY_EVENT_CHARGING_FUNCTION_NAME
| SUPPORTED_FEATURES | VENDOR_ID | FEATURE_LIST_ID | FEATURE_LIST
| WILDCARDED_PUBLIC_IDENTITY | UAR_FLAGS.
#[global] Instance avp_name_eq_dec : EqDecision avp_name.
Proof. solve_decision. Defined.

(** ** AVPs *)

Inductive avp := Avp (name : avp_name) (value : avp_value)
with avp_value :=
| OctetString (s : string)
| Integer32 (z : Z)
| Unsigned32 (z : Z)
| Grouped (l : list avp).

Definition avp_key (a : avp) : avp_name := let '(Avp n _) := a in n.

(** [AVP(n).val_str(s)], [val_i32], [val_u32] and [AVP(n).add(...)...] *)
Definition str (n : avp_name) (s : string) : avp := Avp n (OctetString s).
Definition i32 (n : avp_name) (z : Z) : avp := Avp n (Integer32 z).
Definition u32 (n : avp_name) (z : Z) : avp := Avp n (Unsigned32 z).
Definition group (n : avp_name) (l : list avp) : avp := Avp n (Grouped l).

Definition val_str (a : avp) : string := match a with Avp _ (OctetString s) => s | _ => "" end.
Definition val_i32 (a : avp) : Z := match a with Avp _ (Integer32 z) => z | _ => 0 end.
Definition val_u32 (a : avp) : Z := match a with Avp _ (Unsigned32 z) => z | _ => 0 end.
Definition children (a : avp) : list avp := match a with Avp _ (Grouped l) => l | _ => [] end.

(** The range from [begin(n)] to [end()], and its first element. *)
Definition avps (n : avp_name) (l : list avp) : list avp :=
  List.filter (fun a => bool_decide (avp_key a = n)) l.
Definition first_avp (n : avp_name) (l : list avp) : option avp := head (avps n l).

Record message := mkMessage { msg_command : command; msg_avps : list avp }.

(** [get_str_from_avp] and its relatives; [None]: the variable is left alone. *)
Definition get_str_from_avp (n : avp_name) (m : message) : option string :=
  val_str <$> first_avp n (msg_avps m).
Definition get_i32_from_avp (n : avp_name) (m : message) : option Z :=
  val_i32 <$> first_avp n (msg_avps m).
Definition get_u32_from_avp (n : avp_name) (m : message) : option Z :=
  val_u32 <$> first_avp n (msg_avps m).

(** What the stack puts on a message, and reads from one: the result code, or
    the experimental result code and its vendor, are zero when absent. *)
Class DiameterStack := {
  session_id_avps : list avp;
  app_id_avps : list avp;
  origin_avps : list avp;
  build_response : list avp -> list avp;
  set_result_code : string -> list avp -> list avp;
  result_code : message -> Z;
  experimental_result : message -> Z * Z
}.

(** The names of the AVPs the stack adds. *)
Definition stack_avp (a : avp) : Prop :=
  avp_key a = SESSION_ID \/ avp_key a = VENDOR_SPECIFIC_APPLICATION_ID \/
  avp_key a = ORIGIN_HOST \/ avp_key a = ORIGIN_REALM.

Class LawfulDiameterStack `{DiameterStack} := {
  session_id_own : Forall stack_avp session_id_avps;
  app_id_own : Forall stack_avp app_id_avps;
  origin_own : Forall stack_avp origin_avps;
  (** A response keeps only AVPs of the stack's own of the request. *)
  build_response_own : forall l, Forall stack_avp (build_response l);
  set_result_code_adds : forall s l, exists a,
    set_result_code s l = l ++ [a] /\
    (avp_key a = RESULT_CODE \/ avp_key a = EXPERIMENTAL_RESULT)
}.

(** Conversions of binary strings, from cpp-common. *)
Class Binary := {
  base64_encode : string -> string;
  hex : string -> string
}.

(** [if (c) add(a);] *)
Definition add_if (c : bool) (l : list avp) : list avp := if c then l else [].

Definition nonempty {A} (l : list A) : bool := match l with [] => false | _ => true end.

Section messages.
Context `{DiameterStack}.

(** ** Building requests *)

(** [Cx::UserAuthorizationRequest] *)
Definition user_authorization_request (dest_host dest_realm impi impu visited authorization_type : string)
    (emergency : bool) : message :=
  mkMessage USER_AUTHORIZATION_REQUEST
    (session_id_avps ++ app_id_avps ++ [i32 AUTH_SESSION_STATE 1] ++ origin_avps ++
     add_if (negb (str_empty dest_host)) [str DESTINATION_HOST dest_host] ++
     [str DESTINATION_REALM dest_realm; str USER_NAME impi; str PUBLIC_IDENTITY impu;
      str VISITED_NETWORK_IDENTIFIER visited;
      i32 USER_AUTHORIZATION_TYPE
        (if String.eqb authorization_type "DEREG" then 1
         else if String.eqb authorization_type "CAPAB" then 2 else 0)] ++
     add_if emergency [u32 UAR_FLAGS 1]).

(** [Cx::LocationInfoRequest] *)
Definition location_info_request (dest_host dest_realm originating_request impu authorization_type : string)
    : message :=
  mkMessage LOCATION_INFO_REQUEST
    (session_id_avps ++ app_id_avps ++ [i32 AUTH_SESSION_STATE 1] ++ origin_avps ++
     add_if (negb (str_empty dest_host)) [str DESTINATION_HOST dest_host] ++
     [str DESTINATION_REALM dest_realm] ++
     add_if (String.eqb originating_request "true") [i32 ORIGINATING_REQUEST 0] ++
     [str PUBLIC_IDENTITY impu] ++
     add_if (String.eqb authorization_type "CAPAB") [i32 USER_AUTHORIZATION_TYPE 2]).

(** [Cx::MultimediaAuthRequest] *)
Definition multimedia_auth_request
    (dest_realm dest_host impi impu server_name scheme authorization : string) : message :=
  mkMessage MULTIMEDIA_AUTH_REQUEST
    (session_id_avps ++ app_id_avps ++ [i32 AUTH_SESSION_STATE 1; str DESTINATION_REALM dest_realm] ++
     add_if (negb (str_empty dest_host)) [str DESTINATION_HOST dest_host] ++ origin_avps ++
     [str USER_NAME impi; str PUBLIC_IDENTITY impu;
      group SIP_AUTH_DATA_ITEM
        (str SIP_AUTH_SCHEME scheme ::
         add_if (negb (str_empty authorization)) [str SIP_AUTHORIZATION authorization]);
      i32 SIP_NUMBER_AUTH_ITEMS 1; str SERVER_NAME server_name]).

Definition include_wildcard_on_sar (type : ServerAssignmentType) : bool :=
  match type with
  | UNREGISTERED_USER | NO_ASSIGNMENT | TIMEOUT_DEREGISTRATION_STORE_SERVER_NAME
  | ADMINISTRATIVE_DEREGISTRATION | DEREGISTRATION_TOO_MUCH_DATA | TIMEOUT_DEREGISTRATION => true
  | _ => false
  end.

(** [Cx::ServerAssignmentRequest] *)
Definition server_assignment_request (dest_host dest_realm impi impu server_name : string)
    (type : ServerAssignmentType) (support_shared_ifcs : bool) (wildcard : string) : message :=
  mkMessage SERVER_ASSIGNMENT_REQUEST
    (session_id_avps ++ app_id_avps ++ [i32 AUTH_SESSION_STATE 1] ++ origin_avps ++
     add_if (negb (str_empty dest_host)) [str DESTINATION_HOST dest_host] ++
     [str DESTINATION_REALM dest_realm] ++
     add_if (negb (str_empty impi)) [str USER_NAME impi] ++
     [str PUBLIC_IDENTITY impu; str SERVER_NAME server_name;
      i32 SERVER_ASSIGNMENT_TYPE (sat_value type); i32 USER_DATA_ALREADY_AVAILABLE 0] ++
     add_if (negb (str_empty wildcard) && include_wildcard_on_sar type)
       [str WILDCARDED_PUBLIC_IDENTITY wildcard] ++
     add_if support_shared_ifcs
       [group SUPPORTED_FEATURES
          [u32 VENDOR_ID 10415; u32 FEATURE_LIST_ID 1; u32 FEATURE_LIST 1]]).

(** ** Building answers *)

(** The result of the answers that are built for given codes. *)
Definition result_avp (rc vendor_id experimental : Z) : avp :=
  if rc =? 0 then
    group EXPERIMENTAL_RESULT [u32 VENDOR_ID vendor_id; i32 EXPERIMENTAL_RESULT_CODE experimental]
  else i32 RESULT_CODE rc.

(** The capabilities of a UAA or LIA. *)
Definition capabilities_avp (c : ServerCapabilities) : avp :=
  group SERVER_CAPABILITIES
    (add_if (negb (str_empty (cap_server_name c))) [str SERVER_NAME (cap_server_name c)] ++
     map (i32 MANDATORY_CAPABILITY) (mandatory_capabilities c) ++
     map (i32 OPTIONAL_CAPABILITY) (optional_capabilities c)).

(** [Cx::UserAuthorizationAnswer] *)
Definition user_authorization_answer (rc vendor_id experimental : Z) (server_name : string)
    (c : ServerCapabilities) : message :=
  mkMessage USER_AUTHORIZATION_ANSWER
    ([result_avp rc vendor_id experimental] ++
     add_if (negb (str_empty server_name)) [str SERVER_NAME server_name] ++ [capabilities_avp c]).

(** [Cx::LocationInfoAnswer]; the source gives it the command of a UAA. *)
Definition location_info_answer (rc vendor_id experimental : Z) (server_name : string)
    (c : ServerCapabilities) (wildcard : string) : message :=
  mkMessage USER_AUTHORIZATION_ANSWER
    ([result_avp rc vendor_id experimental] ++
     add_if (negb (str_empty server_name)) [str SERVER_NAME server_name] ++ [capabilities_avp c] ++
     add_if (negb (str_empty wildcard)) [str WILDCARDED_PUBLIC_IDENTITY wildcard]).

(** The Charging-Information of an SAA or PPR, guarded as in the source: the
    second ECF is read when there is a second CCF.  [None] is [ecfs[1]] of a
    shorter vector. *)
Definition charging_information (c : ChargingAddresses) : option (list avp) :=
  if addrs_empty c then Some []
  else
    let first n l := match l with [] => [] | x :: _ => [str n x] end in
    let second n l := match l with _ :: x :: _ => [str n x] | _ => [] end in
    let ecf2 :=
      if (1 <? length (ccfs c))%nat then
        match ecfs c with
        | _ :: x :: _ => Some [str SECONDARY_EVENT_CHARGING_FUNCTION_NAME x]
        | _ => None
        end
      else Some [] in
    ecf2 ← ecf2;
    Some [group CHARGING_INFORMATION
            (first PRIMARY_CHARGING_COLLECTION_FUNCTION_NAME (ccfs c) ++
             second SECONDARY_CHARGING_COLLECTION_FUNCTION_NAME (ccfs c) ++
             first PRIMARY_EVENT_CHARGING_FUNCTION_NAME (ecfs c) ++ ecf2)].

(** [Cx::ServerAssignmentAnswer] *)
Definition server_assignment_answer (rc vendor_id experimental : Z) (ims_subscription : string)
    (c : ChargingAddresses) (wildcard : string) : option message :=
  charging ← charging_information c;
  Some (mkMessage SERVER_ASSIGNMENT_ANSWER
    ([if rc =? 0 then
        group EXPERIMENTAL_RESULT [i32 EXPERIMENTAL_RESULT_CODE experimental; u32 VENDOR_ID vendor_id]
      else i32 RESULT_CODE rc; str USER_DATA ims_subscription] ++ charging ++
     add_if (negb (str_empty wildcard)) [str WILDCARDED_PUBLIC_IDENTITY wildcard])).

(** [Cx::MultimediaAuthAnswer] *)
Definition multimedia_auth_answer (rc vendor_id experimental : Z) (scheme : string)
    (digest : DigestAuthVector) (aka : AKAAuthVector) : message :=
  mkMessage MULTIMEDIA_AUTH_ANSWER
    [if rc =? 0 then
       group EXPERIMENTAL_RESULT [i32 EXPERIMENTAL_RESULT_CODE experimental; u32 VENDOR_ID vendor_id]
     else i32 RESULT_CODE rc;
     group SIP_AUTH_DATA_ITEM
       (add_if (negb (str_empty scheme)) [str SIP_AUTH_SCHEME scheme] ++
        [group SIP_DIGEST_AUTHENTICATE
           [str CX_DIGEST_HA1 (ha1 digest); str CX_DIGEST_REALM (realm digest);
            str CX_DIGEST_QOP (qop digest)];
         str SIP_AUTHENTICATE (challenge aka); str SIP_AUTHORIZATION (response aka);
         str CONFIDENTIALITY_KEY (crypt_key aka); str INTEGRITY_KEY (integrity_key aka)])].

(** ** Requests of the HSS and their answers *)

(** [Cx::RegistrationTerminationRequest] and [Cx::PushProfileRequest] *)
Definition registration_termination_request (reason : Z) (impi : string)
    (associated_identities impus : list string) (auth_session_state : Z) : message :=
  mkMessage REGISTRATION_TERMINATION_REQUEST
    ([i32 AUTH_SESSION_STATE auth_session_state; str USER_NAME impi] ++
     add_if (nonempty associated_identities)
       [group ASSOCIATED_IDENTITIES (map (str USER_NAME) associated_identities)] ++
     map (str PUBLIC_IDENTITY) impus ++
     [group DEREGISTRATION_REASON [i32 REASON_CODE reason]]).

Definition push_profile_request (impi ims_subscription : string) (c : ChargingAddresses)
    (auth_session_state : Z) : option message :=
  charging ← charging_information c;
  Some (mkMessage PUSH_PROFILE_REQUEST
    ([str USER_NAME impi] ++
     add_if (negb (str_empty ims_subscription)) [str USER_DATA ims_subscription] ++
     [i32 AUTH_SESSION_STATE auth_session_state] ++ charging)).

(** [Cx::RegistrationTerminationAnswer] and [Cx::PushProfileAnswer] *)
Definition registration_termination_answer (rtr : message) (rc : string) (auth_session_state : Z)
    (associated_identities : list string) : message :=
  mkMessage REGISTRATION_TERMINATION_ANSWER
    (set_result_code rc (build_response (msg_avps rtr) ++ app_id_avps) ++
     [i32 AUTH_SESSION_STATE auth_session_state] ++
     add_if (nonempty associated_identities)
       [group ASSOCIATED_IDENTITIES (map (str USER_NAME) associated_identities)]).

Definition push_profile_answer (ppr : message) (rc : string) (auth_session_state : Z) : message :=
  mkMessage PUSH_PROFILE_ANSWER
    (set_result_code rc (build_response (msg_avps ppr) ++ app_id_avps) ++
     [i32 AUTH_SESSION_STATE auth_session_state]).

(** ** Reading messages *)

(** The values of the AVPs [n] in the first AVP [g] of a list. *)
Definition in_group (g n : avp_name) (l : list avp) : list avp :=
  match first_avp g l with
  | Some a => avps n (children a)
  | None => []
  end.

Definition first_str (l : list avp) : string := match l with a :: _ => val_str a | [] => "" end.

Definition impu (m : message) : string := default "" (get_str_from_avp PUBLIC_IDENTITY m).

(** [server_capabilities] of a UAA and of an LIA *)
Definition server_capabilities (m : message) : ServerCapabilities :=
  mkServerCapabilities
    (map val_i32 (in_group SERVER_CAPABILITIES MANDATORY_CAPABILITY (msg_avps m)))
    (map val_i32 (in_group SERVER_CAPABILITIES OPTIONAL_CAPABILITY (msg_avps m)))
    (first_str (in_group SERVER_CAPABILITIES SERVER_NAME (msg_avps m))).

Definition sip_auth_scheme (m : message) : string :=
  first_str (in_group SIP_AUTH_DATA_ITEM SIP_AUTH_SCHEME (msg_avps m)).

Definition sip_authorization (m : message) : string :=
  first_str (in_group SIP_AUTH_DATA_ITEM SIP_AUTHORIZATION (msg_avps m)).

(** A 3GPP digest AVP, or the one of the base dictionary in its absence. *)
Definition digest_field (cx base : avp_name) (l : list avp) : string :=
  match first_avp cx l with
  | Some a => val_str a
  | None => match first_avp base l with Some a => val_str a | None => "" end
  end.

Definition digest_auth_vector (m : message) : DigestAuthVector :=
  match first_avp SIP_AUTH_DATA_ITEM (msg_avps m) with
  | None => empty_digest_av
  | Some item =>
      match first_avp SIP_DIGEST_AUTHENTICATE (children item) with
      | None => empty_digest_av
      | Some d =>
          mkDigestAuthVector (digest_field CX_DIGEST_HA1 DIGEST_HA1 (children d))
            (digest_field CX_DIGEST_REALM DIGEST_REALM (children d))
            (digest_field CX_DIGEST_QOP DIGEST_QOP (children d))
      end
  end.

Definition aka_auth_vector `{Binary} (m : message) : AKAAuthVector :=
  match first_avp SIP_AUTH_DATA_ITEM (msg_avps m) with
  | None => empty_aka_av
  | Some item =>
      let os n f := match first_avp n (children item) with
                    | Some a => f (val_str a)
                    | None => ""%string
                    end in
      mkAKAAuthVector (os SIP_AUTHENTICATE base64_encode) (os SIP_AUTHORIZATION hex)
        (os CONFIDENTIALITY_KEY hex) (os INTEGRITY_KEY hex) 1
  end.

Definition akav2_auth_vector `{Binary} (m : message) : AKAAuthVector :=
  set_version 2 (aka_auth_vector m).

(** [charging_addrs] of an SAA and of a PPR, and whether there is a
    Charging-Information AVP. *)
Definition charging_addrs (m : message) : bool * ChargingAddresses :=
  match first_avp CHARGING_INFORMATION (msg_avps m) with
  | None => (false, no_addrs)
  | Some a =>
      let name n := match first_avp n (children a) with Some x => [val_str x] | None => [] end in
      (true,
       mkChargingAddresses
         (name PRIMARY_CHARGING_COLLECTION_FUNCTION_NAME ++
          name SECONDARY_CHARGING_COLLECTION_FUNCTION_NAME)
         (name PRIMARY_EVENT_CHARGING_FUNCTION_NAME ++
          name SECONDARY_EVENT_CHARGING_FUNCTION_NAME))
  end.

(** Of an RTR (and [associated_identities] of an RTA) *)
Definition associated_identities (m : message) : list string :=
  map val_str (in_group ASSOCIATED_IDENTITIES USER_NAME (msg_avps m)).

Definition rtr_impus (m : message) : list string := map val_str (avps PUBLIC_IDENTITY (msg_avps m)).

Definition deregistration_reason (m : message) : Z :=
  match in_group DEREGISTRATION_REASON REASON_CODE (msg_avps m) with
  | a :: _ => val_i32 a
  | [] => 0
  end.
End messages.

(** The one-line accessors of [include/cx.h]; a name that several message classes
    give the same accessor is defined once.  [None]: the variable is left alone. *)
Module Accessors.
Definition visited_network (m : message) : option string :=
  get_str_from_avp VISITED_NETWORK_IDENTIFIER m.
Definition auth_type (m : message) : option Z := get_i32_from_avp USER_AUTHORIZATION_TYPE m.
Definition uar_flags (m : message) : option Z := get_u32_from_avp UAR_FLAGS m.
Definition server_name (m : message) : option string := get_str_from_avp SERVER_NAME m.
Definition originating (m : message) : option Z := get_i32_from_avp ORIGINATING_REQUEST m.
Definition wildcarded_public_identity (m : message) : option string :=
  get_str_from_avp WILDCARDED_PUBLIC_IDENTITY m.
Definition sip_number_auth_items (m : message) : option Z :=
  get_i32_from_avp SIP_NUMBER_AUTH_ITEMS m.
Definition server_assignment_type (m : message) : option Z :=
  get_i32_from_avp SERVER_ASSIGNMENT_TYPE m.
Definition user_data_already_available (m : message) : option Z :=
  get_i32_from_avp USER_DATA_ALREADY_AVAILABLE m.
Definition get_wildcard (m : message) : option string :=
  get_str_from_avp WILDCARDED_PUBLIC_IDENTITY m.
Definition user_data (m : message) : option string := get_str_from_avp USER_DATA m.

(** Accessors whose code another class repeats: [UserAuthorizationAnswer],
    [MultimediaAuthAnswer], [PushProfileRequest] (whose version also tells whether
    there is a Charging-Information AVP) and [RegistrationTerminationRequest]. *)
Definition lia_server_capabilities (m : message) : ServerCapabilities := server_capabilities m.
Definition mar_sip_auth_scheme (m : message) : string := sip_auth_scheme m.
Definition saa_charging_addrs (m : message) : ChargingAddresses := snd (charging_addrs m).
Definition rta_associated_identities (m : message) : list string := associated_identities m.
End Accessors.

(** ** Reading what was built *)

#[local] Arguments avps : simpl never.

Lemma avps_app n l1 l2 : avps n (l1 ++ l2) = avps n l1 ++ avps n l2.
Proof. apply List.filter_app. Qed.

Lemma avps_cons n a l :
  avps n (a :: l) = (if bool_decide (avp_key a = n) then [a] else []) ++ avps n l.
Proof. unfold avps. simpl. by destruct (bool_decide (avp_key a = n)). Qed.

Lemma avps_map_str n k l :
  avps n (map (str k) l) = if bool_decide (k = n) then map (str k) l else [].
Proof.
  induction l as [|x l IH]; [by destruct (bool_decide _)|].
  cbn [map]. rewrite avps_cons, IH. simpl. by destruct (bool_decide (k = n)).
Qed.

Lemma avps_map_i32 n k l :
  avps n (map (i32 k) l) = if bool_decide (k = n) then map (i32 k) l else [].
Proof.
  induction l as [|x l IH]; [by destruct (bool_decide _)|].
  cbn [map]. rewrite avps_cons, IH. simpl. by destruct (bool_decide (k = n)).
Qed.

Lemma val_str_map k l : map val_str (map (str k) l) = l.
Proof. rewrite map_map. apply map_id. Qed.

Lemma val_i32_map k l : map val_i32 (map (i32 k) l) = l.
Proof. rewrite map_map. apply map_id. Qed.

(** The names a Cx accessor asks for. *)
Definition cx_name (n : avp_name) : bool :=
  match n with
  | SESSION_ID | VENDOR_SPECIFIC_APPLICATION_ID | ORIGIN_HOST | ORIGIN_REALM => false
  | _ => true
  end.

Lemma avps_stack n l : Forall stack_avp l -> cx_name n = true -> avps n l = [].
Proof.
  intros Hl Hn. unfold avps. induction Hl as [|a l Ha Hl IH]; [done|]. simpl.
  rewrite bool_decide_eq_false_2; [done|]. intros E. rewrite <- E in Hn.
  by destruct Ha as [Ha|[Ha|[Ha|Ha]]]; rewrite Ha in Hn.
Qed.

Lemma avps_result_code `{LawfulDiameterStack} n s l :
  cx_name n = true -> n <> RESULT_CODE -> n <> EXPERIMENTAL_RESULT ->
  Forall stack_avp l -> avps n (set_result_code s l) = [].
Proof.
  intros Hn H1 H2 Hl. destruct (set_result_code_adds s l) as (a & -> & Ha).
  rewrite avps_app, avps_stack, avps_cons by done. simpl.
  rewrite bool_decide_eq_false_2; [done|]. destruct Ha; congruence.
Qed.

Lemma first_str_str n s : first_str [str n s] = s.
Proof. done. Qed.

(** Read accessors off a message that was built: split its optional parts, then
    look every name up. *)
Ltac split_optional :=
  repeat match goal with
  | |- context [add_if ?b _] => destruct b eqn:?; cbn [add_if]
  end.

Ltac read_avps :=
  unfold Accessors.visited_network, Accessors.auth_type, Accessors.uar_flags, Accessors.server_name,
    Accessors.originating, Accessors.wildcarded_public_identity, Accessors.sip_number_auth_items,
    Accessors.server_assignment_type, Accessors.user_data_already_available, Accessors.get_wildcard,
    Accessors.user_data;
  unfold impu, get_str_from_avp, get_i32_from_avp, get_u32_from_avp, in_group, first_avp;
  cbn [msg_avps children group];
  repeat first
    [ rewrite avps_app
    | rewrite avps_cons
    | rewrite avps_map_str
    | rewrite avps_map_i32
    | rewrite (avps_stack _ session_id_avps) by (reflexivity || apply session_id_own)
    | rewrite (avps_stack _ app_id_avps) by (reflexivity || apply app_id_own)
    | rewrite (avps_stack _ origin_avps) by (reflexivity || apply origin_own) ];
  cbn [avp_key str i32 u32 group];
  repeat match goal with
  | |- context [bool_decide (?a = ?b)] =>
      first [rewrite (bool_decide_eq_true_2 (a = b)) by reflexivity
            |rewrite (bool_decide_eq_false_2 (a = b)) by discriminate]
  end; cbn [app avps List.filter head children group].

(** ** What the requests should carry *)

(** The types of a User-Authorization-Request. *)
Definition authorization_code (s : string) : Z :=
  if String.eqb s "DEREG" then 1 else if String.eqb s "CAPAB" then 2 else 0.

(** The numbers of the assignment types, and those whose request may name a
    wildcard (TS 29.228). *)
Definition assignment_codes : list (ServerAssignmentType * Z) :=
  [(NO_ASSIGNMENT, 0); (REGISTRATION, 1); (RE_REGISTRATION, 2); (UNREGISTERED_USER, 3);
   (TIMEOUT_DEREGISTRATION, 4); (USER_DEREGISTRATION, 5);
   (TIMEOUT_DEREGISTRATION_STORE_SERVER_NAME, 6); (USER_DEREGISTRATION_STORE_SERVER_NAME, 7);
   (ADMINISTRATIVE_DEREGISTRATION, 8); (AUTHENTICATION_FAILURE, 9);
   (AUTHENTICATION_TIMEOUT, 10); (DEREGISTRATION_TOO_MUCH_DATA, 11)].

Definition wildcard_codes : list Z := [0; 3; 4; 6; 8; 11].

(** A request of a command, on its way to the HSS: the stateless session, the realm,
    and the host unless it is left to the realm. *)
Definition addressed (cmd : command) (host realm : string) (m : message) : Prop :=
  msg_command m = cmd /\
  get_i32_from_avp AUTH_SESSION_STATE m = Some 1 /\
  get_str_from_avp DESTINATION_REALM m = Some realm /\
  get_str_from_avp DESTINATION_HOST m = if str_empty host then None else Some host.

Section roundtrips.
Context `{LawfulDiameterStack}.

(** C35: the requests to the HSS carry what they were made from: each goes to the
    realm, and to the host if one is given, and each accessor reads back the
    request's field, the assignment type by its number in the standard.  The
    optional AVPs are there exactly when the source says so: the emergency flag, an
    originating LIR, a capability query, a nonempty User-Name and Authorization, the
    support of shared iFCs, with its vendor and feature list, and the wildcard only
    on the SAR types that may carry one. *)
Theorem requests_carry_fields host realm impi public server scheme auth visited orig
    emergency shared type code wildcard :
  In (type, code) assignment_codes ->
  let uar := user_authorization_request host realm impi public visited auth emergency in
  let lir := location_info_request host realm orig public auth in
  let mar := multimedia_auth_request realm host impi public server scheme auth in
  let sar := server_assignment_request host realm impi public server type shared wildcard in
  (addressed USER_AUTHORIZATION_REQUEST host realm uar /\
   impu uar = public /\ get_str_from_avp USER_NAME uar = Some impi /\
   Accessors.visited_network uar = Some visited /\
   Accessors.auth_type uar = Some (authorization_code auth) /\
   Accessors.uar_flags uar = if emergency then Some 1 else None) /\
  (addressed LOCATION_INFO_REQUEST host realm lir /\
   impu lir = public /\
   Accessors.originating lir = (if String.eqb orig "true" then Some 0 else None) /\
   Accessors.auth_type lir =
     if String.eqb auth "CAPAB" then Some 2 else None) /\
  (addressed MULTIMEDIA_AUTH_REQUEST host realm mar /\
   impu mar = public /\ get_str_from_avp USER_NAME mar = Some impi /\
   Accessors.server_name mar = Some server /\ sip_auth_scheme mar = scheme /\
   in_group SIP_AUTH_DATA_ITEM SIP_AUTHORIZATION (msg_avps mar) =
     (if str_empty auth then [] else [str SIP_AUTHORIZATION auth]) /\
   sip_authorization mar = auth /\ Accessors.sip_number_auth_items mar = Some 1) /\
  (addressed SERVER_ASSIGNMENT_REQUEST host realm sar /\
   impu sar = public /\ Accessors.server_name sar = Some server /\
   Accessors.server_assignment_type sar = Some code /\
   Accessors.user_data_already_available sar = Some 0 /\
   get_str_from_avp USER_NAME sar = (if str_empty impi then None else Some impi) /\
   avps SUPPORTED_FEATURES (msg_avps sar) =
     (if shared then
        [group SUPPORTED_FEATURES [u32 VENDOR_ID 10415; u32 FEATURE_LIST_ID 1; u32 FEATURE_LIST 1]]
      else []) /\
   Accessors.get_wildcard sar =
     if negb (str_empty wildcard) && bool_decide (In code wildcard_codes)
     then Some wildcard else None).
Proof.
  intros Hcode uar lir mar sar.
  assert (Ht : sat_value type = code /\ include_wildcard_on_sar type = bool_decide (In code wildcard_codes)).
  { clear -Hcode. unfold assignment_codes in Hcode. cbn [In] in Hcode.
    repeat destruct Hcode as [[= <- <-]|Hcode]; by vm_compute. }
  destruct Ht as [Ht Hw]. rewrite <- Hw, <- Ht. clear Hcode Ht Hw.
  repeat split; subst uar lir mar sar;
    unfold user_authorization_request, location_info_request, multimedia_auth_request,
      server_assignment_request, sip_auth_scheme, sip_authorization;
    split_optional; read_avps; simpl; try done;
    repeat match goal with E : _ = _ |- _ => rewrite E end; try done;
    by destruct impi, auth, host.
Qed.

(** ** Charging addresses *)

(** The builders test the number of CCFs before they read the second ECF. *)
Definition reads_past_ecfs (c : ChargingAddresses) : Prop :=
  (2 <= length (ccfs c))%nat /\ (length (ecfs c) < 2)%nat.

(** What a Charging-Information AVP of theirs keeps. *)
Definition charging_kept (c : ChargingAddresses) : ChargingAddresses :=
  mkChargingAddresses (take 2 (ccfs c))
    (take (if bool_decide (2 <= length (ccfs c))%nat then 2 else 1) (ecfs c)).

(** The addresses that are kept as they are. *)
Definition charging_representable (c : ChargingAddresses) : Prop :=
  (length (ccfs c) <= 2)%nat /\ (length (ecfs c) <= 2)%nat /\
  (length (ccfs c) = 2 <-> length (ecfs c) = 2)%nat.

Lemma charging_information_read c l rest cmd :
  ~ reads_past_ecfs c -> avps CHARGING_INFORMATION l = [] ->
  avps CHARGING_INFORMATION rest = [] ->
  exists ci, charging_information c = Some ci /\
    charging_addrs (mkMessage cmd (l ++ ci ++ rest)) = (negb (addrs_empty c), charging_kept c).
Proof.
  unfold reads_past_ecfs. intros Hc Hl Hrest. destruct c as [cs es]. cbn [ccfs ecfs] in *.
  destruct cs as [|c1 [|c2 cs]], es as [|e1 [|e2 es]]; simpl in Hc; try lia;
    (eexists; split; [done|]); unfold charging_addrs, first_avp; cbn [msg_avps];
    rewrite !avps_app, Hl, Hrest; done.
Qed.

Lemma charging_past c : reads_past_ecfs c -> charging_information c = None.
Proof.
  intros [Hc He]. unfold charging_information. destruct c as [[|c1 [|c2 cs]] es]; cbn [ccfs ecfs] in *;
    [simpl in Hc; lia..|]. destruct es as [|e1 [|e2 es]]; simpl in *; [done|done|lia].
Qed.

Lemma charging_no_data c ci : charging_information c = Some ci -> avps USER_DATA ci = [].
Proof.
  unfold charging_information. destruct (addrs_empty c); [by intros [= <-]|].
  repeat case_match; intros; simplify_option_eq; done.
Qed.

Lemma representable_kept c :
  charging_representable c <-> ~ reads_past_ecfs c /\ charging_kept c = c.
Proof.
  unfold charging_representable, reads_past_ecfs, charging_kept. destruct c as [cs es]. cbn [ccfs ecfs].
  destruct cs as [|c1 [|c2 [|c3 cs]]], es as [|e1 [|e2 [|e3 es]]]; simpl; split;
    intros; try lia; split_and?; try done; destruct_and?; simplify_eq; lia.
Qed.

(** C40: What becomes of the charging functions of an SAA or a PPR that is built and
    read back, for any number of them: with two CCFs or more and fewer than two
    ECFs the builders read past the vector of ECFs; in every other case what is
    read back is the first two CCFs with the first two ECFs if there are two CCFs
    and only the first ECF if not, so that a second ECF beside fewer than two CCFs,
    and any third function, is dropped.  So exactly the addresses with at most two
    of each kind, and two of one if and only if two of the other, round-trip.  The
    user data round-trips beside them. *)
Theorem charging_addrs_roundtrip c rc vendor experimental impi xml wildcard state :
  (~ reads_past_ecfs c ->
   exists saa ppr,
     server_assignment_answer rc vendor experimental xml c wildcard = Some saa /\
     push_profile_request impi xml c state = Some ppr /\
     charging_addrs saa = (negb (addrs_empty c), charging_kept c) /\
     charging_addrs ppr = (negb (addrs_empty c), charging_kept c) /\
     get_str_from_avp USER_DATA saa = Some xml /\
     get_str_from_avp USER_DATA ppr = (if str_empty xml then None else Some xml)) /\
  (reads_past_ecfs c ->
   server_assignment_answer rc vendor experimental xml c wildcard = None /\
   push_profile_request impi xml c state = None) /\
  (charging_representable c <-> ~ reads_past_ecfs c /\ charging_kept c = c).
Proof.
  split; [|split; [|apply representable_kept]].
  - intros Hc.
    destruct (charging_information_read c
      [if rc =? 0 then
         group EXPERIMENTAL_RESULT [i32 EXPERIMENTAL_RESULT_CODE experimental; u32 VENDOR_ID vendor]
       else i32 RESULT_CODE rc; str USER_DATA xml]
      (add_if (negb (str_empty wildcard)) [str WILDCARDED_PUBLIC_IDENTITY wildcard])
      SERVER_ASSIGNMENT_ANSWER Hc) as (ci & Eci & Hsaa); [by destruct (rc =? 0)|by destruct wildcard|].
    destruct (charging_information_read c
      ([str USER_NAME impi] ++ add_if (negb (str_empty xml)) [str USER_DATA xml] ++
       [i32 AUTH_SESSION_STATE state]) [] PUSH_PROFILE_REQUEST Hc) as (ci' & Eci' & Hppr);
      [by destruct xml|done|].
    rewrite Eci in Eci'. injection Eci' as <-. pose proof (charging_no_data _ _ Eci) as Hu.
    unfold server_assignment_answer, push_profile_request. rewrite Eci. simpl mbind.
    eexists _, _. split; [done|]. split; [done|]. split; [exact Hsaa|].
    split; [by rewrite app_nil_r, <- !app_assoc in Hppr|].
    split; read_avps; rewrite ?Hu; [by destruct (rc =? 0)|by destruct xml].
  - intros Hc%charging_past. unfold server_assignment_answer, push_profile_request. by rewrite Hc.
Qed.

(** ** Registration termination *)

Lemma rtr_fields reason impi ids public state :
  let m := registration_termination_request reason impi ids public state in
  deregistration_reason m = reason /\ associated_identities m = ids /\ rtr_impus m = public /\
  get_str_from_avp USER_NAME m = Some impi.
Proof.
  intros m. subst m. unfold registration_termination_request, deregistration_reason,
    associated_identities, rtr_impus.
  destruct ids as [|x ids]; cbn [nonempty add_if]; repeat split; read_avps; simpl;
    rewrite ?app_nil_r, ?avps_map_str; simpl; by rewrite ?val_str_map.
Qed.

(** The RTA lists the private identities it is given. *)
Lemma rta_identities rtr rc state ids :
  associated_identities (registration_termination_answer rtr rc state ids) = ids.
Proof.
  unfold associated_identities, registration_termination_answer, in_group, first_avp. cbn [msg_avps].
  rewrite avps_app, avps_result_code;
    [|done|done|done|apply Forall_app; split; [apply build_response_own|apply app_id_own]].
  destruct ids as [|x ids]; [done|]. cbn [nonempty add_if]. read_avps. simpl.
  rewrite avps_map_str. simpl. by rewrite val_str_map.
Qed.

(** ** Answers that are read back *)

Lemma capabilities_read rc vendor experimental server c :
  server_capabilities (user_authorization_answer rc vendor experimental server c) = c.
Proof.
  unfold server_capabilities, user_authorization_answer, result_avp, capabilities_avp, in_group,
    first_avp. cbn [msg_avps].
  destruct (rc =? 0), server, c as [man opt name]; cbn [add_if str_empty negb]; read_avps; simpl;
    destruct name; cbn [add_if str_empty negb]; read_avps; simpl;
    by rewrite ?avps_map_i32, ?app_nil_r, ?val_i32_map.
Qed.

Lemma digest_read rc vendor experimental scheme d a :
  digest_auth_vector (multimedia_auth_answer rc vendor experimental scheme d a) = d /\
  sip_auth_scheme (multimedia_auth_answer rc vendor experimental scheme d a) = scheme.
Proof.
  unfold digest_auth_vector, sip_auth_scheme, multimedia_auth_answer.
  destruct (rc =? 0), scheme, d; done.
Qed.
End roundtrips.

(** ** Witnesses *)

(** A stack whose own AVPs are a session, an application and the origin. *)
Module SampleStack.
#[global] Instance stack : DiameterStack := {|
  session_id_avps := [str SESSION_ID "homestead;1"];
  app_id_avps := [group VENDOR_SPECIFIC_APPLICATION_ID [u32 VENDOR_ID 10415]];
  origin_avps := [str ORIGIN_HOST "homestead"; str ORIGIN_REALM "example.com"];
  build_response := fun l => avps SESSION_ID l;
  set_result_code := fun s l =>
    l ++ [i32 RESULT_CODE (if String.eqb s DIAMETER_REQ_SUCCESS then 2001 else 5012)];
  result_code := fun m => default 0 (get_i32_from_avp RESULT_CODE m);
  experimental_result := fun m =>
    match first_avp EXPERIMENTAL_RESULT (msg_avps m) with
    | Some a =>
        (match avps EXPERIMENTAL_RESULT_CODE (children a) with b :: _ => val_i32 b | [] => 0 end,
         match avps VENDOR_ID (children a) with b :: _ => val_u32 b | [] => 0 end)
    | None => (0, 0)
    end
|}.

#[global] Instance lawful : LawfulDiameterStack.
Proof.
  split.
  - repeat constructor.
  - repeat (apply List.Forall_cons || apply List.Forall_nil). right. by left.
  - apply List.Forall_cons; [right; right; by left|]. apply List.Forall_cons; [by right; right; right|].
    apply List.Forall_nil.
  - intros l. simpl. unfold avps. induction l as [|a l IH]; [by constructor|]. simpl.
    destruct (bool_decide (avp_key a = SESSION_ID)) eqn:E; [|done]. constructor; [|done].
    left. by apply bool_decide_eq_true in E.
  - intros s l. eexists. split; [reflexivity|]. by left.
Defined.
End SampleStack.

Lemma requests_carry_fields_witness :
  Accessors.get_wildcard
    (server_assignment_request "hss" "example.com" "a@b" "sip:a@b" "sprout" UNREGISTERED_USER true
       "sip:*") = Some "sip:*"%string.
Proof.
  apply (requests_carry_fields "hss" "example.com" "a@b" "sip:a@b" "sprout" "SIP Digest" "" "v" "true"
           false true UNREGISTERED_USER 3 "sip:*").
  do 3 right. left. reflexivity.
Defined.

Definition one_ccf : ChargingAddresses :=
  mkChargingAddresses ["ccf"%string] ["ecf1"%string; "ecf2"%string].

(** The second ECF is dropped. *)
Lemma charging_addrs_roundtrip_witness :
  (exists saa ppr,
    server_assignment_answer 2001 0 0 "<x/>" one_ccf "" = Some saa /\
    push_profile_request "a@b" "<x/>" one_ccf 1 = Some ppr /\
    charging_addrs saa = (true, mkChargingAddresses ["ccf"%string] ["ecf1"%string]) /\
    charging_addrs ppr = (true, mkChargingAddresses ["ccf"%string] ["ecf1"%string]) /\
    get_str_from_avp USER_DATA saa = Some "<x/>"%string /\
    get_str_from_avp USER_DATA ppr = Some "<x/>"%string) /\
  push_profile_request "a@b" "<x/>" (mkChargingAddresses ["c1"%string; "c2"%string] ["e"%string]) 1 = None.
Proof.
  split.
  - apply (charging_addrs_roundtrip one_ccf 2001 0 0 "a@b" "<x/>" "" 1).
    unfold reads_past_ecfs. simpl. lia.
  - apply (charging_addrs_roundtrip (mkChargingAddresses ["c1"%string; "c2"%string] ["e"%string])
      2001 0 0 "a@b" "<x/>" "" 1).
    unfold reads_past_ecfs. simpl. lia.
Defined.
