(* ===== verification/CxTypes.v ===== *)
(** * The types of Cx AVPs

    The dictionary of [src/cx.cpp], and the types at which its messages add and
    read AVPs: every message the program builds is well typed, so that each
    accessor of [CxMessages] finds the value it expects. *)

From Stdlib Require Import String Ascii ZArith Lia.
From stdpp Require Import base list strings option.
From S2P Require Import Prelude Types CxMessages.
Import Types.Cx.
Open Scope Z_scope.

(** ** The dictionary *)

(** The names [Cx::Dictionary] looks its AVPs up by, most of them under the vendor
    3GPP; the other AVPs are looked up by the base dictionary. *)
Definition dictionary : list (avp_name * (string * string)) := [
  (PUBLIC_IDENTITY, ("3GPP", "Public-Identity"));
  (SIP_AUTH_DATA_ITEM, ("3GPP", "SIP-Auth-Data-Item"));
  (SIP_AUTH_SCHEME, ("3GPP", "SIP-Authentication-Scheme"));
  (SIP_AUTHORIZATION, ("3GPP", "SIP-Authorization"));
  (SIP_NUMBER_AUTH_ITEMS, ("3GPP", "SIP-Number-Auth-Items"));
  (SERVER_NAME, ("3GPP", "Server-Name"));
  (SIP_DIGEST_AUTHENTICATE, ("3GPP", "SIP-Digest-Authenticate"));
  (CX_DIGEST_HA1, ("3GPP", "Digest-HA1"));
  (CX_DIGEST_REALM, ("3GPP", "Digest-Realm"));
  (VISITED_NETWORK_IDENTIFIER, ("3GPP", "Visited-Network-Identifier"));
  (SERVER_CAPABILITIES, ("3GPP", "Server-Capabilities"));
  (MANDATORY_CAPABILITY, ("3GPP", "Mandatory-Capability"));
  (OPTIONAL_CAPABILITY, ("3GPP", "Optional-Capability"));
  (SERVER_ASSIGNMENT_TYPE, ("3GPP", "Server-Assignment-Type"));
  (USER_AUTHORIZATION_TYPE, ("3GPP", "User-Authorization-Type"));
  (ORIGINATING_REQUEST, ("3GPP", "Originating-Request"));
  (USER_DATA_ALREADY_AVAILABLE, ("3GPP", "User-Data-Already-Available"));
  (USER_DATA, ("3GPP", "User-Data"));
  (CX_DIGEST_QOP, ("3GPP", "Digest-QoP"));
  (SIP_AUTHENTICATE, ("3GPP", "SIP-Authenticate"));
  (CONFIDENTIALITY_KEY, ("3GPP", "Confidentiality-Key"));
  (INTEGRITY_KEY, ("3GPP", "Integrity-Key"));
  (ASSOCIATED_IDENTITIES, ("3GPP", "Associated-Identities"));
  (DEREGISTRATION_REASON, ("3GPP", "Deregistration-Reason"));
  (REASON_CODE, ("3GPP", "Reason-Code"));
  (IDENTITY_WITH_EMERGENCY_REGISTRATION, ("3GPP", "Identity-with-Emergency-Registration"));
  (CHARGING_INFORMATION, ("3GPP", "Charging-Information"));
  (PRIMARY_CHARGING_COLLECTION_FUNCTION_NAME,
    ("3GPP", "Primary-Charging-Collection-Function-Name"));
  (SECONDARY_CHARGING_COLLECTION_FUNCTION_NAME,
    ("3GPP", "Secondary-Charging-Collection-Function-Name"));
  (PRIMARY_EVENT_CHARGING_FUNCTION_NAME, ("3GPP", "Primary-Event-Charging-Function-Name"));
  (SECONDARY_EVENT_CHARGING_FUNCTION_NAME, ("3GPP", "Secondary-Event-Charging-Function-Name"));
  (SUPPORTED_FEATURES, ("3GPP", "Supported-Features"));
  (VENDOR_ID, ("", "Vendor-Id"));
  (FEATURE_LIST_ID, ("3GPP", "Feature-List-ID"));
  (FEATURE_LIST, ("3GPP", "Feature-List"));
  (WILDCARDED_PUBLIC_IDENTITY, ("3GPP", "Wildcarded-Public-Identity"));
  (UAR_FLAGS, ("3GPP", "UAR-Flags")) ]%string.

Definition command_name (c : command) : string :=
  match c with
  | USER_AUTHORIZATION_REQUEST => "3GPP/User-Authorization-Request"
  | USER_AUTHORIZATION_ANSWER => "3GPP/User-Authorization-Answer"
  | LOCATION_INFO_REQUEST => "3GPP/Location-Info-Request"
  | LOCATION_INFO_ANSWER => "3GPP/Location-Info-Answer"
  | MULTIMEDIA_AUTH_REQUEST => "3GPP/Multimedia-Auth-Request"
  | MULTIMEDIA_AUTH_ANSWER => "3GPP/Multimedia-Auth-Answer"
  | SERVER_ASSIGNMENT_REQUEST => "3GPP/Server-Assignment-Request"
  | SERVER_ASSIGNMENT_ANSWER => "3GPP/Server-Assignment-Answer"
  | REGISTRATION_TERMINATION_REQUEST => "3GPP/Registration-Termination-Request"
  | REGISTRATION_TERMINATION_ANSWER => "3GPP/Registration-Termination-Answer"
  | PUSH_PROFILE_REQUEST => "3GPP/Push-Profile-Request"
  | PUSH_PROFILE_ANSWER => "3GPP/Push-Profile-Answer"
  end.

(** No two AVPs, and no two commands, are looked up by the same name. *)
Lemma dictionary_injective :
  NoDup (map fst dictionary) /\ NoDup (map snd dictionary) /\ Inj (=) (=) command_name.
Proof.
  split; [apply (bool_decide_unpack _); by vm_compute|].
  split; [apply (bool_decide_unpack _); by vm_compute|]. by intros [] [].
Qed.

(** ** Types *)

(** How the source reads and adds an AVP: with [val_str], [val_i32] or [val_u32], or
    as a group, with the AVPs it puts there or looks for there. *)
Inductive avp_type := AString | AInt32 | AUnsigned32 | AGroup (members : list avp_name).

Definition type_of (n : avp_name) : avp_type :=
  match n with
  | AUTH_SESSION_STATE | RESULT_CODE | EXPERIMENTAL_RESULT_CODE | SIP_NUMBER_AUTH_ITEMS
  | MANDATORY_CAPABILITY | OPTIONAL_CAPABILITY | SERVER_ASSIGNMENT_TYPE | USER_AUTHORIZATION_TYPE
  | ORIGINATING_REQUEST | USER_DATA_ALREADY_AVAILABLE | REASON_CODE => AInt32
  | VENDOR_ID | FEATURE_LIST_ID | FEATURE_LIST | UAR_FLAGS => AUnsigned32
  | VENDOR_SPECIFIC_APPLICATION_ID => AGroup [VENDOR_ID]
  | EXPERIMENTAL_RESULT => AGroup [VENDOR_ID; EXPERIMENTAL_RESULT_CODE]
  | SIP_AUTH_DATA_ITEM =>
      AGroup [SIP_AUTH_SCHEME; SIP_AUTHORIZATION; SIP_DIGEST_AUTHENTICATE; SIP_AUTHENTICATE;
              CONFIDENTIALITY_KEY; INTEGRITY_KEY]
  | SIP_DIGEST_AUTHENTICATE =>
      AGroup [CX_DIGEST_HA1; CX_DIGEST_REALM; CX_DIGEST_QOP; DIGEST_HA1; DIGEST_REALM; DIGEST_QOP]
  | SERVER_CAPABILITIES => AGroup [SERVER_NAME; MANDATORY_CAPABILITY; OPTIONAL_CAPABILITY]
  | ASSOCIATED_IDENTITIES => AGroup [USER_NAME]
  | DEREGISTRATION_REASON => AGroup [REASON_CODE]
  | CHARGING_INFORMATION =>
      AGroup [PRIMARY_CHARGING_COLLECTION_FUNCTION_NAME;
              SECONDARY_CHARGING_COLLECTION_FUNCTION_NAME;
              PRIMARY_EVENT_CHARGING_FUNCTION_NAME; SECONDARY_EVENT_CHARGING_FUNCTION_NAME]
  | SUPPORTED_FEATURES => AGroup [VENDOR_ID; FEATURE_LIST_ID; FEATURE_LIST]
  | _ => AString
  end.

Definition is_int32 (z : Z) : bool := (- 2 ^ 31 <=? z) && (z <? 2 ^ 31).
Definition is_uint32 (z : Z) : bool := (0 <=? z) && (z <? 2 ^ 32).

Definition is_member (n : avp_name) (members : list avp_name) : bool := bool_decide (n ∈ members).

(** An AVP has a value of its type, in its width; a group has members only, each of
    its type. *)
Fixpoint well_typed (a : avp) : bool :=
  let '(Avp n v) := a in
  match type_of n, v with
  | AString, OctetString _ => true
  | AInt32, Integer32 z => is_int32 z
  | AUnsigned32, Unsigned32 z => is_uint32 z
  | AGroup members, Grouped l =>
      (fix all (l : list avp) : bool :=
         match l with
         | [] => true
         | b :: l => is_member (avp_key b) members && well_typed b && all l
         end) l
  | _, _ => false
  end.

Lemma well_typed_group n members l :
  type_of n = AGroup members ->
  well_typed (group n l) =
    forallb (fun b => is_member (avp_key b) members && well_typed b) l.
Proof.
  intros Hn. unfold group. cbn [well_typed]. rewrite Hn.
  induction l as [|b l IH]; [done|]. cbn [forallb]. by rewrite <- IH.
Qed.

(** The AVPs the stack adds to a message of a command: its own, and the result of
    the two answers that [set_result_code] completes. *)
Definition of_stack (c : command) (a : avp) : Prop :=
  stack_avp a \/
  ((c = REGISTRATION_TERMINATION_ANSWER \/ c = PUSH_PROFILE_ANSWER) /\
   (avp_key a = RESULT_CODE \/ avp_key a = EXPERIMENTAL_RESULT)).

Section typed.
Context (c : command).

Definition typed_avps (l : list avp) : Prop := Forall (fun a => of_stack c a \/ well_typed a = true) l.

Lemma typed_app l1 l2 : typed_avps (l1 ++ l2) <-> typed_avps l1 /\ typed_avps l2.
Proof. apply list.Forall_app. Qed.

Lemma typed_own l : forallb well_typed l = true -> typed_avps l.
Proof.
  rewrite forallb_forall. intros Hl. apply list.Forall_forall. intros a Ha%list_elem_of_In. auto.
Qed.

Lemma typed_add_if b l : typed_avps l -> typed_avps (add_if b l).
Proof. by destruct b; [|constructor]. Qed.

Lemma typed_stack l : Forall stack_avp l -> typed_avps l.
Proof. intros Hl. eapply list.Forall_impl; [exact Hl|]. unfold of_stack. tauto. Qed.
End typed.

Lemma forallb_map {A B} (f : A -> B) p (l : list A) :
  forallb p (map f l) = forallb (fun x => p (f x)) l.
Proof. induction l; simpl; congruence. Qed.

Lemma forallb_true {A} (p : A -> bool) l : (forall x, x ∈ l -> p x = true) -> forallb p l = true.
Proof. intros Hp. apply forallb_forall. intros x Hx%list_elem_of_In. auto. Qed.

(** ** The messages *)

Definition int32s (l : list Z) : Prop := Forall (fun z => is_int32 z = true) l.

Section messages.
Context `{LawfulDiameterStack}.

(** The messages [src/cx.cpp] builds; an [int32_t] or [uint32_t] parameter is within
    its width. *)
Inductive built : message -> Prop :=
| built_uar dest_host dest_realm impi impu visited type emergency :
    built (user_authorization_request dest_host dest_realm impi impu visited type emergency)
| built_lir dest_host dest_realm originating impu type :
    built (location_info_request dest_host dest_realm originating impu type)
| built_mar dest_realm dest_host impi impu server_name scheme authorization :
    built (multimedia_auth_request dest_realm dest_host impi impu server_name scheme authorization)
| built_sar dest_host dest_realm impi impu server_name type shared_ifcs wildcard :
    built (server_assignment_request dest_host dest_realm impi impu server_name type shared_ifcs
             wildcard)
| built_uaa rc vendor_id experimental server_name c :
    is_int32 rc = true -> is_uint32 vendor_id = true -> is_int32 experimental = true ->
    int32s (mandatory_capabilities c) -> int32s (optional_capabilities c) ->
    built (user_authorization_answer rc vendor_id experimental server_name c)
| built_lia rc vendor_id experimental server_name c wildcard :
    is_int32 rc = true -> is_uint32 vendor_id = true -> is_int32 experimental = true ->
    int32s (mandatory_capabilities c) -> int32s (optional_capabilities c) ->
    built (location_info_answer rc vendor_id experimental server_name c wildcard)
| built_saa rc vendor_id experimental text c wildcard m :
    is_int32 rc = true -> is_uint32 vendor_id = true -> is_int32 experimental = true ->
    server_assignment_answer rc vendor_id experimental text c wildcard = Some m -> built m
| built_maa rc vendor_id experimental scheme digest aka :
    is_int32 rc = true -> is_uint32 vendor_id = true -> is_int32 experimental = true ->
    built (multimedia_auth_answer rc vendor_id experimental scheme digest aka)
| built_rtr reason impi associated impus state :
    is_int32 reason = true -> is_int32 state = true ->
    built (registration_termination_request reason impi associated impus state)
| built_ppr impi text c state m :
    is_int32 state = true -> push_profile_request impi text c state = Some m -> built m
| built_rta rtr rc state associated :
    is_int32 state = true -> built (registration_termination_answer rtr rc state associated)
| built_ppa ppr rc state :
    is_int32 state = true -> built (push_profile_answer ppr rc state).

Section parts.
Context (cmd : command).

Lemma typed_map_str n l : type_of n = AString -> typed_avps cmd (map (str n) l).
Proof. intros Hn. apply typed_own. rewrite forallb_map. apply forallb_true. intros x _. cbn. by rewrite Hn. Qed.

Lemma typed_capabilities c :
  int32s (mandatory_capabilities c) -> int32s (optional_capabilities c) ->
  typed_avps cmd [capabilities_avp c].
Proof.
  intros Hm Ho. apply typed_own. cbn [forallb]. rewrite andb_true_r. unfold capabilities_avp.
  erewrite well_typed_group by reflexivity.
  rewrite !forallb_app, !forallb_map. apply andb_true_iff. split; [by destruct (str_empty _)|].
  apply andb_true_iff. unfold int32s in *. rewrite list.Forall_forall in Hm, Ho.
  split; apply forallb_true; intros z Hz; (apply andb_true_iff; split; [by vm_compute|cbn; auto]).
Qed.

Lemma typed_charging c l : charging_information c = Some l -> typed_avps cmd l.
Proof.
  unfold charging_information. destruct (addrs_empty c); [intros [= <-]; constructor|].
  destruct (ccfs c) as [|c1 [|c2 cs]], (ecfs c) as [|e1 [|e2 es]]; cbn; intros [= <-];
    by apply typed_own.
Qed.

Lemma typed_result rc vendor_id experimental :
  is_int32 rc = true -> is_uint32 vendor_id = true -> is_int32 experimental = true ->
  typed_avps cmd [result_avp rc vendor_id experimental].
Proof.
  intros Hr Hv He. apply typed_own. unfold result_avp. destruct (rc =? 0); cbn; by rewrite ?Hr, ?Hv, ?He.
Qed.

Lemma typed_associated l :
  typed_avps cmd [group ASSOCIATED_IDENTITIES (map (str USER_NAME) l)].
Proof.
  apply typed_own. cbn [forallb]. rewrite andb_true_r.
  erewrite well_typed_group by reflexivity. rewrite forallb_map. by apply forallb_true.
Qed.

Lemma typed_i32 n z : type_of n = AInt32 -> is_int32 z = true -> typed_avps cmd [i32 n z].
Proof. intros Hn Hz. apply typed_own. cbn. by rewrite Hn, Hz. Qed.

Lemma typed_response rc l state :
  cmd = REGISTRATION_TERMINATION_ANSWER \/ cmd = PUSH_PROFILE_ANSWER -> is_int32 state = true ->
  typed_avps cmd (set_result_code rc (build_response l ++ app_id_avps) ++ [i32 AUTH_SESSION_STATE state]).
Proof.
  intros Hcmd Hs. destruct (set_result_code_adds rc (build_response l ++ app_id_avps)) as (a & -> & Ha).
  rewrite !typed_app. split_and!; [apply typed_stack..| |by apply typed_i32].
  - apply build_response_own.
  - apply app_id_own.
  - constructor; [|constructor]. left. unfold of_stack. tauto.
Qed.
End parts.

(** Splits a list of AVPs into what the message adds and what the stack adds. *)
Ltac typed_parts :=
  repeat match goal with
  | |- typed_avps _ (_ ++ _) => apply typed_app; split
  | |- typed_avps _ (?a :: ?b :: ?l) => apply (typed_app _ [a] (b :: l)); split
  | |- typed_avps _ (?a :: ?l ++ ?r) => apply (typed_app _ [a] (l ++ r)); split
  | H : charging_information _ = Some ?l |- typed_avps _ (?a :: ?l) =>
      apply (typed_app _ [a] l); split
  | |- typed_avps _ [] => constructor
  | |- typed_avps _ (add_if _ _) => apply typed_add_if
  | H : Forall stack_avp ?l |- typed_avps _ ?l => exact (typed_stack _ l H)
  | |- typed_avps _ [result_avp _ _ _] => by apply typed_result
  | |- typed_avps _ [capabilities_avp _] => by apply typed_capabilities
  | |- typed_avps _ (map (str _) _) => by apply typed_map_str
  | |- typed_avps _ [i32 _ _] => by apply typed_i32
  | |- typed_avps _ [group ASSOCIATED_IDENTITIES _] => apply typed_associated
  | H : charging_information _ = Some ?l |- typed_avps _ ?l => exact (typed_charging _ _ l H)
  | |- context [add_if ?b _] => destruct b; cbn [add_if]
  | |- context [if ?b then _ else _] => destruct b
  | |- typed_avps _ _ =>
      apply typed_own; cbv -[is_int32 is_uint32 is_member];
      repeat match goal with
      | |- context [is_member ?n ?l] => replace (is_member n l) with true by (by vm_compute)
      end;
      repeat match goal with H : ?b = true |- context [?b] => rewrite H end; reflexivity
  end.

Lemma built_typed m : built m -> typed_avps (msg_command m) (msg_avps m).
Proof.
  pose proof session_id_own. pose proof app_id_own. pose proof origin_own.
  destruct 1; unfold user_authorization_request, location_info_request, multimedia_auth_request,
    server_assignment_request, user_authorization_answer, location_info_answer,
    multimedia_auth_answer, registration_termination_request, registration_termination_answer,
    push_profile_answer; cbn [msg_avps msg_command].
  - typed_parts.
  - typed_parts.
  - typed_parts.
  - destruct type; typed_parts.
  - typed_parts.
  - typed_parts.
  - unfold server_assignment_answer in *. destruct (charging_information c) as [l|] eqn:El; [|done].
    match goal with E : _ = Some m |- _ => injection E as <- end. cbn [msg_avps msg_command]. typed_parts.
  - typed_parts.
  - typed_parts.
  - unfold push_profile_request in *. destruct (charging_information c) as [l|] eqn:El; [|done].
    match goal with E : _ = Some m |- _ => injection E as <- end. cbn [msg_avps msg_command]. typed_parts.
  - rewrite app_assoc. apply typed_app. split; [by apply typed_response; [left|]|typed_parts].
  - by apply typed_response; [right|].
Qed.

(** ** Reading at the right type *)

(** An AVP of a list, below groups of the given names. *)
Inductive within : list avp_name -> list avp -> avp -> Prop :=
| within_top l a : a ∈ l -> within [] l a
| within_group g gs l l' a : group g l' ∈ l -> within gs l' a -> within (g :: gs) l a.

(** The AVPs of a name are well typed in a list. *)
Definition ok (n : avp_name) (l : list avp) : Prop :=
  forall a, a ∈ l -> avp_key a = n -> well_typed a = true.

(** What is read of an AVP of a type. *)
Definition value_of (n : avp_name) (a : avp) : Prop :=
  match type_of n with
  | AString => a = str n (val_str a)
  | AInt32 => a = i32 n (val_i32 a) /\ int32_range (val_i32 a)
  | AUnsigned32 => a = u32 n (val_u32 a) /\ 0 <= val_u32 a < 2 ^ 32
  | AGroup _ => a = group n (children a) /\ forall k, ok k (children a)
  end.

Lemma well_typed_value n a : avp_key a = n -> well_typed a = true -> value_of n a.
Proof.
  destruct a as [k v]. cbn [avp_key]. intros -> Hw. unfold value_of.
  destruct (type_of n) as [| | |members] eqn:Ht.
  1-3: cbn in Hw; rewrite Ht in Hw; destruct v; try done.
  1-2: split; [done|]; unfold is_int32, is_uint32 in Hw; unfold int32_range; cbn; lia.
  destruct v as [| | |l]; try (cbn in Hw; by rewrite Ht in Hw). split; [done|].
  fold (group n l) in Hw. rewrite (well_typed_group _ _ _ Ht), forallb_forall in Hw.
  intros k b Hb%list_elem_of_In _. by destruct (proj1 (andb_true_iff _ _) (Hw b Hb)).
Qed.

Lemma avps_elem n l a : a ∈ avps n l -> a ∈ l /\ avp_key a = n.
Proof.
  rewrite !list_elem_of_In. by intros [? ?%bool_decide_eq_true]%List.filter_In.
Qed.

Lemma avps_value n l a : ok n l -> a ∈ avps n l -> a ∈ l /\ value_of n a.
Proof. intros Hok [Hin Hk]%avps_elem. split; [done|]. apply well_typed_value; [done|by apply Hok]. Qed.

Lemma first_avp_elem n l a : first_avp n l = Some a -> a ∈ avps n l.
Proof. unfold first_avp. destruct (avps n l); [done|]. intros [= ->]. left. Qed.

Lemma first_value n l a : ok n l -> first_avp n l = Some a -> a ∈ l /\ value_of n a.
Proof. intros Hok ?%first_avp_elem. by apply avps_value. Qed.

Lemma group_value g members l a :
  ok g l -> type_of g = AGroup members -> first_avp g l = Some a ->
  group g (children a) ∈ l /\ forall k, ok k (children a).
Proof.
  intros Hok Ht Ha. destruct (first_value _ _ _ Hok Ha) as [Hin Hv]. unfold value_of in Hv.
  rewrite Ht in Hv. destruct Hv as [Hv Hc]. by rewrite Hv in Hin.
Qed.

Lemma in_group_value g members n l b :
  ok g l -> type_of g = AGroup members -> b ∈ in_group g n l ->
  exists l', group g l' ∈ l /\ b ∈ l' /\ value_of n b.
Proof.
  unfold in_group. intros Hok Ht Hb. destruct (first_avp g l) as [a|] eqn:E; [|by apply not_elem_of_nil in Hb].
  destruct (group_value _ _ _ _ Hok Ht E) as [Hin Hc].
  destruct (avps_value n (children a) b (Hc n) Hb) as [? ?]. by exists (children a).
Qed.

(** The AVPs that the program reads are its own, not the stack's. *)
Lemma built_ok m n :
  built m -> cx_name n = true -> n <> RESULT_CODE -> n <> EXPERIMENTAL_RESULT -> ok n (msg_avps m).
Proof.
  intros Hm%built_typed Hn H1 H2 a Ha <-. unfold typed_avps in Hm.
  rewrite list.Forall_forall in Hm.
  destruct (Hm a Ha) as [[[Hs|[Hs|[Hs|Hs]]]|[_ [Hs|Hs]]]|]; [..|done]; by rewrite Hs in *.
Qed.

(** ** The accessors *)

Definition string_at (m : message) (gs : list avp_name) (n : avp_name) (s : string) : Prop :=
  within gs (msg_avps m) (str n s).
Definition int_at (m : message) (gs : list avp_name) (n : avp_name) (z : Z) : Prop :=
  within gs (msg_avps m) (i32 n z) /\ int32_range z.

(** A field that is empty when nothing was found. *)
Definition field_at (m : message) (gs : list avp_name) (ns : list avp_name) (f : string -> string)
    (s : string) : Prop :=
  s = ""%string \/ exists n t, In n ns /\ s = f t /\ string_at m gs n t.

Context (m : message) (Hm : built m).

Lemma get_str_at n s :
  cx_name n = true -> type_of n = AString -> get_str_from_avp n m = Some s -> string_at m [] n s.
Proof.
  unfold get_str_from_avp. intros Hn Ht Hs. destruct (first_avp n (msg_avps m)) as [a|] eqn:E; [|done].
  injection Hs as <-. destruct (first_value n (msg_avps m) a) as [Hin Hv]; [|done|].
  { apply built_ok; [done..| |]; by intros ->. }
  constructor. unfold value_of in Hv. rewrite Ht in Hv. by rewrite <- Hv.
Qed.

Lemma get_i32_at n z :
  cx_name n = true -> type_of n = AInt32 -> n <> RESULT_CODE -> get_i32_from_avp n m = Some z ->
  int_at m [] n z.
Proof.
  unfold get_i32_from_avp. intros Hn Ht Hr Hs.
  destruct (first_avp n (msg_avps m)) as [a|] eqn:E; [|done].
  injection Hs as <-. destruct (first_value n (msg_avps m) a) as [Hin Hv]; [|done|].
  { apply built_ok; [done..|]; by intros ->. }
  unfold value_of in Hv. rewrite Ht in Hv. destruct Hv as [Hv Hz]. split; [|done].
  constructor. by rewrite <- Hv.
Qed.

Lemma get_u32_at n z :
  cx_name n = true -> type_of n = AUnsigned32 -> get_u32_from_avp n m = Some z ->
  within [] (msg_avps m) (u32 n z) /\ 0 <= z < 2 ^ 32.
Proof.
  unfold get_u32_from_avp. intros Hn Ht Hs. destruct (first_avp n (msg_avps m)) as [a|] eqn:E; [|done].
  injection Hs as <-. destruct (first_value n (msg_avps m) a) as [Hin Hv]; [|done|].
  { apply built_ok; [done..| |]; by intros ->. }
  unfold value_of in Hv. rewrite Ht in Hv. destruct Hv as [Hv Hz]. split; [|done].
  constructor. by rewrite <- Hv.
Qed.

Lemma in_group_str_at g members n s :
  cx_name g = true -> g <> EXPERIMENTAL_RESULT -> type_of g = AGroup members -> type_of n = AString ->
  s ∈ map val_str (in_group g n (msg_avps m)) -> string_at m [g] n s.
Proof.
  intros Hg Hne Ht Hn (b & -> & Hb)%list_elem_of_fmap.
  destruct (in_group_value g members n (msg_avps m) b) as (l & Hl & Hin & Hv); [|done..|].
  { apply built_ok; [done..| |done]. by intros ->. }
  unfold value_of in Hv. rewrite Hn in Hv. econstructor; [done|]. constructor. by rewrite <- Hv.
Qed.

Lemma in_group_i32_at g members n z :
  cx_name g = true -> g <> EXPERIMENTAL_RESULT -> type_of g = AGroup members -> type_of n = AInt32 ->
  z ∈ map val_i32 (in_group g n (msg_avps m)) -> int_at m [g] n z.
Proof.
  intros Hg Hne Ht Hn (b & -> & Hb)%list_elem_of_fmap.
  destruct (in_group_value g members n (msg_avps m) b) as (l & Hl & Hin & Hv); [|done..|].
  { apply built_ok; [done..| |done]. by intros ->. }
  unfold value_of in Hv. rewrite Hn in Hv. destruct Hv as [Hv Hz]. split; [|done].
  econstructor; [done|]. constructor. by rewrite <- Hv.
Qed.

Lemma first_str_at g members n :
  cx_name g = true -> g <> EXPERIMENTAL_RESULT -> type_of g = AGroup members -> type_of n = AString ->
  field_at m [g] [n] (fun s => s) (first_str (in_group g n (msg_avps m))).
Proof.
  intros Hg Hne Ht Hn. destruct (in_group g n (msg_avps m)) as [|b l] eqn:E; [by left|].
  right. exists n, (val_str b). split; [by left|]. split; [done|].
  apply (in_group_str_at g members); [done..|]. rewrite E. left.
Qed.

Lemma digest_field_at item d cx base :
  first_avp SIP_AUTH_DATA_ITEM (msg_avps m) = Some item ->
  first_avp SIP_DIGEST_AUTHENTICATE (children item) = Some d ->
  type_of cx = AString -> type_of base = AString ->
  field_at m [SIP_AUTH_DATA_ITEM; SIP_DIGEST_AUTHENTICATE] [cx; base] (fun s => s)
    (digest_field cx base (children d)).
Proof.
  intros Ei Ed Hcx Hb.
  destruct (group_value SIP_AUTH_DATA_ITEM _ _ item (built_ok m SIP_AUTH_DATA_ITEM Hm eq_refl ltac:(done) ltac:(done))
    eq_refl Ei) as [Hi Hic].
  destruct (group_value SIP_DIGEST_AUTHENTICATE _ _ d (Hic _) eq_refl Ed) as [Hd Hdc].
  assert (Hx : forall n a, type_of n = AString -> first_avp n (children d) = Some a ->
    string_at m [SIP_AUTH_DATA_ITEM; SIP_DIGEST_AUTHENTICATE] n (val_str a)).
  { intros n a Hn [Hin Hv]%first_value; [|by apply Hdc]. unfold value_of in Hv. rewrite Hn in Hv.
    econstructor; [exact Hi|]. econstructor; [exact Hd|]. constructor. by rewrite <- Hv. }
  unfold digest_field. destruct (first_avp cx (children d)) as [a|] eqn:E1.
  { right. exists cx, (val_str a). simpl. auto. }
  destruct (first_avp base (children d)) as [a|] eqn:E2; [|by left].
  right. exists base, (val_str a). simpl. auto.
Qed.

Lemma digest_at :
  let d := digest_auth_vector m in
  let path := [SIP_AUTH_DATA_ITEM; SIP_DIGEST_AUTHENTICATE] in
  field_at m path [CX_DIGEST_HA1; DIGEST_HA1] (fun s => s) (ha1 d) /\
  field_at m path [CX_DIGEST_REALM; DIGEST_REALM] (fun s => s) (realm d) /\
  field_at m path [CX_DIGEST_QOP; DIGEST_QOP] (fun s => s) (qop d).
Proof.
  cbv zeta. unfold digest_auth_vector.
  destruct (first_avp SIP_AUTH_DATA_ITEM _) as [item|] eqn:Ei; [|by split_and!; left].
  destruct (first_avp SIP_DIGEST_AUTHENTICATE _) as [d|] eqn:Ed; [|by split_and!; left].
  cbn [ha1 realm qop]. split_and!; by eapply digest_field_at.
Qed.

Lemma aka_at `{Binary} :
  let a := aka_auth_vector m in
  field_at m [SIP_AUTH_DATA_ITEM] [SIP_AUTHENTICATE] base64_encode (challenge a) /\
  field_at m [SIP_AUTH_DATA_ITEM] [SIP_AUTHORIZATION] hex (response a) /\
  field_at m [SIP_AUTH_DATA_ITEM] [CONFIDENTIALITY_KEY] hex (crypt_key a) /\
  field_at m [SIP_AUTH_DATA_ITEM] [INTEGRITY_KEY] hex (integrity_key a).
Proof.
  cbv zeta. unfold aka_auth_vector.
  destruct (first_avp SIP_AUTH_DATA_ITEM _) as [item|] eqn:Ei; [|by split_and!; left].
  destruct (group_value SIP_AUTH_DATA_ITEM _ _ item (built_ok m SIP_AUTH_DATA_ITEM Hm eq_refl ltac:(done) ltac:(done))
    eq_refl Ei) as [Hi Hic].
  assert (Hx : forall n f, type_of n = AString ->
    field_at m [SIP_AUTH_DATA_ITEM] [n] f
      match first_avp n (children item) with Some a => f (val_str a) | None => ""%string end).
  { intros n f Hn. destruct (first_avp n (children item)) as [a|] eqn:E; [|by left].
    destruct (first_value _ _ _ (Hic n) E) as [Hin Hv]. unfold value_of in Hv. rewrite Hn in Hv.
    right. exists n, (val_str a). split; [by left|]. split; [done|].
    econstructor; [exact Hi|]. constructor. by rewrite <- Hv. }
  cbn [challenge response crypt_key integrity_key]. split_and!; by apply Hx.
Qed.

Lemma charging_at :
  let path := [CHARGING_INFORMATION] in
  (forall s, s ∈ ccfs (snd (charging_addrs m)) ->
     string_at m path PRIMARY_CHARGING_COLLECTION_FUNCTION_NAME s \/
     string_at m path SECONDARY_CHARGING_COLLECTION_FUNCTION_NAME s) /\
  (forall s, s ∈ ecfs (snd (charging_addrs m)) ->
     string_at m path PRIMARY_EVENT_CHARGING_FUNCTION_NAME s \/
     string_at m path SECONDARY_EVENT_CHARGING_FUNCTION_NAME s).
Proof.
  cbv zeta. unfold charging_addrs.
  destruct (first_avp CHARGING_INFORMATION _) as [item|] eqn:Ei;
    [|by split; intros s ?%not_elem_of_nil].
  destruct (group_value CHARGING_INFORMATION _ _ item (built_ok m CHARGING_INFORMATION Hm eq_refl ltac:(done) ltac:(done))
    eq_refl Ei) as [Hi Hic].
  assert (Hx : forall n s, type_of n = AString ->
    s ∈ match first_avp n (children item) with Some x => [val_str x] | None => [] end ->
    string_at m [CHARGING_INFORMATION] n s).
  { intros n s Hn Hs. destruct (first_avp n (children item)) as [a|] eqn:E; [|by apply not_elem_of_nil in Hs].
    apply list_elem_of_singleton in Hs as ->.
    destruct (first_value _ _ _ (Hic n) E) as [Hin Hv]. unfold value_of in Hv. rewrite Hn in Hv.
    econstructor; [exact Hi|]. constructor. by rewrite <- Hv. }
  cbn [snd ccfs ecfs]. split; intros s [Hs|Hs]%elem_of_app; [left|right|left|right]; by apply Hx.
Qed.

Lemma rtr_impus_at s : s ∈ rtr_impus m -> string_at m [] PUBLIC_IDENTITY s.
Proof.
  intros (b & -> & Hb)%list_elem_of_fmap.
  destruct (avps_value PUBLIC_IDENTITY (msg_avps m) b) as [Hin Hv]; [by apply built_ok|done|].
  constructor. unfold value_of in Hv. cbn in Hv. by rewrite <- Hv.
Qed.

Lemma impu_at : field_at m [] [PUBLIC_IDENTITY] (fun s => s) (impu m).
Proof.
  unfold impu. destruct (get_str_from_avp PUBLIC_IDENTITY m) as [s|] eqn:E; [|by left].
  right. exists PUBLIC_IDENTITY, s. split; [by left|]. split; [done|]. by apply get_str_at.
Qed.

Lemma reason_at :
  deregistration_reason m = 0 \/ int_at m [DEREGISTRATION_REASON] REASON_CODE (deregistration_reason m).
Proof.
  unfold deregistration_reason. destruct (in_group _ _ _) as [|b l] eqn:E; [by left|]. right.
  apply (in_group_i32_at DEREGISTRATION_REASON [REASON_CODE]); [done..|]. rewrite E. left.
Qed.
End messages.

(** C37: Every message the program builds is well typed: a value it adds, at any
    depth of groups, the results of the answers it builds included, has the type
    and width at which the source reads AVPs of that name, and a group holds only
    AVPs that are looked for there; of the other AVPs of a message the stack alone
    decides, which are its own and the result that completes an RTA or a PPA.  So
    every accessor gives a value that was added at its own type, under the groups
    where it is looked for, or what the source gives when there is none. *)
Theorem messages_well_typed `{LawfulDiameterStack} `{Binary} m :
  built m ->
  Forall (fun a => of_stack (msg_command m) a \/ well_typed a = true) (msg_avps m) /\
  (field_at m [] [PUBLIC_IDENTITY] (fun s => s) (impu m) /\
   (forall s, s ∈ rtr_impus m -> string_at m [] PUBLIC_IDENTITY s) /\
   (forall s, get_str_from_avp USER_NAME m = Some s -> string_at m [] USER_NAME s) /\
   (forall s, Accessors.visited_network m = Some s -> string_at m [] VISITED_NETWORK_IDENTIFIER s) /\
   (forall s, Accessors.server_name m = Some s -> string_at m [] SERVER_NAME s) /\
   (forall s, Accessors.wildcarded_public_identity m = Some s ->
      string_at m [] WILDCARDED_PUBLIC_IDENTITY s) /\
   (forall s, Accessors.get_wildcard m = Some s -> string_at m [] WILDCARDED_PUBLIC_IDENTITY s) /\
   (forall s, Accessors.user_data m = Some s -> string_at m [] USER_DATA s)) /\
  ((forall z, get_i32_from_avp AUTH_SESSION_STATE m = Some z -> int_at m [] AUTH_SESSION_STATE z) /\
   (forall z, Accessors.auth_type m = Some z -> int_at m [] USER_AUTHORIZATION_TYPE z) /\
   (forall z, Accessors.originating m = Some z -> int_at m [] ORIGINATING_REQUEST z) /\
   (forall z, Accessors.sip_number_auth_items m = Some z -> int_at m [] SIP_NUMBER_AUTH_ITEMS z) /\
   (forall z, Accessors.server_assignment_type m = Some z -> int_at m [] SERVER_ASSIGNMENT_TYPE z) /\
   (forall z, Accessors.user_data_already_available m = Some z ->
      int_at m [] USER_DATA_ALREADY_AVAILABLE z) /\
   (forall z, Accessors.uar_flags m = Some z ->
      within [] (msg_avps m) (u32 UAR_FLAGS z) /\ 0 <= z < 2 ^ 32) /\
   (deregistration_reason m = 0 \/
      int_at m [DEREGISTRATION_REASON] REASON_CODE (deregistration_reason m))) /\
  ((forall z, z ∈ mandatory_capabilities (server_capabilities m) ->
      int_at m [SERVER_CAPABILITIES] MANDATORY_CAPABILITY z) /\
   (forall z, z ∈ optional_capabilities (server_capabilities m) ->
      int_at m [SERVER_CAPABILITIES] OPTIONAL_CAPABILITY z) /\
   field_at m [SERVER_CAPABILITIES] [SERVER_NAME] (fun s => s)
     (cap_server_name (server_capabilities m))) /\
  (field_at m [SIP_AUTH_DATA_ITEM] [SIP_AUTH_SCHEME] (fun s => s) (sip_auth_scheme m) /\
   field_at m [SIP_AUTH_DATA_ITEM] [SIP_AUTHORIZATION] (fun s => s) (sip_authorization m)) /\
  (let d := digest_auth_vector m in
   let path := [SIP_AUTH_DATA_ITEM; SIP_DIGEST_AUTHENTICATE] in
   field_at m path [CX_DIGEST_HA1; DIGEST_HA1] (fun s => s) (ha1 d) /\
   field_at m path [CX_DIGEST_REALM; DIGEST_REALM] (fun s => s) (realm d) /\
   field_at m path [CX_DIGEST_QOP; DIGEST_QOP] (fun s => s) (qop d)) /\
  (let a := aka_auth_vector m in
   field_at m [SIP_AUTH_DATA_ITEM] [SIP_AUTHENTICATE] base64_encode (challenge a) /\
   field_at m [SIP_AUTH_DATA_ITEM] [SIP_AUTHORIZATION] hex (response a) /\
   field_at m [SIP_AUTH_DATA_ITEM] [CONFIDENTIALITY_KEY] hex (crypt_key a) /\
   field_at m [SIP_AUTH_DATA_ITEM] [INTEGRITY_KEY] hex (integrity_key a)) /\
  ((forall s, s ∈ ccfs (snd (charging_addrs m)) ->
      string_at m [CHARGING_INFORMATION] PRIMARY_CHARGING_COLLECTION_FUNCTION_NAME s \/
      string_at m [CHARGING_INFORMATION] SECONDARY_CHARGING_COLLECTION_FUNCTION_NAME s) /\
   (forall s, s ∈ ecfs (snd (charging_addrs m)) ->
      string_at m [CHARGING_INFORMATION] PRIMARY_EVENT_CHARGING_FUNCTION_NAME s \/
      string_at m [CHARGING_INFORMATION] SECONDARY_EVENT_CHARGING_FUNCTION_NAME s)) /\
  (forall s, s ∈ associated_identities m -> string_at m [ASSOCIATED_IDENTITIES] USER_NAME s).
Proof.
  intros Hm. split; [exact (built_typed m Hm)|]. split_and!;
    try (intros; by apply get_str_at); try (intros; by apply get_i32_at).
  - by apply impu_at.
  - intros. by apply rtr_impus_at.
  - intros. by apply get_u32_at.
  - by apply reason_at.
  - intros z Hz. by apply (in_group_i32_at m Hm SERVER_CAPABILITIES _ MANDATORY_CAPABILITY z eq_refl ltac:(done) eq_refl).
  - intros z Hz. by apply (in_group_i32_at m Hm SERVER_CAPABILITIES _ OPTIONAL_CAPABILITY z eq_refl ltac:(done) eq_refl).
  - by eapply first_str_at.
  - by eapply first_str_at.
  - by eapply first_str_at.
  - exact (digest_at m Hm).
  - exact (aka_at m Hm).
  - apply (charging_at m Hm).
  - apply (charging_at m Hm).
  - intros s Hs. by apply (in_group_str_at m Hm ASSOCIATED_IDENTITIES _ USER_NAME s eq_refl ltac:(done) eq_refl).
Qed.

Lemma messages_well_typed_witness :
  let maa := multimedia_auth_answer 0 10415 5001 "SIP Digest"
    (mkDigestAuthVector "ha1" "realm" "auth") empty_aka_av in
  well_typed (group EXPERIMENTAL_RESULT [i32 EXPERIMENTAL_RESULT_CODE 5001; u32 VENDOR_ID 10415])
    = true /\
  Forall (fun a => of_stack MULTIMEDIA_AUTH_ANSWER a \/ well_typed a = true) (msg_avps maa).
Proof.
  intros maa. split; [vm_compute; reflexivity|].
  apply (proj1 (messages_well_typed (H := SampleStack.stack) (H0 := SampleStack.lawful)
    (H1 := Build_Binary (fun s => s) (fun s => s)) maa
    (built_maa 0 10415 5001 "SIP Digest" (mkDigestAuthVector "ha1" "realm" "auth") empty_aka_av
       eq_refl eq_refl eq_refl))).
Defined.
