(* ===== verification/DiameterHss.v ===== *)
(** * The Diameter connection to the HSS

    [src/diameter_hss_connection.cpp]: the requests it sends, and how the four
    transactions turn a Diameter answer, or its absence, into an answer for the
    handlers; and the counters and latency statistics it updates. *)

From Stdlib Require Import String Ascii ZArith Lia.
From stdpp Require Import base list strings option.
From S2P Require Import Prelude Types Env Irs HttpTasks HttpImpi CxMessages.
Import HssConnection.
Open Scope Z_scope.

(** The destination every request names. *)
Record DiameterHssConnection := mkDiameterHssConnection {
  _dest_realm : string;
  _dest_host : string;
  schemes : AuthSchemes
}.

Section connection.
Context `{DiameterStack} `{Binary}.

(** ** Requests *)

Definition send_multimedia_auth_request (c : DiameterHssConnection) (r : MultimediaAuthRequest)
    : message :=
  multimedia_auth_request (_dest_realm c) (_dest_host c) (mar_impi r) (mar_impu r)
    (mar_server_name r) (mar_scheme r) (mar_authorization r).

Definition send_user_auth_request (c : DiameterHssConnection) (r : UserAuthRequest) : message :=
  user_authorization_request (_dest_host c) (_dest_realm c) (uar_impi r) (uar_impu r)
    (uar_visited_network r) (uar_authorization_type r) (uar_emergency r).

Definition send_location_info_request (c : DiameterHssConnection) (r : LocationInfoRequest)
    : message :=
  location_info_request (_dest_host c) (_dest_realm c) (lir_originating r) (lir_impu r)
    (lir_authorization_type r).

Definition send_server_assignment_request (c : DiameterHssConnection) (r : ServerAssignmentRequest)
    : message :=
  server_assignment_request (_dest_host c) (_dest_realm c) (sar_impi r) (sar_impu r)
    (sar_server_name r) (sar_type r) (sar_support_shared_ifcs r) (sar_wildcard_impu r).

(** ** Answers: [create_answer] of each transaction *)

Definition mar_create_answer (c : DiameterHssConnection) (rsp : message) : MultimediaAuthAnswer :=
  let rc := result_code rsp in
  let '(experimental, vendor_id) := experimental_result rsp in
  if rc =? DIAMETER_SUCCESS then
    let auth_scheme := sip_auth_scheme rsp in
    if String.eqb auth_scheme (scheme_digest (schemes c)) then
      mkMultimediaAuthAnswer SUCCESS (Some (Digest (digest_auth_vector rsp))) auth_scheme
    else if String.eqb auth_scheme (scheme_akav1 (schemes c)) then
      mkMultimediaAuthAnswer SUCCESS (Some (AKA (aka_auth_vector rsp))) auth_scheme
    else if String.eqb auth_scheme (scheme_akav2 (schemes c)) then
      mkMultimediaAuthAnswer SUCCESS (Some (AKA (akav2_auth_vector rsp))) auth_scheme
    else mkMultimediaAuthAnswer UNKNOWN_AUTH_SCHEME None auth_scheme
  else if rc =? DIAMETER_UNABLE_TO_DELIVER then mkMultimediaAuthAnswer SERVER_UNAVAILABLE None ""
  else if (experimental =? DIAMETER_ERROR_USER_UNKNOWN) && (vendor_id =? VENDOR_ID_3GPP) then
    mkMultimediaAuthAnswer NOT_FOUND None ""
  else mkMultimediaAuthAnswer UNKNOWN None "".

(** The server a UAA or LIA names, or the capabilities to choose one by. *)
Definition server_of_answer (rsp : message) : string * ServerCapabilities :=
  match Accessors.server_name rsp with
  | Some s => (s, no_capabilities)
  | None => (""%string, server_capabilities rsp)
  end.

Definition uar_create_answer (rsp : message) : UserAuthAnswer :=
  let rc := result_code rsp in
  let '(experimental, _) := experimental_result rsp in
  if (rc =? DIAMETER_SUCCESS) || (experimental =? DIAMETER_FIRST_REGISTRATION) ||
     (experimental =? DIAMETER_SUBSEQUENT_REGISTRATION) then
    let '(server, caps) := server_of_answer rsp in
    mkUserAuthAnswer SUCCESS (if rc =? 0 then experimental else rc) server caps
  else
    let failed r := mkUserAuthAnswer r 0 "" no_capabilities in
    if (experimental =? DIAMETER_ERROR_USER_UNKNOWN) ||
       (experimental =? DIAMETER_ERROR_IDENTITIES_DONT_MATCH) then failed NOT_FOUND
    else if (rc =? DIAMETER_AUTHORIZATION_REJECTED) ||
            (experimental =? DIAMETER_ERROR_ROAMING_NOT_ALLOWED) then failed FORBIDDEN
    else if rc =? DIAMETER_TOO_BUSY then failed TIMEOUT
    else if rc =? DIAMETER_UNABLE_TO_DELIVER then failed SERVER_UNAVAILABLE
    else failed UNKNOWN.

Definition lir_create_answer (rsp : message) : LocationInfoAnswer :=
  let rc := result_code rsp in
  let '(experimental, vendor_id) := experimental_result rsp in
  if (rc =? DIAMETER_SUCCESS) ||
     ((vendor_id =? VENDOR_ID_3GPP) &&
      ((experimental =? DIAMETER_UNREGISTERED_SERVICE) ||
       (experimental =? DIAMETER_ERROR_IDENTITY_NOT_REGISTERED))) then
    let '(server, caps) := server_of_answer rsp in
    mkLocationInfoAnswer SUCCESS (if rc =? 0 then experimental else rc) server caps
      (default "" (Accessors.wildcarded_public_identity rsp))
  else
    let failed r := mkLocationInfoAnswer r 0 "" no_capabilities "" in
    if (vendor_id =? VENDOR_ID_3GPP) && (experimental =? DIAMETER_ERROR_USER_UNKNOWN)
    then failed NOT_FOUND
    else if rc =? DIAMETER_TOO_BUSY then failed TIMEOUT
    else if rc =? DIAMETER_UNABLE_TO_DELIVER then failed SERVER_UNAVAILABLE
    else failed UNKNOWN.

Definition sar_create_answer (rsp : message) : ServerAssignmentAnswer :=
  let rc := result_code rsp in
  let '(experimental, vendor_id) := experimental_result rsp in
  if rc =? DIAMETER_SUCCESS then
    mkServerAssignmentAnswer SUCCESS (Accessors.saa_charging_addrs rsp)
      (default "" (Accessors.user_data rsp)) ""
  else if rc =? DIAMETER_UNABLE_TO_DELIVER then saa_of_rc SERVER_UNAVAILABLE
  else if (experimental =? DIAMETER_ERROR_USER_UNKNOWN) && (vendor_id =? VENDOR_ID_3GPP)
  then saa_of_rc NOT_FOUND
  else if experimental =? DIAMETER_ERROR_IN_ASSIGNMENT_TYPE then
    let wildcard := default ""%string (Accessors.wildcarded_public_identity rsp) in
    mkServerAssignmentAnswer (if str_empty wildcard then UNKNOWN else NEW_WILDCARD) no_addrs ""
      wildcard
  else saa_of_rc UNKNOWN.

(** ** Counters and latencies *)

Inductive DiameterAppId := BASE | TGPP | TIMEOUT_APP.

(** [increment_results]: the counter that is incremented, if any. *)
Definition increment_results (result experimental vendor : Z) : option (DiameterAppId * Z) :=
  if negb (result =? 0) then Some (BASE, result)
  else if negb (experimental =? 0) && (vendor =? VENDOR_ID_3GPP) then Some (TGPP, experimental)
  else None.

(** [StatsFlags] *)
Definition STAT_HSS_LATENCY : Z := 1.
Definition STAT_HSS_DIGEST_LATENCY : Z := 2.
Definition STAT_HSS_SUBSCRIPTION_LATENCY : Z := 4.
Definition DIGEST_STATS : Z := Z.lor STAT_HSS_LATENCY STAT_HSS_DIGEST_LATENCY.
Definition SUBSCRIPTION_STATS : Z := Z.lor STAT_HSS_LATENCY STAT_HSS_SUBSCRIPTION_LATENCY.

Inductive latency_stat := H_hss_latency_us | H_hss_digest_latency_us | H_hss_subscription_latency_us.

(** [update_latency_stats], with a statistics manager: [get_duration] gives the
    latency, which is taken off the stopwatch (if there is one) and added to the
    statistics of the flags. *)
Definition update_latency_stats (stat_updates : Z) (duration : option Z) (stopwatch : option Z)
    : option Z * list (latency_stat * Z) :=
  match duration with
  | None => (stopwatch, [])
  | Some latency =>
      ((fun t => t - latency) <$> stopwatch,
       (if negb (Z.land stat_updates STAT_HSS_LATENCY =? 0)
        then [(H_hss_latency_us, latency)] else []) ++
       (if negb (Z.land stat_updates STAT_HSS_DIGEST_LATENCY =? 0)
        then [(H_hss_digest_latency_us, latency)] else []) ++
       (if negb (Z.land stat_updates STAT_HSS_SUBSCRIPTION_LATENCY =? 0)
        then [(H_hss_subscription_latency_us, latency)] else []))
  end.

(** A transaction ends with a response, or with a timeout; each calls the
    callback with one answer. *)
Inductive tsx_event := on_response (rsp : message) | on_timeout.

Definition transaction {A} (create_answer : message -> A) (of_rc : ResultCode -> A) (e : tsx_event)
    : A :=
  match e with
  | on_response rsp => create_answer rsp
  | on_timeout => of_rc SERVER_UNAVAILABLE
  end.

(** The counter of the results table a transaction increments. *)
Definition transaction_results (e : tsx_event) : option (DiameterAppId * Z) :=
  match e with
  | on_response rsp =>
      let '(experimental, vendor_id) := experimental_result rsp in
      increment_results (result_code rsp) experimental vendor_id
  | on_timeout => Some (TIMEOUT_APP, 0)
  end.
End connection.

(** ** The results, by the answer's outcome *)

(** IMS mandates that exactly one of the two codes is set. *)
Inductive outcome :=
| Base (code : Z)
| Experimental (code vendor : Z).

Definition is_outcome `{DiameterStack} (o : outcome) (rsp : message) : Prop :=
  match o with
  | Base c => c <> 0 /\ result_code rsp = c /\ experimental_result rsp = (0, 0)
  | Experimental c v => c <> 0 /\ result_code rsp = 0 /\ experimental_result rsp = (c, v)
  end.

(** A table of codes; an absent code is UNKNOWN. *)
Fixpoint code_result (table : list (Z * ResultCode)) (c : Z) : ResultCode :=
  match table with
  | [] => UNKNOWN
  | (k, r) :: t => if c =? k then r else code_result t c
  end.

(** The tables of a transaction: Result-Code, Experimental-Result-Code of the
    3GPP vendor, and Experimental-Result-Code of any other vendor. *)
Record result_table := mkResultTable {
  base_codes : list (Z * ResultCode);
  tgpp_codes : list (Z * ResultCode);
  other_codes : list (Z * ResultCode)
}.

Definition table_result (t : result_table) (o : outcome) : ResultCode :=
  match o with
  | Base c => code_result (base_codes t) c
  | Experimental c v => code_result (if v =? VENDOR_ID_3GPP then tgpp_codes t else other_codes t) c
  end.

Definition mar_table (known_scheme : bool) : result_table := mkResultTable
  [(2001, if known_scheme then SUCCESS else UNKNOWN_AUTH_SCHEME); (3002, SERVER_UNAVAILABLE)]
  [(5001, NOT_FOUND)] [].

Definition uar_codes : list (Z * ResultCode) :=
  [(2001, SUCCESS); (2002, SUCCESS); (5001, NOT_FOUND); (5002, NOT_FOUND); (5004, FORBIDDEN)].

Definition uar_table : result_table := mkResultTable
  [(2001, SUCCESS); (5003, FORBIDDEN); (3004, TIMEOUT); (3002, SERVER_UNAVAILABLE)]
  uar_codes uar_codes.

Definition lir_table : result_table := mkResultTable
  [(2001, SUCCESS); (3004, TIMEOUT); (3002, SERVER_UNAVAILABLE)]
  [(2003, SUCCESS); (5003, SUCCESS); (5001, NOT_FOUND)] [].

Definition sar_table (wildcard : string) : result_table :=
  let new := if str_empty wildcard then UNKNOWN else NEW_WILDCARD in
  mkResultTable [(2001, SUCCESS); (3002, SERVER_UNAVAILABLE)]
    [(5001, NOT_FOUND); (5007, new)] [(5007, new)].

(** The code an outcome carries. *)
Definition outcome_code (o : outcome) : Z :=
  match o with Base c => c | Experimental c _ => c end.

(** Whether the scheme of an MAA is one of the configured ones. *)
Definition known_scheme `{DiameterStack} (c : DiameterHssConnection) (rsp : message) : bool :=
  String.eqb (sip_auth_scheme rsp) (scheme_digest (schemes c)) ||
  String.eqb (sip_auth_scheme rsp) (scheme_akav1 (schemes c)) ||
  String.eqb (sip_auth_scheme rsp) (scheme_akav2 (schemes c)).

(** Decide every comparison of codes in the goal. *)
Ltac decide_codes :=
  repeat match goal with
  | |- context [?c =? ?k] => destruct (Z.eqb_spec c k); subst; simpl; try lia
  end.

Section results.
Context `{DiameterStack} `{Binary}.

(** C32: the result an answer of the HSS is given is the one of the table of its
    transaction, for its result code or its experimental result code and vendor;
    only a User-Authorization takes experimental codes of any vendor, and an MAA
    of an unknown scheme is no success.  A UAA or LIA that succeeds reports the
    code it came with, and a transaction that times out is SERVER_UNAVAILABLE. *)
Theorem hss_answer_result c rsp o :
  is_outcome o rsp ->
  maa_result (mar_create_answer c rsp) = table_result (mar_table (known_scheme c rsp)) o /\
  uaa_result (uar_create_answer rsp) = table_result uar_table o /\
  lia_result (lir_create_answer rsp) = table_result lir_table o /\
  saa_result (sar_create_answer rsp) =
    table_result (sar_table (default ""%string (Accessors.wildcarded_public_identity rsp))) o /\
  (uaa_result (uar_create_answer rsp) = SUCCESS ->
   uaa_json_result (uar_create_answer rsp) = outcome_code o) /\
  (lia_result (lir_create_answer rsp) = SUCCESS ->
   lia_json_result (lir_create_answer rsp) = outcome_code o) /\
  saa_result (transaction sar_create_answer saa_of_rc on_timeout) = SERVER_UNAVAILABLE.
Proof.
  intros Ho. unfold mar_create_answer, uar_create_answer, lir_create_answer, sar_create_answer,
    known_scheme, server_of_answer.
  destruct o as [k|k v]; destruct Ho as (Hk & Hr & He); rewrite Hr, He; cbn [table_result];
    unfold DIAMETER_SUCCESS, DIAMETER_UNABLE_TO_DELIVER, DIAMETER_ERROR_USER_UNKNOWN,
      VENDOR_ID_3GPP, DIAMETER_FIRST_REGISTRATION, DIAMETER_SUBSEQUENT_REGISTRATION,
      DIAMETER_ERROR_IDENTITIES_DONT_MATCH, DIAMETER_AUTHORIZATION_REJECTED,
      DIAMETER_ERROR_ROAMING_NOT_ALLOWED, DIAMETER_TOO_BUSY, DIAMETER_UNREGISTERED_SERVICE,
      DIAMETER_ERROR_IDENTITY_NOT_REGISTERED, DIAMETER_ERROR_IN_ASSIGNMENT_TYPE in *;
    repeat match goal with |- _ /\ _ => split end; decide_codes; repeat (case_match; simpl); done.
Qed.

(** A transaction is counted once, under its own code, unless it ends with an
    experimental code of another vendor. *)
Lemma transaction_counted e o :
  match e with
  | on_timeout => transaction_results e = Some (TIMEOUT_APP, 0)
  | on_response rsp =>
      is_outcome o rsp ->
      transaction_results e =
        match o with
        | Base c => Some (BASE, c)
        | Experimental c v => if v =? VENDOR_ID_3GPP then Some (TGPP, c) else None
        end
  end.
Proof.
  destruct e as [rsp|]; [|done]. unfold transaction_results, increment_results.
  destruct o as [c|c v]; intros (Hc & Hr & He); rewrite He, Hr; cbn [negb Z.eqb];
    rewrite (proj2 (Z.eqb_neq _ _) Hc); [done|]. by destruct (v =? VENDOR_ID_3GPP).
Qed.

(** The configuration gives the connection and the handlers the same schemes. *)
Definition same_schemes (c : DiameterHssConnection) (cfg : ImpiConfig) : Prop :=
  scheme_digest (schemes c) = cfg_scheme_digest cfg /\
  scheme_akav1 (schemes c) = cfg_scheme_akav1 cfg /\
  scheme_akav2 (schemes c) = cfg_scheme_akav2 cfg.

(** The answers to Multimedia-Auth requests keep what the private-identity
    tasks rely on: on success the auth vector is there, of the kind the scheme
    names; and since an unknown scheme is no success, the tasks' own branch for
    an unknown scheme (404) is not reached: an AV request that succeeds is
    answered 200. *)
Theorem mar_answers_match c cfg e :
  same_schemes c cfg ->
  let a := transaction (mar_create_answer c) maa_of_rc e in
  av_matches cfg a /\ (maa_result a = SUCCESS -> success_code ImpiAvTask cfg a = HTTP_OK).
Proof.
  intros (Hd & H1' & H2') a. subst a. unfold av_matches, success_code. rewrite <- Hd, <- H1', <- H2'.
  destruct e as [rsp|]; [|done]. simpl. unfold mar_create_answer.
  destruct (experimental_result rsp) as [ex v].
  destruct (result_code rsp =? DIAMETER_SUCCESS).
  2:{ repeat case_match; done. }
  destruct (String.eqb _ (scheme_digest (schemes c))) eqn:E1; simpl; [rewrite E1; eauto|].
  destruct (String.eqb _ (scheme_akav1 (schemes c))) eqn:E2; simpl; [rewrite E1, E2; simpl; eauto|].
  destruct (String.eqb _ (scheme_akav2 (schemes c))) eqn:E3; simpl; [rewrite E1, E2, E3; simpl; eauto|].
  done.
Qed.
End results.

(** ** Witnesses *)

Module SampleBinary.
#[global] Instance binary : Binary := {| base64_encode := fun s => s; hex := fun s => s |}.
End SampleBinary.

Definition sample_connection : DiameterHssConnection :=
  mkDiameterHssConnection "example.com" "hss.example.com"
    (mkAuthSchemes "SIP Digest" "Digest-AKAv1-MD5" "Digest-AKAv2-SHA-256").

Definition sample_not_found : message :=
  user_authorization_answer 0 VENDOR_ID_3GPP DIAMETER_ERROR_USER_UNKNOWN "" no_capabilities.

Definition sample_maa_message : message :=
  multimedia_auth_answer 2001 0 0 "SIP Digest" (mkDigestAuthVector "ha1" "example.com" "auth")
    empty_aka_av.

Lemma hss_answer_result_witness :
  uaa_result (uar_create_answer sample_not_found) = NOT_FOUND.
Proof.
  assert (Ho : is_outcome (Experimental 5001 10415) sample_not_found).
  { split; [lia|]. split; reflexivity. }
  destruct (hss_answer_result sample_connection _ _ Ho) as (_ & E & _). rewrite E. reflexivity.
Defined.

Lemma mar_answers_match_witness :
  success_code ImpiAvTask sample_config
    (transaction (mar_create_answer sample_connection) maa_of_rc (on_response sample_maa_message)) =
  HTTP_OK.
Proof.
  assert (Hs : same_schemes sample_connection sample_config) by (repeat split).
  apply (mar_answers_match _ _ (on_response sample_maa_message) Hs). reflexivity.
Defined.
