(* ===== verification/HsProv.v ===== *)
(** * Homestead-prov in place of an HSS

    [src/hsprov_store.cpp] and [src/hsprov_hss_connection.cpp]: subscriber data
    read from Cassandra.  The Cassandra client is a parameter: a query returns
    columns, or fails with the result code the store gives its exception. *)

From Stdlib Require Import String Ascii ZArith Lia.
From stdpp Require Import base list strings option.
From S2P Require Import Prelude Types Env Irs HttpTasks HttpImpi.
Import HssConnection.
Open Scope Z_scope.

Definition IMPI : string := "impi".
Definition IMPU : string := "impu".
Definition IMS_SUB_XML_COLUMN_NAME : string := "ims_subscription_xml".
Definition PRIMARY_CCF_COLUMN_NAME : string := "primary_ccf".
Definition SECONDARY_CCF_COLUMN_NAME : string := "secondary_ccf".
Definition PRIMARY_ECF_COLUMN_NAME : string := "primary_ecf".
Definition SECONDARY_ECF_COLUMN_NAME : string := "secondary_ecf".
Definition ASSOC_PUBLIC_ID_COLUMN_PREFIX : string := "public_id_".
Definition DIGEST_HA1_COLUMN_NAME : string := "digest_ha1".
Definition DIGEST_REALM_COLUMN_NAME : string := "digest_realm".
Definition DIGEST_QOP_COLUMN_NAME : string := "digest_qop".

(** [CassandraStore::ResultCode]: not found, or any other failure. *)
Inductive CassResult := CASS_OK | CASS_NOT_FOUND | CASS_OTHER (n : Z).

Abbreviation column := (string * string)%type.

Class Cassandra := {
  ha_get_columns : string -> string -> list string -> CassResult + list column
}.

(** A query that fails does so with a code other than OK. *)
Class LawfulCassandra `{Cassandra} := {
  failure_is_not_ok : forall f k c, ha_get_columns f k c <> inl CASS_OK
}.

Section hsprov.
Context `{Cassandra}.
Context (configured_server_name : string) (schemes : AuthSchemes).

(** ** [GetRegData] *)

Record RegData := mkRegData { _xml : string; _charging_addrs : ChargingAddresses }.

Definition read_column (d : RegData) (c : column) : RegData :=
  let '(name, value) := c in
  let addrs := _charging_addrs d in
  if String.eqb name IMS_SUB_XML_COLUMN_NAME then mkRegData value addrs
  else if String.eqb name PRIMARY_CCF_COLUMN_NAME && negb (str_empty value) then
    mkRegData (_xml d) (mkChargingAddresses (value :: ccfs addrs) (ecfs addrs))
  else if String.eqb name SECONDARY_CCF_COLUMN_NAME && negb (str_empty value) then
    mkRegData (_xml d) (mkChargingAddresses (ccfs addrs ++ [value]) (ecfs addrs))
  else if String.eqb name PRIMARY_ECF_COLUMN_NAME && negb (str_empty value) then
    mkRegData (_xml d) (mkChargingAddresses (ccfs addrs) (value :: ecfs addrs))
  else if String.eqb name SECONDARY_ECF_COLUMN_NAME && negb (str_empty value) then
    mkRegData (_xml d) (mkChargingAddresses (ccfs addrs) (ecfs addrs ++ [value]))
  else d.

Definition reg_data_columns : list string :=
  [IMS_SUB_XML_COLUMN_NAME; PRIMARY_CCF_COLUMN_NAME; SECONDARY_CCF_COLUMN_NAME;
   PRIMARY_ECF_COLUMN_NAME; SECONDARY_ECF_COLUMN_NAME].

Definition get_reg_data (public_id : string) : CassResult * RegData :=
  match ha_get_columns IMPU public_id reg_data_columns with
  | inl e => (e, mkRegData "" no_addrs)
  | inr results => (CASS_OK, fold_left read_column results (mkRegData "" no_addrs))
  end.

(** ** [GetAuthVector] *)

(** The vector read so far, and whether the public identity was seen. *)
Definition read_av_column (public_id_col : string) (s : DigestAuthVector * bool) (c : column)
    : DigestAuthVector * bool :=
  let '(av, found) := s in
  let '(name, value) := c in
  if String.eqb name DIGEST_HA1_COLUMN_NAME then (mkDigestAuthVector value (realm av) (qop av), found)
  else if String.eqb name DIGEST_REALM_COLUMN_NAME then
    (mkDigestAuthVector (ha1 av) value (qop av), found)
  else if String.eqb name DIGEST_QOP_COLUMN_NAME then
    (mkDigestAuthVector (ha1 av) (realm av) value, found)
  else if String.eqb name public_id_col then (av, true)
  else (av, found).

Definition get_auth_vector (private_id public_id : string) : CassResult * DigestAuthVector :=
  let requested := negb (str_empty public_id) in
  let public_id_col := if requested then ASSOC_PUBLIC_ID_COLUMN_PREFIX +:+ public_id else ""%string in
  let columns :=
    [DIGEST_HA1_COLUMN_NAME; DIGEST_REALM_COLUMN_NAME; DIGEST_QOP_COLUMN_NAME] ++
    (if requested then [public_id_col] else []) in
  match ha_get_columns IMPI private_id columns with
  | inl e => (e, empty_digest_av)
  | inr results =>
      let '(av, found) := fold_left (read_av_column public_id_col) results (empty_digest_av, false) in
      if requested && negb found then (CASS_NOT_FOUND, av)
      else if str_empty (ha1 av) then (CASS_NOT_FOUND, av)
      else (CASS_OK, av)
  end.

(** ** The connection *)

Definition failure_result (r : CassResult) : ResultCode :=
  match r with CASS_NOT_FOUND => NOT_FOUND | _ => TIMEOUT end.

(** [create_answer] of each transaction, from the result of its operation. *)
Definition hsprov_mar_answer (op : CassResult * DigestAuthVector) : MultimediaAuthAnswer :=
  match op with
  | (CASS_OK, av) => mkMultimediaAuthAnswer SUCCESS (Some (Digest av)) (scheme_digest schemes)
  | (e, _) => mkMultimediaAuthAnswer (failure_result e) None (scheme_digest schemes)
  end.

Definition hsprov_lir_answer (op : CassResult * RegData) : LocationInfoAnswer :=
  match op with
  | (CASS_OK, _) =>
      mkLocationInfoAnswer SUCCESS DIAMETER_SUCCESS configured_server_name no_capabilities ""
  | (e, _) => mkLocationInfoAnswer (failure_result e) 0 "" no_capabilities ""
  end.

Definition hsprov_sar_answer (op : CassResult * RegData) : ServerAssignmentAnswer :=
  match op with
  | (CASS_OK, d) => mkServerAssignmentAnswer SUCCESS (_charging_addrs d) (_xml d) ""
  | (e, _) => mkServerAssignmentAnswer (failure_result e) no_addrs "" ""
  end.

(** [update_latency_stats]: what [update_H_hsprov_latency_us] is called with.
    [get_duration] gives the duration of the transaction, if it has one. *)
Definition hsprov_latency (stats_manager : bool) (duration : option Z) : list Z :=
  match duration with
  | Some latency => if stats_manager then [latency] else []
  | None => []
  end.

(** [on_response]: the statistics, then the answer the callback is given. *)
Definition hsprov_on_response {Op Answer} (create_answer : Op -> Answer) (stats_manager : bool)
    (duration : option Z) (op : Op) : list Z * Answer :=
  (hsprov_latency stats_manager duration, create_answer op).

Definition hsprov_multimedia_auth (r : MultimediaAuthRequest) : MultimediaAuthAnswer :=
  hsprov_mar_answer (get_auth_vector (mar_impi r) (mar_impu r)).

(** A fixed answer: Cassandra is not asked. *)
Definition hsprov_user_auth (_ : UserAuthRequest) : UserAuthAnswer :=
  mkUserAuthAnswer SUCCESS DIAMETER_SUCCESS configured_server_name no_capabilities.

Definition hsprov_location_info (r : LocationInfoRequest) : LocationInfoAnswer :=
  hsprov_lir_answer (get_reg_data (lir_impu r)).

Definition hsprov_server_assignment (r : ServerAssignmentRequest) : ServerAssignmentAnswer :=
  match sar_type r with
  | Cx.REGISTRATION | Cx.RE_REGISTRATION | Cx.UNREGISTERED_USER =>
      hsprov_sar_answer (get_reg_data (sar_impu r))
  | _ => saa_of_rc SUCCESS
  end.
End hsprov.

(** ** Reading a row *)

Definition value_of (cs : list column) (name : string) : option string :=
  snd <$> List.find (fun c => String.eqb (fst c) name) cs.

Definition nonempty_value (cs : list column) (name : string) : list string :=
  match value_of cs name with
  | Some v => if str_empty v then [] else [v]
  | None => []
  end.

(** The functions of a row: the primary one first. *)
Definition row_charging (cs : list column) : ChargingAddresses :=
  mkChargingAddresses
    (nonempty_value cs PRIMARY_CCF_COLUMN_NAME ++ nonempty_value cs SECONDARY_CCF_COLUMN_NAME)
    (nonempty_value cs PRIMARY_ECF_COLUMN_NAME ++ nonempty_value cs SECONDARY_ECF_COLUMN_NAME).

Definition row_av (cs : list column) : DigestAuthVector :=
  mkDigestAuthVector (default "" (value_of cs DIGEST_HA1_COLUMN_NAME))
    (default "" (value_of cs DIGEST_REALM_COLUMN_NAME))
    (default "" (value_of cs DIGEST_QOP_COLUMN_NAME)).

Lemma value_of_app cs c name :
  name ∉ map fst cs ->
  value_of (cs ++ [c]) name = if String.eqb (fst c) name then Some (snd c) else value_of cs name.
Proof.
  intros Hn. unfold value_of. induction cs as [|d cs IH]; simpl.
  { by destruct (String.eqb (fst c) name). }
  cbn [map] in Hn. apply not_elem_of_cons in Hn as [Hd Hn].
  destruct (String.eqb_spec (fst d) name); [by subst|auto].
Qed.

Lemma value_of_app_other cs c name :
  fst c <> name -> value_of (cs ++ [c]) name = value_of cs name.
Proof.
  intros Hn. unfold value_of. induction cs as [|d cs IH]; simpl.
  { by destruct (String.eqb_spec (fst c) name). }
  by destruct (String.eqb (fst d) name).
Qed.

Lemma value_of_absent cs name : name ∉ map fst cs -> value_of cs name = None.
Proof.
  unfold value_of. induction cs as [|d cs IH]; [done|]. cbn [map].
  intros [Hd Hn]%not_elem_of_cons. simpl. destruct (String.eqb_spec (fst d) name); [by subst|auto].
Qed.

(** The columns of a row come in any order, each at most once. *)
Lemma read_columns (cs : list column) :
  NoDup (map fst cs) ->
  fold_left read_column cs (mkRegData "" no_addrs) =
  mkRegData (default "" (value_of cs IMS_SUB_XML_COLUMN_NAME)) (row_charging cs).
Proof.
  induction cs as [|[name value] cs IH] using rev_ind; [done|].
  rewrite map_app. intros (Hnd & Hx & _)%list.NoDup_app.
  assert (Hn : name ∉ map fst cs) by (intros Hin; apply (Hx name Hin); by left).
  rewrite fold_left_app, IH by done. unfold row_charging, nonempty_value. simpl.
  assert (Hsame : forall k, name <> k -> value_of (cs ++ [(name, value)]) k = value_of cs k)
    by (intros; by apply value_of_app_other).
  assert (Hnew : value_of (cs ++ [(name, value)]) name = Some value)
    by (rewrite value_of_app, String.eqb_refl by done; done).
  pose proof (value_of_absent cs name Hn) as Habs.
  destruct (String.eqb_spec name IMS_SUB_XML_COLUMN_NAME) as [->|N1].
  { rewrite !(Hsame PRIMARY_CCF_COLUMN_NAME), !(Hsame SECONDARY_CCF_COLUMN_NAME),
      !(Hsame PRIMARY_ECF_COLUMN_NAME), !(Hsame SECONDARY_ECF_COLUMN_NAME), Hnew by discriminate.
    done. }
  rewrite (Hsame IMS_SUB_XML_COLUMN_NAME) by done.
  destruct (String.eqb_spec name PRIMARY_CCF_COLUMN_NAME) as [->|N2].
  { rewrite !(Hsame SECONDARY_CCF_COLUMN_NAME), !(Hsame PRIMARY_ECF_COLUMN_NAME),
      !(Hsame SECONDARY_ECF_COLUMN_NAME), Hnew, Habs by discriminate. by destruct (str_empty value). }
  rewrite (Hsame PRIMARY_CCF_COLUMN_NAME) by done.
  destruct (String.eqb_spec name SECONDARY_CCF_COLUMN_NAME) as [->|N3].
  { rewrite !(Hsame PRIMARY_ECF_COLUMN_NAME), !(Hsame SECONDARY_ECF_COLUMN_NAME), Hnew, Habs
      by discriminate. destruct (str_empty value); by rewrite ?app_nil_r. }
  rewrite (Hsame SECONDARY_CCF_COLUMN_NAME) by done.
  destruct (String.eqb_spec name PRIMARY_ECF_COLUMN_NAME) as [->|N4].
  { rewrite !(Hsame SECONDARY_ECF_COLUMN_NAME), Hnew, Habs by discriminate.
    by destruct (str_empty value). }
  rewrite (Hsame PRIMARY_ECF_COLUMN_NAME) by done.
  destruct (String.eqb_spec name SECONDARY_ECF_COLUMN_NAME) as [->|N5].
  { rewrite Hnew, Habs. destruct (str_empty value); by rewrite ?app_nil_r. }
  by rewrite (Hsame SECONDARY_ECF_COLUMN_NAME).
Qed.

(** Whether a row has the column that associates a public identity. *)
Definition has_column (cs : list column) (name : string) : bool := in_vector name (map fst cs).

Lemma in_vector_app x l1 l2 : in_vector x (l1 ++ l2) = in_vector x l1 || in_vector x l2.
Proof. unfold in_vector. apply existsb_app. Qed.

(** The columns of an auth vector. *)
Definition av_column (name : string) : bool :=
  String.eqb name DIGEST_HA1_COLUMN_NAME || String.eqb name DIGEST_REALM_COLUMN_NAME ||
  String.eqb name DIGEST_QOP_COLUMN_NAME.

Lemma read_av_columns (cs : list column) col :
  NoDup (map fst cs) -> av_column col = false ->
  fold_left (read_av_column col) cs (empty_digest_av, false) = (row_av cs, has_column cs col).
Proof.
  intros Hcs ((Hc1 & Hc2)%orb_false_iff & Hc3)%orb_false_iff. revert Hcs.
  induction cs as [|[name value] cs IH] using rev_ind; [done|].
  rewrite map_app. intros (Hnd & Hx & _)%list.NoDup_app.
  assert (Hn : name ∉ map fst cs) by (intros Hin; apply (Hx name Hin); by left).
  rewrite fold_left_app, IH by done. unfold row_av, has_column. rewrite map_app, in_vector_app. simpl.
  assert (Hsame : forall k, name <> k -> value_of (cs ++ [(name, value)]) k = value_of cs k)
    by (intros; by apply value_of_app_other).
  assert (Hnew : value_of (cs ++ [(name, value)]) name = Some value)
    by (rewrite value_of_app, String.eqb_refl by done; done).
  destruct (String.eqb_spec name DIGEST_HA1_COLUMN_NAME) as [->|N1].
  { rewrite (Hsame DIGEST_REALM_COLUMN_NAME), (Hsame DIGEST_QOP_COLUMN_NAME), Hnew, Hc1 by discriminate.
    by rewrite orb_false_r. }
  rewrite (Hsame DIGEST_HA1_COLUMN_NAME) by done.
  destruct (String.eqb_spec name DIGEST_REALM_COLUMN_NAME) as [->|N2].
  { rewrite (Hsame DIGEST_QOP_COLUMN_NAME), Hnew, Hc2 by discriminate. by rewrite orb_false_r. }
  rewrite (Hsame DIGEST_REALM_COLUMN_NAME) by done.
  destruct (String.eqb_spec name DIGEST_QOP_COLUMN_NAME) as [->|N3].
  { rewrite Hnew, Hc3. by rewrite orb_false_r. }
  rewrite (Hsame DIGEST_QOP_COLUMN_NAME) by done.
  rewrite (String.eqb_sym col name).
  destruct (String.eqb name col); by rewrite ?orb_true_r, ?orb_false_r.
Qed.

Lemma associated_column id : av_column (ASSOC_PUBLIC_ID_COLUMN_PREFIX +:+ id) = false.
Proof. done. Qed.

Section results.
Context `{LawfulCassandra}.
Context (configured_server_name : string) (schemes : AuthSchemes).

(** A subscriber who may use the public identity and has a password. *)
Definition authenticable (cs : list column) (public_id : string) : bool :=
  (str_empty public_id || has_column cs (ASSOC_PUBLIC_ID_COLUMN_PREFIX +:+ public_id)) &&
  negb (str_empty (ha1 (row_av cs))).

Definition requested_columns (public_id : string) : list string :=
  [DIGEST_HA1_COLUMN_NAME; DIGEST_REALM_COLUMN_NAME; DIGEST_QOP_COLUMN_NAME] ++
  (if str_empty public_id then [] else [ASSOC_PUBLIC_ID_COLUMN_PREFIX +:+ public_id]).

Definition reads_profile (ty : Cx.ServerAssignmentType) : bool :=
  match ty with Cx.REGISTRATION | Cx.RE_REGISTRATION | Cx.UNREGISTERED_USER => true | _ => false end.

Lemma get_auth_vector_row private_id public_id cs :
  ha_get_columns IMPI private_id (requested_columns public_id) = inr cs -> NoDup (map fst cs) ->
  get_auth_vector private_id public_id =
  (if authenticable cs public_id then CASS_OK else CASS_NOT_FOUND, row_av cs).
Proof.
  unfold get_auth_vector, requested_columns, authenticable. intros Hr Hcs.
  destruct (str_empty public_id) eqn:E; cbn [negb]; rewrite Hr, read_av_columns by done; simpl.
  - by destruct (str_empty (default _ _)).
  - destruct (has_column _ _); simpl; [|done]. by destruct (str_empty (default _ _)).
Qed.

(** C36: homestead-prov answers from the row of the subscriber, whatever the order
    of its columns.  A Multimedia-Auth request succeeds exactly when the row
    has a password and associates the public identity asked for, with the row's
    digest; an assignment of a registration or an unregistered user gets the row's
    profile and its charging functions, primary before secondary; any other
    assignment succeeds without a query; no row is NOT_FOUND and any other failure
    TIMEOUT. *)
Theorem hsprov_answers_from_row mar sar cs cs' :
  let public := mar_impu mar in
  (ha_get_columns IMPI (mar_impi mar) (requested_columns public) = inr cs -> NoDup (map fst cs) ->
   hsprov_multimedia_auth schemes mar =
     if authenticable cs public
     then mkMultimediaAuthAnswer SUCCESS (Some (Digest (row_av cs))) (scheme_digest schemes)
     else mkMultimediaAuthAnswer NOT_FOUND None (scheme_digest schemes)) /\
  (ha_get_columns IMPU (sar_impu sar) reg_data_columns = inr cs' -> NoDup (map fst cs') ->
   reads_profile (sar_type sar) = true ->
   hsprov_server_assignment sar =
     mkServerAssignmentAnswer SUCCESS (row_charging cs')
       (default "" (value_of cs' IMS_SUB_XML_COLUMN_NAME)) "") /\
  (reads_profile (sar_type sar) = false -> hsprov_server_assignment sar = saa_of_rc SUCCESS) /\
  (forall e, ha_get_columns IMPU (sar_impu sar) reg_data_columns = inl e ->
   reads_profile (sar_type sar) = true ->
   saa_result (hsprov_server_assignment sar) =
     match e with CASS_NOT_FOUND => NOT_FOUND | _ => TIMEOUT end).
Proof.
  intros public. split; [|split; [|split]].
  - intros Hr Hcs. unfold hsprov_multimedia_auth, hsprov_mar_answer. rewrite (get_auth_vector_row _ _ cs) by done.
    subst public. by destruct (authenticable cs (mar_impu mar)).
  - intros Hr Hcs Ht. unfold hsprov_server_assignment, hsprov_sar_answer, get_reg_data. rewrite Hr, read_columns by done.
    by destruct (sar_type sar).
  - intros Ht. unfold hsprov_server_assignment. by destruct (sar_type sar).
  - intros e He Ht. unfold hsprov_server_assignment, hsprov_sar_answer, get_reg_data. rewrite He.
    pose proof (failure_is_not_ok IMPU (sar_impu sar) reg_data_columns) as Hok.
    rewrite He in Hok. destruct (sar_type sar); try done; by destruct e.
Qed.

(** The answers are of the kind the tasks rely on. *)
Lemma hsprov_av_matches cfg mar :
  scheme_digest schemes = cfg_scheme_digest cfg -> av_matches cfg (hsprov_multimedia_auth schemes mar).
Proof.
  intros Hs. unfold av_matches, hsprov_multimedia_auth, hsprov_mar_answer.
  destruct (get_auth_vector _ _) as [[| |n] av]; simpl; rewrite ?Hs, ?String.eqb_refl; by eauto.
Qed.
End results.

(** ** Witness *)

Module SampleCassandra.
Definition impi_row : list column :=
  [("public_id_sip:a@b", ""); ("digest_realm", "b"); ("digest_ha1", "ha1")]%string.

Definition impu_row : list column :=
  [("secondary_ccf", "ccf2"); ("ims_subscription_xml", "<x/>"); ("primary_ccf", "ccf1")]%string.

#[global] Instance client : Cassandra := {|
  ha_get_columns := fun family key _ =>
    if String.eqb family IMPI && String.eqb key "a@b" then inr impi_row
    else if String.eqb family IMPU && String.eqb key "sip:a@b" then inr impu_row
    else inl CASS_NOT_FOUND
|}.

#[global] Instance lawful : LawfulCassandra.
Proof. constructor. intros f k c. simpl. by repeat case_match. Defined.
End SampleCassandra.

Definition hsprov_schemes : AuthSchemes := mkAuthSchemes "SIP Digest" "AKAv1" "AKAv2".

Lemma hsprov_answers_from_row_witness :
  hsprov_multimedia_auth hsprov_schemes (mkMultimediaAuthRequest "a@b" "sip:a@b" "" "" "") =
    mkMultimediaAuthAnswer SUCCESS (Some (Digest (mkDigestAuthVector "ha1" "b" ""))) "SIP Digest" /\
  hsprov_server_assignment (mkServerAssignmentRequest "a@b" "sip:a@b" "" Cx.REGISTRATION true "") =
    mkServerAssignmentAnswer SUCCESS (mkChargingAddresses ["ccf1"; "ccf2"]%string []) "<x/>" "".
Proof.
  assert (H1 : NoDup (map fst SampleCassandra.impi_row)) by (apply (bool_decide_unpack _); vm_compute; exact I).
  assert (H2 : NoDup (map fst SampleCassandra.impu_row)) by (apply (bool_decide_unpack _); vm_compute; exact I).
  destruct (hsprov_answers_from_row hsprov_schemes (mkMultimediaAuthRequest "a@b" "sip:a@b" "" "" "")
    (mkServerAssignmentRequest "a@b" "sip:a@b" "" Cx.REGISTRATION true "")
    SampleCassandra.impi_row SampleCassandra.impu_row) as (Hm & Hs & _).
  split.
  - rewrite (Hm eq_refl H1). reflexivity.
  - rewrite (Hs eq_refl H2 eq_refl). reflexivity.
Defined.
