(* ===== verification/Sprout.v ===== *)
(** * The connection to Sprout

    [src/sproutconnection.cpp]: the requests sent to Sprout when the HSS
    terminates registrations or pushes a profile.  The response code is the
    HTTP connection's, a parameter of the callers. *)

From Stdlib Require Import String Ascii ZArith Lia.
From stdpp Require Import base list strings option.
From S2P Require Import Prelude Types Env.

Definition JSON_REGISTRATIONS : string := "registrations".
Definition JSON_PRIMARY_IMPU : string := "primary-impu".
Definition JSON_IMPI : string := "impi".
Definition JSON_USER_DATA_XML : string := "user-data-xml".

Inductive http_verb := DELETE | PUT.

Record SproutRequest := mkSproutRequest {
  verb : http_verb;
  sprout_path : string;
  body : string
}.

Section sprout.
Context `{JsonLib}.

(** A pair of identities for each private one, if there is any. *)
Definition registration_members (impis : list string) (i : string) : list json :=
  match impis with
  | [] => [JObj [str_member JSON_PRIMARY_IMPU i]]
  | _ => map (fun j => JObj [str_member JSON_PRIMARY_IMPU i; str_member JSON_IMPI j]) impis
  end.

Definition rtr_create_body (default_public_ids impis : list string) : string :=
  c_str (serialize (JObj [(JSON_REGISTRATIONS,
                           JArr (concat (map (registration_members impis) default_public_ids)))])).

Definition ppr_create_body (user_data : string) : string :=
  c_str (serialize (JObj [str_member JSON_USER_DATA_XML user_data])).

Definition deregister_bindings (send_notifications : bool) (default_public_ids impis : list string)
    : SproutRequest :=
  mkSproutRequest DELETE
    ("/registrations?send-notifications=" +:+ (if send_notifications then "true" else "false"))
    (rtr_create_body default_public_ids impis).

Definition change_associated_identities (default_id user_data : string) : SproutRequest :=
  mkSproutRequest PUT ("/registrations/" +:+ default_id) (ppr_create_body user_data).
End sprout.

(** Every pair of a default identity and a private one is listed, in order. *)
Lemma registration_members_count `{JsonLib} impis ids :
  impis <> [] ->
  length (concat (map (registration_members impis) ids)) = (length ids * length impis)%nat.
Proof.
  intros Hi. induction ids as [|i ids IH]; [done|]. cbn [map concat]. rewrite length_app, IH.
  destruct impis as [|j impis]; [done|]. unfold registration_members. rewrite length_map. done.
Qed.
