(* ===== verification/DiameterHandlers.v ===== *)
(** * Requests of the HSS

    [src/diameter_handlers.cpp]: the Registration-Termination and the
    Push-Profile task.  As for the HTTP tasks, a method is a handler, the cache's
    asynchronous operations are actions and their completions events.  Sprout is
    called synchronously: its response code is a function of the request. *)

From Stdlib Require Import String Ascii ZArith Lia.
From stdpp Require Import base list strings option.
From S2P Require Import Prelude StdMap Types Env Concrete ImpuStore XmlUtils Irs MemcachedCache CxMessages Sprout.
Open Scope Z_scope.

(** What [Diameter::Message] reads of any message. *)
Class MessageFields := {
  msg_impi : message -> string;
  auth_session_state : message -> Z
}.

Inductive dh_action :=
| SendAnswer (m : message)
| CallSprout (r : SproutRequest)
| GetIrssForImpis (impis : list string)
| GetIrssForImpus (impus : list string)
| DeleteIrss (irss : list Irs)
| GetImsSubscription (impi : string)
| PutImsSubscription (sub : std_map Irs)
| DeleteTask.

Section tasks.
Context `{JsonLib} `{XmlLib} `{RegDataXMLUtils} `{DiameterStack} `{MessageFields}.
Context (sprout : SproutRequest -> HTTPCode).

(** ** Registration termination *)

Record RtrTask := mkRtrTask {
  rtr_reason : Z;
  rtr_impis : list string;
  rtr_public_ids : list string;
  rtr_reg_sets : list Irs
}.

Definition new_rtr_task : RtrTask := mkRtrTask 0 [] [] [].

Definition delete_task {T} : Handler T dh_action unit := hemit DeleteTask.

Definition send_rta (rtr : message) (rc : string) : Handler RtrTask dh_action unit :=
  (t <- hget ;;
   hemit (SendAnswer (registration_termination_answer rtr rc (auth_session_state rtr)
                        (rtr_impis t))))%h.

Definition rtr_run (rtr : message) : Handler RtrTask dh_action unit :=
  let reason := deregistration_reason rtr in
  let impis := msg_impi rtr :: associated_identities rtr in
  let public_ids :=
    if negb (reason =? SERVER_CHANGE) && negb (reason =? NEW_SERVER_ASSIGNED) then rtr_impus rtr
    else [] in
  (hmodify (fun t => mkRtrTask reason (rtr_impis t ++ impis) public_ids (rtr_reg_sets t)) ;;;
   t <- hget ;;
   if negb (nonempty (rtr_public_ids t)) &&
      ((reason =? PERMANENT_TERMINATION) || (reason =? REMOVE_SCSCF) ||
       (reason =? SERVER_CHANGE) || (reason =? NEW_SERVER_ASSIGNED))
   then hemit (GetIrssForImpis (rtr_impis t))
   else if nonempty (rtr_public_ids t) &&
           ((reason =? PERMANENT_TERMINATION) || (reason =? REMOVE_SCSCF))
   then hemit (GetIrssForImpus (rtr_public_ids t))
   else send_rta rtr DIAMETER_REQ_FAILURE ;;; delete_task)%h.

(** A synchronous call; its response code is the result. *)
Definition call_sprout {T} (r : SproutRequest) : Handler T dh_action HTTPCode :=
  (hemit (CallSprout r) ;;; hret (sprout r))%h.

Definition get_registration_sets_success (rtr : message) (reg_sets : list Irs)
    : Handler RtrTask dh_action unit :=
  (hmodify (fun t => mkRtrTask (rtr_reason t) (rtr_impis t) (rtr_public_ids t) reg_sets) ;;;
   match reg_sets with
   | [] => send_rta rtr DIAMETER_REQ_SUCCESS ;;; delete_task
   | _ =>
       t <- hget ;;
       let default_public_identities := map _default_impu reg_sets in
       ret_code <-
         (if rtr_reason t =? PERMANENT_TERMINATION then
            call_sprout (deregister_bindings false default_public_identities (rtr_impis t))
          else if (rtr_reason t =? REMOVE_SCSCF) || (rtr_reason t =? SERVER_CHANGE) then
            call_sprout (deregister_bindings true default_public_identities [])
          else if rtr_reason t =? NEW_SERVER_ASSIGNED then
            call_sprout (deregister_bindings false default_public_identities [])
          else hret (HTTP_CODE 0)) ;;
       (if http_eqb ret_code HTTP_OK then send_rta rtr DIAMETER_REQ_SUCCESS
        else send_rta rtr DIAMETER_REQ_FAILURE) ;;;
       hemit (DeleteIrss reg_sets)
   end)%h.

Definition get_registration_sets_failure (rtr : message) (_ : Store.Status)
    : Handler RtrTask dh_action unit :=
  (send_rta rtr DIAMETER_REQ_FAILURE ;;; delete_task)%h.

Definition delete_reg_sets_progress : Handler RtrTask dh_action unit := hret tt.
Definition delete_reg_sets_success : Handler RtrTask dh_action unit := delete_task.
Definition delete_reg_sets_failure (_ : Store.Status) : Handler RtrTask dh_action unit := delete_task.

(** ** Push profile *)

Record PprTask := mkPprTask {
  ims_subscription : option string;
  new_charging : option ChargingAddresses;
  ppr_impi : string;
  ims_sub : option (std_map Irs)
}.

Definition new_ppr_task : PprTask := mkPprTask None None "" None.

Definition send_ppa (ppr : message) (rc : string) : Handler PprTask dh_action unit :=
  hemit (SendAnswer (push_profile_answer ppr rc (auth_session_state ppr))).

Definition ppr_run (ppr : message) : Handler PprTask dh_action unit :=
  let '(charging_addrs_present, addrs) := charging_addrs ppr in
  (hmodify (fun t => mkPprTask (get_str_from_avp USER_DATA ppr)
              (if charging_addrs_present then Some addrs else None) (msg_impi ppr) (ims_sub t)) ;;;
   t <- hget ;;
   match ims_subscription t, new_charging t with
   | None, None => send_ppa ppr DIAMETER_REQ_SUCCESS ;;; delete_task
   | _, _ => hemit (GetImsSubscription (ppr_impi t))
   end)%h.

Definition set_ims_sub (s : std_map Irs) (t : PprTask) : PprTask :=
  mkPprTask (ims_subscription t) (new_charging t) (ppr_impi t) (Some s).

(** The charging addresses of the PPR, if any, and the write.  A set of the
    subscription is changed in place. *)
Definition save_subscription (sub : std_map Irs) : Handler PprTask dh_action unit :=
  (t <- hget ;;
   let sub := match new_charging t with
              | Some a => set_charging_addrs a sub
              | None => sub
              end in
   hmodify (set_ims_sub sub) ;;; hemit (PutImsSubscription sub))%h.

(** The check for a SIP URI only logs. *)
Definition on_get_ims_sub_success (ppr : message) (sub : std_map Irs)
    : Handler PprTask dh_action unit :=
  (hmodify (set_ims_sub sub) ;;;
   t <- hget ;;
   match ims_subscription t with
   | Some xml =>
       let new_default_id := get_default_id xml "" in
       match get_irs_for_default_impu sub new_default_id with
       | None => send_ppa ppr DIAMETER_REQ_FAILURE ;;; delete_task
       | Some irs =>
           let sub := map_set sub new_default_id (set_ims_sub_xml xml irs) in
           hmodify (set_ims_sub sub) ;;;
           rc <- call_sprout (change_associated_identities new_default_id xml) ;;
           if http_eqb rc HTTP_OK then save_subscription sub
           else send_ppa ppr DIAMETER_REQ_FAILURE ;;; delete_task
       end
   | None => save_subscription sub
   end)%h.

Definition on_get_ims_sub_failure (ppr : message) (_ : Store.Status)
    : Handler PprTask dh_action unit :=
  (send_ppa ppr DIAMETER_REQ_FAILURE ;;; delete_task)%h.

Definition on_save_ims_sub_progress (ppr : message) : Handler PprTask dh_action unit :=
  send_ppa ppr DIAMETER_REQ_SUCCESS.
Definition on_save_ims_sub_success : Handler PprTask dh_action unit := delete_task.
Definition on_save_ims_sub_failure (ppr : message) (_ : Store.Status)
    : Handler PprTask dh_action unit :=
  (send_ppa ppr DIAMETER_REQ_FAILURE ;;; delete_task)%h.

(** ** A task from request to end

    The cache answers a lookup once; a write or a deletion calls the progress
    callback and completes, or fails ([CacheProgress.v]). *)

Definition rtr_flow (rtr : message) (found : Store.Status + list Irs) (failed : option Store.Status)
    : list dh_action :=
  let '(_, t, o) := rtr_run rtr new_rtr_task in
  match rev o with
  | DeleteTask :: _ => o
  | _ =>
      let '(_, t1, o1) := match found with
                          | inl rc => get_registration_sets_failure rtr rc t
                          | inr l => get_registration_sets_success rtr l t
                          end in
      match rev o1 with
      | DeleteTask :: _ => o ++ o1
      | _ =>
          let '(_, _, o2) := match failed with
                             | Some rc => delete_reg_sets_failure rc t1
                             | None => (delete_reg_sets_progress ;;; delete_reg_sets_success)%h t1
                             end in
          o ++ o1 ++ o2
      end
  end.

Definition ppr_flow (ppr : message) (found : Store.Status + std_map Irs)
    (failed : option Store.Status) : list dh_action :=
  let '(_, t, o) := ppr_run ppr new_ppr_task in
  match rev o with
  | DeleteTask :: _ => o
  | _ =>
      let '(_, t1, o1) := match found with
                          | inl rc => on_get_ims_sub_failure ppr rc t
                          | inr sub => on_get_ims_sub_success ppr sub t
                          end in
      match rev o1 with
      | DeleteTask :: _ => o ++ o1
      | _ =>
          let '(_, _, o2) := match failed with
                             | Some rc => on_save_ims_sub_failure ppr rc t1
                             | None => (on_save_ims_sub_progress ppr ;;; on_save_ims_sub_success)%h t1
                             end in
          o ++ o1 ++ o2
      end
  end.

Definition answers (l : list dh_action) : list message :=
  omap (fun a => match a with SendAnswer m => Some m | _ => None end) l.

Definition is_delete_task (a : dh_action) : bool :=
  match a with DeleteTask => true | _ => false end.

(** One answer, and one deletion, which is the last action. *)
Definition answers_once (l : list dh_action) (m : message) : Prop :=
  answers l = [m] /\ exists l', l = l' ++ [DeleteTask] /\ existsb is_delete_task l' = false.

(** ** What a termination asks for *)

(** The sets to look up, if the reason is one of the specification's: by the
    public identities of the request, or by all its private ones. *)
Definition rtr_lookup (rtr : message) : option dh_action :=
  let reason := deregistration_reason rtr in
  let by_impis := GetIrssForImpis (msg_impi rtr :: associated_identities rtr) in
  if (reason =? SERVER_CHANGE) || (reason =? NEW_SERVER_ASSIGNED) then Some by_impis
  else if (reason =? PERMANENT_TERMINATION) || (reason =? REMOVE_SCSCF) then
    Some (match rtr_impus rtr with [] => by_impis | l => GetIrssForImpus l end)
  else None.

(** The request to Sprout: private identities only for a permanent termination,
    notifications when the server goes away. *)
Definition rtr_sprout_request (rtr : message) (irss : list Irs) : SproutRequest :=
  let reason := deregistration_reason rtr in
  deregister_bindings ((reason =? REMOVE_SCSCF) || (reason =? SERVER_CHANGE))
    (map _default_impu irss)
    (if reason =? PERMANENT_TERMINATION then msg_impi rtr :: associated_identities rtr else []).

Definition rta (rtr : message) (ok : bool) : message :=
  registration_termination_answer rtr (if ok then DIAMETER_REQ_SUCCESS else DIAMETER_REQ_FAILURE)
    (auth_session_state rtr) (msg_impi rtr :: associated_identities rtr).

(** The actions a termination amounts to. *)
Definition rtr_actions (rtr : message) (found : Store.Status + list Irs) : list dh_action :=
  match rtr_lookup rtr with
  | None => [SendAnswer (rta rtr false); DeleteTask]
  | Some look =>
      look :: match found with
              | inl _ => [SendAnswer (rta rtr false); DeleteTask]
              | inr [] => [SendAnswer (rta rtr true); DeleteTask]
              | inr irss =>
                  let r := rtr_sprout_request rtr irss in
                  [CallSprout r; SendAnswer (rta rtr (http_eqb (sprout r) HTTP_OK));
                   DeleteIrss irss; DeleteTask]
              end
  end.

Lemma rtr_flow_actions rtr found failed : rtr_flow rtr found failed = rtr_actions rtr found.
Proof.
  unfold rtr_flow, rtr_actions, rtr_lookup, rtr_run, rtr_sprout_request, rta,
    get_registration_sets_failure, get_registration_sets_success, send_rta, delete_task, call_sprout,
    delete_reg_sets_failure, delete_reg_sets_progress, delete_reg_sets_success, hbind, hmodify, hget,
    hemit, hret. simpl.
  set (reason := deregistration_reason rtr).
  unfold PERMANENT_TERMINATION, REMOVE_SCSCF, SERVER_CHANGE, NEW_SERVER_ASSIGNED.
  destruct (Z.eqb_spec reason 2) as [E2|]; [rewrite E2; simpl|].
  { destruct found as [rc|[|i l]]; simpl; [done|done|].
    destruct (http_eqb (sprout _) HTTP_OK); by destruct failed. }
  destruct (Z.eqb_spec reason 1) as [E1|]; [rewrite E1; simpl|].
  { destruct found as [rc|[|i l]]; simpl; [done|done|].
    destruct (http_eqb (sprout _) HTTP_OK); by destruct failed. }
  simpl. destruct (Z.eqb_spec reason 0) as [E0|]; [rewrite E0; simpl|].
  { destruct (rtr_impus rtr); simpl; (destruct found as [rc|[|i l']]; simpl; [done|done|]);
      destruct (http_eqb (sprout _) HTTP_OK); by destruct failed. }
  destruct (Z.eqb_spec reason 3) as [E3|]; [rewrite E3; simpl|].
  { destruct (rtr_impus rtr); simpl; (destruct found as [rc|[|i l']]; simpl; [done|done|]);
      destruct (http_eqb (sprout _) HTTP_OK); by destruct failed. }
  by destruct (rtr_impus rtr).
Qed.

Lemma answers_once_app l m :
  answers l = [] -> existsb is_delete_task l = false -> answers_once (l ++ [SendAnswer m; DeleteTask]) m.
Proof.
  intros Ha Hd. split; [unfold answers in *; by rewrite omap_app, Ha|].
  exists (l ++ [SendAnswer m]). rewrite <- app_assoc, existsb_app, Hd. done.
Qed.

(** C24: a Registration-Termination request is answered exactly once and the task
    ends with its deletion, whatever the cache and Sprout answer; the answer lists
    the request's private identities; it fails for an unknown reason, when the
    cache fails, or when Sprout refuses; and the sets that were found are deleted
    from the cache, exactly when there are some, even if Sprout refused. *)
Theorem rtr_answered_once `{!LawfulDiameterStack} rtr found failed :
  let l := rtr_flow rtr found failed in
  l = rtr_actions rtr found /\
  (exists ok, answers_once l (rta rtr ok) /\
     associated_identities (rta rtr ok) = msg_impi rtr :: associated_identities rtr) /\
  (forall irss, DeleteIrss irss ∈ l <->
     rtr_lookup rtr <> None /\ found = inr irss /\ irss <> []).
Proof.
  cbv zeta. rewrite rtr_flow_actions. split; [done|]. unfold rtr_actions. split.
  - assert (Hid : forall ok, associated_identities (rta rtr ok) = msg_impi rtr :: associated_identities rtr)
      by (intros ok; apply rta_identities).
    destruct (rtr_lookup rtr) as [look|] eqn:El.
    2:{ exists false. split; [by apply (answers_once_app [])|done]. }
    assert (Hl : answers [look] = [] /\ is_delete_task look = false).
    { revert El. unfold rtr_lookup. repeat case_match; intros; simplify_eq; done. }
    destruct Hl as [Ha Hd].
    destruct found as [rc|[|i irss]].
    + exists false. split; [|done]. apply (answers_once_app [look]); [done|]. simpl. by rewrite Hd.
    + exists true. split; [|done]. apply (answers_once_app [look]); [done|]. simpl. by rewrite Hd.
    + eexists. split; [|apply Hid]. unfold answers_once, answers in *. simpl in *.
      destruct look; try done; (split; [done|]); by eexists [_; _; _; _].
  - intros irss. assert (Hl : forall look, rtr_lookup rtr = Some look -> DeleteIrss irss <> look).
    { intros look. unfold rtr_lookup. repeat case_match; intros; simplify_eq; done. }
    destruct (rtr_lookup rtr) as [look|].
    2:{ rewrite !elem_of_cons, elem_of_nil. intuition congruence. }
    specialize (Hl look eq_refl).
    destruct found as [rc|[|i l]]; rewrite !elem_of_cons, elem_of_nil; intuition congruence.
Qed.

(** ** What a push profile asks for *)

Definition ppa (ppr : message) (ok : bool) : message :=
  push_profile_answer ppr (if ok then DIAMETER_REQ_SUCCESS else DIAMETER_REQ_FAILURE)
    (auth_session_state ppr).

Definition pushed_charging (ppr : message) : option ChargingAddresses :=
  if fst (charging_addrs ppr) then Some (snd (charging_addrs ppr)) else None.

(** The profile may replace that of a set of the subscription only. *)
Definition profile_accepted (ppr : message) (sub : std_map Irs) : bool :=
  match get_str_from_avp USER_DATA ppr with
  | None => true
  | Some xml =>
      match map_find sub (get_default_id xml "") with
      | None => false
      | Some _ => http_eqb (sprout (change_associated_identities (get_default_id xml "") xml)) HTTP_OK
      end
  end.

Definition ppr_is_empty (ppr : message) : bool :=
  match get_str_from_avp USER_DATA ppr, pushed_charging ppr with
  | None, None => true
  | _, _ => false
  end.

Definition ppr_succeeds (ppr : message) (found : Store.Status + std_map Irs)
    (failed : option Store.Status) : bool :=
  ppr_is_empty ppr ||
  match found with
  | inl _ => false
  | inr sub => profile_accepted ppr sub && match failed with None => true | Some _ => false end
  end.

(** The set for the default identity [k] after the push. *)
Definition pushed_set (ppr : message) (k : string) (irs : Irs) : Irs :=
  let irs := match get_str_from_avp USER_DATA ppr with
             | Some xml => if String.eqb (get_default_id xml "") k then set_ims_sub_xml xml irs else irs
             | None => irs
             end in
  match pushed_charging ppr with
  | Some a => set_charging_addresses a irs
  | None => irs
  end.

Definition pushed_subscription (ppr : message) (sub : std_map Irs) : std_map Irs :=
  let sub := match get_str_from_avp USER_DATA ppr with
             | Some xml =>
                 match map_find sub (get_default_id xml "") with
                 | Some irs => map_set sub (get_default_id xml "") (set_ims_sub_xml xml irs)
                 | None => sub
                 end
             | None => sub
             end in
  match pushed_charging ppr with
  | Some a => set_charging_addrs a sub
  | None => sub
  end.

Lemma pushed_subscription_find ppr sub k :
  map_find (pushed_subscription ppr sub) k = pushed_set ppr k <$> map_find sub k.
Proof.
  unfold pushed_subscription, pushed_set, set_charging_addrs.
  destruct (get_str_from_avp USER_DATA ppr) as [xml|].
  - destruct (map_find sub (get_default_id xml "")) as [irs|] eqn:E, (pushed_charging ppr);
      rewrite ?map_find_update, ?map_find_set;
      destruct (String.eqb_spec (get_default_id xml "") k) as [<-|Hn]; rewrite ?E; try done;
      by destruct (map_find sub k).
  - destruct (pushed_charging ppr); rewrite ?map_find_update; by destruct (map_find sub k).
Qed.

(** The actions a push amounts to. *)
Definition ppr_actions (ppr : message) (found : Store.Status + std_map Irs)
    (failed : option Store.Status) : list dh_action :=
  let answer := [SendAnswer (ppa ppr (ppr_succeeds ppr found failed)); DeleteTask] in
  if ppr_is_empty ppr then answer
  else
    GetImsSubscription (msg_impi ppr) ::
    match found with
    | inl _ => answer
    | inr sub =>
        (match get_str_from_avp USER_DATA ppr with
         | Some xml =>
             match map_find sub (get_default_id xml "") with
             | Some _ => [CallSprout (change_associated_identities (get_default_id xml "") xml)]
             | None => []
             end
         | None => []
         end ++
         (if profile_accepted ppr sub then [PutImsSubscription (pushed_subscription ppr sub)] else []))
        ++ answer
    end.

Lemma ppr_flow_actions ppr found failed : ppr_flow ppr found failed = ppr_actions ppr found failed.
Proof.
  unfold ppr_flow, ppr_actions, ppr_succeeds, ppr_is_empty, profile_accepted, pushed_subscription,
    pushed_charging, ppr_run, on_get_ims_sub_failure, on_get_ims_sub_success, save_subscription,
    on_save_ims_sub_failure, on_save_ims_sub_progress, on_save_ims_sub_success, send_ppa, ppa,
    delete_task, call_sprout, get_irs_for_default_impu, hbind, hmodify, hget, hemit, hret.
  destruct (charging_addrs ppr) as [present a]. simpl.
  destruct (get_str_from_avp USER_DATA ppr) as [xml|], present; simpl;
    destruct found as [rc|sub]; simpl; try done;
    try (destruct (map_find sub (get_default_id xml "")); simpl; [|done];
         destruct (http_eqb (sprout _) HTTP_OK); simpl); destruct failed; done.
Qed.

(** C25: a Push-Profile request is answered exactly once and the task ends with its
    deletion; it succeeds exactly when it carries nothing, or the subscription is
    found, its profile is for a set of the subscription and accepted by Sprout, and
    the write succeeds; then, and only when accepted, the subscription is written
    with the new profile in that set alone and the new charging addresses in every
    set. *)
Theorem ppr_answered_once ppr found failed :
  let l := ppr_flow ppr found failed in
  answers_once l (ppa ppr (ppr_succeeds ppr found failed)) /\
  (forall sub', PutImsSubscription sub' ∈ l <->
     ppr_is_empty ppr = false /\
     exists sub, found = inr sub /\ profile_accepted ppr sub = true /\
       sub' = pushed_subscription ppr sub) /\
  (forall sub k, map_find (pushed_subscription ppr sub) k = pushed_set ppr k <$> map_find sub k).
Proof.
  cbv zeta. rewrite ppr_flow_actions. unfold ppr_actions.
  split; [|split; [|intros; apply pushed_subscription_find]].
  - destruct (ppr_is_empty ppr); [by apply (answers_once_app [])|].
    destruct found as [rc|sub]; [by apply (answers_once_app [_])|].
    set (answer := ppa ppr _). rewrite app_comm_cons.
    apply answers_once_app; repeat case_match; done.
  - intros sub'. destruct (ppr_is_empty ppr).
    { rewrite !elem_of_cons, elem_of_nil. intuition congruence. }
    destruct found as [rc|sub].
    { rewrite !elem_of_cons, elem_of_nil. split; [intros [?|[?|[?|?]]]; done|by intros (_ & ? & ? & _)]. }
    rewrite elem_of_cons, !elem_of_app, !elem_of_cons, elem_of_nil.
    assert (Hs : PutImsSubscription sub' ∉
      match get_str_from_avp USER_DATA ppr with
      | Some xml =>
          match map_find sub (get_default_id xml "") with
          | Some _ => [CallSprout (change_associated_identities (get_default_id xml "") xml)]
          | None => []
          end
      | None => []
      end).
    { repeat case_match; rewrite ?elem_of_cons, ?elem_of_nil; intuition congruence. }
    destruct (profile_accepted ppr sub) eqn:Ea; rewrite ?elem_of_cons, ?elem_of_nil; split.
    + intros [?|[[?|[?|?]]|[?|[?|?]]]]; try done. split; [done|]. exists sub. simplify_eq. done.
    + intros (_ & sub0 & [= <-] & _ & ->). right. left. right. by left.
    + intros [?|[[?|?]|[?|[?|?]]]]; done.
    + intros (_ & sub0 & [= <-] & Ha & _). congruence.
Qed.
End tasks.

(** ** Witness *)

Module SampleFields.
#[global] Instance fields : MessageFields := {|
  msg_impi := fun m => default ""%string (get_str_from_avp USER_NAME m);
  auth_session_state := fun m => default 0 (get_i32_from_avp AUTH_SESSION_STATE m)
|}.
End SampleFields.

Definition sample_rtr : message :=
  registration_termination_request PERMANENT_TERMINATION "a@b" ["c@b"%string] ["sip:a@b"%string] 1.

Lemma rtr_answered_once_witness :
  exists ok, answers_once
    (rtr_flow (fun _ => HTTP_OK) sample_rtr (inr [new_irs 0 RegistrationState.REGISTERED])
       (Some Store.ERROR)) (rta sample_rtr ok) /\
    associated_identities (rta sample_rtr ok) = ["a@b"; "c@b"]%string.
Proof.
  exact (proj1 (proj2 (rtr_answered_once (fun _ => HTTP_OK) sample_rtr
           (inr [new_irs 0 RegistrationState.REGISTERED]) (Some Store.ERROR)))).
Defined.
