(* ===== verification/Options.v ===== *)
(** * Command-line options

    [struct options], the option tables and the two parsers of [src/main.cpp].
    [getopt_long] is the C library's: the parsers are given the sequence of
    options it finds, each with its argument.  Members of the struct are grouped
    by type; an [int] that has not been given a value yet is [None]. *)

From Stdlib Require Import String Ascii ZArith Lia.
From stdpp Require Import base list strings option functions.
From S2P Require Import Prelude Types.
Open Scope Z_scope.

(** ** [struct options] *)

Inductive string_option :=
| local_host | home_domain | diameter_conf | http_address | cassandra | local_site_name
| dest_realm | dest_host | force_hss_peer | server_name | sprout_http_name
| scheme_unknown | scheme_digest | scheme_akav1 | scheme_akav2
| access_log_directory | log_directory | sas_system_name | pidfile.

Inductive int_option :=
| http_port | http_threads | max_peers | impu_cache_ttl | hss_reregistration_time
| reg_max_expires | log_level | cache_threads | cassandra_threads | diameter_timeout_ms
| target_latency_us | max_tokens | exception_max_ttl | astaire_blacklist_duration
| http_blacklist_duration | diameter_blacklist_duration | dns_timeout.

(** The members of type [float]; they only ever hold integers. *)
Inductive float_option := init_token_rate | min_token_rate | max_token_rate.

Inductive bool_option :=
| access_log_enabled | log_to_file | daemon | sas_signaling_if | request_shared_ifcs
| ram_record_everything.

#[export] Instance string_option_eq_dec : EqDecision string_option.
Proof. solve_decision. Defined.
#[export] Instance int_option_eq_dec : EqDecision int_option.
Proof. solve_decision. Defined.
#[export] Instance float_option_eq_dec : EqDecision float_option.
Proof. solve_decision. Defined.
#[export] Instance bool_option_eq_dec : EqDecision bool_option.
Proof. solve_decision. Defined.

Record options := mkOptions {
  strings : string_option -> string;
  ints : int_option -> option Z;
  floats : float_option -> option Z;
  bools : bool_option -> bool;
  dns_servers : list string;
  impu_stores : list string
}.

Definition set_string (k : string_option) (v : string) (o : options) : options :=
  mkOptions (<[k := v]> (strings o)) (ints o) (floats o) (bools o) (dns_servers o) (impu_stores o).
Definition set_int (k : int_option) (v : Z) (o : options) : options :=
  mkOptions (strings o) (<[k := Some v]> (ints o)) (floats o) (bools o) (dns_servers o)
    (impu_stores o).
Definition set_float (k : float_option) (v : Z) (o : options) : options :=
  mkOptions (strings o) (ints o) (<[k := Some v]> (floats o)) (bools o) (dns_servers o)
    (impu_stores o).
Definition set_bool (k : bool_option) (v : bool) (o : options) : options :=
  mkOptions (strings o) (ints o) (floats o) (<[k := v]> (bools o)) (dns_servers o) (impu_stores o).
Definition set_dns_servers (l : list string) (o : options) : options :=
  mkOptions (strings o) (ints o) (floats o) (bools o) l (impu_stores o).
Definition set_impu_stores (l : list string) (o : options) : options :=
  mkOptions (strings o) (ints o) (floats o) (bools o) (dns_servers o) l.

(** ** Option codes and tables *)

(** [enum OptionTypes] *)
Inductive OptionTypes :=
| SCHEME_UNKNOWN | SCHEME_DIGEST | SCHEME_AKAV1 | SCHEME_AKAV2 | SAS_CONFIG
| DIAMETER_TIMEOUT_MS | ALARMS_ENABLED | DNS_SERVER | TARGET_LATENCY_US | MAX_TOKENS
| INIT_TOKEN_RATE | MIN_TOKEN_RATE | MAX_TOKEN_RATE | EXCEPTION_MAX_TTL
| ASTAIRE_BLACKLIST_DURATION | HTTP_BLACKLIST_DURATION | DIAMETER_BLACKLIST_DURATION
| DNS_TIMEOUT | FORCE_HSS_PEER | LOCAL_SITE_NAME | SAS_USE_SIGNALING_IF
| REQUEST_SHARED_IFCS | PIDFILE | DAEMON | REG_MAX_EXPIRES | CASSANDRA_THREADS
| RAM_RECORD_EVERYTHING.

(** The [int] that [getopt_long] returns: a character or an enumerator above
    the characters.  An option it does not know is ['?']. *)
Inductive opt := Short (c : ascii) | Long (t : OptionTypes).

#[export] Instance OptionTypes_eq_dec : EqDecision OptionTypes.
Proof. solve_decision. Defined.
#[export] Instance opt_eq_dec : EqDecision opt.
Proof. solve_decision. Defined.

(** [long_opt]: name, whether it takes an argument, code *)
Definition long_opt : list (string * bool * opt) := [
  ("localhost", true, Short "l");
  ("home-domain", true, Short "r");
  ("diameter-conf", true, Short "c");
  ("dns-server", true, Long DNS_SERVER);
  ("http", true, Short "H");
  ("http-threads", true, Short "t");
  ("cache-threads", true, Short "u");
  ("cassandra-threads", true, Long CASSANDRA_THREADS);
  ("cassandra", true, Short "S");
  ("local-site-name", true, Long LOCAL_SITE_NAME);
  ("impu-stores", true, Short "M");
  ("dest-realm", true, Short "D");
  ("dest-host", true, Short "d");
  ("hss-peer", true, Long FORCE_HSS_PEER);
  ("max-peers", true, Short "p");
  ("server-name", true, Short "s");
  ("impu-cache-ttl", true, Short "i");
  ("hss-reregistration-time", true, Short "I");
  ("reg-max-expires", true, Long REG_MAX_EXPIRES);
  ("sprout-http-name", true, Short "j");
  ("scheme-unknown", true, Long SCHEME_UNKNOWN);
  ("scheme-digest", true, Long SCHEME_DIGEST);
  ("scheme-akav1", true, Long SCHEME_AKAV1);
  ("scheme-akav2", true, Long SCHEME_AKAV2);
  ("access-log", true, Short "a");
  ("sas", true, Long SAS_CONFIG);
  ("diameter-timeout-ms", true, Long DIAMETER_TIMEOUT_MS);
  ("log-file", true, Short "F");
  ("log-level", true, Short "L");
  ("help", false, Short "h");
  ("target-latency-us", true, Long TARGET_LATENCY_US);
  ("max-tokens", true, Long MAX_TOKENS);
  ("init-token-rate", true, Long INIT_TOKEN_RATE);
  ("min-token-rate", true, Long MIN_TOKEN_RATE);
  ("max-token-rate", true, Long MAX_TOKEN_RATE);
  ("exception-max-ttl", true, Long EXCEPTION_MAX_TTL);
  ("astaire-blacklist-duration", true, Long ASTAIRE_BLACKLIST_DURATION);
  ("http-blacklist-duration", true, Long HTTP_BLACKLIST_DURATION);
  ("diameter-blacklist-duration", true, Long DIAMETER_BLACKLIST_DURATION);
  ("dns-timeout", true, Long DNS_TIMEOUT);
  ("pidfile", true, Long PIDFILE);
  ("daemon", false, Long DAEMON);
  ("sas-use-signaling-interface", false, Long SAS_USE_SIGNALING_IF);
  ("request-shared-ifcs", false, Long REQUEST_SHARED_IFCS);
  ("ram-record-everything", false, Long RAM_RECORD_EVERYTHING) ]%string.

(** The short options, each with a colon when it takes an argument. *)
Definition options_description : string := "l:r:c:H:t:u:S:D:d:p:s:i:I:a:F:L:h".

(** ** Library functions *)

(** [isspace] of the C locale. *)
Definition is_space (a : ascii) : bool :=
  let n := nat_of_ascii a in (n =? 32)%nat || ((9 <=? n)%nat && (n <=? 13)%nat).

Definition digit_value (a : ascii) : option Z :=
  let n := nat_of_ascii a in
  if ((48 <=? n)%nat && (n <=? 57)%nat)%bool then Some (Z.of_nat n - 48) else None.

Fixpoint read_digits (s : string) (acc : Z) : Z :=
  match s with
  | String a s' => match digit_value a with Some d => read_digits s' (acc * 10 + d) | None => acc end
  | EmptyString => acc
  end.

Fixpoint skip_space (s : string) : string :=
  match s with
  | String a s' => if is_space a then skip_space s' else s
  | EmptyString => s
  end.

(** [atoi]: 0 without digits, undefined ([None]) when an [int] cannot hold the
    number. *)
Definition atoi (s : string) : option Z :=
  let n :=
    match skip_space (c_str s) with
    | String "-" s' => - read_digits s' 0
    | String "+" s' => read_digits s' 0
    | s' => read_digits s' 0
    end in
  if (- 2 ^ 31 <=? n) && (n <? 2 ^ 31) then Some n else None.

(** The [float] an [int] converts to: 24 bits, to nearest, ties to even. *)
Definition float_of_int (z : Z) : Z :=
  let a := Z.abs z in
  if a <=? 2 ^ 24 then z
  else
    let ulp := 2 ^ (Z.log2 a - 23) in
    let q := a / ulp in
    let r := 2 * (a mod ulp) in
    let q := if (ulp <? r) || ((r =? ulp) && Z.odd q) then q + 1 else q in
    Z.sgn z * (q * ulp).

(** Functions of cpp-common and Boost that the parsers call. *)
Class OptionUtils := {
  split_any_of : string -> string -> list string;
  split_string : string -> string -> list string;
  calculate_diameter_timeout : Z -> Z -> Z
}.

(** ** The parsers *)

(** What handling an option does: go on, return a code from the parser, or
    something the language leaves undefined. *)
Inductive parsed (A : Type) :=
| Continue (a : A)
| Returned (rc : Z)
| NotDefined.
Arguments Continue {A} a.
Arguments Returned {A} rc.
Arguments NotDefined {A}.

(** The loop over the options. *)
Fixpoint parse_all {A} (handle : A -> opt -> string -> parsed A) (l : list (opt * string)) (a : A)
    : parsed A :=
  match l with
  | [] => Continue a
  | (o, arg) :: rest =>
      match handle a o arg with
      | Continue a' => parse_all handle rest a'
      | Returned rc => Returned rc
      | NotDefined => NotDefined
      end
  end.

Definition atoi_option (k : int_option) (arg : string) (o : options) : parsed options :=
  match atoi arg with Some n => Continue (set_int k n o) | None => NotDefined end.

(** One [case] of [init_logging_options]. *)
Definition logging_option (o : options) (c : opt) (arg : string) : parsed options :=
  match c with
  | Short "F" => Continue (set_string log_directory arg (set_bool log_to_file true o))
  | Short "L" => atoi_option log_level arg o
  | Long DAEMON => Continue (set_bool daemon true o)
  | Long RAM_RECORD_EVERYTHING => Continue (set_bool ram_record_everything true o)
  | _ => Continue o
  end.

Definition init_logging_options (args : list (opt * string)) (o : options) : parsed options :=
  parse_all logging_option args o.

Section init_options.
Context `{OptionUtils}.

(** A number the parser checks before it goes on: the member is set, then the
    parser returns -1 if [bad] holds of it. *)
Definition checked_int (k : int_option) (bad : Z -> bool) (arg : string) (o : options)
    : parsed options :=
  match atoi arg with
  | Some n => if bad n then Returned (-1) else Continue (set_int k n o)
  | None => NotDefined
  end.

Definition checked_float (k : float_option) (bad : Z -> bool) (arg : string) (o : options)
    : parsed options :=
  match atoi arg with
  | Some n =>
      if bad (float_of_int n) then Returned (-1) else Continue (set_float k (float_of_int n) o)
  | None => NotDefined
  end.

(** One [case] of [init_options]. *)
Definition init_option (o : options) (c : opt) (arg : string) : parsed options :=
  match c with
  | Short "l" => Continue (set_string local_host arg o)
  | Short "r" => Continue (set_string home_domain arg o)
  | Short "c" => Continue (set_string diameter_conf arg o)
  | Short "H" => Continue (set_string http_address arg o)
  | Short "t" => atoi_option http_threads arg o
  | Short "u" => atoi_option cache_threads arg o
  | Long CASSANDRA_THREADS => atoi_option cassandra_threads arg o
  | Short "S" => Continue (set_string cassandra arg o)
  | Short "M" => Continue (set_impu_stores (split_any_of arg ",") o)
  | Short "D" => Continue (set_string dest_realm arg o)
  | Short "d" => Continue (set_string dest_host arg o)
  | Short "p" => atoi_option max_peers arg o
  | Short "s" => Continue (set_string server_name arg o)
  | Short "i" => atoi_option impu_cache_ttl arg o
  | Short "I" => atoi_option hss_reregistration_time arg o
  | Long REG_MAX_EXPIRES => atoi_option reg_max_expires arg o
  | Short "j" => Continue (set_string sprout_http_name arg o)
  | Long SCHEME_UNKNOWN => Continue (set_string scheme_unknown arg o)
  | Long SCHEME_DIGEST => Continue (set_string scheme_digest arg o)
  | Long SCHEME_AKAV1 => Continue (set_string scheme_akav1 arg o)
  | Long SCHEME_AKAV2 => Continue (set_string scheme_akav2 arg o)
  | Short "a" => Continue (set_string access_log_directory arg (set_bool access_log_enabled true o))
  | Long LOCAL_SITE_NAME => Continue (set_string local_site_name arg o)
  | Long ASTAIRE_BLACKLIST_DURATION => atoi_option astaire_blacklist_duration arg o
  | Long SAS_CONFIG => Continue (set_string sas_system_name arg o)
  | Long DIAMETER_TIMEOUT_MS => atoi_option diameter_timeout_ms arg o
  | Long DNS_SERVER => Continue (set_dns_servers (split_string arg ",") o)
  | Long TARGET_LATENCY_US => checked_int target_latency_us (fun n => n <=? 0) arg o
  | Long MAX_TOKENS => checked_int max_tokens (fun n => n <=? 0) arg o
  | Long INIT_TOKEN_RATE => checked_float init_token_rate (fun n => n <=? 0) arg o
  | Long MIN_TOKEN_RATE => checked_float min_token_rate (fun n => n <=? 0) arg o
  | Long MAX_TOKEN_RATE => checked_float max_token_rate (fun n => n <? 0) arg o
  | Long EXCEPTION_MAX_TTL => atoi_option exception_max_ttl arg o
  | Long HTTP_BLACKLIST_DURATION => atoi_option http_blacklist_duration arg o
  | Long DIAMETER_BLACKLIST_DURATION => atoi_option diameter_blacklist_duration arg o
  | Long DNS_TIMEOUT => atoi_option dns_timeout arg o
  | Long FORCE_HSS_PEER => Continue (set_string force_hss_peer arg o)
  | Long PIDFILE => Continue (set_string pidfile arg o)
  | Long SAS_USE_SIGNALING_IF => Continue (set_bool sas_signaling_if true o)
  | Long REQUEST_SHARED_IFCS => Continue (set_bool request_shared_ifcs true o)
  | Long DAEMON | Short "F" | Short "L" | Long RAM_RECORD_EVERYTHING => Continue o
  | Short "h" => Returned (-1)
  | _ => Returned (-1)
  end.

(** With the local variable [diameter_timeout_set]. *)
Definition handle_option (st : options * bool) (c : opt) (arg : string) : parsed (options * bool) :=
  match init_option (fst st) c arg with
  | Continue o =>
      Continue (o, match c with Long DIAMETER_TIMEOUT_MS => true | _ => snd st end)
  | Returned rc => Returned rc
  | NotDefined => NotDefined
  end.

Definition init_options (args : list (opt * string)) (o : options) : parsed options :=
  match parse_all handle_option args (o, false) with
  | Continue (o, true) => Continue o
  | Continue (o, false) =>
      match ints o target_latency_us, ints o diameter_timeout_ms with
      | Some latency, Some timeout =>
          Continue (set_int diameter_timeout_ms (calculate_diameter_timeout latency timeout) o)
      | _, _ => NotDefined
      end
  | Returned rc => Returned rc
  | NotDefined => NotDefined
  end.
End init_options.

(** ** What an option means

    A table of the options, against which the parser is stated. *)
Inductive meaning :=
| SetsString (k : string_option)
| SetsInt (k : int_option)
| ChecksInt (k : int_option) (bad : Z -> bool)
| ChecksFloat (k : float_option) (bad : Z -> bool)
| SetsBool (k : bool_option)
| SetsDns
| SetsStores
| Ignored
| Rejected.

Definition not_positive (n : Z) : bool := n <=? 0.

Definition short_meaning : list (ascii * meaning) := [
  ("l", SetsString local_host); ("r", SetsString home_domain); ("c", SetsString diameter_conf);
  ("H", SetsString http_address); ("t", SetsInt http_threads); ("u", SetsInt cache_threads);
  ("S", SetsString cassandra); ("M", SetsStores); ("D", SetsString dest_realm);
  ("d", SetsString dest_host); ("p", SetsInt max_peers); ("s", SetsString server_name);
  ("i", SetsInt impu_cache_ttl); ("I", SetsInt hss_reregistration_time);
  ("j", SetsString sprout_http_name); ("a", SetsString access_log_directory);
  ("F", Ignored); ("L", Ignored)]%char.

Definition long_meaning (t : OptionTypes) : meaning :=
  match t with
  | SCHEME_UNKNOWN => SetsString scheme_unknown
  | SCHEME_DIGEST => SetsString scheme_digest
  | SCHEME_AKAV1 => SetsString scheme_akav1
  | SCHEME_AKAV2 => SetsString scheme_akav2
  | SAS_CONFIG => SetsString sas_system_name
  | DIAMETER_TIMEOUT_MS => SetsInt diameter_timeout_ms
  | ALARMS_ENABLED => Rejected
  | DNS_SERVER => SetsDns
  | TARGET_LATENCY_US => ChecksInt target_latency_us not_positive
  | MAX_TOKENS => ChecksInt max_tokens not_positive
  | INIT_TOKEN_RATE => ChecksFloat init_token_rate not_positive
  | MIN_TOKEN_RATE => ChecksFloat min_token_rate not_positive
  | MAX_TOKEN_RATE => ChecksFloat max_token_rate (fun n => n <? 0)
  | EXCEPTION_MAX_TTL => SetsInt exception_max_ttl
  | ASTAIRE_BLACKLIST_DURATION => SetsInt astaire_blacklist_duration
  | HTTP_BLACKLIST_DURATION => SetsInt http_blacklist_duration
  | DIAMETER_BLACKLIST_DURATION => SetsInt diameter_blacklist_duration
  | DNS_TIMEOUT => SetsInt dns_timeout
  | FORCE_HSS_PEER => SetsString force_hss_peer
  | LOCAL_SITE_NAME => SetsString local_site_name
  | SAS_USE_SIGNALING_IF => SetsBool sas_signaling_if
  | REQUEST_SHARED_IFCS => SetsBool request_shared_ifcs
  | PIDFILE => SetsString pidfile
  | DAEMON | RAM_RECORD_EVERYTHING => Ignored
  | REG_MAX_EXPIRES => SetsInt reg_max_expires
  | CASSANDRA_THREADS => SetsInt cassandra_threads
  end.

Definition meaning_of (c : opt) : meaning :=
  match c with
  | Short a =>
      match List.find (fun e => Ascii.eqb (fst e) a) short_meaning with
      | Some (_, m) => m
      | None => Rejected
      end
  | Long t => long_meaning t
  end.

(** The same for the logging pass, which ignores all other options. *)
Definition logging_meaning (c : opt) : meaning :=
  match c with
  | Short "F" => SetsString log_directory
  | Short "L" => SetsInt log_level
  | Long DAEMON => SetsBool daemon
  | Long RAM_RECORD_EVERYTHING => SetsBool ram_record_everything
  | _ => Ignored
  end.

(** The verdict on an option and its argument. *)
Inductive verdict := Fine | Bad | NoNumber.

Definition verdict_of (m : meaning) (arg : string) : verdict :=
  match m with
  | Rejected => Bad
  | SetsInt _ => match atoi arg with Some _ => Fine | None => NoNumber end
  | ChecksInt _ bad =>
      match atoi arg with Some n => if bad n then Bad else Fine | None => NoNumber end
  | ChecksFloat _ bad =>
      match atoi arg with
      | Some n => if bad (float_of_int n) then Bad else Fine
      | None => NoNumber
      end
  | _ => Fine
  end.

Definition verdict_on (c : opt) (arg : string) : verdict := verdict_of (meaning_of c) arg.

(** The first option of the command line that is not fine decides. *)
Definition fault_in (mean : opt -> meaning) (args : list (opt * string)) : option verdict :=
  head (List.filter (fun v => match v with Fine => false | _ => true end)
          (map (fun a => verdict_of (mean (fst a)) (snd a)) args)).

Definition first_fault (args : list (opt * string)) : option verdict := fault_in meaning_of args.

(** The members an option gives a value; the directory of a log also turns that
    log on. *)
Definition sets_string (k : string_option) (m : meaning) : bool :=
  match m with SetsString k' => bool_decide (k = k') | _ => false end.
Definition sets_int (k : int_option) (m : meaning) : bool :=
  match m with SetsInt k' | ChecksInt k' _ => bool_decide (k = k') | _ => false end.
Definition sets_float (k : float_option) (m : meaning) : bool :=
  match m with ChecksFloat k' _ => bool_decide (k = k') | _ => false end.
Definition sets_bool (k : bool_option) (m : meaning) : bool :=
  match m with
  | SetsBool k' => bool_decide (k = k')
  | SetsString access_log_directory => bool_decide (k = access_log_enabled)
  | SetsString log_directory => bool_decide (k = log_to_file)
  | _ => false
  end.
Definition sets_dns (m : meaning) : bool := match m with SetsDns => true | _ => false end.
Definition sets_stores (m : meaning) : bool := match m with SetsStores => true | _ => false end.

Definition gives_string (k : string_option) (c : opt) : bool := sets_string k (meaning_of c).
Definition gives_int (k : int_option) (c : opt) : bool := sets_int k (meaning_of c).

(** The last argument given for a member. *)
Definition last_for (gives : opt -> bool) (args : list (opt * string)) : option string :=
  snd <$> head (rev (List.filter (fun a => gives (fst a)) args)).

Lemma insert_if `{EqDecision A} {B} k (v : B) (f : A -> B) k' :
  <[k := v]> f k' = if bool_decide (k' = k) then v else f k'.
Proof. case_bool_decide as E; [subst; apply fn_lookup_insert|by apply fn_lookup_insert_ne]. Qed.

Lemma last_for_cons gives a args :
  last_for gives (a :: args) =
  match last_for gives args with
  | Some v => Some v
  | None => if gives (fst a) then Some (snd a) else None
  end.
Proof.
  unfold last_for. cbn [List.filter]. destruct (gives (fst a)); cbn [rev].
  - by destruct (rev (List.filter _ args)).
  - by destruct (rev (List.filter _ args)).
Qed.

(** An option that gives nothing to a member does not matter for it. *)
Lemma last_for_skip gives args1 a args2 :
  gives (fst a) = false -> last_for gives (args1 ++ a :: args2) = last_for gives (args1 ++ args2).
Proof. intros Ha. unfold last_for. rewrite !List.filter_app. cbn [List.filter]. by rewrite Ha. Qed.

Lemma fault_in_skip mean args1 c arg args2 :
  verdict_of (mean c) arg = Fine ->
  fault_in mean (args1 ++ (c, arg) :: args2) = fault_in mean (args1 ++ args2).
Proof.
  intros Hv. unfold fault_in. rewrite !map_app, !List.filter_app. cbn [map List.filter fst snd].
  by rewrite Hv.
Qed.

(** Options with the same members. *)
Record same_options (o o' : options) : Prop := mkSameOptions {
  same_strings : forall k, strings o k = strings o' k;
  same_ints : forall k, ints o k = ints o' k;
  same_floats : forall k, floats o k = floats o' k;
  same_bools : forall k, bools o k = bools o' k;
  same_dns : dns_servers o = dns_servers o';
  same_stores : impu_stores o = impu_stores o'
}.

#[export] Instance same_options_equivalence : Equivalence same_options.
Proof.
  split.
  - by intros o.
  - intros o o' []. by split.
  - intros o1 o2 o3 [] []. split; intros; etransitivity; eauto.
Qed.

Section outcome.
Context `{OptionUtils}.

(** What a command line gives: each member has the last argument for it, and what
    it had before without one. *)
Definition given (mean : opt -> meaning) (args : list (opt * string)) (o : options) : options :=
  let last sets := last_for (fun c => sets (mean c)) args in
  mkOptions
    (fun k => default (strings o k) (last (sets_string k)))
    (fun k => match last (sets_int k) with Some arg => atoi arg | None => ints o k end)
    (fun k => match last (sets_float k) with
              | Some arg => float_of_int <$> atoi arg
              | None => floats o k
              end)
    (fun k => match last (sets_bool k) with Some _ => true | None => bools o k end)
    (match last sets_dns with Some arg => split_string arg "," | None => dns_servers o end)
    (match last sets_stores with Some arg => split_any_of arg "," | None => impu_stores o end).

#[export] Instance given_proper mean args : Proper (same_options ==> same_options) (given mean args).
Proof.
  intros o o' [Hs Hi Hf Hb Hd Ht]. by split; simpl; intros; rewrite ?Hs, ?Hi, ?Hf, ?Hb, ?Hd, ?Ht.
Qed.

Lemma given_cons mean a args o :
  same_options (given mean (a :: args) o) (given mean args (given mean [a] o)).
Proof.
  split; simpl; intros; rewrite !(last_for_cons _ a); change (last_for ?g []) with (@None string);
    cbv beta iota; repeat case_match; simplify_eq; done.
Qed.

(** A parser does with an option what the table says. *)
Definition agrees (mean : opt -> meaning) (o : options) (c : opt) (arg : string)
    (p : parsed options) : Prop :=
  match p with
  | Continue o' => verdict_of (mean c) arg = Fine /\ same_options o' (given mean [(c, arg)] o)
  | Returned rc => rc = -1 /\ verdict_of (mean c) arg = Bad
  | NotDefined => verdict_of (mean c) arg = NoNumber
  end.

(** One constructor of the option code. *)
Ltac option_case :=
  unfold agrees, verdict_of; cbn;
  unfold atoi_option, checked_int, checked_float, not_positive;
  repeat match goal with
  | |- context [match atoi ?a with _ => _ end] => destruct (atoi a) eqn:?
  | |- context [if ?b then Returned _ else _] => destruct b eqn:?
  end;
  try done; (split; [done|]); split; try done; intros k; destruct k;
  cbn; rewrite ?insert_if; unfold last_for; cbn; try done;
  rewrite ?bool_decide_true by done; cbn;
  match goal with E : atoi _ = _ |- _ => by rewrite E end.

Lemma init_option_agrees o c arg : agrees meaning_of o c arg (init_option o c arg).
Proof. destruct c as [[[] [] [] [] [] [] [] []]|[]]; option_case. Qed.

Lemma logging_option_agrees o c arg : agrees logging_meaning o c arg (logging_option o c arg).
Proof. destruct c as [[[] [] [] [] [] [] [] []]|[]]; option_case. Qed.

(** A number that was accepted is an [int]. *)
Lemma last_number_fine mean k args arg :
  fault_in mean args = None -> last_for (fun c => sets_int k (mean c)) args = Some arg ->
  exists n, atoi arg = Some n.
Proof.
  unfold fault_in. induction args as [|[c a] args IH]; [done|].
  rewrite last_for_cons. cbn [map List.filter fst snd].
  destruct (verdict_of (mean c) a) eqn:Ev; [|done..]. intros Hf. specialize (IH Hf).
  destruct (last_for _ args); [exact IH|]. unfold sets_int, verdict_of in *.
  destruct (mean c); try done; (case_bool_decide; [|done]); intros [= <-];
    destruct (atoi a); try done; eauto.
Qed.

(** A loop whose body does what a table says gives what the table gives, unless an
    option is not fine. *)
Lemma parse_all_given mean handle args o :
  (forall o c arg, agrees mean o c arg (handle o c arg)) ->
  match fault_in mean args with
  | Some Bad => parse_all handle args o = Returned (-1)
  | Some _ => parse_all handle args o = NotDefined
  | None => exists o', parse_all handle args o = Continue o' /\ same_options o' (given mean args o)
  end.
Proof.
  intros Ha. unfold fault_in. revert o. induction args as [|[c arg] args IH]; intros o; [by exists o|].
  cbn [map List.filter fst snd parse_all]. pose proof (Ha o c arg) as Hc. unfold agrees in Hc.
  destruct (handle o c arg) as [o1|rc|].
  - destruct Hc as [-> Hc]. specialize (IH o1). set (fault := head _) in *.
    destruct fault as [[]|]; [exact IH..|]. destruct IH as (o' & E & Ho). exists o'.
    split; [exact E|]. by rewrite given_cons, <- Hc.
  - by destruct Hc as [-> ->].
  - by rewrite Hc.
Qed.

(** The flag [diameter_timeout_set] only accompanies the loop. *)
Lemma parse_all_flag args o b :
  parse_all handle_option args (o, b) =
  match parse_all init_option args o with
  | Continue o' =>
      Continue (o', b || match last_for (gives_int diameter_timeout_ms) args with
                         | Some _ => true
                         | None => false
                         end)
  | Returned rc => Returned rc
  | NotDefined => NotDefined
  end.
Proof.
  revert o b. induction args as [|[c arg] args IH]; intros o b; cbn [parse_all].
  { by rewrite orb_false_r. }
  unfold handle_option. cbn [fst snd]. destruct (init_option o c arg) as [o1|rc|]; [|done..].
  rewrite IH, last_for_cons. destruct (parse_all init_option args o1); [|done..].
  destruct (last_for _ args); [by rewrite !orb_true_r|].
  by destruct c as [[[] [] [] [] [] [] [] []]|[]], b.
Qed.

(** The Diameter timeout, when the command line does not give it. *)
Definition timeout_given (args : list (opt * string)) (o : options) : options :=
  match last_for (gives_int diameter_timeout_ms) args, ints o target_latency_us,
        ints o diameter_timeout_ms with
  | None, Some latency, Some timeout =>
      set_int diameter_timeout_ms (calculate_diameter_timeout latency timeout) o
  | _, _, _ => o
  end.

Lemma set_int_same k v o o' : same_options o o' -> same_options (set_int k v o) (set_int k v o').
Proof. intros []. split; simpl; try done. intros j. rewrite !insert_if. by case_bool_decide. Qed.

#[export] Instance timeout_given_proper args : Proper (same_options ==> same_options) (timeout_given args).
Proof.
  intros o o' Ho. unfold timeout_given. rewrite <- !(same_ints _ _ Ho).
  repeat case_match; try done. by apply set_int_same.
Qed.
(** The outcome of the second pass: the first faulty option decides, and without one
    the members have what the command line gives. *)
Lemma init_options_value args o latency timeout :
  ints o target_latency_us = Some latency -> ints o diameter_timeout_ms = Some timeout ->
  match first_fault args with
  | Some Bad => init_options args o = Returned (-1)
  | Some _ => init_options args o = NotDefined
  | None => exists o', init_options args o = Continue o' /\
      same_options o' (timeout_given args (given meaning_of args o))
  end.
Proof.
  intros Hl Ht. pose proof (parse_all_given meaning_of init_option args o init_option_agrees) as Hp.
  unfold init_options. rewrite parse_all_flag. unfold first_fault.
  destruct (fault_in meaning_of args) as [[]|] eqn:Ef; [by rewrite Hp..|].
  destruct Hp as (o' & -> & Ho). cbn [orb]. setoid_rewrite <- Ho. unfold timeout_given.
  destruct (last_for (gives_int diameter_timeout_ms) args) as [arg|] eqn:El; [by exists o'|].
  assert (Hn : exists n, ints o' target_latency_us = Some n).
  { rewrite (same_ints _ _ Ho). cbn [given ints].
    destruct (last_for (fun c => sets_int target_latency_us (meaning_of c)) args) eqn:E; [|eauto].
    by eapply last_number_fine. }
  assert (Hd : ints o' diameter_timeout_ms = Some timeout).
  { rewrite (same_ints _ _ Ho). cbn [given ints]. unfold gives_int in El. by rewrite El. }
  destruct Hn as [n Hn]. rewrite Hn, Hd. by eexists.
Qed.
End outcome.

(** ** Tables and usage text *)

(** The letters of the short options with an argument. *)
Fixpoint letters_with_argument (s : string) : list ascii :=
  match s with
  | String a (String ":" rest) => a :: letters_with_argument rest
  | String a rest => letters_with_argument rest
  | EmptyString => []
  end.

(** The tables and the parser fit: no two long options share a name or a code,
    each is handled (only [--help] is rejected), and a short option with an
    argument is the long option of the same code, with an argument too.  The
    letters [M] and [j], which the usage text gives for [--impu-stores] and
    [--sprout-http-name], are not among the short options. *)
Theorem option_tables_fit :
  NoDup (map (fun e => fst (fst e)) long_opt) /\ NoDup (map snd long_opt) /\
  Forall (fun e => meaning_of (snd e) = Rejected <-> fst (fst e) = "help"%string) long_opt /\
  Forall (fun a => exists name, (name, true, Short a) ∈ long_opt)
    (letters_with_argument options_description) /\
  ("M"%char ∉ letters_with_argument options_description) /\
  ("j"%char ∉ letters_with_argument options_description).
Proof.
  split; [apply (bool_decide_unpack _); vm_compute; exact I|].
  split; [apply (bool_decide_unpack _); vm_compute; exact I|].
  split; [repeat (constructor; [by vm_compute|]); constructor|].
  split; [|split; apply (bool_decide_unpack _); vm_compute; exact I].
  cbn. repeat (constructor; [eexists; unfold long_opt; repeat first [left; reflexivity|right]|]).
  constructor.
Qed.

(** ** Witnesses *)

(** Splitting at one character. *)
Fixpoint split_at_char (a : ascii) (s cur : string) : list string :=
  match s with
  | EmptyString => [cur]
  | String b s' =>
      if Ascii.eqb a b then cur :: split_at_char a s' "" else split_at_char a s' (cur +:+ String b "")
  end.

Definition sample_split (s sep : string) : list string :=
  match sep with String a _ => split_at_char a s "" | EmptyString => [s] end.

Definition sample_utils : OptionUtils := {|
  split_any_of := sample_split;
  split_string := sample_split;
  calculate_diameter_timeout := fun latency timeout => Z.max timeout (latency / 500)
|}.
