(* ===== verification/Startup.v ===== *)
(** * Startup and configuration

    [main] of [src/main.cpp] up to its wait for a signal: the defaults, the
    settings derived from the options, the choice between an HSS and
    homestead-prov, and the exit codes.  What the libraries answer at startup is
    given by [Host]; signal handlers, alarms and statistics are left out, and of
    the log, the resolvers and the stacks there is what they are made with.  The routes are in [Routes], the order in which parts start and
    stop in [Lifecycle]. *)

From Stdlib Require Import String Ascii ZArith Lia.
From stdpp Require Import base list strings option functions.
From S2P Require Import Prelude StdMap Types Env Concrete ImpuStore XmlUtils Irs MemcachedCache CacheProcessor HttpTasks HttpImpi HttpRegData RegDataSystem DiameterHss Options.
Import HssConnection Options.
Open Scope Z_scope.

(** ** Defaults *)

(** Constants of cpp-common. *)
Class LibraryDefaults := {
  HTTP_DEFAULT_BLACKLIST_DURATION : Z;
  DIAMETER_DEFAULT_BLACKLIST_DURATION : Z;
  DNS_DEFAULT_TIMEOUT : Z
}.

Section main.
Context `{LibraryDefaults} `{OptionUtils}.

Definition default_string (k : string_option) : string :=
  match k with
  | local_host => "127.0.0.1"
  | home_domain => "dest-realm.unknown"
  | diameter_conf => "homestead.conf"
  | http_address => "0.0.0.0"
  | dest_host => "dest-host.unknown"
  | server_name => "sip:server-name.unknown"
  | sprout_http_name => "sprout-http-name.unknown"
  | _ => ""
  end.

(** [astaire_blacklist_duration] is not given a value. *)
Definition default_int (k : int_option) : option Z :=
  match k with
  | http_port => Some 8888
  | http_threads => Some 1
  | cache_threads => Some 50
  | cassandra_threads => Some 10
  | max_peers => Some 2
  | impu_cache_ttl => Some 0
  | hss_reregistration_time => Some 1800
  | reg_max_expires => Some 300
  | log_level => Some 0
  | diameter_timeout_ms => Some 200
  | target_latency_us => Some 100000
  | max_tokens => Some 1000
  | exception_max_ttl => Some 600
  | http_blacklist_duration => Some HTTP_DEFAULT_BLACKLIST_DURATION
  | diameter_blacklist_duration => Some DIAMETER_DEFAULT_BLACKLIST_DURATION
  | dns_timeout => Some DNS_DEFAULT_TIMEOUT
  | astaire_blacklist_duration => None
  end.

Definition default_float (k : float_option) : option Z :=
  match k with init_token_rate => Some 100 | min_token_rate => Some 10 | max_token_rate => Some 0 end.

Definition default_options : options :=
  mkOptions default_string default_int default_float (fun _ => false) ["127.0.0.1"%string] [].

(** ** Settings *)

(** Which connection [HssCacheTask] is configured with. *)
Inductive ConfiguredHss :=
| UseDiameter (c : DiameterHssConnection) (timeout_ms : Z)
| UseHsProv (cassandra_host server_name : string).

(** [Utils::daemon_log_setup] and the RAM recorder *)
Record Logging := mkLogging {
  log_daemon : bool;
  log_dir : string;
  log_lvl : Z;
  log_file : bool;
  log_ram : bool
}.

(** The constructor of [LoadMonitor]. *)
Record LoadMonitor := mkLoadMonitor {
  target_latency : Z;
  bucket_size : Z;
  initial_rate : Z;
  minimum_rate : Z;
  maximum_rate : Z
}.

(** The peers of a [RealmManager]. *)
Record RealmManager := mkRealmManager {
  peer_realm : string;
  peer_host : string;
  peer_max : Z;
  peer_blacklist : Z
}.

(** What the objects of cpp-common are made with: a blacklist duration for each
    resolver, the DNS servers and timeout, the threads of a store or stack. *)
Record LibrarySettings := mkLibrarySettings {
  logging : Logging;
  pidfile_locked : string;
  access_log : option string;
  ipv6 : bool;
  sas_service : string * bool;
  exception_ttl : Z;
  load_monitor : LoadMonitor;
  dns_resolver : list string * Z;
  http_resolver_blacklist : Z;
  astaire_resolver_blacklist : Z;
  diameter_configuration : option string;
  cassandra_connection : option (string * Z * Z);
  signaling_threads : Z;
  management_threads : Z
}.

Record Settings := mkSettings {
  libraries : LibrarySettings;
  local_impu_store : string;
  remote_impu_stores : list string;
  read_threads : Z;
  cache_pool_threads : Z;
  sprout_name : string;
  the_hss : ConfiguredHss;
  auth_schemes : AuthSchemes;
  task_server_name : string;
  impi_config : ImpiConfig;
  status_realm : string;
  reg_data_config : RegDataConfig;
  listen : string * Z;
  realm_manager : option RealmManager
}.

Definition CASSANDRA_PORT : Z := 9160.
Definition NUM_HTTP_MGMT_THREADS : Z := 5.

(** An [int] result; overflow is undefined. *)
Definition int_result (z : Z) : option Z :=
  if (- 2 ^ 31 <=? z) && (z <? 2 ^ 31) then Some z else None.

(** [std::max(2 * hss_reregistration_time, reg_max_expires + 10)] *)
Definition derive_record_ttl (rereg expires : Z) : option Z :=
  a ← int_result (2 * rereg); b ← int_result (expires + 10); Some (Z.max a b).

Definition is_hss_configured (realm host : string) : bool :=
  negb (str_empty realm && (str_empty host || String.eqb host "0.0.0.0")).

(** What the libraries answer at startup.  [parse_stores] is
    [Utils::parse_multi_site_stores_arg]: the local store and the remote ones. *)
Record Host := mkHost {
  parse_stores : list string -> string -> string -> option (string * list string);
  is_ipv6 : string -> bool;
  pidfile_result : string -> Z;
  pool_starts : bool;
  diameter_starts : bool;
  cassandra_starts : bool;
  signaling_http_starts : bool;
  management_http_starts : bool
}.

(** How [main] gets to its wait for a signal, or leaves. *)
Inductive started (A : Type) :=
| Up (a : A)
| Exit (rc : Z)
| Undefined_main.
Arguments Up {A} a.
Arguments Exit {A} rc.
Arguments Undefined_main {A}.

Definition then_main {A B} (c : started A) (k : A -> started B) : started B :=
  match c with Up a => k a | Exit rc => Exit rc | Undefined_main => Undefined_main end.

(** Read a member; one without a value is undefined. *)
Definition member_value {A} (v : option A) : started A :=
  match v with Some a => Up a | None => Undefined_main end.

Definition exit_unless (b : bool) (rc : Z) : started unit := if b then Up tt else Exit rc.

#[local] Notation "'let+' x ':=' c 'in' k" := (then_main c (fun x => k))
  (at level 10, x pattern, c at level 200, k at level 200).

(** [daemon_log_setup] comes before the second pass over the options. *)
Definition setup_logging (o : options) : started Logging :=
  let+ level := member_value (ints o log_level) in
  Up (mkLogging (bools o daemon) (strings o log_directory) level (bools o log_to_file)
        (bools o ram_record_everything)).

Definition new_load_monitor (o : options) : started LoadMonitor :=
  let+ latency := member_value (ints o target_latency_us) in
  let+ tokens := member_value (ints o max_tokens) in
  let+ initial := member_value (floats o init_token_rate) in
  let+ minimum := member_value (floats o min_token_rate) in
  let+ maximum := member_value (floats o max_token_rate) in
  Up (mkLoadMonitor latency tokens initial minimum maximum).

(** [create_memcached_cache]: the resolver is made first, with the blacklist
    duration.  The result is that duration and the number of threads for remote
    reads. *)
Definition create_memcached_cache (o : options) (location : string) (remotes : list string)
    (threads : Z) : started (Z * Z) :=
  let+ blacklist := member_value (ints o astaire_blacklist_duration) in
  if str_empty location then Exit 2
  else Up (blacklist, to_int32 (to_uint64 (to_uint64 threads * Z.of_nat (length remotes)))).

Definition default_cassandra (h : Host) (o : options) : string :=
  if str_empty (strings o cassandra)
  then (if is_ipv6 h (strings o local_host) then "[::1]" else "127.0.0.1")
  else strings o cassandra.

Definition schemes_of (o : options) : AuthSchemes :=
  mkAuthSchemes (strings o scheme_digest) (strings o scheme_akav1) (strings o scheme_akav2).

Definition or_home_domain (o : options) : string :=
  if str_empty (strings o dest_realm) then strings o home_domain else strings o dest_realm.

(** The connection, once its library has started, and what its library was given:
    the configuration file of freeDiameter, or the host, port and threads of
    Cassandra. *)
Definition connect_hss (h : Host) (o : options)
    : started (ConfiguredHss * option string * option (string * Z * Z)) :=
  if is_hss_configured (strings o dest_realm) (strings o dest_host) then
    let+ _ := exit_unless (diameter_starts h) 2 in
    let+ timeout := member_value (ints o diameter_timeout_ms) in
    Up (UseDiameter (mkDiameterHssConnection (or_home_domain o)
                       (if String.eqb (strings o dest_host) "0.0.0.0" then "" else strings o dest_host)
                       (schemes_of o)) timeout,
        Some (strings o diameter_conf), None)
  else
    let+ workers := member_value (ints o cassandra_threads) in
    let+ _ := exit_unless (cassandra_starts h) 2 in
    Up (UseHsProv (default_cassandra h o) (strings o server_name),
        None, Some (default_cassandra h o, CASSANDRA_PORT, workers)).

(** The peers to connect to, when there is an HSS. *)
Definition start_realm_manager (o : options) : started (option RealmManager) :=
  if is_hss_configured (strings o dest_realm) (strings o dest_host) then
    let+ blacklist := member_value (ints o diameter_blacklist_duration) in
    let+ peers := member_value (ints o max_peers) in
    Up (Some (if str_empty (strings o force_hss_peer)
              then mkRealmManager (strings o dest_realm) (strings o dest_host) peers blacklist
              else mkRealmManager "" (strings o force_hss_peer) peers blacklist))
  else Up None.

(** [main] from the end of the options on. *)
Definition main_with (h : Host) (log : Logging) (o : options) : started Settings :=
  match parse_stores h (impu_stores o) (strings o local_site_name) "impu-store" with
  | None => Exit 1
  | Some (location, remotes) =>
    let+ _ := exit_unless (str_empty (strings o pidfile) ||
                           negb (pidfile_result h (strings o pidfile) =? -1)) 2 in
    let+ ttl_of_exception := member_value (ints o exception_max_ttl) in
    let+ monitor := new_load_monitor o in
    let+ dns_time := member_value (ints o dns_timeout) in
    let+ http_blacklist := member_value (ints o http_blacklist_duration) in
    let+ threads := member_value (ints o cache_threads) in
    let+ (astaire_blacklist, readers) := create_memcached_cache o location remotes threads in
    let+ _ := exit_unless (pool_starts h) 2 in
    let+ rereg := member_value (ints o hss_reregistration_time) in
    let+ expires := member_value (ints o reg_max_expires) in
    let+ ttl := member_value (derive_record_ttl rereg expires) in
    let+ (hss, conf, prov) := connect_hss h o in
    let+ workers := member_value (ints o http_threads) in
    let+ port := member_value (ints o http_port) in
    let+ _ := exit_unless (signaling_http_starts h) 2 in
    let+ _ := exit_unless (management_http_starts h) 3 in
    let+ realms := start_realm_manager o in
    Up (mkSettings
          (mkLibrarySettings log (strings o pidfile)
             (if bools o access_log_enabled then Some (strings o access_log_directory) else None)
             (is_ipv6 h (strings o local_host)) (strings o sas_system_name, bools o sas_signaling_if)
             ttl_of_exception monitor (dns_servers o, dns_time) http_blacklist astaire_blacklist
             conf prov workers NUM_HTTP_MGMT_THREADS)
          location remotes readers threads (strings o sprout_http_name) hss (schemes_of o)
          (strings o server_name)
          (mkImpiConfig (strings o scheme_unknown) (strings o scheme_digest)
             (strings o scheme_akav1) (strings o scheme_akav2))
          (or_home_domain o)
          (mkRegDataConfig (is_hss_configured (strings o dest_realm) (strings o dest_host)) rereg ttl
             (bools o request_shared_ifcs))
          (strings o http_address, port) realms)
  end.

(** A parser's result as [main] takes it. *)
Definition parsed_or_leave {A} (p : parsed A) : started A :=
  match p with Continue a => Up a | Returned _ => Exit 1 | NotDefined => Undefined_main end.

Definition main (args : list (opt * string)) (h : Host) : started Settings :=
  let+ o := parsed_or_leave (init_logging_options args default_options) in
  let+ log := setup_logging o in
  let+ o := parsed_or_leave (init_options args o) in
  main_with h log o.
End main.

Arguments Up {A} a.
Arguments Exit {A} rc.
Arguments Undefined_main {A}.

(** ** How [main] comes up *)

Lemma then_main_up {A B} (c : started A) (k : A -> started B) b :
  then_main c k = Up b -> exists a, c = Up a /\ k a = Up b.
Proof. destruct c; simpl; [eauto|done..]. Qed.

Lemma member_value_up {A} (v : option A) a : member_value v = Up a <-> v = Some a.
Proof. destruct v; simpl; split; by intros [= ->]. Qed.

(** Split the stages of an [Up]. *)
Ltac up_stages :=
  repeat match goal with
  | H : then_main _ _ = Up _ |- _ =>
      let v := fresh "v" in let E := fresh "E" in apply then_main_up in H as (v & E & H)
  | H : member_value _ = Up _ |- _ => rewrite member_value_up in H
  | H : (let '(_, _) := ?p in _) = Up _ |- _ => destruct p
  end.

Section main_facts.
Context `{LibraryDefaults} `{OptionUtils}.

(** The value of a member after the options: the last argument for it, or its
    default. *)
Definition int_given (k : int_option) (args : list (opt * string)) : option Z :=
  match last_for (gives_int k) args with Some arg => atoi arg | None => default_int k end.

(** All members, as the command line gives them. *)
Definition command_line (args : list (opt * string)) : options :=
  timeout_given args (given meaning_of args (given logging_meaning args default_options)).

Lemma last_for_none gives args : (forall c, gives c = false) -> last_for gives args = None.
Proof.
  intros Hg. induction args as [|a args IH]; [done|]. by rewrite last_for_cons, IH, Hg.
Qed.

Ltac no_option :=
  rewrite last_for_none; [try done|intros [[[] [] [] [] [] [] [] []]|[]]; reflexivity].

(** A member the logging pass leaves alone has the argument of the second pass. *)
Lemma command_line_int args k :
  k <> log_level -> k <> diameter_timeout_ms -> ints (command_line args) k = int_given k args.
Proof.
  intros Hk Hk'. unfold command_line, timeout_given.
  assert (E : ints (given meaning_of args (given logging_meaning args default_options)) k =
              int_given k args).
  { unfold int_given, gives_int. cbn [given ints default_options]. case_match; [done|].
    destruct k; try done; no_option. }
  repeat case_match; try done. cbn [set_int ints]. by rewrite insert_if, bool_decide_false.
Qed.

(** The second pass leaves the members for logging alone. *)
Lemma setup_logging_early args o :
  same_options o (given logging_meaning args default_options) ->
  setup_logging o = setup_logging (command_line args).
Proof.
  intros [Hs Hi _ Hb _ _]. unfold setup_logging, command_line. rewrite !Hs, !Hi, !Hb.
  generalize (given logging_meaning args default_options) as o1. intros o1.
  unfold timeout_given. set (o' := given meaning_of args o1).
  assert (E : ints o' log_level = ints o1 log_level /\
    strings o' log_directory = strings o1 log_directory /\
    forall k, k = daemon \/ k = log_to_file \/ k = ram_record_everything -> bools o' k = bools o1 k).
  { unfold o'. cbn [given ints strings bools]. split; [no_option|]. split; [no_option|].
    intros k [-> |[-> | ->]]; no_option. }
  clearbody o'. destruct E as (<- & <- & Hk). rewrite <- !Hk by tauto.
  repeat case_match; done.
Qed.

(** The members [main] uses: all but the time-to-live of the cache. *)
Definition same_for_main (o o' : options) : Prop :=
  (forall k, strings o k = strings o' k) /\
  (forall k, k <> impu_cache_ttl -> ints o k = ints o' k) /\
  (forall k, floats o k = floats o' k) /\ (forall k, bools o k = bools o' k) /\
  dns_servers o = dns_servers o' /\ impu_stores o = impu_stores o'.

Lemma same_options_main o o' : same_options o o' -> same_for_main o o'.
Proof. intros []. by unfold same_for_main. Qed.

Lemma main_with_same h log o o' : same_for_main o o' -> main_with h log o = main_with h log o'.
Proof.
  intros (Hs & Hi & Hf & Hb & Hd & Ht).
  unfold main_with, new_load_monitor, create_memcached_cache, connect_hss, start_realm_manager,
    default_cassandra, or_home_domain, schemes_of.
  by rewrite !Hs, !Hi, !Hf, !Hb, !Hd, !Ht by done.
Qed.

(** An argument for the time-to-live only goes there. *)
Lemma command_line_ttl args1 n args2 :
  same_for_main (command_line (args1 ++ (Short "i", n) :: args2)) (command_line (args1 ++ args2)).
Proof.
  unfold command_line, timeout_given.
  set (o := given meaning_of (args1 ++ _ :: _) _). set (o' := given meaning_of (args1 ++ args2) _).
  assert (E : same_for_main o o').
  { unfold o, o', given, same_for_main. cbn [strings ints floats bools dns_servers impu_stores].
    split_and!; intros; rewrite !last_for_skip; try done; by destruct k. }
  clearbody o o'. destruct E as (Hs & Hi & Hf & Hb & Hd & Ht).
  rewrite last_for_skip by done. rewrite <- !Hi by done.
  repeat case_match; try done. unfold same_for_main, set_int.
  cbn [strings ints floats bools dns_servers impu_stores]. split_and!; try done.
  intros k Hk. rewrite !insert_if. case_bool_decide; auto.
Qed.

(** The logging pass rejects nothing. *)
Lemma logging_never_bad args : fault_in logging_meaning args <> Some Bad.
Proof.
  unfold fault_in. induction args as [|[c a] args IH]; [done|]. cbn [map List.filter fst snd].
  destruct (verdict_of (logging_meaning c) a) eqn:E; [exact IH| |done].
  exfalso. destruct c as [[[] [] [] [] [] [] [] []]|[]]; cbn in E; try done; by destruct (atoi a).
Qed.

(** [main] as a function of what the command line gives. *)
Definition main_of_given (args : list (opt * string)) (h : Host) : started Settings :=
  match fault_in logging_meaning args, first_fault args with
  | Some _, _ => Undefined_main
  | None, Some Bad => Exit 1
  | None, Some _ => Undefined_main
  | None, None =>
      then_main (setup_logging (command_line args)) (fun log => main_with h log (command_line args))
  end.

Lemma default_ints k : k <> astaire_blacklist_duration -> exists n, default_int k = Some n.
Proof. destruct k; try done; eauto. Qed.

Lemma main_given args h : main args h = main_of_given args h.
Proof.
  unfold main, main_of_given, init_logging_options.
  pose proof (parse_all_given logging_meaning logging_option args default_options
                logging_option_agrees) as Hl.
  pose proof (logging_never_bad args) as Hb.
  destruct (fault_in logging_meaning args) as [[]|] eqn:El; [by rewrite Hl|done|by rewrite Hl|].
  destruct Hl as (o & -> & Ho). cbn [parsed_or_leave then_main].
  rewrite (setup_logging_early args o Ho).
  assert (Hd : ints o target_latency_us = Some 100000 /\ ints o diameter_timeout_ms = Some 200).
  { rewrite !(same_ints _ _ Ho). cbn [given ints]. by split; no_option. }
  destruct Hd as [Hlat Htime].
  assert (Hlevel : exists n, ints o log_level = Some n).
  { rewrite (same_ints _ _ Ho). cbn [given ints].
    destruct (last_for (fun c => sets_int log_level (logging_meaning c)) args) eqn:E; [|by exists 0].
    by eapply last_number_fine. }
  destruct Hlevel as [level Hlevel]. rewrite <- (setup_logging_early args o Ho).
  unfold setup_logging at 1. rewrite Hlevel. cbn [member_value then_main].
  pose proof (init_options_value args o _ _ Hlat Htime) as Hp.
  destruct (first_fault args) as [[]|]; [by rewrite Hp..|]. destruct Hp as (o' & -> & Ho').
  cbn [parsed_or_leave then_main]. unfold setup_logging. rewrite Hlevel. cbn [member_value then_main].
  apply main_with_same, same_options_main. by rewrite Ho', Ho.
Qed.

(** A process that came up. *)
Lemma main_up args h s :
  main args h = Up s ->
  exists log rereg expires ttl,
    let o := command_line args in
    main_with h log o = Up s /\
    ints o hss_reregistration_time = Some rereg /\ ints o reg_max_expires = Some expires /\
    ints o astaire_blacklist_duration <> None /\
    derive_record_ttl rereg expires = Some ttl /\
    reg_data_config s =
      mkRegDataConfig (is_hss_configured (strings o dest_realm) (strings o dest_host)) rereg ttl
        (bools o request_shared_ifcs).
Proof.
  rewrite main_given. unfold main_of_given. destruct (fault_in _ _) as [[]|]; try done.
  destruct (first_fault args) as [[]|]; try done. intros (log & _ & Hm)%then_main_up. exists log.
  pose proof Hm as Hm'. unfold main_with in Hm'.
  destruct (parse_stores h _ _ _) as [[location remotes]|]; [|done].
  up_stages. injection Hm' as <-. unfold create_memcached_cache in *. up_stages.
  do 3 eexists. split; [exact Hm|]. repeat split; try eassumption; try reflexivity.
  by match goal with H : ints _ astaire_blacklist_duration = _ |- _ => rewrite H end.
Qed.

(** A time-to-live of the cache changes nothing. *)
Lemma cache_ttl_ignored args1 n args2 h :
  atoi n <> None -> main (args1 ++ (Short "i", n) :: args2) h = main (args1 ++ args2) h.
Proof.
  intros Hn. rewrite !main_given. unfold main_of_given.
  assert (Hv : verdict_of (meaning_of (Short "i")) n = Fine) by (cbn; by destruct (atoi n)).
  unfold first_fault. rewrite !fault_in_skip by done.
  destruct (fault_in logging_meaning _); [done|].
  destruct (fault_in meaning_of _) as [[]|]; [reflexivity..|].
  pose proof (command_line_ttl args1 n args2) as Hc.
  assert (El : setup_logging (command_line (args1 ++ (Short "i", n) :: args2)) =
               setup_logging (command_line (args1 ++ args2))).
  { destruct Hc as (Hs & Hi & _ & Hb & _). unfold setup_logging. by rewrite !Hs, !Hi, !Hb by done. }
  rewrite El. clear El. generalize (setup_logging (command_line (args1 ++ args2))).
  intros [log|rc|]; cbn [then_main]; [by apply main_with_same|reflexivity..].
Qed.
End main_facts.

(** ** Properties *)

Section properties.
Context `{LibraryDefaults} `{OptionUtils} `{JsonLib} `{XmlLib} `{RegDataXMLUtils} `{HttpUtils}.

Lemma derive_record_ttl_value rereg expires ttl :
  derive_record_ttl rereg expires = Some ttl ->
  ttl = Z.max (2 * rereg) (expires + 10) /\ - 2 ^ 31 <= ttl < 2 ^ 31.
Proof.
  unfold derive_record_ttl, int_result. intros Ht.
  repeat case_match; simpl in Ht; try done; injection Ht as <-. lia.
Qed.

(** C15: The lifetime [main] gives a registration record serves both its clients: a
    record that is written when the HSS confirms a registration and read [age]
    seconds later makes a REG of a known binding go back to the HSS exactly when
    [age] has reached the re-registration time (or the client forbids the
    cache), whatever the options are; and it is still in the store then, and at
    every time at which a client may re-register. *)
Theorem record_lifetime {W} `{ImpuStoreOps W} args h s saa i c st (w w' : W) b d age no_cache :
  main args h = Up s ->
  let cfg := reg_data_config s in
  let rereg := HttpRegData.hss_reregistration_time cfg in
  create_impu (refreshed_irs cfg saa i) c st w = Done (DefaultImpu b d) w' ->
  0 <= store_time w < 2 ^ 31 -> 0 <= age < 2 ^ 31 -> 0 <= rereg ->
  let i' := irs_of_impu b d (store_time w + age) in
  int_given Options.hss_reregistration_time args = Some rereg /\
  decide_request cfg RequestType.REG RegistrationState.REGISTERED (_ttl i') false no_cache =
    (if (rereg <=? age) || no_cache
     then Assign Cx.RE_REGISTRATION (Some RegistrationState.REGISTERED) false
     else AnswerFromCache) /\
  (age < 2 * rereg \/ (exists e, int_given Options.reg_max_expires args = Some e /\ age < e + 10) ->
   store_time w + age < expiry b).
Proof.
  intros Hm cfg rereg Hc Hw Ha Hr i'.
  destruct (main_up args h s Hm) as (log & r & e & ttl & _ & Hor & Hoe & _ & Ht & Hcfg).
  rewrite command_line_int in Hor by done. rewrite command_line_int in Hoe by done.
  apply derive_record_ttl_value in Ht as [-> Hrange].
  assert (Er : rereg = r) by (unfold rereg, cfg; by rewrite Hcfg).
  assert (Et : record_ttl cfg = Z.max (2 * r) (e + 10)) by (unfold cfg; by rewrite Hcfg).
  rewrite create_impu_form in Hc. destruct (_ && _) eqn:Eb; [|done]. injection Hc as <- <- <-.
  assert (En : to_int32 (store_time w) = store_time w) by (apply to_int32_id; unfold int32_range; lia).
  assert (El : _ttl (refreshed_irs cfg saa i) = record_ttl cfg) by done.
  rewrite El, En in *. assert (Ei : _ttl i' = record_ttl cfg - age).
  { unfold i'. cbn [irs_of_impu _ttl expiry]. rewrite to_int32_id; unfold int32_range; lia. }
  split; [by rewrite Hor, Er|]. split.
  - rewrite Ei. unfold decide_request. fold cfg. change (HttpRegData.hss_reregistration_time cfg) with rereg.
    by replace (record_ttl cfg - (record_ttl cfg - age)) with age by lia.
  - cbn [expiry]. rewrite Et, <- Er in *. intros [Hage|(e' & He' & Hage)]; [lia|].
    rewrite Hoe in He'. injection He' as <-. lia.
Qed.

(** [main] never comes up without [--astaire-blacklist-duration]: the member
    has no default, and it is read to make the resolver of the stores.  Whatever
    the other options and the host are, [main] leaves with 1 or 2 before that or
    reads an indeterminate value. *)
Theorem main_needs_astaire_duration args h :
  last_for (gives_int astaire_blacklist_duration) args = None ->
  main args h = Undefined_main \/ main args h = Exit 1 \/ main args h = Exit 2.
Proof.
  intros Hn. assert (Ha : ints (command_line args) astaire_blacklist_duration = None).
  { rewrite command_line_int by done. unfold int_given. by rewrite Hn. }
  rewrite main_given. unfold main_of_given.
  destruct (fault_in logging_meaning args); [by left|]. destruct (first_fault args) as [[]|]; auto.
  destruct (setup_logging _) as [log|rc|] eqn:El; cbn [then_main]; [|exfalso|by left].
  2:{ unfold setup_logging, member_value in El. by destruct (ints _ log_level). }
  unfold main_with, exit_unless, create_memcached_cache, new_load_monitor, member_value. rewrite Ha.
  repeat (case_match || cbn [then_main]; auto).
Qed.

End properties.

(** ** Witnesses *)

Definition sample_defaults : LibraryDefaults := {|
  HTTP_DEFAULT_BLACKLIST_DURATION := 30;
  DIAMETER_DEFAULT_BLACKLIST_DURATION := 30;
  DNS_DEFAULT_TIMEOUT := 200
|}.

(** A host on which everything starts; the first store is the local one. *)
Definition sample_host : Host := mkHost
  (fun stores _ _ => match stores with s :: rest => Some (s, rest) | [] => Some (""%string, []) end)
  (fun _ => false) (fun _ => 0) true true true true true.

Definition sample_args : list (opt * string) :=
  [(Short "M", "site1,site2"); (Short "I", "100"); (Long ASTAIRE_BLACKLIST_DURATION, "30")]%string.

#[local] Abbreviation sample_main := (main (H := sample_defaults) (H0 := sample_utils)).

Lemma record_lifetime_witness :
  exists s, sample_main sample_args sample_host = Up s /\
  exists b d, create_impu (refreshed_irs (reg_data_config s) (sample_saa SUCCESS) sample_set) 0 None
    (Mem.empty_at 500) = Done (DefaultImpu b d) (Mem.empty_at 500) /\
  decide_request (reg_data_config s) RequestType.REG RegistrationState.REGISTERED
    (_ttl (irs_of_impu b d (500 + 100))) false false =
    Assign Cx.RE_REGISTRATION (Some RegistrationState.REGISTERED) false /\
  store_time (Mem.empty_at 500) + 100 < expiry b.
Proof.
  eexists. split; [vm_compute; reflexivity|]. eexists _, _. split; [vm_compute; reflexivity|].
  assert (Hw : 0 <= store_time (Mem.empty_at 500) < 2 ^ 31) by (simpl; lia).
  assert (Ha : 0 <= 100 < 2 ^ 31) by lia.
  assert (Hr : 0 <= 100) by lia.
  destruct (record_lifetime (H := sample_defaults) (H0 := sample_utils) sample_args sample_host _
    (sample_saa SUCCESS) sample_set 0 None (Mem.empty_at 500) (Mem.empty_at 500) _ _ 100 false
    ltac:(vm_compute; reflexivity) ltac:(vm_compute; reflexivity) Hw Ha Hr) as (_ & Hd & He).
  split; [exact Hd|]. apply He. left. vm_compute. reflexivity.
Defined.

Lemma main_needs_astaire_duration_witness :
  sample_main [(Short "M", "site1")]%string sample_host = Undefined_main /\
  (sample_main [(Short "M", "site1")]%string sample_host = Undefined_main \/
   sample_main [(Short "M", "site1")]%string sample_host = Exit 1 \/
   sample_main [(Short "M", "site1")]%string sample_host = Exit 2).
Proof.
  split; [vm_compute; reflexivity|].
  apply (main_needs_astaire_duration (H := sample_defaults) (H0 := sample_utils)).
  vm_compute. reflexivity.
Defined.
