(* ===== verification/Configured.v ===== *)
(** * What [main] makes of the command line

    An account of the process that [main] of [src/main.cpp] starts that does not
    go through [struct options] and its passes: each part of the process by the
    option that gives it or its default, and, in their order, the conditions
    under which [main] leaves.  [Startup] is shown to agree with it. *)

From Stdlib Require Import String Ascii ZArith Lia.
From stdpp Require Import base list strings option functions.
From S2P Require Import Prelude StdMap Types Env MemcachedCache HttpTasks HttpImpi HttpRegData DiameterHss Options Startup.
Import HssConnection Options.
Open Scope Z_scope.

(** ** The process by its options *)

Section configured.
Context `{LibraryDefaults} `{OptionUtils}.
Context (args : list (opt * string)) (h : Host).

(** The last argument of an option; a string, a number or a rate with its default;
    whether the option is there. *)
Definition last_of (c : opt) : option string := last_for (fun c' => bool_decide (c' = c)) args.
Definition text (c : opt) (d : string) : string := default d (last_of c).
Definition number (c : opt) (d : Z) : Z :=
  match last_of c with Some a => default 0 (atoi a) | None => d end.
Definition rate (c : opt) (d : Z) : Z :=
  match last_of c with Some a => float_of_int (default 0 (atoi a)) | None => d end.
Definition flag (c : opt) : bool := bool_decide (last_of c <> None).

Definition with_hss : bool :=
  negb (bool_decide (text (Short "D") "" = ""%string /\
          (text (Short "d") "dest-host.unknown" = ""%string \/
           text (Short "d") "dest-host.unknown" = "0.0.0.0"%string))).

Definition configured_realm : string :=
  if bool_decide (text (Short "D") "" = ""%string)
  then text (Short "r") "dest-realm.unknown" else text (Short "D") "".

Definition configured_host : string :=
  if bool_decide (text (Short "d") "dest-host.unknown" = "0.0.0.0"%string)
  then "" else text (Short "d") "dest-host.unknown".

Definition configured_cassandra : string :=
  if bool_decide (text (Short "S") "" = ""%string)
  then (if is_ipv6 h (text (Short "l") "127.0.0.1") then "[::1]" else "127.0.0.1")
  else text (Short "S") "".

(** The timeout of a Diameter request follows the target latency unless it is given. *)
Definition configured_timeout : Z :=
  match last_of (Long DIAMETER_TIMEOUT_MS) with
  | Some a => default 0 (atoi a)
  | None => calculate_diameter_timeout (number (Long TARGET_LATENCY_US) 100000) 200
  end.

Definition configured_schemes : AuthSchemes := {|
  HssConnection.scheme_digest := text (Long SCHEME_DIGEST) "";
  HssConnection.scheme_akav1 := text (Long SCHEME_AKAV1) "";
  HssConnection.scheme_akav2 := text (Long SCHEME_AKAV2) ""
|}.

(** A record lasts two re-registration times, or the longest registration and ten
    seconds. *)
Definition configured_ttl : Z :=
  Z.max (2 * number (Short "I") 1800) (number (Long REG_MAX_EXPIRES) 300 + 10).

Definition ttl_overflows : bool :=
  negb (bool_decide (- 2 ^ 31 <= 2 * number (Short "I") 1800 < 2 ^ 31)) ||
  negb (bool_decide (- 2 ^ 31 <= number (Long REG_MAX_EXPIRES) 300 + 10 < 2 ^ 31)).

Definition configured_libraries : LibrarySettings := {|
  logging := {| log_daemon := flag (Long DAEMON); log_dir := text (Short "F") "";
                log_lvl := number (Short "L") 0; log_file := flag (Short "F");
                log_ram := flag (Long RAM_RECORD_EVERYTHING) |};
  pidfile_locked := text (Long PIDFILE) "";
  access_log := last_of (Short "a");
  ipv6 := is_ipv6 h (text (Short "l") "127.0.0.1");
  sas_service := (text (Long SAS_CONFIG) "", flag (Long SAS_USE_SIGNALING_IF));
  exception_ttl := number (Long EXCEPTION_MAX_TTL) 600;
  load_monitor := {| target_latency := number (Long TARGET_LATENCY_US) 100000;
                     bucket_size := number (Long MAX_TOKENS) 1000;
                     initial_rate := rate (Long INIT_TOKEN_RATE) 100;
                     minimum_rate := rate (Long MIN_TOKEN_RATE) 10;
                     maximum_rate := rate (Long MAX_TOKEN_RATE) 0 |};
  dns_resolver := (match last_of (Long DNS_SERVER) with
                   | Some a => split_string a ","
                   | None => ["127.0.0.1"%string]
                   end, number (Long DNS_TIMEOUT) DNS_DEFAULT_TIMEOUT);
  http_resolver_blacklist := number (Long HTTP_BLACKLIST_DURATION) HTTP_DEFAULT_BLACKLIST_DURATION;
  astaire_resolver_blacklist := number (Long ASTAIRE_BLACKLIST_DURATION) 0;
  diameter_configuration := if with_hss then Some (text (Short "c") "homestead.conf") else None;
  cassandra_connection := if with_hss then None
                          else Some (configured_cassandra, 9160, number (Long CASSANDRA_THREADS) 10);
  signaling_threads := number (Short "t") 1;
  management_threads := 5
|}.

(** The process, with the stores of the sites. *)
Definition configured (location : string) (remotes : list string) : Settings := {|
  libraries := configured_libraries;
  local_impu_store := location;
  remote_impu_stores := remotes;
  read_threads := to_int32 (number (Short "u") 50 * Z.of_nat (length remotes));
  cache_pool_threads := number (Short "u") 50;
  sprout_name := text (Short "j") "sprout-http-name.unknown";
  the_hss :=
    if with_hss
    then UseDiameter (mkDiameterHssConnection configured_realm configured_host configured_schemes)
           configured_timeout
    else UseHsProv configured_cassandra (text (Short "s") "sip:server-name.unknown");
  auth_schemes := configured_schemes;
  task_server_name := text (Short "s") "sip:server-name.unknown";
  impi_config := {| HttpImpi.scheme_unknown := text (Long SCHEME_UNKNOWN) "";
                    cfg_scheme_digest := text (Long SCHEME_DIGEST) "";
                    cfg_scheme_akav1 := text (Long SCHEME_AKAV1) "";
                    cfg_scheme_akav2 := text (Long SCHEME_AKAV2) "" |};
  status_realm := configured_realm;
  reg_data_config := {| HttpRegData.hss_configured := with_hss;
                        HttpRegData.hss_reregistration_time := number (Short "I") 1800;
                        HttpRegData.record_ttl := configured_ttl;
                        HttpRegData.support_shared_ifcs := flag (Long REQUEST_SHARED_IFCS) |};
  listen := (text (Short "H") "0.0.0.0", 8888);
  realm_manager :=
    if with_hss then Some {|
      peer_realm := if bool_decide (text (Long FORCE_HSS_PEER) "" = ""%string)
                    then text (Short "D") "" else "";
      peer_host := if bool_decide (text (Long FORCE_HSS_PEER) "" = ""%string)
                   then text (Short "d") "dest-host.unknown" else text (Long FORCE_HSS_PEER) "";
      peer_max := number (Short "p") 2;
      peer_blacklist := number (Long DIAMETER_BLACKLIST_DURATION) DIAMETER_DEFAULT_BLACKLIST_DURATION
    |} else None
|}.

(** The stores of the sites, the local one first. *)
Definition configured_stores : option (string * list string) :=
  parse_stores h (match last_of (Short "M") with Some a => split_any_of a "," | None => [] end)
    (text (Long LOCAL_SITE_NAME) "") "impu-store".

(** What [main] does with options that are fine: the first condition that holds
    makes it leave, or read a member that has no value or overflow. *)
Definition configured_outcome : started Settings :=
  match configured_stores with
  | None => Exit 1
  | Some (location, remotes) =>
      let conditions := [
        (bool_decide (text (Long PIDFILE) "" <> ""%string /\
                      pidfile_result h (text (Long PIDFILE) "") = -1), Exit 2);
        (negb (flag (Long ASTAIRE_BLACKLIST_DURATION)), Undefined_main);
        (bool_decide (location = ""%string), Exit 2);
        (negb (pool_starts h), Exit 2);
        (ttl_overflows, Undefined_main);
        (with_hss && negb (diameter_starts h), Exit 2);
        (negb with_hss && negb (cassandra_starts h), Exit 2);
        (negb (signaling_http_starts h), Exit 2);
        (negb (management_http_starts h), Exit 3)] in
      match List.find fst conditions with
      | Some (_, leaving) => leaving
      | None => Up (configured location remotes)
      end
  end.
End configured.

(** ** The members by their options *)

Section members.
Context `{LibraryDefaults} `{OptionUtils}.

Lemma last_for_ext g g' args : (forall c, g c = g' c) -> last_for g args = last_for g' args.
Proof.
  intros Hg. induction args as [|a args IH]; [done|]. by rewrite !last_for_cons, IH, Hg.
Qed.

(** The options struct written out. *)
Definition members (args : list (opt * string)) : options := {|
  strings k := match k with
    | local_host => text args (Short "l") "127.0.0.1"
    | home_domain => text args (Short "r") "dest-realm.unknown"
    | diameter_conf => text args (Short "c") "homestead.conf"
    | http_address => text args (Short "H") "0.0.0.0"
    | cassandra => text args (Short "S") ""
    | local_site_name => text args (Long LOCAL_SITE_NAME) ""
    | dest_realm => text args (Short "D") ""
    | dest_host => text args (Short "d") "dest-host.unknown"
    | force_hss_peer => text args (Long FORCE_HSS_PEER) ""
    | server_name => text args (Short "s") "sip:server-name.unknown"
    | sprout_http_name => text args (Short "j") "sprout-http-name.unknown"
    | scheme_unknown => text args (Long SCHEME_UNKNOWN) ""
    | scheme_digest => text args (Long SCHEME_DIGEST) ""
    | scheme_akav1 => text args (Long SCHEME_AKAV1) ""
    | scheme_akav2 => text args (Long SCHEME_AKAV2) ""
    | access_log_directory => text args (Short "a") ""
    | log_directory => text args (Short "F") ""
    | sas_system_name => text args (Long SAS_CONFIG) ""
    | pidfile => text args (Long PIDFILE) ""
    end;
  ints k := match k with
    | http_port => Some 8888
    | http_threads => Some (number args (Short "t") 1)
    | max_peers => Some (number args (Short "p") 2)
    | impu_cache_ttl => Some (number args (Short "i") 0)
    | hss_reregistration_time => Some (number args (Short "I") 1800)
    | reg_max_expires => Some (number args (Long REG_MAX_EXPIRES) 300)
    | log_level => Some (number args (Short "L") 0)
    | cache_threads => Some (number args (Short "u") 50)
    | cassandra_threads => Some (number args (Long CASSANDRA_THREADS) 10)
    | diameter_timeout_ms => Some (configured_timeout args)
    | target_latency_us => Some (number args (Long TARGET_LATENCY_US) 100000)
    | max_tokens => Some (number args (Long MAX_TOKENS) 1000)
    | exception_max_ttl => Some (number args (Long EXCEPTION_MAX_TTL) 600)
    | astaire_blacklist_duration =>
        if flag args (Long ASTAIRE_BLACKLIST_DURATION)
        then Some (number args (Long ASTAIRE_BLACKLIST_DURATION) 0) else None
    | http_blacklist_duration =>
        Some (number args (Long HTTP_BLACKLIST_DURATION) HTTP_DEFAULT_BLACKLIST_DURATION)
    | diameter_blacklist_duration =>
        Some (number args (Long DIAMETER_BLACKLIST_DURATION) DIAMETER_DEFAULT_BLACKLIST_DURATION)
    | dns_timeout => Some (number args (Long DNS_TIMEOUT) DNS_DEFAULT_TIMEOUT)
    end;
  floats k := match k with
    | init_token_rate => Some (rate args (Long INIT_TOKEN_RATE) 100)
    | min_token_rate => Some (rate args (Long MIN_TOKEN_RATE) 10)
    | max_token_rate => Some (rate args (Long MAX_TOKEN_RATE) 0)
    end;
  bools k := match k with
    | access_log_enabled => flag args (Short "a")
    | log_to_file => flag args (Short "F")
    | daemon => flag args (Long DAEMON)
    | sas_signaling_if => flag args (Long SAS_USE_SIGNALING_IF)
    | request_shared_ifcs => flag args (Long REQUEST_SHARED_IFCS)
    | ram_record_everything => flag args (Long RAM_RECORD_EVERYTHING)
    end;
  dns_servers := match last_of args (Long DNS_SERVER) with
                 | Some a => split_string a ","
                 | None => ["127.0.0.1"%string]
                 end;
  impu_stores := match last_of args (Short "M") with Some a => split_any_of a "," | None => [] end
|}.

(** Which options give a member: none, or just [c]. *)
Ltac every_option := intros [[[] [] [] [] [] [] [] []]|[]]; reflexivity.
Ltac nobody := rewrite last_for_none by every_option.

Lemma just_one g c args : (forall c', g c' = bool_decide (c' = c)) -> last_for g args = last_of args c.
Proof. apply last_for_ext. Qed.

Ltac just c := rewrite (just_one _ c) by every_option.

(** A number that an accepted option gives. *)
Lemma number_given mean k c d args :
  fault_in mean args = None -> (forall c', sets_int k (mean c') = bool_decide (c' = c)) ->
  match last_of args c with Some a => atoi a | None => Some d end = Some (number args c d).
Proof.
  intros Hf Hc. unfold number. destruct (last_of args c) as [a|] eqn:E; [|done].
  rewrite <- (just_one (fun c' => sets_int k (mean c'))) in E by exact Hc.
  by destruct (last_number_fine mean k args a Hf E) as [n ->].
Qed.

(** The same for a rate. *)
Lemma last_rate_fine mean k args arg :
  fault_in mean args = None -> last_for (fun c => sets_float k (mean c)) args = Some arg ->
  exists n, atoi arg = Some n.
Proof.
  unfold fault_in. induction args as [|[c a] args IH]; [done|].
  rewrite last_for_cons. cbn [map List.filter fst snd].
  destruct (verdict_of (mean c) a) eqn:Ev; [|done..]. intros Hf. specialize (IH Hf).
  destruct (last_for _ args); [exact IH|]. unfold sets_float, verdict_of in *.
  destruct (mean c); try done. case_bool_decide; [|done]. intros [= <-].
  destruct (atoi a); try done; eauto.
Qed.

Lemma members_strings args k : strings (command_line args) k = strings (members args) k.
Proof.
  transitivity (strings (given meaning_of args (given logging_meaning args default_options)) k).
  { unfold command_line, timeout_given. by repeat case_match. }
  cbn [given strings]. destruct k; cbn [members strings default_options];
    match goal with
    | |- _ = text _ ?c _ =>
        first [just c; nobody; done | nobody; just c; done]
    end.
Qed.

(** The timeout changes no other member. *)
Lemma command_line_others args :
  let o := given meaning_of args (given logging_meaning args default_options) in
  (forall k, strings (command_line args) k = strings o k) /\
  (forall k, floats (command_line args) k = floats o k) /\
  (forall k, bools (command_line args) k = bools o k) /\
  dns_servers (command_line args) = dns_servers o /\ impu_stores (command_line args) = impu_stores o.
Proof. cbv zeta. unfold command_line, timeout_given. by repeat case_match. Qed.

Lemma members_bools args k : bools (command_line args) k = bools (members args) k.
Proof.
  rewrite (proj1 (proj2 (proj2 (command_line_others args)))). cbn [given bools].
  destruct k; cbn [members bools default_options];
    match goal with
    | |- _ = flag _ ?c =>
        first [just c; nobody | nobody; just c]; unfold flag; by destruct (last_of args c)
    end.
Qed.

Lemma members_floats args k :
  first_fault args = None -> floats (command_line args) k = floats (members args) k.
Proof.
  intros Hf. rewrite (proj1 (proj2 (command_line_others args))). cbn [given floats].
  assert (Hr : forall c d, (forall c', sets_float k (meaning_of c') = bool_decide (c' = c)) ->
    match last_of args c with Some a => float_of_int <$> atoi a | None => Some d end =
    Some (rate args c d)).
  { intros c d Hc. unfold rate. destruct (last_of args c) as [a|] eqn:E; [|done].
    rewrite <- (just_one (fun c' => sets_float k (meaning_of c'))) in E by exact Hc.
    by destruct (last_rate_fine meaning_of k args a Hf E) as [n ->]. }
  destruct k; cbn [members floats default_options];
    match goal with
    | |- _ = Some (rate _ ?c ?d) => just c; nobody; apply Hr; every_option
    end.
Qed.

Lemma members_timeout args :
  first_fault args = None ->
  ints (command_line args) diameter_timeout_ms = Some (configured_timeout args).
Proof.
  intros Hf. set (T := Long DIAMETER_TIMEOUT_MS).
  assert (ET : last_for (gives_int diameter_timeout_ms) args = last_of args T)
    by (apply just_one; every_option).
  pose proof (number_given meaning_of target_latency_us (Long TARGET_LATENCY_US) 100000 args Hf
    ltac:(every_option)) as Hn.
  unfold command_line, timeout_given. set (o := given meaning_of args _).
  assert (El : ints o target_latency_us = Some (number args (Long TARGET_LATENCY_US) 100000)).
  { unfold o. cbn [given ints]. rewrite <- Hn. just (Long TARGET_LATENCY_US). by nobody. }
  assert (Et : ints o diameter_timeout_ms =
    match last_of args T with Some a => atoi a | None => Some 200 end).
  { unfold o. cbn [given ints]. just T. by nobody. }
  pose proof (number_given meaning_of diameter_timeout_ms T 200 args Hf ltac:(every_option)) as Hd.
  rewrite ET, El. unfold configured_timeout. fold T. rewrite Hd in Et. revert Et. unfold number at 1.
  destruct (last_of args T); intros Et; rewrite Et; [done|].
  cbn [set_int ints]. by rewrite insert_if, bool_decide_true.
Qed.

Lemma members_ints args k :
  fault_in logging_meaning args = None -> first_fault args = None ->
  ints (command_line args) k = ints (members args) k.
Proof.
  intros Hl Hf.
  destruct (decide (k = log_level)) as [->|Hk].
  { cbn [members ints]. rewrite <- (number_given logging_meaning log_level (Short "L") 0 args Hl)
      by every_option.
    unfold command_line, timeout_given. 
    assert (E : ints (given meaning_of args (given logging_meaning args default_options)) log_level =
      match last_of args (Short "L") with Some a => atoi a | None => Some 0 end).
    { cbn [given ints]. nobody. just (Short "L"). by case_match. }
    by repeat case_match. }
  destruct (decide (k = diameter_timeout_ms)) as [->|Hk'].
  { by apply members_timeout. }
  rewrite command_line_int by done. unfold int_given.
  destruct k; try done; cbn [members ints default_int];
    try match goal with
    | |- match last_for (gives_int ?k) _ with _ => _ end = Some (number _ ?c ?d) =>
        just c; apply (number_given meaning_of k c d args Hf); every_option
    end.
  - by nobody.
  - just (Long ASTAIRE_BLACKLIST_DURATION). unfold flag.
    pose proof (number_given meaning_of astaire_blacklist_duration (Long ASTAIRE_BLACKLIST_DURATION)
      0 args Hf ltac:(every_option)) as Hn. by destruct (last_of _ _).
Qed.

Lemma members_given args :
  fault_in logging_meaning args = None -> first_fault args = None ->
  same_options (command_line args) (members args).
Proof.
  intros Hl Hf. split; intros.
  - apply members_strings.
  - by apply members_ints.
  - by apply members_floats.
  - apply members_bools.
  - rewrite (proj1 (proj2 (proj2 (proj2 (command_line_others args))))). cbn [given dns_servers members].
    just (Long DNS_SERVER). nobody. done.
  - rewrite (proj2 (proj2 (proj2 (proj2 (command_line_others args))))). cbn [given impu_stores members].
    just (Short "M"). nobody. done.
Qed.

(** Threads are counted in a [size_t] and kept in an [int]. *)
Lemma threads_wrap a n : to_int32 (to_uint64 (to_uint64 a * Z.of_nat n)) = to_int32 (a * Z.of_nat n).
Proof.
  unfold to_int32, to_uint64. rewrite Zmult_mod_idemp_l.
  set (b := a * _). f_equal. rewrite <- (Zplus_mod_idemp_l (b `mod` _)), <- (Zplus_mod_idemp_l b).
  by rewrite (Z.mod_mod_divide b (2 ^ 64) (2 ^ 32)) by (by exists (2 ^ 32)).
Qed.

Lemma str_empty_decide s : str_empty s = bool_decide (s = ""%string).
Proof. by destruct s. Qed.

Lemma eqb_decide (s s' : string) : String.eqb s s' = bool_decide (s = s').
Proof. case_bool_decide; [by apply String.eqb_eq|by apply String.eqb_neq]. Qed.

Lemma with_hss_given args :
  is_hss_configured (text args (Short "D") "") (text args (Short "d") "dest-host.unknown") =
  with_hss args.
Proof.
  unfold is_hss_configured, with_hss. rewrite eqb_decide, !str_empty_decide.
  by repeat case_bool_decide; try tauto.
Qed.

Lemma ttl_given args :
  derive_record_ttl (number args (Short "I") 1800) (number args (Long REG_MAX_EXPIRES) 300) =
  if ttl_overflows args then None else Some (configured_ttl args).
Proof.
  unfold derive_record_ttl, ttl_overflows, int_result, configured_ttl.
  set (a := 2 * _). set (b := _ + 10). clearbody a b.
  repeat case_bool_decide; cbn [negb orb];
    repeat (case_match || cbn [mbind option_bind]); try done; lia.
Qed.

Lemma pidfile_given args h :
  str_empty (text args (Long PIDFILE) "") || negb (pidfile_result h (text args (Long PIDFILE) "") =? -1) =
  negb (bool_decide (text args (Long PIDFILE) "" <> ""%string /\
                     pidfile_result h (text args (Long PIDFILE) "") = -1)).
Proof.
  rewrite str_empty_decide. destruct (Z.eqb_spec (pidfile_result h (text args (Long PIDFILE) "")) (-1));
    repeat case_bool_decide; try done; tauto.
Qed.

(** The log is set up with the members as they are in the end. *)
Definition configured_log (args : list (opt * string)) (h : Host) : Logging :=
  logging (configured_libraries args h).

Lemma access_log_given args :
  (if flag args (Short "a") then Some (text args (Short "a") "") else None) = last_of args (Short "a").
Proof. unfold flag, text. by destruct (last_of args (Short "a")). Qed.

Lemma main_with_members args h :
  main_with h (configured_log args h) (members args) = configured_outcome args h.
Proof.
  unfold main_with, configured_outcome, configured_stores. cbn [impu_stores strings members].
  destruct (parse_stores h _ _ _) as [[location remotes]|]; [|done].
  unfold new_load_monitor, create_memcached_cache, connect_hss, start_realm_manager.
  cbn [ints floats strings bools members member_value then_main List.find fst snd].
  rewrite pidfile_given, ttl_given, with_hss_given, (str_empty_decide location).
  destruct (bool_decide (_ /\ _)); [done|]. cbn [negb exit_unless then_main].
  destruct (flag _ (Long ASTAIRE_BLACKLIST_DURATION)); [|done]. cbn [negb member_value then_main].
  destruct (bool_decide (location = _)); [done|]. cbn [then_main].
  destruct (pool_starts h); [|done]. cbn [negb exit_unless then_main].
  destruct (ttl_overflows args); [done|]. cbn [member_value then_main].
  unfold configured, configured_libraries.
  unfold default_cassandra, or_home_domain, schemes_of. cbn [strings members dns_servers].
  rewrite !str_empty_decide, eqb_decide, threads_wrap, access_log_given.
  destruct (with_hss args); cbn [negb andb].
  - destruct (diameter_starts h); [|done]. cbn [negb exit_unless then_main].
    destruct (signaling_http_starts h); [|done]. destruct (management_http_starts h); [|done].
    cbn [negb exit_unless then_main]. by destruct (bool_decide (text args (Long FORCE_HSS_PEER) "" = _)).
  - destruct (cassandra_starts h); [|done]. cbn [negb exit_unless then_main].
    destruct (signaling_http_starts h); [|done]. by destruct (management_http_starts h).
Qed.
End members.

(** ** Properties *)

Section properties.
Context `{LibraryDefaults} `{OptionUtils}.

(** C27: What [main] makes of the command line: it reads a number no [int] holds, leaves
    with 1, or goes on, as the first faulty option of either pass says.  When it
    goes on, it leaves with the code of the first condition that does not hold, in
    the order of [configured_outcome]; when all hold, every part of the process is
    made with the argument of the last option that is for it, or with its default,
    as [configured] lists them.  A time-to-live of the cache, which the usage text
    offers, changes nothing. *)
Theorem main_as_given args h :
  main args h =
    match fault_in logging_meaning args, first_fault args with
    | Some _, _ => Undefined_main
    | None, Some Bad => Exit 1
    | None, Some _ => Undefined_main
    | None, None => configured_outcome args h
    end /\
  forall args1 n args2, args = args1 ++ args2 -> atoi n <> None ->
    main (args1 ++ (Short "i", n) :: args2) h = main args h.
Proof.
  split.
  - rewrite main_given. unfold main_of_given.
    destruct (fault_in logging_meaning args) eqn:El; [done|].
    destruct (first_fault args) as [[]|] eqn:Ef; [done..|].
    pose proof (members_given args El Ef) as Hm.
    assert (Hlog : setup_logging (command_line args) = Up (configured_log args h)).
    { destruct Hm as [Hs Hi _ Hb _ _]. unfold setup_logging. by rewrite Hi, Hs, !Hb. }
    rewrite Hlog. cbn [then_main]. rewrite <- main_with_members.
    by apply main_with_same, same_options_main.
  - intros args1 n args2 -> Hn. by apply cache_ttl_ignored.
Qed.
End properties.

(** ** Witness *)

Lemma main_as_given_witness :
  exists s, main (H := sample_defaults) (H0 := sample_utils) sample_args sample_host = Up s /\
    main (H := sample_defaults) (H0 := sample_utils) ((Short "i", "60"%string) :: sample_args)
      sample_host = Up s /\
    dns_resolver (libraries s) = (["127.0.0.1"%string], 200) /\
    astaire_resolver_blacklist (libraries s) = 30.
Proof.
  destruct (main_as_given (H := sample_defaults) (H0 := sample_utils) sample_args sample_host)
    as [Hm Hi].
  eexists. split; [rewrite Hm; vm_compute; reflexivity|].
  split; [|vm_compute; split; reflexivity].
  refine (eq_trans (Hi [] "60"%string sample_args eq_refl _) _); [vm_compute; discriminate|].
  vm_compute. reflexivity.
Defined.
