(* ===== verification/Usage.v ===== *)
(** * The usage text

    [usage] of [src/main.cpp]: the text [--help] prints, and what it says of the
    options against what the parsers of [Options] and the defaults of [Startup] do. *)

From Stdlib Require Import String Ascii ZArith Lia.
From stdpp Require Import base list strings option.
From S2P Require Import Prelude Types Options Startup.
Import Options.
Open Scope Z_scope.

(** ** The text *)

#[local] Abbreviation newline := (String "010" "").
#[local] Abbreviation line s := (s +:+ newline).

(** The literals of the source, which C++ joins; some end without a newline. *)
Definition usage_literals : list string := [
  line "Options:";
  line "";
  " -l, --localhost <hostname> Specify the local hostname or IP address.";
  " -r, --home-domain <name>   Specify the SIP home domain.";
  line " -c, --diameter-conf <file> File name for Diameter configuration";
  line " -H, --http <address>       Set HTTP bind address (default: 0.0.0.0)";
  line " -t, --http-threads N       Number of HTTP threads (default: 1)";
  line " -u, --cache-threads N      Number of cache threads (default: 50)";
  line "     --cassandra-threads N  Number of cassandra threads (default: 10)";
  " -S, --cassandra <address>  Set the IP address or FQDN of the Cassandra database (default: 127.0.0.1 or [::1])";
  line " -M  --impu-stores <site_name>=domain[:<port>][,<site_name>=<domain>:<port>,...]";
  line "                            Enables memcached store for IMPU cache data";
  line "                            and specifies the location of the memcached";
  line "                            store in each site. One of the sites must";
  line "                            be the local site. Remote sites for";
  line "                            geo-redundant storage are optional."; " ";
  line "                            (If not provided, localhost is used.)";
  line " -D, --dest-realm <name>    Set Destination-Realm on Cx messages";
  line " -d, --dest-host <name>     Set Destination-Host on Cx messages";
  line "     --hss-peer <name>      IP address of HSS to connect to (rather than resolving Destination-Realm/Destination-Host)";
  line " -p, --max-peers N          Number of peers to connect to (default: 2)";
  line " -s, --server-name <name>   Set Server-Name on Cx messages";
  line " -i, --impu-cache-ttl <secs>";
  line "                            IMPU cache time-to-live in seconds (default: 0)";
  line " -I, --hss-reregistration-time <secs>";
  line "                            How often a RE_REGISTRATION SAR should be sent to the HSS in seconds (default: 1800)";
  line " -j, --http-sprout-name <name>";
  line "                            Set HTTP address to send deregistration information from RTRs";
  line "     --local-site-name <name>";
  line "                            The name of the local site (used in a geo-redundant deployment)";
  line "     --scheme-unknown <string>";
  line "                            String to use to specify unknown SIP-Auth-Scheme (default: Unknown)";
  line "     --scheme-digest <string>";
  line "                            String to use to specify digest SIP-Auth-Scheme (default: SIP Digest)";
  line "     --scheme-aka <string>";
  line "                            String to use to specify AKA SIP-Auth-Scheme (default: Digest-AKAv1-MD5)";
  line " -a, --access-log <directory>";
  line "                            Generate access logs in specified directory";
  line "     --sas <system name>";
  line "                            Use specifiedsystem name to identify this system to SAS.";
  line "     --diameter-timeout-ms  Length of time (in ms) before timing out a Diameter request to the HSS";
  line "     --target-latency-us <usecs>";
  line "                            Target latency above which throttling applies (default: 100000)";
  line "     --max-tokens N         Maximum number of tokens allowed in the token bucket (used by";
  line "                            the throttling code (default: 1000))";
  line "     --init-token-rate N    Initial token refill rate of tokens in the token bucket (used by";
  line "                            the throttling code (default: 100.0))";
  line "     --min-token-rate N     Minimum token refill rate of tokens in the token bucket (used by";
  line "                            the throttling code (default: 10.0))";
  line "     --max-token-rate N     Maximum token refill rate of tokens in the token bucket (used by";
  line "                            the throttling code (default: 0.0 - no maximum))";
  line "     --dns-server <server>[,<server2>,<server3>]";
  line "                            IP addresses of the DNS servers to use (defaults to 127.0.0.1)";
  line "     --exception-max-ttl <secs>";
  line "                            The maximum time before the process exits if it hits an exception.";
  line "                            The actual time is randomised.";
  line "     --sas-use-signaling-interface";
  line "                            Whether SAS traffic is to be dispatched over the signaling network";
  line "                            interface rather than the default management interface";
  line "     --http-blacklist-duration <secs>";
  line "                            The amount of time to blacklist an HTTP peer when it is unresponsive.";
  line "     --diameter-blacklist-duration <secs>";
  line "                            The amount of time to blacklist a Diameter peer when it is unresponsive.";
  line "     --dns-timeout <milliseconds>";
  line "                            The amount of time to wait for a DNS response (default: 200)";
  line "     --request-shared-ifcs  Indicate support for Shared IFC sets in the Supported-Features AVP.";
  line " -F, --log-file <directory>";
  line "                            Log to file in specified directory";
  line " -L, --log-level N          Set log level to N (default: 4)";
  line "     --ram-record-everything";
  line "                            Write all logs to RAM and dump them to file on abnormal termination";
  line "     --daemon               Run as daemon";
  line "     --pidfile=<filename>   Write pidfile";
  line " -h, --help                 Show this help screen"]%string.

Definition usage : string := String.concat "" usage_literals.

(** ** Reading it *)

(** The words between spaces and newlines. *)
Fixpoint words (s cur : string) : list string :=
  let here := if str_empty cur then [] else [cur] in
  match s with
  | EmptyString => here
  | String a rest => if is_space a then here ++ words rest "" else words rest (cur +:+ String a "")
  end.

(** An option the text offers: a letter, a name, and the default it states. *)
Record offer := mkOffer { letter : option ascii; name : string; stated : option string }.

Fixpoint until_equals (s : string) : string :=
  match s with
  | String a rest => if Ascii.eqb a "=" then "" else String a (until_equals rest)
  | EmptyString => ""
  end.

(** The words up to one with a closing parenthesis, without it. *)
Fixpoint to_parenthesis (ws : list string) : option string :=
  let fix before (s : string) : option string :=
    match s with
    | EmptyString => None
    | String ")" _ => Some ""%string
    | String a rest => String a <$> before rest
    end in
  match ws with
  | [] => None
  | w :: ws => match before w with
               | Some w => Some w
               | None => (fun v => w +:+ String " " v) <$> to_parenthesis ws
               end
  end.

(** The offers in order, the last one first while reading. *)
Fixpoint read_offers (ws : list string) (pending : option ascii) (read : list offer) : list offer :=
  match ws with
  | [] => rev read
  | w :: ws =>
      match w with
      | String "-" (String "-" n) =>
          read_offers ws None (mkOffer pending (until_equals n) None :: read)
      | String "-" (String a rest) =>
          if String.eqb rest "" || String.eqb rest "," then read_offers ws (Some a) read
          else read_offers ws pending read
      | _ =>
          match read with
          | o :: read' =>
              if String.eqb w "(default:"
              then read_offers ws pending (mkOffer (letter o) (name o) (to_parenthesis ws) :: read')
              else read_offers ws pending read
          | [] => read_offers ws pending read
          end
      end
  end.

Definition offers : list offer := read_offers (words usage "") None [].

(** ** The options of [getopt_long] *)

(** The C library takes a name, or the beginning of only one name. *)
Definition find_long (n : string) : option opt :=
  match List.filter (fun e => String.eqb n (fst (fst e))) long_opt,
        List.filter (fun e => String.prefix n (fst (fst e))) long_opt with
  | e :: _, _ => Some (snd e)
  | [], [e] => Some (snd e)
  | [], _ => None
  end.

Definition find_short (a : ascii) : option opt :=
  if existsb (Ascii.eqb a) (list_ascii_of_string options_description) && negb (Ascii.eqb a ":")
  then Some (Short a) else None.

(** An offer holds when its name and its letter are options, and the same one. *)
Definition letter_holds (o : offer) : bool :=
  match letter o with
  | Some a => bool_decide (find_short a <> None /\ find_short a = find_long (name o))
  | None => true
  end.

Definition name_holds (o : offer) : bool := bool_decide (find_long (name o) <> None).

Definition default_holds `{LibraryDefaults} (o : offer) : bool :=
  match stated o, find_long (name o) with
  | Some v, Some c =>
      match meaning_of c, logging_meaning c with
      | (SetsInt k | ChecksInt k _), _ | _, SetsInt k => bool_decide (default_int k = atoi v)
      | ChecksFloat k _, _ => bool_decide (default_float k = atoi v)
      | SetsString k, _ => bool_decide (default_string k = v)
      | _, _ => false
      end
  | Some _, None => false
  | None, _ => true
  end.

Definition failing (holds : offer -> bool) : list string :=
  map name (List.filter (fun o => negb (holds o)) offers).

(** What the usage text gets wrong: two letters and two names that are no options;
    and defaults, of which that of [--cassandra] is only set later, by
    [default_cassandra].  Five options are not in the text. *)
Lemma usage_text_errors `{LibraryDefaults} :
  DNS_DEFAULT_TIMEOUT = 200 ->
  failing name_holds = ["http-sprout-name"; "scheme-aka"]%string /\
  failing letter_holds = ["impu-stores"; "http-sprout-name"]%string /\
  failing default_holds =
    ["cassandra"; "scheme-unknown"; "scheme-digest"; "scheme-aka"; "log-level"]%string /\
  List.filter (fun n => negb (in_vector n (map name offers))) (map (fun e => fst (fst e)) long_opt) =
    ["reg-max-expires"; "sprout-http-name"; "scheme-akav1"; "scheme-akav2";
     "astaire-blacklist-duration"]%string.
Proof.
  destruct H as [? ? n]. intros Hn. change (n = 200) in Hn. subst n.
  split_and!; vm_compute; reflexivity.
Qed.
