(* ===== verification/Diagnostics.v ===== *)
(** * What the program reports

    The events for SAS ([include/homesteadsasevent.h]), the problem logs
    ([include/homestead_pd_definitions.h]) and the statistics
    ([src/statisticsmanager.cpp] and the tables of [src/main.cpp]): their
    identifiers, and the format of a log against the parameters it is given. *)

From Stdlib Require Import String Ascii ZArith Lia.
From stdpp Require Import base list strings option.
From S2P Require Import Prelude Types.
Open Scope Z_scope.

(** ** SAS events *)

Inductive sas_event :=
| INVALID_SCHEME | UNSUPPORTED_SCHEME | NO_IMPU | NO_AV_HSPROV | NO_AV_HSS | INVALID_REG_TYPE
| SUB_NOT_REG | HSPROV_GET_REG_DATA | HSPROV_GET_REG_DATA_SUCCESS | HSPROV_GET_REG_DATA_FAIL
| REG_DATA_HSS_SUCCESS | REG_DATA_HSS_FAIL | REG_DATA_HSS_INVALID
| REG_DATA_HSS_FAIL_ASSIGNMENT_TYPE | REG_DATA_HSS_UPDATED_WILDCARD | ICSCF_NO_HSS
| ICSCF_NO_HSS_CHECK_CASSANDRA | ICSCF_NO_HSS_CASSANDRA_NO_SUBSCRIBER
| ICSCF_NO_HSS_CASSANDRA_SUCCESS | REG_STATUS_HSS_FAIL | LOC_INFO_HSS_FAIL
| INVALID_DEREG_REASON | NO_IMPU_DEREG | DEREG_FAIL | DEREG_SUCCESS | UPDATED_REG_DATA
| HSPROV_GET_AV | HSPROV_GET_AV_SUCCESS | CACHE_GET_REG_DATA | CACHE_GET_REG_DATA_IMPIS
| CACHE_GET_REG_DATA_SUCCESS | CACHE_GET_REG_DATA_FAIL | CACHE_GET_REG_DATA_NOT_FOUND
| CACHE_PUT_REG_DATA | CACHE_PUT_REG_DATA_IMPI | CACHE_PUT_REG_DATA_SUCCESS
| CACHE_PUT_REG_DATA_FAIL | CACHE_DELETE_REG_DATA | CACHE_DELETE_REG_DATA_SUCCESS
| CACHE_DELETE_REG_DATA_FAIL | CACHE_DELETE_REG_DATA_NOT_FOUND | NO_SIP_URI_IN_IRS
| PPR_RECEIVED | RTR_RECEIVED | PPR_CHANGE_DEFAULT_IMPU.

(** The identifier, from [HOMESTEAD_BASE] on. *)
Definition event_offset (e : sas_event) : Z :=
  match e with
  | INVALID_SCHEME => 0x0
  | UNSUPPORTED_SCHEME => 0x1
  | NO_IMPU => 0x10
  | NO_AV_HSPROV => 0x20
  | NO_AV_HSS => 0x30
  | INVALID_REG_TYPE => 0x40
  | SUB_NOT_REG => 0x50
  | HSPROV_GET_REG_DATA => 0x60
  | HSPROV_GET_REG_DATA_SUCCESS => 0x61
  | HSPROV_GET_REG_DATA_FAIL => 0x62
  | REG_DATA_HSS_SUCCESS => 0x80
  | REG_DATA_HSS_FAIL => 0x90
  | REG_DATA_HSS_INVALID => 0x91
  | REG_DATA_HSS_FAIL_ASSIGNMENT_TYPE => 0x92
  | REG_DATA_HSS_UPDATED_WILDCARD => 0x93
  | ICSCF_NO_HSS => 0xA0
  | ICSCF_NO_HSS_CHECK_CASSANDRA => 0xA1
  | ICSCF_NO_HSS_CASSANDRA_NO_SUBSCRIBER => 0xA2
  | ICSCF_NO_HSS_CASSANDRA_SUCCESS => 0xA3
  | REG_STATUS_HSS_FAIL => 0xB0
  | LOC_INFO_HSS_FAIL => 0xC0
  | INVALID_DEREG_REASON => 0xD0
  | NO_IMPU_DEREG => 0xE0
  | DEREG_FAIL => 0xF0
  | DEREG_SUCCESS => 0x100
  | UPDATED_REG_DATA => 0x110
  | HSPROV_GET_AV => 0x130
  | HSPROV_GET_AV_SUCCESS => 0x140
  | CACHE_GET_REG_DATA => 0x190
  | CACHE_GET_REG_DATA_IMPIS => 0x191
  | CACHE_GET_REG_DATA_SUCCESS => 0x1A0
  | CACHE_GET_REG_DATA_FAIL => 0x1B0
  | CACHE_GET_REG_DATA_NOT_FOUND => 0x1B1
  | CACHE_PUT_REG_DATA => 0x1C0
  | CACHE_PUT_REG_DATA_IMPI => 0x1C1
  | CACHE_PUT_REG_DATA_SUCCESS => 0x1C2
  | CACHE_PUT_REG_DATA_FAIL => 0x1C3
  | CACHE_DELETE_REG_DATA => 0x1D0
  | CACHE_DELETE_REG_DATA_SUCCESS => 0x1D1
  | CACHE_DELETE_REG_DATA_FAIL => 0x1D2
  | CACHE_DELETE_REG_DATA_NOT_FOUND => 0x1D3
  | NO_SIP_URI_IN_IRS => 0x220
  | PPR_RECEIVED => 0x230
  | RTR_RECEIVED => 0x240
  | PPR_CHANGE_DEFAULT_IMPU => 0x260
  end.

(** ** Problem logs *)

Inductive severity := LOG_INFO | LOG_NOTICE | LOG_ERR.

(** The template arguments of [PDLog1] and [PDLog2]. *)
Inductive log_parameter := Pchar | Pstring | Pint.

Record PDLog := mkPDLog {
  log_id : Z;
  log_severity : severity;
  log_parameters : list log_parameter;
  log_message : string;
  log_cause : string;
  log_effect : string;
  log_action : string
}.

Definition CL_HOMESTEAD_INVALID_SAS_OPTION : PDLog := mkPDLog 1 LOG_INFO []
  "The sas_server option in /etc/clearwater/config is invalid or not configured."
  "The interface to the SAS is not specified."
  "No call traces will appear in the SAS"
  "Set the fully qualified SAS hostname for the sas_server=<hostname> option. ".

Definition CL_HOMESTEAD_INVALID_OPTION_C : PDLog := mkPDLog 3 LOG_ERR [Pchar]
  "Fatal - Unknown command line option %c.  Run with --help for options."
  "There was an invalid command line option in /etc/clearwater/config."
  "The application will exit and restart until the problem is fixed."
  "Correct the /etc/clearwater/config file.".

Definition CL_HOMESTEAD_CRASH : PDLog := mkPDLog 4 LOG_ERR [Pstring]
  "Fatal - Homestead has exited or crashed with signal %s."
  "Homestead has encountered a fatal software error or has been terminated."
  "The application will exit and restart until the problem is fixed."
  "Ensure that Homestead has been installed correctly and that it has valid configuration.".

Definition CL_HOMESTEAD_STARTED : PDLog := mkPDLog 5 LOG_NOTICE []
  "Homestead started."
  "The Homestead application is starting."
  "Normal."
  "None.".

Definition CL_HOMESTEAD_CASSANDRA_INIT_FAIL : PDLog := mkPDLog 6 LOG_ERR [Pint]
  "Fatal - Failed to initialize the Cassandra connection - error code %d."
  "The connection to Cassandra could not be established."
  "The application will exit and restart until the problem is fixed."
  "(1). Check that the Cassandra service is running reliably. (2). Check that the correct Cassandra hostname is set in shared configuration. (3). Check connectivity between the local Homestead process and the Cassandra service.".

Definition CL_HOMESTEAD_DIAMETER_INIT_FAIL : PDLog := mkPDLog 7 LOG_ERR [Pstring; Pint]
  "Fatal - Failed to initialize Diameter stack in function %s with error %d."
  "The Diameter interface could not be initialized or encountered an error while running."
  "The application will exit and restart until the problem is fixed."
  "(1). Check the configuration for the Diameter destination hosts. (2). Check the connectivity to the Diameter host using Wireshark.".

Definition CL_HOMESTEAD_HTTP_INIT_FAIL : PDLog := mkPDLog 8 LOG_ERR [Pstring; Pint]
  "Fatal - Failed to initialize HttpStack stack in function %s with error %d."
  "The HTTP interfaces could not be initialized."
  "Call processing will not work."
  "(1). Check the /etc/clearwater/config for correctness. (2). Check the network status and configuration. ".

Definition CL_HOMESTEAD_CACHE_INIT_FAIL : PDLog := mkPDLog 9 LOG_ERR []
  "Fatal - Failed to start the cache"
  "The HSS cache could not be started."
  "The application will exit and restart until the problem is fixed."
  "Check shared and local configuration are correct.".

Definition CL_HOMESTEAD_NO_IMPU_STORE : PDLog := mkPDLog 10 LOG_ERR []
  "Fatal - No IMPU store specified"
  "No IMPU store was specified in shared configuration."
  "The application will exit and restart until the problem is fixed."
  "Specify homestead_impu_store in shared config, and then re-upload shared config.".

Definition CL_HOMESTEAD_ENDED : PDLog := mkPDLog 11 LOG_ERR []
  "Fatal - Termination signal received - terminating."
  "Homestead could have been stopped or Homestead could have been restarted by Monit due to a timeout."
  "Homestead will exit."
  "For a command initiated stop the Monit log will indicate a stop on user request ".

Definition CL_HOMESTEAD_HTTP_STOP_FAIL : PDLog := mkPDLog 12 LOG_ERR [Pstring; Pint]
  "The HTTP interfaces encountered an error when stopping the HTTP stack in %s with error %d."
  "When Homestead was exiting it encountered an error when shutting down the HTTP stack."
  "Not critical as Homestead is exiting anyway."
  "No action required.".

Definition CL_HOMESTEAD_DIAMETER_STOP_FAIL : PDLog := mkPDLog 13 LOG_ERR [Pstring; Pint]
  "Failed to stop Diameter stack in function %s with error %d."
  "The Diameter interface encountered an error when shutting down the Diameter interface."
  "Not critical as Homestead is exiting anyway."
  "No action required.".

Definition problem_logs : list PDLog :=
  [CL_HOMESTEAD_INVALID_SAS_OPTION;
   CL_HOMESTEAD_INVALID_OPTION_C;
   CL_HOMESTEAD_CRASH;
   CL_HOMESTEAD_STARTED;
   CL_HOMESTEAD_CASSANDRA_INIT_FAIL;
   CL_HOMESTEAD_DIAMETER_INIT_FAIL;
   CL_HOMESTEAD_HTTP_INIT_FAIL;
   CL_HOMESTEAD_CACHE_INIT_FAIL;
   CL_HOMESTEAD_NO_IMPU_STORE;
   CL_HOMESTEAD_ENDED;
   CL_HOMESTEAD_HTTP_STOP_FAIL;
   CL_HOMESTEAD_DIAMETER_STOP_FAIL].

(** The conversions of a format, as [printf] reads it; a percent sign before another
    character is not among the formats. *)
Fixpoint conversions (s : string) : option (list log_parameter) :=
  match s with
  | EmptyString => Some []
  | String "%" (String "c" rest) => cons Pchar <$> conversions rest
  | String "%" (String "s" rest) => cons Pstring <$> conversions rest
  | String "%" (String "d" rest) => cons Pint <$> conversions rest
  | String "%" _ => None
  | String _ rest => conversions rest
  end.

(** ** Statistics *)

(** The tables of [StatisticsManager], with name and object identifier. *)
Inductive accumulator :=
| H_latency_us | H_hss_latency_us | H_hsprov_latency_us | H_hss_digest_latency_us
| H_hss_subscription_latency_us.

Inductive counter := H_incoming_requests | H_rejected_overload.

#[export] Instance accumulator_eq_dec : EqDecision accumulator.
Proof. solve_decision. Defined.
#[export] Instance counter_eq_dec : EqDecision counter.
Proof. solve_decision. Defined.

Definition accumulator_table (a : accumulator) : string * string :=
  match a with
  | H_latency_us => ("H_latency_us", ".1.2.826.0.1.1578918.9.5.1")
  | H_hss_latency_us => ("H_hss_latency_us", ".1.2.826.0.1.1578918.9.5.2")
  | H_hsprov_latency_us => ("H_hsprov_latency_us", ".1.2.826.0.1.1578918.9.5.3")
  | H_hss_digest_latency_us => ("H_hss_digest_latency_us", ".1.2.826.0.1.1578918.9.5.4")
  | H_hss_subscription_latency_us =>
      ("H_hss_subscription_latency_us", ".1.2.826.0.1.1578918.9.5.5")
  end.

Definition counter_table (c : counter) : string * string :=
  match c with
  | H_incoming_requests => ("H_incoming_requests", ".1.2.826.0.1.1578918.9.5.6")
  | H_rejected_overload => ("H_rejected_overload", ".1.2.826.0.1.1578918.9.5.7")
  end.

(** The tables [main] creates. *)
Definition main_tables : list (string * string) := [
  ("H_diameter_invalid_dest_realm", ".1.2.826.0.1.1578918.9.5.8");
  ("H_diameter_invalid_dest_host", ".1.2.826.0.1.1578918.9.5.9");
  ("cx_mar_results", ".1.2.826.0.1.1578918.9.5.10");
  ("cx_sar_results", ".1.2.826.0.1.1578918.9.5.11");
  ("cx_uar_results", ".1.2.826.0.1.1578918.9.5.12");
  ("cx_lir_results", ".1.2.826.0.1.1578918.9.5.13");
  ("cx_ppr_results", ".1.2.826.0.1.1578918.9.5.14");
  ("cx_rtr_results", ".1.2.826.0.1.1578918.9.5.15");
  ("cache_queue_size", ".1.2.826.0.1.1578918.9.5.16") ]%string.

(** What has been reported: the samples of each accumulator, the count of each
    counter. *)
Record StatisticsManager := mkStatisticsManager {
  samples : accumulator -> list Z;
  count : counter -> Z
}.

Definition new_StatisticsManager : StatisticsManager :=
  mkStatisticsManager (fun _ => []) (fun _ => 0).

(** The methods the macros define: [update_...] and [incr_...]. *)
Definition update (a : accumulator) (sample : Z) (m : StatisticsManager) : StatisticsManager :=
  mkStatisticsManager
    (fun b => if bool_decide (b = a) then samples m b ++ [sample] else samples m b) (count m).

Definition incr (c : counter) (m : StatisticsManager) : StatisticsManager :=
  mkStatisticsManager (samples m)
    (fun b => if bool_decide (b = c) then count m b + 1 else count m b).

(** The interface to the HTTP stack. *)
Definition update_http_latency_us : Z -> StatisticsManager -> StatisticsManager :=
  update H_latency_us.
Definition incr_http_incoming_requests : StatisticsManager -> StatisticsManager :=
  incr H_incoming_requests.
Definition incr_http_rejected_overload : StatisticsManager -> StatisticsManager :=
  incr H_rejected_overload.

Definition all_tables : list (string * string) :=
  map accumulator_table [H_latency_us; H_hss_latency_us; H_hsprov_latency_us;
    H_hss_digest_latency_us; H_hss_subscription_latency_us] ++
  map counter_table [H_incoming_requests; H_rejected_overload] ++ main_tables.

(** ** Markers *)

(** Functions of cpp-common on telephone numbers. *)
Class NumberUtils := {
  strip_uri_scheme : string -> string;
  is_user_numeric : string -> bool;
  remove_visual_separators : string -> string
}.

(** [user.erase(user.find('@'))], when there is one *)
Fixpoint before_at (s : string) : string :=
  match s with
  | String "@" _ => ""
  | String a rest => String a (before_at rest)
  | EmptyString => ""
  end.

(** The parameters of the marker that [log_sip_all_register_marker] reports. *)
Definition log_sip_all_register_marker `{NumberUtils} (uri : string) : list string :=
  let stripped_uri := strip_uri_scheme uri in
  let user := before_at stripped_uri in
  stripped_uri :: (if is_user_numeric user then [remove_visual_separators user] else []).

(** The state of a registration, as it is logged. *)
Definition regstate_to_str (state : RegistrationState.t) : string :=
  match state with
  | RegistrationState.REGISTERED => "REGISTERED"
  | RegistrationState.UNREGISTERED => "UNREGISTERED"
  | RegistrationState.NOT_REGISTERED => "NOT_REGISTERED"
  | _ => "???"
  end.

(** ** Identifiers and formats *)

(** No two events, logs or tables share an identifier, and no two tables a name; and
    the format of every log has the conversions of its parameters. *)
Theorem diagnostics_well_formed :
  Inj (=) (=) event_offset /\
  NoDup (map log_id problem_logs) /\
  NoDup (map fst all_tables) /\ NoDup (map snd all_tables) /\
  Forall (fun l => conversions (log_message l) = Some (log_parameters l)) problem_logs.
Proof.
  split; [by intros [] []|].
  do 3 (split; [apply (bool_decide_unpack _); by vm_compute|]).
  repeat (apply list.Forall_cons; split; [by vm_compute|]). by apply list.Forall_nil.
Qed.
