(* ===== verification/Routes.v ===== *)
(** * Routes

    The patterns [main] of [src/main.cpp] registers with the two HTTP stacks, and
    which of them a path matches.  A pattern is kept as the source has it and read
    into a small regular expression: an anchor at the start, characters, [[^/]*]
    and [$]. *)

From Stdlib Require Import String Ascii ZArith Lia.
From stdpp Require Import base list strings option sets.
From S2P Require Import Prelude Types VarByte Env Irs HttpTasks.

(** ** Patterns *)

Inductive item := Char (a : ascii) | NotSlashes | EndOfPath.

Fixpoint read_pattern (s : string) : list item :=
  match s with
  | EmptyString => []
  | String "[" (String "^" (String "/" (String "]" (String "*" rest)))) =>
      NotSlashes :: read_pattern rest
  | String "$" rest => EndOfPath :: read_pattern rest
  | String a rest => Char a :: read_pattern rest
  end.

(** Whether a prefix of the path matches, which is a search for a pattern
    anchored with [^]. *)
Fixpoint matches (r : list item) (s : string) {struct r} : bool :=
  match r with
  | [] => true
  | Char a :: r' =>
      match s with String b s' => Ascii.eqb a b && matches r' s' | EmptyString => false end
  | EndOfPath :: r' => str_empty s && matches r' s
  | NotSlashes :: r' =>
      (fix skip (s : string) : bool :=
         matches r' s ||
         match s with
         | String b s' => negb (Ascii.eqb b "/") && skip s'
         | EmptyString => false
         end) s
  end.

(** The pattern of a route starts with [^]. *)
Definition route_matches (pattern path : string) : bool :=
  match pattern with
  | String "^" rest => matches (read_pattern rest) path
  | _ => false
  end.

(** ** The handlers *)

Inductive handler :=
| PingHandler | impi_digest_handler | impi_av_handler | impi_reg_status_handler
| impu_loc_info_handler | impu_reg_data_handler | impu_read_reg_data_handler.

#[export] Instance handler_eq_dec : EqDecision handler.
Proof. solve_decision. Defined.

Definition signaling_routes : list (string * handler) := [
  ("^/ping$", PingHandler);
  ("^/impi/[^/]*/digest$", impi_digest_handler);
  ("^/impi/[^/]*/av", impi_av_handler);
  ("^/impi/[^/]*/registration-status$", impi_reg_status_handler);
  ("^/impu/[^/]*/location$", impu_loc_info_handler);
  ("^/impu/[^/]*/reg-data$", impu_reg_data_handler) ]%string.

Definition management_routes : list (string * handler) := [
  ("^/ping$", PingHandler);
  ("^/impu/[^/]*/reg-data$", impu_read_reg_data_handler) ]%string.

(** The handlers whose pattern matches a path; the stack takes one of them. *)
Definition serving (routes : list (string * handler)) (path : string) : list handler :=
  map snd (List.filter (fun r => route_matches (fst r) path) routes).

(** ** The shape of a path *)

Definition no_slash (s : string) : Prop := to_slash s = s.

Definition chars (s : string) : list item := map Char (list_ascii_of_string s).

Lemma matches_chars p r s :
  matches (chars p ++ r) s = true <-> exists s', s = p +:+ s' /\ matches r s' = true.
Proof.
  revert s. induction p as [|a p IH]; intros s.
  { split; [intros E; by exists s|by intros (s' & -> & E)]. }
  cbn. destruct s as [|b s].
  { split; [done|]. by intros (s' & E & _). }
  rewrite andb_true_iff, Ascii.eqb_eq. fold (chars p). rewrite IH. split.
  - intros (-> & s' & -> & E). by exists s'.
  - intros (s' & [= -> ->] & E). split; [done|]. by exists s'.
Qed.

Lemma no_slash_nil : no_slash "".
Proof. done. Qed.

Lemma no_slash_cons a s : no_slash (String a s) <-> a <> "/"%char /\ no_slash s.
Proof.
  unfold no_slash. cbn [to_slash]. destruct (Ascii.eqb_spec a "/"); [by split; [|intros [? _]]|].
  split; [by intros [= ->]|by intros [_ ->]].
Qed.

Lemma matches_not_slashes r s :
  matches (NotSlashes :: r) s = true <->
  exists id s', s = id +:+ s' /\ no_slash id /\ matches r s' = true.
Proof.
  induction s as [|b s IH].
  - cbn. rewrite orb_false_r. split.
    + intros E. by exists ""%string, ""%string.
    + intros ([|a id] & s' & E & _ & Hm); [by destruct s'|done].
  - change (matches (NotSlashes :: r) (String b s)) with
      (matches r (String b s) || negb (Ascii.eqb b "/") && matches (NotSlashes :: r) s).
    rewrite orb_true_iff, andb_true_iff, negb_true_iff, IH. split.
    + intros [E|(Hb & id & s' & -> & Hid & E)].
      * by exists ""%string, (String b s).
      * exists (String b id), s'. rewrite no_slash_cons. apply Ascii.eqb_neq in Hb. done.
    + intros ([|a id] & s' & E & Hid & Hm).
      * change (String b s = s') in E. subst. by left.
      * injection E as -> ->. apply no_slash_cons in Hid as [Ha Hid]. right.
        split; [by apply Ascii.eqb_neq|]. by exists id, s'.
Qed.

Lemma matches_end s : matches [EndOfPath] s = true <-> s = ""%string.
Proof. cbn. rewrite andb_true_r. apply str_empty_spec. Qed.

(** A prefix, an identity without slashes, and what follows. *)
Lemma matches_identity p q r s :
  matches (chars p ++ NotSlashes :: chars q ++ r) s = true <->
  exists id rest, s = p +:+ id +:+ q +:+ rest /\ no_slash id /\ matches r rest = true.
Proof.
  rewrite matches_chars. setoid_rewrite matches_not_slashes. setoid_rewrite matches_chars.
  split.
  - intros (s1 & -> & id & s2 & -> & Hid & s3 & -> & Hm). by exists id, s3.
  - intros (id & rest & -> & Hid & Hm). exists (id +:+ q +:+ rest). split; [done|].
    exists id, (q +:+ rest). split; [done|]. split; [done|]. by exists rest.
Qed.

(** What the source means by its patterns: the path of each handler. *)
Definition path_of (h : handler) (path : string) : Prop :=
  match h with
  | PingHandler => path = "/ping"%string
  | impi_digest_handler =>
      exists id, path = "/impi/" +:+ id +:+ "/digest" /\ no_slash id
  | impi_av_handler =>
      exists id rest, path = "/impi/" +:+ id +:+ "/av" +:+ rest /\ no_slash id
  | impi_reg_status_handler =>
      exists id, path = "/impi/" +:+ id +:+ "/registration-status" /\ no_slash id
  | impu_loc_info_handler =>
      exists id, path = "/impu/" +:+ id +:+ "/location" /\ no_slash id
  | impu_reg_data_handler | impu_read_reg_data_handler =>
      exists id, path = "/impu/" +:+ id +:+ "/reg-data" /\ no_slash id
  end.

Definition handler_prefix (h : handler) : string :=
  match h with
  | PingHandler => ""
  | impi_digest_handler | impi_av_handler | impi_reg_status_handler => "/impi/"
  | _ => "/impu/"
  end.

Lemma matches_identity_end p q s :
  matches (chars p ++ NotSlashes :: chars q ++ [EndOfPath]) s = true <->
  exists id, s = p +:+ id +:+ q /\ no_slash id.
Proof.
  rewrite matches_identity. split.
  - intros (id & rest & -> & Hid & ->%matches_end). exists id. by rewrite str_app_nil.
  - intros (id & -> & Hid). exists id, ""%string. by rewrite str_app_nil.
Qed.

Lemma matches_identity_start p q s :
  matches (chars p ++ NotSlashes :: chars q) s = true <->
  exists id rest, s = p +:+ id +:+ q +:+ rest /\ no_slash id.
Proof.
  rewrite <- (app_nil_r (chars q)), matches_identity. split.
  - intros (id & rest & -> & Hid & _). by exists id, rest.
  - intros (id & rest & -> & Hid). by exists id, rest.
Qed.

Lemma matches_ping s : matches (chars "/ping" ++ [EndOfPath]) s = true <-> s = "/ping"%string.
Proof.
  rewrite matches_chars. setoid_rewrite matches_end. split.
  - by intros (s' & -> & ->).
  - intros ->. by exists ""%string.
Qed.

(** The identity and what follows it can be read back from a path. *)
Lemma identity_unique id id' x y :
  no_slash id -> no_slash id' ->
  id +:+ String "/" x = id' +:+ String "/" y -> id = id' /\ x = y.
Proof.
  revert id'. induction id as [|a id IH]; intros [|b id'] Hid Hid' E;
    repeat match goal with H : no_slash (String _ _) |- _ => apply no_slash_cons in H as [? ?] end;
    injection E; intros; subst; try done.
  destruct (IH id') as [-> ->]; done.
Qed.

Lemma pattern_shape pattern h path :
  (pattern, h) ∈ signaling_routes ++ management_routes ->
  route_matches pattern path = true <-> path_of h path.
Proof.
  rewrite elem_of_app. unfold signaling_routes, management_routes.
  rewrite !elem_of_cons, elem_of_nil.
  intros Hin. repeat destruct Hin as [Hin|Hin]; try done; injection Hin as -> ->; cbn [path_of].
  - apply (matches_ping path).
  - apply (matches_identity_end "/impi/" "/digest").
  - apply (matches_identity_start "/impi/" "/av").
  - apply (matches_identity_end "/impi/" "/registration-status").
  - apply (matches_identity_end "/impu/" "/location").
  - apply (matches_identity_end "/impu/" "/reg-data").
  - apply (matches_ping path).
  - apply (matches_identity_end "/impu/" "/reg-data").
Qed.

Lemma elem_of_serving routes h path :
  h ∈ serving routes path <-> exists p, (p, h) ∈ routes /\ route_matches p path = true.
Proof.
  unfold serving. rewrite list_elem_of_In, in_map_iff. setoid_rewrite List.filter_In. split.
  - intros ([p h'] & <- & Hin & Hm). exists p. by rewrite list_elem_of_In.
  - intros (p & Hin & Hm). exists (p, h). by rewrite list_elem_of_In in Hin.
Qed.

(** Paths of different handlers differ in the fifth character, or in the first
    one after the identity. *)
Fixpoint after_slash (s : string) : string :=
  match s with
  | String a s' => if Ascii.eqb a "/" then s' else after_slash s'
  | EmptyString => EmptyString
  end.

Definition class_of_path (path : string) : option ascii * option ascii :=
  match path with
  | String _ (String _ (String _ (String _ (String a (String _ rest))))) =>
      (Some a, String.get 0 (after_slash rest))
  | _ => (None, None)
  end.

Definition class_of (h : handler) : option ascii * option ascii :=
  match h with
  | PingHandler => (None, None)
  | impi_digest_handler => (Some "i", Some "d")
  | impi_av_handler => (Some "i", Some "a")
  | impi_reg_status_handler => (Some "i", Some "r")
  | impu_loc_info_handler => (Some "u", Some "l")
  | impu_reg_data_handler | impu_read_reg_data_handler => (Some "u", Some "r")
  end%char.

Lemma after_slash_id id t : no_slash id -> after_slash (id +:+ String "/" t) = t.
Proof.
  induction id as [|a id IH]; [done|]. intros [Ha Hid]%no_slash_cons.
  change (after_slash (String a (id +:+ String "/" t)) = t). cbn [after_slash].
  apply Ascii.eqb_neq in Ha. rewrite Ha. auto.
Qed.

Lemma at_most_one {A} (l : list A) :
  NoDup l -> (forall x y, x ∈ l -> y ∈ l -> x = y) -> (length l <= 1)%nat.
Proof.
  destruct l as [|x [|y l]]; simpl; [lia..|]. intros Hnd Hall. apply list.NoDup_cons in Hnd as [Hx _].
  destruct Hx. rewrite (Hall x y); [left|left|right; left].
Qed.

Lemma class_of_identity_path id t :
  no_slash id ->
  class_of_path ("/impi/" +:+ id +:+ String "/" t) = (Some "i"%char, String.get 0 t) /\
  class_of_path ("/impu/" +:+ id +:+ String "/" t) = (Some "u"%char, String.get 0 t).
Proof.
  intros Hid. rewrite <- (after_slash_id id t) at 2 4 by done. done.
Qed.

Lemma path_of_class h path : path_of h path -> class_of_path path = class_of h.
Proof.
  destruct h; cbn [path_of].
  { by intros ->. }
  all: intros Hp; decompose [ex and] Hp; subst; by apply class_of_identity_path.
Qed.

Lemma path_of_prefix h path :
  path_of h path -> h = PingHandler \/ exists id, path_id (handler_prefix h) path = Some id.
Proof.
  destruct h; cbn [path_of handler_prefix]; [by left|..]; intros Hp; right;
    decompose [ex and] Hp; subst; rewrite path_id_prefix; eauto.
Qed.

Lemma NoDup_serving routes path : NoDup (map snd routes) -> NoDup (serving routes path).
Proof.
  unfold serving. induction routes as [|[p h] routes IH]; simpl; [done|].
  intros [Hh Hnd]%list.NoDup_cons. destruct (route_matches p path); simpl; [|auto].
  apply list.NoDup_cons. split; [|auto]. rewrite list_elem_of_In, in_map_iff.
  intros (r & Hr & [Hin _]%List.filter_In). apply Hh. rewrite list_elem_of_In, in_map_iff. eauto.
Qed.

(** Two handlers of one stack have different classes. *)
Lemma class_of_unique routes h1 h2 :
  routes = signaling_routes \/ routes = management_routes ->
  h1 ∈ map snd routes -> h2 ∈ map snd routes -> class_of h1 = class_of h2 -> h1 = h2.
Proof.
  intros Hr. revert h1 h2.
  assert (Hall : Forall (fun h1 => Forall (fun h2 => class_of h1 = class_of h2 -> h1 = h2)
                                     (map snd routes)) (map snd routes)).
  { destruct Hr as [-> | ->]; cbn; repeat (constructor; [repeat (constructor; [done|]); constructor|]);
      constructor. }
  intros h1 h2 H1 H2. rewrite Forall_forall in Hall. specialize (Hall h1 H1).
  rewrite Forall_forall in Hall. exact (Hall h2 H2).
Qed.

(** ** Properties *)

(** C26: On each stack a path is served by at most one handler, so the order in
    which they are registered does not matter: the one whose path it is, with an
    identity that has no slash (but anything may follow [/av]).  A task reached
    through its route finds its identity in the path, so reading it does not
    throw. *)
Theorem routes_unambiguous routes path :
  routes = signaling_routes \/ routes = management_routes ->
  (forall h, h ∈ serving routes path <-> h ∈ map snd routes /\ path_of h path) /\
  (length (serving routes path) <= 1)%nat /\
  (forall h, h ∈ serving routes path ->
     h = PingHandler \/ exists id, path_id (handler_prefix h) path = Some id).
Proof.
  intros Hr.
  assert (Hshape : forall p h, (p, h) ∈ routes -> route_matches p path = true <-> path_of h path).
  { intros p h Hin. apply pattern_shape. rewrite elem_of_app. by destruct Hr as [->| ->]; auto. }
  assert (Hin : forall h, h ∈ serving routes path <-> h ∈ map snd routes /\ path_of h path).
  { intros h. rewrite elem_of_serving, list_elem_of_In, in_map_iff. split.
    - intros (p & Hp & Hm). split; [|by eapply Hshape]. exists (p, h). by rewrite <- list_elem_of_In.
    - intros (([p h'] & <- & Hp) & Hm). rewrite <- list_elem_of_In in Hp. exists p.
      by rewrite Hshape. }
  split; [done|]. split.
  - apply at_most_one.
    + apply NoDup_serving. by destruct Hr as [-> | ->]; apply (bool_decide_unpack _); vm_compute.
    + intros h1 h2 [H1 P1]%Hin [H2 P2]%Hin. apply path_of_class in P1, P2. rewrite P1 in P2.
      apply (class_of_unique routes); auto.
  - intros h Hh. apply Hin in Hh as [_ Hp]. by apply path_of_prefix.
Qed.

Lemma routes_unambiguous_witness :
  serving signaling_routes "/impi/a/av/b/digest" = [impi_av_handler] /\
  (forall h, h ∈ serving signaling_routes "/impi/a/av/b/digest" ->
     h = PingHandler \/ exists id, path_id (handler_prefix h) "/impi/a/av/b/digest" = Some id).
Proof.
  split; [vm_compute; reflexivity|].
  exact (proj2 (proj2 (routes_unambiguous signaling_routes "/impi/a/av/b/digest"
                         (or_introl eq_refl)))).
Defined.
