(* ===== verification/Lifecycle.v ===== *)
(** * The life of the process

    The thread pool of [src/hss_cache_processor.cpp] and the order in which
    [main] of [src/main.cpp] starts and stops the parts that serve requests, as a
    state machine: between any two actions of [main], requests arrive at the
    stacks that serve, and use the pointers that [main] has set by then: the cache
    and the connection of the tasks, the Diameter handlers, the tables of Cx
    results.  A part of a library is known by whether it runs. *)

From Stdlib Require Import String ZArith Lia.
From stdpp Require Import base list option.
From S2P Require Import Prelude Types.
Open Scope Z_scope.

(** ** The pool of the cache processor *)

(** A [FunctorThreadPool]. *)
Inductive FunctorThreadPool := Created | Working | Stopped.

(** [_thread_pool] of the processor: [None] is [NULL]. *)
Definition processor := option FunctorThreadPool.

Definition new_processor : processor := None.

(** [start_threads]: the pool is created, whether or not [start] works. *)
Definition start_threads (pool_starts : bool) (_ : processor) : processor * bool :=
  (Some (if pool_starts then Working else Created), pool_starts).

Definition stop (c : processor) : processor :=
  match c with Some _ => Some Stopped | None => None end.

(** The threads are joined and the pool is deleted. *)
Definition wait_stopped (_ : processor) : processor := None.

(** What happens to a work item. *)
Inductive outcome := Served | Dropped | Fault.

(** Every operation ends in [_thread_pool->add_work(work)]. *)
Definition add_work (c : processor) : outcome :=
  match c with
  | Some Working => Served
  | Some _ => Dropped
  | None => Fault
  end.

(** ** The process *)

Record process := mkProcess {
  cache_processor : processor;
  task_cache : bool;            (** [HssCacheTask::_cache] is set *)
  task_hss : bool;              (** [HssCacheTask::_hss] is set *)
  http_sig : bool;              (** the signaling stack serves *)
  http_mgmt : bool;             (** the management stack serves *)
  diameter_handlers : bool;     (** the handlers, their configuration and the dictionary exist *)
  diameter_stack : bool;        (** the Diameter stack serves *)
  cx_tables : bool;             (** the tables of Cx results, [rtr_results_tbl] and the others, are set *)
  hs_prov_store : bool          (** the Cassandra store's workers run *)
}.

Definition boot : process :=
  mkProcess new_processor false false false false false false false false.

Definition with_processor (c : processor) (p : process) : process :=
  mkProcess c (task_cache p) (task_hss p) (http_sig p) (http_mgmt p) (diameter_handlers p)
    (diameter_stack p) (cx_tables p) (hs_prov_store p).
Definition set_task_cache (p : process) : process :=
  mkProcess (cache_processor p) true (task_hss p) (http_sig p) (http_mgmt p)
    (diameter_handlers p) (diameter_stack p) (cx_tables p) (hs_prov_store p).
Definition set_task_hss (p : process) : process :=
  mkProcess (cache_processor p) (task_cache p) true (http_sig p) (http_mgmt p)
    (diameter_handlers p) (diameter_stack p) (cx_tables p) (hs_prov_store p).
Definition set_http_sig (b : bool) (p : process) : process :=
  mkProcess (cache_processor p) (task_cache p) (task_hss p) b (http_mgmt p)
    (diameter_handlers p) (diameter_stack p) (cx_tables p) (hs_prov_store p).
Definition set_http_mgmt (b : bool) (p : process) : process :=
  mkProcess (cache_processor p) (task_cache p) (task_hss p) (http_sig p) b
    (diameter_handlers p) (diameter_stack p) (cx_tables p) (hs_prov_store p).
Definition set_handlers (b : bool) (p : process) : process :=
  mkProcess (cache_processor p) (task_cache p) (task_hss p) (http_sig p) (http_mgmt p) b
    (diameter_stack p) (cx_tables p) (hs_prov_store p).
Definition set_diameter (b : bool) (p : process) : process :=
  mkProcess (cache_processor p) (task_cache p) (task_hss p) (http_sig p) (http_mgmt p)
    (diameter_handlers p) b (cx_tables p) (hs_prov_store p).
Definition set_tables (p : process) : process :=
  mkProcess (cache_processor p) (task_cache p) (task_hss p) (http_sig p) (http_mgmt p)
    (diameter_handlers p) (diameter_stack p) true (hs_prov_store p).
Definition set_prov (b : bool) (p : process) : process :=
  mkProcess (cache_processor p) (task_cache p) (task_hss p) (http_sig p) (http_mgmt p)
    (diameter_handlers p) (diameter_stack p) (cx_tables p) b.

(** ** The actions of [main] *)

Inductive main_action :=
| ConfigureCache | StartThreads
| RegisterHandlers | StartDiameter | ConfigureTables
| StartHsProv
| ConfigureHss | StartSig | StartMgmt
| AwaitSignal
| StopSig | StopMgmt | StopProcessor | WaitProcessor
| DeleteHandlers | StopDiameter
| StopHsProv.

#[export] Instance main_action_eq_dec : EqDecision main_action.
Proof. solve_decision. Defined.

(** The tables of Cx results are given to the tasks after the Diameter stack has
    started. *)
Definition startup_actions (hss_configured : bool) : list main_action :=
  [ConfigureCache; StartThreads] ++
  (if hss_configured then [RegisterHandlers; StartDiameter; ConfigureTables] else [StartHsProv]) ++
  [ConfigureHss; StartSig; StartMgmt].

Definition shutdown_actions (hss_configured : bool) : list main_action :=
  [StopSig; StopMgmt; StopProcessor; WaitProcessor] ++
  (if hss_configured then [DeleteHandlers; StopDiameter] else [StopHsProv]).

Definition main_actions (hss_configured : bool) : list main_action :=
  startup_actions hss_configured ++ [AwaitSignal] ++ shutdown_actions hss_configured.

(** An action goes on to the next one or leaves the process.  [ok] is whether
    the library's part of it worked. *)
Inductive performed := Next (p : process) | Leave (rc : Z).

Definition or_leave (ok : bool) (rc : Z) (p : process) : performed :=
  if ok then Next p else Leave rc.

Definition perform_action (a : main_action) (ok : bool) (p : process) : performed :=
  match a with
  | ConfigureCache => Next (set_task_cache p)
  | StartThreads =>
      let '(c, started) := start_threads ok (cache_processor p) in
      or_leave started 2 (with_processor c p)
  | RegisterHandlers => Next (set_handlers true p)
  | StartDiameter => or_leave ok 2 (set_diameter true p)
  | ConfigureTables => Next (set_tables p)
  | StartHsProv => or_leave ok 2 (set_prov true p)
  | ConfigureHss => Next (set_task_hss p)
  | StartSig => or_leave ok 2 (set_http_sig true p)
  | StartMgmt => or_leave ok 3 (set_http_mgmt true p)
  | AwaitSignal => Next p
  | StopSig => Next (if ok then set_http_sig false p else p)
  | StopMgmt => Next (if ok then set_http_mgmt false p else p)
  | StopProcessor => Next (with_processor (stop (cache_processor p)) p)
  | WaitProcessor => Next (with_processor (wait_stopped (cache_processor p)) p)
  | DeleteHandlers => Next (set_handlers false p)
  | StopDiameter => Next (if ok then set_diameter false p else p)
  | StopHsProv => Next (set_prov false p)
  end.

(** ** Requests *)

(** Where work comes from: the signaling stack, the management stack, a request
    of a Diameter peer, or the answer to a request of a task that is waiting. *)
Inductive origin := Signaling | Management | Peer | Answer.

(** Requests to the HSS go out through [_hss] of the tasks, so an answer comes
    only once that is set. *)
Definition accepts (p : process) (o : origin) : bool :=
  match o with
  | Signaling => http_sig p
  | Management => http_mgmt p
  | Peer => diameter_stack p
  | Answer => task_hss p && (diameter_stack p || hs_prov_store p)
  end.

(** A task that counts its Cx result goes through the pointer of the table. *)
Definition counts_result (p : process) (w : outcome) : outcome :=
  match w with Served => if cx_tables p then Served else Fault | _ => w end.

(** A task of the HTTP interfaces uses the cache and then the HSS connection, one
    of the Diameter stack its handler, then the cache and, to answer, the table of
    its results; a Diameter answer is read with the dictionary, counted, and leads
    to a write of the cache. *)
Definition serve (p : process) (o : origin) : outcome :=
  match o with
  | Signaling => if task_cache p && task_hss p then add_work (cache_processor p) else Fault
  | Management => if task_cache p then add_work (cache_processor p) else Fault
  | Peer =>
      if diameter_handlers p then counts_result p (add_work (cache_processor p)) else Fault
  | Answer =>
      if hs_prov_store p then add_work (cache_processor p)
      else if diameter_handlers p then counts_result p (add_work (cache_processor p))
      else Fault
  end.

Inductive state := Running (p : process) (rest : list main_action) | Exited (rc : Z) | Crashed.

Inductive label := Main (a : main_action) (ok : bool) | Request (o : origin).

Inductive step : state -> label -> state -> Prop :=
| step_main p a rest ok :
    step (Running p (a :: rest)) (Main a ok)
      (match perform_action a ok p with Next p' => Running p' rest | Leave rc => Exited rc end)
| step_request p rest o :
    accepts p o = true ->
    step (Running p rest) (Request o)
      (match serve p o with Fault => Crashed | _ => Running p rest end).

Inductive trace : state -> list label -> state -> Prop :=
| trace_nil s : trace s [] s
| trace_cons s1 l s2 ls s3 : step s1 l s2 -> trace s2 ls s3 -> trace s1 (l :: ls) s3.

Lemma trace_end s ls p rest :
  trace s ls (Running p rest) -> match s with Running _ _ => True | _ => False end.
Proof. inversion 1 as [|? ? ? ? ? Hs]; [done|]. by inversion Hs. Qed.

Definition start_of (hss_configured : bool) : state := Running boot (main_actions hss_configured).

(** ** Exploring all runs *)

(** [check] holds at every state [main] can be in, whatever the libraries do,
    when no action of [excluded] is taken. *)
Fixpoint always (excluded : main_action -> bool -> bool) 
    (check : list main_action -> process -> bool) (rest : list main_action) (p : process) : bool :=
  check rest p &&
  match rest with
  | [] => true
  | a :: rest' =>
      forallb (fun ok =>
        excluded a ok ||
        match perform_action a ok p with Next p' => always excluded check rest' p' | Leave _ => true end)
        [true; false]
  end.

Definition allowed (excluded : main_action -> bool -> bool) (ls : list label) : Prop :=
  forall a ok, Main a ok ∈ ls -> excluded a ok = false.

Lemma always_here excluded check rest p : always excluded check rest p = true -> check rest p = true.
Proof. destruct rest; cbn [always]; by intros [? _]%andb_true_iff. Qed.

Lemma always_sound excluded check p rest ls p' rest' :
  trace (Running p rest) ls (Running p' rest') -> always excluded check rest p = true ->
  allowed excluded ls -> check rest' p' = true.
Proof.
  intros Ht. remember (Running p rest) as s eqn:Es. remember (Running p' rest') as s' eqn:Es'.
  revert p rest Es. induction Ht as [s|s1 l s2 ls s3 Hs Ht IH]; intros p rest -> Ha Hal.
  { injection Es' as -> ->. by eapply always_here. }
  assert (Hal' : allowed excluded ls) by (intros a ok Hin; apply Hal; by right).
  inversion Hs as [p0 a rest0 ok|p0 rest0 o Ho]; subst.
  - specialize (Hal a ok ltac:(left)). cbn [always] in Ha.
    apply andb_true_iff in Ha as [_ Ha]. rewrite forallb_forall in Ha.
    specialize (Ha ok ltac:(destruct ok; simpl; auto)). rewrite Hal in Ha. cbn [orb] in Ha.
    destruct (perform_action a ok p); [by eapply IH|]. by apply trace_end in Ht.
  - destruct (serve p o); [by eapply IH|by eapply IH|]. by apply trace_end in Ht.
Qed.

(** A crash comes from a request that is not served. *)
Lemma crash_from s ls :
  trace s ls Crashed -> s <> Crashed ->
  exists ls1 o p rest ls2, ls = ls1 ++ Request o :: ls2 /\ trace s ls1 (Running p rest) /\
    accepts p o = true /\ serve p o = Fault.
Proof.
  intros Ht. remember Crashed as s' eqn:Es'.
  induction Ht as [s|s1 l s2 ls s3 Hs Ht IH]; [by subst|].
  subst. intros _. specialize (IH eq_refl).
  assert (Hx : s2 <> Crashed -> exists ls1 o p rest ls2, l :: ls = ls1 ++ Request o :: ls2 /\
    trace s1 ls1 (Running p rest) /\ accepts p o = true /\ serve p o = Fault).
  { intros Hn. destruct (IH Hn) as (ls1 & o & p & rest & ls2 & -> & Ht1 & Hacc & Hf).
    exists (l :: ls1), o, p, rest, ls2. split; [done|]. split; [by econstructor|done]. }
  inversion Hs as [p a rest ok|p rest o Ho]; subst.
  - apply Hx. by destruct (perform_action a ok p).
  - destruct (serve p o) eqn:Ef; [by apply Hx..|].
    exists [], o, p, rest, ls. split; [done|]. split; [constructor|done].
Qed.

Definition outcome_eqb (a b : outcome) : bool :=
  match a, b with Served, Served | Dropped, Dropped | Fault, Fault => true | _, _ => false end.

(** Whatever is accepted from [origins] ends in [expected]. *)
Definition serves (expected : list main_action -> origin -> outcome) (origins : list origin)
    (rest : list main_action) (p : process) : bool :=
  forallb (fun o => negb (accepts p o) || outcome_eqb (serve p o) (expected rest o)) origins.

Lemma outcome_eqb_eq a b : outcome_eqb a b = true -> a = b.
Proof. by destruct a, b. Qed.

Lemma serves_expected expected origins rest p o :
  serves expected origins rest p = true -> o ∈ origins -> accepts p o = true ->
  serve p o = expected rest o.
Proof.
  unfold serves. rewrite forallb_forall. intros Hs Ho%list_elem_of_In Ha. specialize (Hs o Ho).
  rewrite Ha in Hs. by apply outcome_eqb_eq.
Qed.

(** Actions of [main] that all work, one after the other. *)
Fixpoint run_actions (l : list main_action) (p : process) : option process :=
  match l with
  | [] => Some p
  | a :: l => match perform_action a true p with Next p' => run_actions l p' | Leave _ => None end
  end.

Lemma run_actions_trace l p p' rest :
  run_actions l p = Some p' ->
  trace (Running p (l ++ rest)) (map (fun a => Main a true) l) (Running p' rest).
Proof.
  revert p. induction l as [|a l IH]; intros p; simpl; [intros [= ->]; constructor|].
  destruct (perform_action a true p) as [p1|rc] eqn:E; [|done]. intros Hr.
  econstructor; [constructor|]. rewrite E. by apply IH.
Qed.

Lemma trace_app s1 ls1 s2 ls2 s3 : trace s1 ls1 s2 -> trace s2 ls2 s3 -> trace s1 (ls1 ++ ls2) s3.
Proof. induction 1; [done|]. intros. econstructor; eauto. Qed.

(** ** Properties *)

(** The signal has not come, or only that no stack failed to stop. *)
Definition past_signal (a : main_action) (_ : bool) : bool := bool_decide (a = AwaitSignal).
Definition stop_failed (a : main_action) (ok : bool) : bool :=
  negb ok && bool_decide (a = StopSig \/ a = StopMgmt).

(** The requests of a Diameter peer for which the stack already serves while the
    next thing [main] does is to set the tables their tasks count in. *)
Definition before_tables (rest : list main_action) (o : origin) : bool :=
  match o, rest with Peer, ConfigureTables :: _ => true | _, _ => false end.

Definition served_after_tables (rest : list main_action) (o : origin) : outcome :=
  if before_tables rest o then Fault else Served.

(** C5: Which accepted requests [main]'s order of starting and stopping its parts
    serves.  Until the termination signal, wherever a request falls between the
    actions and whatever failed before, every accepted request, of the HTTP
    stacks, of a Diameter peer or the answer to one of a task's own, finds the
    cache's pool running and every pointer it uses set, except exactly this: a
    peer's request that arrives after the Diameter stack has started and before
    [main] sets the tables of Cx results goes through a null pointer.  During the
    shutdown every request that the HTTP stacks accept is still served, provided
    that both stacks stop when told to. *)
Theorem requests_are_served hss_configured ls p rest o :
  trace (start_of hss_configured) ls (Running p rest) -> accepts p o = true ->
  (allowed past_signal ls -> serve p o = if before_tables rest o then Fault else Served) /\
  (allowed stop_failed ls -> o = Signaling \/ o = Management -> serve p o = Served).
Proof.
  intros Ht Ha. split.
  - intros Hal.
    apply (serves_expected served_after_tables [Signaling; Management; Peer; Answer] rest);
      [|destruct o; rewrite !elem_of_cons; auto 10|done].
    refine (always_sound past_signal _ _ _ _ _ _ Ht _ Hal).
    by destruct hss_configured; vm_compute.
  - intros Hal Ho. apply (serves_expected (fun _ _ => Served) [Signaling; Management] rest);
      [|rewrite !elem_of_cons; tauto|done].
    refine (always_sound stop_failed _ _ _ _ _ _ Ht _ Hal).
    by destruct hss_configured; vm_compute.
Qed.

(** Runs in which everything works, up to a request that crashes the process. *)
Definition crashes_after (l : list main_action) (o : origin) : Prop :=
  exists ls, allowed (fun _ ok => negb ok) ls /\ trace (start_of true) (ls ++ [Request o]) Crashed /\
    ls = map (fun a => Main a true) l.

Lemma crashes_after_intro l rest p o :
  main_actions true = l ++ rest -> run_actions l boot = Some p -> accepts p o = true ->
  serve p o = Fault -> crashes_after l o.
Proof.
  intros Hm Hr Ha Hf. exists (map (fun a => Main a true) l). split; [|split; [|done]].
  - intros a ok (a' & Ha' & _)%list_elem_of_In%in_map_iff. by injection Ha' as <- <-.
  - unfold start_of. rewrite Hm. eapply trace_app; [by apply run_actions_trace|].
    econstructor; [by constructor|]. rewrite Hf. constructor.
Qed.

(** An RTR or a PPR that arrives as soon as the Diameter stack serves crashes the
    process: [rtr_results_tbl] and [ppr_results_tbl] are not yet set. *)
Lemma peer_before_tables :
  crashes_after [ConfigureCache; StartThreads; RegisterHandlers; StartDiameter] Peer.
Proof. by eapply crashes_after_intro; vm_compute. Qed.

(** The shutdown of a process with an HSS is not safe for the Diameter stack,
    which is stopped last: after the pool is deleted, a peer's request (an RTR or
    PPR) that arrives meets a null pointer, and so does the answer to a request a
    task still waits for.  The process then ends in a crash. *)
Lemma diameter_outlives_pool o :
  o = Peer \/ o = Answer ->
  crashes_after (startup_actions true ++
    [AwaitSignal; StopSig; StopMgmt; StopProcessor; WaitProcessor]) o.
Proof.
  intros Ho. by destruct Ho as [-> | ->]; eapply crashes_after_intro; vm_compute.
Qed.

(** ** Witnesses *)

Definition until_diameter : list main_action :=
  [ConfigureCache; StartThreads; RegisterHandlers; StartDiameter].

Lemma requests_are_served_witness :
  (exists p, run_actions (startup_actions true) boot = Some p /\ accepts p Signaling = true /\
    serve p Signaling = Served) /\
  (exists p, run_actions until_diameter boot = Some p /\ accepts p Peer = true /\
    serve p Peer = Fault).
Proof.
  split; (eexists; split; [vm_compute; reflexivity|]; split; [reflexivity|]).
  - refine (proj1 (requests_are_served true (map (fun a => Main a true) (startup_actions true)) _
      (AwaitSignal :: shutdown_actions true) Signaling
      (run_actions_trace (startup_actions true) boot _ (AwaitSignal :: shutdown_actions true) _) _) _);
      [vm_compute; reflexivity|reflexivity|].
    intros a ok Hin%list_elem_of_In. cbn in Hin. unfold past_signal. destruct a; try reflexivity.
    repeat (destruct Hin as [Hin|Hin]; [discriminate Hin|]). destruct Hin.
  - refine (proj1 (requests_are_served true (map (fun a => Main a true) until_diameter) _
      (skipn 4 (main_actions true)) Peer
      (run_actions_trace until_diameter boot _ (skipn 4 (main_actions true)) _) _) _);
      [vm_compute; reflexivity|reflexivity|].
    intros a ok Hin%list_elem_of_In. cbn in Hin. unfold past_signal. destruct a; try reflexivity.
    repeat (destruct Hin as [Hin|Hin]; [discriminate Hin|]). destruct Hin.
Defined.
