(* ===== verification/Teardown.v ===== *)
(** * The objects of [main]

    The objects that [main] of [src/main.cpp] makes with [new], which of them hold
    pointers to which, which have threads of their own that run, and the order in
    which they are deleted, as a program over a small heap.  What the destructors
    of the libraries do is not known here: an object holds the pointers that it is
    given until it is deleted, and runs from its start to its stop.  A pointer is
    null where [main] is configured to do without the object; one that is not set
    yet may not be used or passed on.  The second
    part is the two signal handlers. *)

From Stdlib Require Import String ZArith Lia Relations.
From stdpp Require Import base list option.
From S2P Require Import Prelude.

(** ** Objects *)

(** The pointers of [main].  [RemoteData] and [RemoteStore] are the elements of the
    two vectors of remote stores, [Statics] the static members in which the tasks
    keep what [main] configures them with. *)
Inductive object :=
| access_logger | sas_service | stats_manager | realm_counter | host_counter
| mar_results_table | sar_results_table | uar_results_table | lir_results_table
| ppr_results_table | rtr_results_table | cache_queue_size_table
| alarm_manager | hss_comm_monitor | cassandra_comm_monitor
| hc | exception_handler | load_monitor | dns_resolver | dns_updater | http_resolver
| astaire_comm_monitor | remote_astaire_comm_monitor | astaire_resolver
| local_impu_data_store | local_impu_store | RemoteData | RemoteStore
| memcached_cache | cache_processor
| http_client | http_conn | sprout_conn
| diameter_stack | dict | rtr_config | ppr_config | rtr_task | ppr_task
| cassandra_resolver | hs_prov_store | hss_conn
| http_stack_sig | http_stack_mgmt | diameter_resolver | realm_manager
| Statics.

#[export] Instance object_eq_dec : EqDecision object.
Proof. solve_decision. Defined.

(** Not made with [new]. *)
Definition is_static (x : object) : bool :=
  match x with Statics | diameter_stack | hs_prov_store => true | _ => false end.

(** What a pointer is once [main] has given it its value: to an object, which holds
    pointers, null since [main] is configured to do without it, or to an object that
    has been deleted. *)
Inductive slot := Live (holds : list object) | Null | Freed.

Record heap := mkHeap {
  slots : list (object * slot);      (** a pointer that is not listed has no value yet *)
  running : list object;             (** the objects whose threads run *)
  data_stores : nat;                 (** the lengths of the vectors of remote stores *)
  impu_stores : nat
}.

Definition slot_of (h : heap) (x : object) : option slot :=
  option_map snd (List.find (fun p => bool_decide (p.1 = x)) (slots h)).

Fixpoint set_slot (x : object) (s : slot) (l : list (object * slot)) : list (object * slot) :=
  match l with
  | [] => [(x, s)]
  | p :: l => if decide (p.1 = x) then (x, s) :: l else p :: set_slot x s l
  end.

Definition clear_slot (x : object) (l : list (object * slot)) : list (object * slot) :=
  List.filter (fun p => negb (bool_decide (p.1 = x))) l.

Definition with_slot (x : object) (s : slot) (h : heap) : heap :=
  mkHeap (set_slot x s (slots h)) (running h) (data_stores h) (impu_stores h).

Definition stop_running (x : object) (h : heap) : heap :=
  mkHeap (slots h) (List.filter (fun y => negb (bool_decide (y = x))) (running h))
    (data_stores h) (impu_stores h).

(** ** Statements *)

Inductive stmt :=
| New (x : object) (args : list object)         (** [x = new ...(args)] *)
| Without (x : object)                          (** [x] is left null, or the vector empty *)
| Instance_ (x : object)                        (** [x = ...::get_instance()] *)
| PushBack (x : object) (args : list object)    (** a new element of a vector *)
| Call (x : object) (args : list object)        (** [x->...(args)], where [x] keeps the arguments *)
| Start (x : object) (args : list object)       (** a call after which the threads of [x] run *)
| Stop (x : object)                             (** a call after which they have ended *)
| Delete (x : object)                           (** [delete x; x = NULL] *)
| DeleteOnly (x : object).                      (** [delete x] *)

(** A pointer that may be passed on: to an object, or null by configuration.  One
    that [main] has not got to yet, or whose object is deleted, may not. *)
Definition valid (h : heap) (x : object) : bool :=
  match slot_of h x with Some (Live _ | Null) => true | _ => false end.

(** The pointers in [args] that are not null. *)
Definition given (h : heap) (args : list object) : list object :=
  List.filter (fun x => match slot_of h x with Some (Live _) => true | _ => false end) args.

Definition keep (x : object) (args : list object) (h : heap) : option heap :=
  match slot_of h x with
  | Some (Live holds) =>
      if forallb (valid h) args then Some (with_slot x (Live (holds ++ given h args)) h) else None
  | _ => None
  end.

Definition make (x : object) (args : list object) (h : heap) : option heap :=
  if forallb (valid h) args then Some (with_slot x (Live (given h args)) h) else None.

(** [None]: a null pointer, one with no value yet or one to a deleted object is
    used, the last two also where they are only passed on. *)
Definition exec (a : stmt) (h : heap) : option heap :=
  match a with
  | New x args =>
      match slot_of h x with Some (Live _) => None | _ => make x args h end
  | Without x => match slot_of h x with None => Some (with_slot x Null h) | _ => None end
  | Instance_ x => Some (with_slot x (Live []) h)
  | PushBack x args =>
      match make x args h with
      | Some h' => Some (match x with
          | RemoteData => mkHeap (slots h') (running h') (S (data_stores h')) (impu_stores h')
          | RemoteStore => mkHeap (slots h') (running h') (data_stores h') (S (impu_stores h'))
          | _ => h' end)
      | None => None
      end
  | Call x args => keep x args h
  | Start x args =>
      match keep x args h with
      | Some h' => Some (mkHeap (slots h') (x :: running h') (data_stores h') (impu_stores h'))
      | None => None
      end
  | Stop x => match slot_of h x with Some (Live _) => Some (stop_running x h) | _ => None end
  | Delete x =>
      match slot_of h x with
      | None | Some Null => Some h
      | Some (Live _) =>
          let h := stop_running x h in
          Some (mkHeap (clear_slot x (slots h)) (running h) (data_stores h) (impu_stores h))
      | Some Freed => None
      end
  | DeleteOnly x =>
      match slot_of h x with
      | None | Some Null => Some h
      | Some (Live _) => Some (with_slot x Freed (stop_running x h))
      | Some Freed => None
      end
  end.

Fixpoint exec_all (l : list stmt) (h : heap) : option heap :=
  match l with
  | [] => Some h
  | a :: l => match exec a h with Some h' => exec_all l h' | None => None end
  end.

(** ** [main] *)

(** What decides which objects there are, and which of the calls that stop a stack
    do not throw. *)
Record setting := mkSetting {
  access_log_enabled : bool;
  hss_configured : bool;
  remote_sites : nat;
  sig_stops : bool;
  mgmt_stops : bool;
  diameter_stops : bool
}.

Definition when (b : bool) (l : list stmt) : list stmt := if b then l else [].

(** An [Alarm] belongs to the monitor that it is made for, and holds the manager. *)
Definition make_common (c : setting) : list stmt :=
  [if access_log_enabled c then New access_logger [] else Without access_logger] ++
  [New sas_service []; New stats_manager []; New realm_counter []; New host_counter [];
   New mar_results_table []; New sar_results_table []; New uar_results_table [];
   New lir_results_table []; New ppr_results_table []; New rtr_results_table [];
   New cache_queue_size_table []; New alarm_manager [];
   New hss_comm_monitor [alarm_manager]; New cassandra_comm_monitor [alarm_manager];
   New hc []; Start hc []; New exception_handler [hc]; New load_monitor [];
   New dns_resolver []; New dns_updater [dns_resolver]; New http_resolver [dns_resolver]].

Definition remote_site : list stmt :=
  [PushBack RemoteData [astaire_resolver; remote_astaire_comm_monitor];
   PushBack RemoteStore [RemoteData]].

(** The vectors stay empty when there is no remote site. *)
Fixpoint make_remotes (n : nat) : list stmt :=
  match n with 0%nat => [Without RemoteData; Without RemoteStore] | S n => make_remotes n ++ remote_site end.

Definition make_local_store : list stmt :=
  [New astaire_comm_monitor [alarm_manager]; New remote_astaire_comm_monitor [alarm_manager];
   New astaire_resolver [dns_resolver];
   New local_impu_data_store [astaire_resolver; astaire_comm_monitor];
   New local_impu_store [local_impu_data_store]].

(** The constructor of the cache starts its pool. *)
Definition make_cache : list stmt :=
  [New memcached_cache [local_impu_store; RemoteStore; exception_handler];
   Start memcached_cache []; New cache_processor [memcached_cache]].

Definition create_memcached_cache (c : setting) : list stmt :=
  make_local_store ++ make_remotes (remote_sites c) ++ make_cache.

Definition start_cache : list stmt :=
  [Call Statics [cache_processor];
   Start cache_processor [exception_handler; cache_queue_size_table];
   Call Statics [hc];
   New http_client [http_resolver]; New http_conn [http_client]; New sprout_conn [http_conn]].

Definition make_diameter : list stmt :=
  [Instance_ diameter_stack;
   Call diameter_stack [exception_handler; hss_comm_monitor; realm_counter; host_counter];
   New dict [];
   New rtr_config [cache_processor; dict; sprout_conn];
   New ppr_config [cache_processor; dict; sprout_conn];
   New rtr_task [dict; rtr_config]; New ppr_task [dict; ppr_config];
   Call diameter_stack [dict]; Call diameter_stack [rtr_task]; Call diameter_stack [ppr_task];
   Start diameter_stack [];
   New hss_conn [stats_manager; dict; diameter_stack];
   Call Statics [mar_results_table; sar_results_table; uar_results_table; lir_results_table];
   Call Statics [ppr_results_table; rtr_results_table]].

Definition make_hs_prov : list stmt :=
  [New cassandra_resolver [dns_resolver];
   Instance_ hs_prov_store;
   Call hs_prov_store [cassandra_comm_monitor; cassandra_resolver];
   Call hs_prov_store [exception_handler]; Start hs_prov_store [];
   New hss_conn [stats_manager; hs_prov_store]].

(** The handlers of the stacks are variables of [main]; their tasks use [Statics]. *)
Definition make_stacks : list stmt :=
  [Call Statics [hss_conn];
   New http_stack_sig [exception_handler; access_logger; load_monitor; stats_manager];
   Call http_stack_sig [Statics]; Start http_stack_sig [];
   New http_stack_mgmt [exception_handler; access_logger; load_monitor];
   Call http_stack_mgmt [Statics]; Start http_stack_mgmt []].

Definition make_realm : list stmt :=
  [New diameter_resolver [dns_resolver];
   New realm_manager [diameter_stack; diameter_resolver]; Start realm_manager []].

Definition startup (c : setting) : list stmt :=
  make_common c ++ create_memcached_cache c ++ start_cache ++
  (if hss_configured c then make_diameter else make_hs_prov) ++
  make_stacks ++ when (hss_configured c) make_realm.

(** After the signal.  [wait_stopped] of the processor deletes its pool. *)
Definition stop_parts (c : setting) : list stmt :=
  when (sig_stops c) [Stop http_stack_sig] ++
  when (mgmt_stops c) [Stop http_stack_mgmt] ++
  [Stop cache_processor] ++
  (if hss_configured c then
     [Stop realm_manager; Delete realm_manager; Delete diameter_resolver; Delete dict;
      Delete ppr_config; Delete rtr_config; Delete ppr_task; Delete rtr_task] ++
     when (diameter_stops c) [Stop diameter_stack]
   else [Stop hs_prov_store; Delete cassandra_resolver]).

Definition delete_parts : list stmt :=
  [Delete http_client; Delete http_resolver; Delete dns_updater; Delete dns_resolver;
   Delete sprout_conn; Delete http_conn; Delete realm_counter; Delete host_counter;
   Delete stats_manager; Delete mar_results_table; Delete sar_results_table;
   Delete uar_results_table; Delete lir_results_table; Delete ppr_results_table;
   Delete rtr_results_table; Delete cache_queue_size_table;
   Delete http_stack_sig; Delete http_stack_mgmt; Stop hc; Delete hc;
   Delete exception_handler; Delete cache_processor; Delete memcached_cache;
   Delete load_monitor; Delete sas_service;
   DeleteOnly astaire_comm_monitor; DeleteOnly remote_astaire_comm_monitor;
   DeleteOnly hss_comm_monitor; DeleteOnly cassandra_comm_monitor; DeleteOnly alarm_manager].

Definition main_objects (c : setting) : list stmt := startup c ++ stop_parts c ++ delete_parts.

Definition at_start : heap := mkHeap [(Statics, Live [])] [] 0 0.

(** The objects nobody has deleted. *)
Definition remaining (h : heap) : list object :=
  map fst (List.filter (fun p => match p.2 with
    | Live _ => negb (is_static p.1) | Null | Freed => false end) (slots h)).

(** ** What a running object can reach *)

Definition holds_of (h : heap) (x : object) : list object :=
  match slot_of h x with Some (Live l) => l | _ => [] end.

Definition points_to (h : heap) (x y : object) : Prop := In y (holds_of h x).

Definition reaches (h : heap) : relation object := clos_refl_trans_1n object (points_to h).

Definition mem (x : object) (l : list object) : bool := existsb (fun y => bool_decide (y = x)) l.

Definition add_new (seen l : list object) : list object :=
  fold_left (fun seen x => if mem x seen then seen else seen ++ [x]) l seen.

Fixpoint grow (fuel : nat) (h : heap) (seen : list object) : list object :=
  match fuel with
  | 0%nat => seen
  | S fuel => grow fuel h (add_new seen (flat_map (holds_of h) seen))
  end.

Definition closed (h : heap) (l : list object) : bool :=
  forallb (fun x => forallb (fun y => mem y l) (holds_of h x)) l.

(** What [x] reaches; [None]: the search was too short. *)
Definition reached (h : heap) (x : object) : option (list object) :=
  let l := grow 10 h [x] in if closed h l then Some l else None.

Definition deleted (a : stmt) : option object :=
  match a with Delete x | DeleteOnly x => Some x | _ => None end.

(** The object a statement deletes, with each running object that still reaches it. *)
Definition dangling (a : stmt) (h : heap) : option (list (object * object)) :=
  match deleted a with
  | Some x =>
      fold_right (fun r acc =>
        match reached h r, acc with
        | Some l, Some acc => Some (if negb (bool_decide (r = x)) && mem x l then (r, x) :: acc else acc)
        | _, _ => None
        end) (Some []) (running h)
  | None => Some []
  end.

(** A run, with what dangles after each deletion. *)
Fixpoint run (l : list stmt) (h : heap) : option (heap * list (object * object)) :=
  match l with
  | [] => Some (h, [])
  | a :: l =>
      match dangling a h, exec a h with
      | Some d, Some h' =>
          match run l h' with Some (h2, d2) => Some (h2, d ++ d2) | None => None end
      | _, _ => None
      end
  end.

(** While [l] is executed, [x] is deleted and [r], which runs, still reaches it. *)
Definition dangles (h0 : heap) (l : list stmt) (r x : object) : Prop :=
  exists before a after h, l = before ++ a :: after /\ exec_all before h0 = Some h /\
    deleted a = Some x /\ In r (running h) /\ r <> x /\ reaches h r x.

(** What is never deleted, besides the remote stores. *)
Definition never_deleted (c : setting) : list object :=
  (if access_log_enabled c then [access_logger] else []) ++
  [astaire_resolver; local_impu_data_store; local_impu_store] ++
  match remote_sites c with 0%nat => [] | _ => [RemoteData; RemoteStore] end ++ [hss_conn].

(** What dangles when every part stops. *)
Definition left_dangling (c : setting) : list (object * object) :=
  (if hss_configured c then
     map (pair diameter_stack) [dict; ppr_config; rtr_config; ppr_task; rtr_task] else []) ++
  map (pair memcached_cache) [dns_resolver; hc; exception_handler].

(** ** The search *)

Lemma mem_spec x l : mem x l = true <-> In x l.
Proof.
  unfold mem. rewrite existsb_exists. split.
  - intros (y & Hy & <-%bool_decide_eq_true). done.
  - intros Hx. exists x. by rewrite bool_decide_eq_true.
Qed.

Lemma add_new_spec l seen x : In x (add_new seen l) <-> In x seen \/ In x l.
Proof.
  unfold add_new. revert seen. induction l as [|y l IH]; intros seen; simpl; [tauto|].
  rewrite IH. destruct (mem y seen) eqn:E.
  - apply mem_spec in E. split; [tauto|]. intros [H|[<-|H]]; auto.
  - rewrite in_app_iff. simpl. tauto.
Qed.

Lemma grow_sound fuel h r seen y :
  (forall x, In x seen -> reaches h r x) -> In y (grow fuel h seen) -> reaches h r y.
Proof.
  revert seen. induction fuel as [|fuel IH]; simpl; intros seen Hs; [auto|].
  apply IH. intros x [Hx|Hx]%add_new_spec; [auto|].
  apply in_flat_map in Hx as (z & Hz & Hx). apply clos_rt_rt1n.
  eapply rt_trans; [apply clos_rt1n_rt, Hs, Hz|]. by apply rt_step.
Qed.

Lemma grow_incl fuel h seen x : In x seen -> In x (grow fuel h seen).
Proof.
  revert seen. induction fuel as [|fuel IH]; simpl; intros seen Hx; [done|].
  apply IH, add_new_spec. auto.
Qed.

Lemma closed_reaches h l x y : closed h l = true -> In x l -> reaches h x y -> In y l.
Proof.
  intros Hc Hx Hr. induction Hr as [|x y z Hxy _ IH]; [done|]. apply IH.
  unfold closed in Hc. rewrite forallb_forall in Hc. specialize (Hc _ Hx).
  rewrite forallb_forall in Hc. apply mem_spec, Hc, Hxy.
Qed.

Lemma reached_spec h x l y : reached h x = Some l -> In y l <-> reaches h x y.
Proof.
  unfold reached. pose proof (fun z => grow_sound 10 h x [x] z) as Hs.
  pose proof (grow_incl 10 h [x] x (or_introl eq_refl)) as Hi. revert Hs Hi.
  generalize (grow 10 h [x]). intros g Hs Hi. destruct (closed h g) eqn:Hc; [|done].
  intros [= <-]. split.
  - apply Hs. intros z [<-|[]]. constructor.
  - by eapply closed_reaches.
Qed.

Lemma dangling_spec a h d r x :
  dangling a h = Some d ->
  In (r, x) d <-> deleted a = Some x /\ In r (running h) /\ r <> x /\ reaches h r x.
Proof.
  unfold dangling. destruct (deleted a) as [x0|]; [|intros [= <-]; split; [done|by intros [? _]]].
  revert d. induction (running h) as [|r0 l IH]; intros d; cbn [fold_right In].
  { intros [= <-]. split; [done|]. by intros (_ & [] & _). }
  destruct (reached h r0) as [l0|] eqn:Hr; [|done].
  destruct (fold_right _ _ l) as [d0|]; [|done]. specialize (IH _ eq_refl).
  pose proof (reached_spec _ _ _ x0 Hr) as Hl. rewrite <- mem_spec in Hl.
  intros E; injection E as <-.
  destruct (negb (bool_decide (r0 = x0)) && mem x0 l0) eqn:Eb; cbn [In]; rewrite IH; clear IH.
  - apply andb_true_iff in Eb as [Hne%negb_true_iff%bool_decide_eq_false Hm]. apply Hl in Hm.
    split; [intros [[= <- <-]|(? & ? & ? & ?)]; auto|].
    intros (Ex & [<-|Hin] & Hn & Hrx); [|auto]. injection Ex as ->. by left.
  - split; [intros (? & ? & ? & ?); auto|]. intros (Ex & [<-|Hin] & Hn & Hrx); [|auto].
    injection Ex as ->. apply Hl in Hrx. by rewrite bool_decide_eq_false_2, Hrx in Eb.
Qed.

(** ** Runs *)

Lemma exec_all_app l1 l2 h :
  exec_all (l1 ++ l2) h = match exec_all l1 h with Some h' => exec_all l2 h' | None => None end.
Proof. revert h. induction l1 as [|a l1 IH]; intros h; simpl; [done|]. by destruct (exec a h). Qed.

Lemma run_exec_all l h h' d : run l h = Some (h', d) -> exec_all l h = Some h'.
Proof.
  revert h d. induction l as [|a l IH]; simpl; intros h d; [by intros [= <- _]|].
  destruct (dangling a h), (exec a h) as [h1|]; try done.
  destruct (run l h1) as [[h2 d2]|] eqn:E; [|done]. intros [= <- _]. by eapply IH.
Qed.

Lemma run_app l1 l2 h h1 d1 h2 d2 :
  run l1 h = Some (h1, d1) -> run l2 h1 = Some (h2, d2) -> run (l1 ++ l2) h = Some (h2, d1 ++ d2).
Proof.
  revert h d1. induction l1 as [|a l1 IH]; simpl; intros h d1; [by intros [= -> <-]|].
  destruct (dangling a h) as [d|], (exec a h) as [h'|]; try done.
  destruct (run l1 h') as [[h3 d3]|] eqn:E; [|done]. intros [= -> <-] E2.
  by rewrite (IH _ _ E E2), app_assoc.
Qed.

Lemma run_dangles l h h' d r x :
  run l h = Some (h', d) -> dangles h l r x <-> In (r, x) d.
Proof.
  revert h d. induction l as [|a l IH]; simpl; intros h d.
  { intros [= _ <-]. split; [|done]. by intros ([|] & ? & ? & ? & ? & _). }
  destruct (dangling a h) as [d1|] eqn:Ed, (exec a h) as [h1|] eqn:Ea; try done.
  destruct (run l h1) as [[h2 d2]|] eqn:E; [|done]. intros [= -> <-].
  rewrite in_app_iff, (dangling_spec _ _ _ r x Ed), <- (IH _ _ E). clear IH. split.
  - intros (before & b & after & hb & El & Eb & Hb). destruct before as [|c before]; simpl in *.
    + injection El as -> ->. injection Eb as ->. by left.
    + injection El as <- ->. rewrite Ea in Eb. right. by exists before, b, after, hb.
  - intros [Ha|(before & b & after & hb & -> & Eb & Hb)].
    + by exists [], a, l, h.
    + exists (a :: before), b, after, hb. simpl. by rewrite Ea.
Qed.

(** The loop over the remote sites. *)
Definition with_remotes (n : nat) (h : heap) : heap :=
  let '(data, impu) := match n with
    | 0%nat => (Null, Null)
    | _ => (Live [astaire_resolver; remote_astaire_comm_monitor], Live [RemoteData])
    end in
  mkHeap (slots h ++ [(RemoteData, data); (RemoteStore, impu)]) (running h) n n.

Definition before_remotes (c : setting) : list stmt := make_common c ++ make_local_store.

Definition after_remotes (c : setting) : list stmt :=
  make_cache ++ start_cache ++ (if hss_configured c then make_diameter else make_hs_prov) ++
  make_stacks ++ when (hss_configured c) make_realm ++ stop_parts c ++ delete_parts.

Lemma main_split c :
  main_objects c = before_remotes c ++ make_remotes (remote_sites c) ++ after_remotes c.
Proof.
  unfold main_objects, startup, create_memcached_cache, before_remotes, after_remotes.
  by rewrite !app_assoc.
Qed.

Lemma run_remotes n c h d :
  run (before_remotes c) at_start = Some (h, d) ->
  run (make_remotes n) h = Some (with_remotes n h, []).
Proof.
  intros E. assert (H : run (make_remotes 0) h = Some (with_remotes 0 h, []) /\
    forall k, run remote_site (with_remotes k h) = Some (with_remotes (S k) h, [])).
  { destruct c as [[] ? ? ? ? ?]; vm_compute in E; injection E as <- <-;
      (split; [|intros []]; vm_compute; reflexivity). }
  destruct H as [H0 Hs]. clear E. induction n as [|n IH]; [done|].
  change (make_remotes (S n)) with (make_remotes n ++ remote_site).
  exact (run_app _ _ _ _ _ _ [] IH (Hs n)).
Qed.

(** What is left when [main] returns. *)
Definition at_return (c : setting) (h : heap) (d : list (object * object)) : Prop :=
  remaining h = never_deleted c /\
  data_stores h = remote_sites c /\ impu_stores h = remote_sites c /\
  (sig_stops c = true -> mgmt_stops c = true -> diameter_stops c = true ->
     running h = [] /\ d = left_dangling c).

Lemma main_run c : exists h d, run (main_objects c) at_start = Some (h, d) /\ at_return c h d.
Proof.
  assert (E0 : exists h0, run (before_remotes c) at_start = Some (h0, []))
    by (destruct c as [[] ? ? ? ? ?]; eexists; vm_compute; reflexivity).
  destruct E0 as [h0 E0]. pose proof (run_remotes (remote_sites c) c h0 [] E0) as E1.
  assert (E2 : exists h d, run (after_remotes c) (with_remotes (remote_sites c) h0) = Some (h, d) /\
    at_return c h d).
  { destruct c as [[] [] n b1 b2 b3]; vm_compute in E0; injection E0 as <-;
      destruct n, b1, b2, b3; eexists _, _; (split; [vm_compute; reflexivity|]);
      unfold at_return; repeat split; discriminate. }
  destruct E2 as (h & d & E2 & Hr). exists h, d. split; [|done].
  rewrite main_split. change d with ([] ++ [] ++ d). eapply run_app; [done|]. by eapply run_app.
Qed.

(** ** Signals *)

Inductive disposition := SIG_DFL | OnCrash | OnTerminate.

Record signals := mkSignals {
  sigabrt : disposition;
  sigsegv : disposition;
  sigterm : disposition;
  term_sem : nat
}.

(** As [main] sets them up, and as it leaves them. *)
Definition install_handlers : signals := mkSignals OnCrash OnCrash OnTerminate 0.
Definition remove_handlers (s : signals) : signals :=
  mkSignals (sigabrt s) (sigsegv s) SIG_DFL 0.

Definition terminate_handler (s : signals) : signals :=
  mkSignals (sigabrt s) (sigsegv s) (sigterm s) (S (term_sem s)).

Inductive crash_step := Backtrace | CrashLog | FullBacktrace | CommitLogs | DumpRam.

(** How the handler of a crash ends: in the code that had stored a jump buffer on
    the thread, in [abort], or in a call through a null pointer; with what it did. *)
Inductive crash_end :=
| Handled (s : signals)
| Aborted (s : signals) (done : list crash_step)
| NullHandler (s : signals) (done : list crash_step).

(** [main] sets [exception_handler] to NULL when it has deleted it. *)
Definition signal_handler (h : heap) (jump_buffer : bool) (s : signals) : crash_end :=
  let s := mkSignals SIG_DFL OnCrash (sigterm s) (term_sem s) in
  match slot_of h exception_handler with
  | Some (Live _) =>
      if jump_buffer then Handled s
      else Aborted s [Backtrace; CrashLog; FullBacktrace; CommitLogs; DumpRam]
  | _ => NullHandler s [Backtrace]
  end.

(** A crash that is handled leaves the handler in place for segmentation faults
    only. *)
Lemma handled_crash h s s' :
  signal_handler h true s = Handled s' -> sigabrt s' = SIG_DFL /\ sigsegv s' = OnCrash.
Proof. unfold signal_handler. destruct (slot_of _ _) as [[]|]; [|done..]. by intros [= <-]. Qed.

(** [abort] ends the process: nothing handles it any more. *)
Lemma abort_ends h jb s s' steps : signal_handler h jb s = Aborted s' steps -> sigabrt s' = SIG_DFL.
Proof.
  unfold signal_handler. destruct (slot_of _ _) as [[]|], jb; try done. by intros [= <- _].
Qed.

(** The statements of [main] before which a crash is not logged: a signal finds no
    exception handler. *)
Fixpoint unlogged (l : list stmt) (h : heap) : option (list stmt) :=
  match l with
  | [] => Some []
  | a :: l =>
      match exec a h with
      | Some h' => option_map (app match slot_of h exception_handler with
                                   | Some (Live _) => [] | _ => [a] end) (unlogged l h')
      | None => None
      end
  end.

(** Until the exception handler is made, and again once it is deleted, which is
    while the pool of the cache still runs. *)
Lemma crashes_unlogged :
  unlogged (main_objects (mkSetting false true 0 true true true)) at_start = Some
    ([Without access_logger; New sas_service []; New stats_manager []; New realm_counter []; New host_counter [];
      New mar_results_table []; New sar_results_table []; New uar_results_table [];
      New lir_results_table []; New ppr_results_table []; New rtr_results_table [];
      New cache_queue_size_table []; New alarm_manager [];
      New hss_comm_monitor [alarm_manager]; New cassandra_comm_monitor [alarm_manager];
      New hc []; Start hc []; New exception_handler [hc]] ++
     [Delete cache_processor; Delete memcached_cache; Delete load_monitor; Delete sas_service;
      DeleteOnly astaire_comm_monitor; DeleteOnly remote_astaire_comm_monitor;
      DeleteOnly hss_comm_monitor; DeleteOnly cassandra_comm_monitor; DeleteOnly alarm_manager]).
Proof. vm_compute. reflexivity. Qed.

(** ** Properties *)

(** C28: [main] uses and passes on no object it has not made yet or has deleted
    (a pointer is null only where [main] is configured to do without the object),
    deletes none twice, and deletes all that it makes but a fixed list, whatever it
    is configured with, for any number of remote sites and whichever stacks fail to
    stop.  When all stop, the objects deleted while a running part still holds them
    are these and no others: the dictionary, the handlers and their
    configurations, which the Diameter stack can still use, and what the pool of the
    cache holds. *)
Theorem main_deletes_objects c :
  (exists h, exec_all (main_objects c) at_start = Some h /\ remaining h = never_deleted c /\
     data_stores h = remote_sites c /\ impu_stores h = remote_sites c) /\
  (sig_stops c = true -> mgmt_stops c = true -> diameter_stops c = true ->
     forall r x, dangles at_start (main_objects c) r x <-> In (r, x) (left_dangling c)).
Proof.
  destruct (main_run c) as (h & d & E & Hrem & Hd & Hi & Hstop). split.
  - exists h. split; [by eapply run_exec_all|done].
  - intros H1 H2 H3 r x. destruct (Hstop H1 H2 H3) as [_ <-]. by eapply run_dangles.
Qed.

(** With an HSS and two remote sites. *)
Lemma main_deletes_objects_witness :
  dangles at_start (main_objects (mkSetting true true 2 true true true)) diameter_stack dict /\
  ~ dangles at_start (main_objects (mkSetting true true 2 true true true)) http_stack_sig dict.
Proof.
  destruct (main_deletes_objects (mkSetting true true 2 true true true)) as [_ H].
  specialize (H eq_refl eq_refl eq_refl). split.
  - apply H. vm_compute. left. reflexivity.
  - intros Hd. apply H in Hd. vm_compute in Hd. intuition discriminate.
Defined.
