(* ===== verification/Interference.v ===== *)
(** * Computations that others interfere with

    Several Homestead nodes share the stores.  Here a computation of the cache
    ([src/memcached_cache.cpp]) runs with the stores changed by others before
    each of its operations, and the operations it performs itself are recorded.
    A small logic of rely and guarantee reasons about such runs: the rely is
    that others leave the stores in order and that no CAS value is given twice;
    the guarantee is a property of the log of what the computation does itself.
    First, what a write with a CAS value tells of everything that happened since
    the read. *)

From Stdlib Require Import String ZArith Lia.
From stdpp Require Import base list strings option relations.
From S2P Require Import Prelude StdMap Types Env Concrete ImpuStore XmlUtils Irs MemcachedCache CacheReads CacheWrites.
Open Scope Z_scope.

(** ** CAS values are not given again *)

(** [stamp] is above every CAS value a key has or had; a record with an older
    value than the stamp was already there. *)
Definition mappings_evolve {W} (mapping : W -> nat -> string -> option ImpiMapping)
    (stamp : W -> nat -> string -> Z) (w w' : W) : Prop :=
  forall s k, stamp w s k <= stamp w' s k /\
    forall m, mapping w' s k = Some m -> mapping_cas m < stamp w s k -> mapping w s k = Some m.

Definition impus_evolve {W} (impu : W -> nat -> string -> option Impu)
    (stamp : W -> nat -> string -> Z) (w w' : W) : Prop :=
  forall s k, stamp w s k <= stamp w' s k /\
    forall i, impu w' s k = Some i -> cas (impu_base i) < stamp w s k -> impu w s k = Some i.

Class FreshRecords (W : Type) `{LawfulImpuStore W} := {
  mapping_stamp : W -> nat -> string -> Z;
  impu_stamp : W -> nat -> string -> Z;
  evolves (w w' : W) : Prop :=
    mappings_evolve stored_mapping mapping_stamp w w' /\
    impus_evolve stored_impu impu_stamp w w';
  mapping_stamp_positive : forall w s k, 0 < mapping_stamp w s k;
  impu_stamp_positive : forall w s k, 0 < impu_stamp w s k;
  mapping_stamp_bound : forall w s k m,
    stored_mapping w s k = Some m -> mapping_cas m < mapping_stamp w s k;
  impu_stamp_bound : forall w s k i,
    stored_impu w s k = Some i -> cas (impu_base i) < impu_stamp w s k;
  set_mapping_fresh : forall w s m st w', set_impi_mapping s m w = Done st w' -> evolves w w';
  delete_mapping_fresh : forall w s m st w',
    delete_impi_mapping s m w = Done st w' -> evolves w w';
  set_impu_fresh : forall w s i st w', set_impu s i w = Done st w' -> evolves w w';
  set_impu_without_cas_fresh : forall w s i st w',
    set_impu_without_cas s i w = Done st w' -> evolves w w';
  add_impu_fresh : forall w s i st w', add_impu s i w = Done st w' -> evolves w w';
  delete_impu_fresh : forall w s i st w', delete_impu s i w = Done st w' -> evolves w w'
}.

Section instance.
Context {W : Type} `{FreshStore W} `{LawfulJson} `{LawfulLz4}.

Lemma view_mapping_inv (w : W) s k m :
  view_mapping w s k = Some m ->
  exists d, entry w s IMPI_TABLE k = Some (d, mapping_cas m) /\
    mapping_from_data k d (mapping_cas m) = Some m.
Proof.
  unfold view_mapping. destruct (entry w s IMPI_TABLE k) as [[d c]|]; [|done].
  intros E. assert (Hc : mapping_cas m = c).
  { unfold mapping_from_data in E. destruct (parse_json _); [|done]. destruct (negb _); [done|].
    by injection E as <-. }
  rewrite Hc. by exists d.
Qed.

(** Decoding does not look at the world. *)
Lemma from_data_any {V V'} k d c s (v v1 : V) (v' : V') o :
  from_data k d c s v = Done o v1 -> from_data k d c s v' = Done o v'.
Proof.
  unfold from_data, default_from_json, bind, ret, throw, undefined.
  repeat case_match; congruence.
Qed.

Lemma to_data_same {V} i d (v v' : V) r : to_data i d v = Done r v' -> v' = v.
Proof. unfold to_data, ret, throw. repeat case_match; congruence. Qed.

Lemma view_impu_inv (w : W) s k i :
  view_impu w s k = Some i ->
  exists d, entry w s IMPU_TABLE k = Some (d, cas (impu_base i)) /\
    from_data k d (cas (impu_base i)) s w = Done (Some i) w.
Proof.
  unfold view_impu. destruct (entry w s IMPU_TABLE k) as [[d c]|]; [|done].
  destruct (from_data k d c s w) as [[j|] v| | |] eqn:E; try done. intros [= ->].
  pose proof (from_data_base _ _ _ _ _ _ _ E) as Eb. exists d. rewrite Eb. cbn [cas].
  split; [done|]. by eapply from_data_any.
Qed.

Lemma entries_records (w w' : W) :
  entries_evolve entry stamp w w' ->
  mappings_evolve view_mapping (fun w s k => stamp w s IMPI_TABLE k) w w' /\
  impus_evolve view_impu (fun w s k => stamp w s IMPU_TABLE k) w w'.
Proof.
  intros He. split; intros s k.
  - destruct (He s IMPI_TABLE k) as [Hs Hd]. split; [done|].
    intros m (d & E & Hm)%view_mapping_inv Hc. unfold view_mapping. by rewrite (Hd _ _ E Hc).
  - destruct (He s IMPU_TABLE k) as [Hs Hd]. split; [done|].
    intros i (d & E & Hi)%view_impu_inv Hc. unfold view_impu. rewrite (Hd _ _ E Hc).
    by rewrite (from_data_any _ _ _ _ _ _ w _ Hi).
Qed.

Lemma entries_same (w : W) : entries_evolve entry stamp w w.
Proof. intros s t k. split; [lia|auto]. Qed.

(** A write of a record goes through its encoding. *)
Lemma encoded_write (i : Impu) (k : string -> Z -> IO W Store.Status) (w w' : W) st :
  (let* (status, data) := to_data i "" in
   if status_eqb status Store.OK then now <- now32 ;; k data now else ret status) w = Done st w' ->
  w' = w \/ exists data now, k data now w = Done st w'.
Proof.
  intros ([status data] & w1 & E & Hk)%bind_inv. apply to_data_same in E as ->.
  destruct (status_eqb status Store.OK); [right|left; by injection Hk].
  by exists data, (to_int32 (time0 w)).
Qed.

#[export] Program Instance fresh_records : FreshRecords W := {|
  mapping_stamp := fun w s k => stamp w s IMPI_TABLE k;
  impu_stamp := fun w s k => stamp w s IMPU_TABLE k
|}.
Next Obligation. intros. apply stamp_positive. Qed.
Next Obligation. intros. apply stamp_positive. Qed.
Next Obligation.
  intros w s k m Hm. cbn in Hm. apply view_mapping_inv in Hm as (d & E & _). by eapply stamp_bound.
Qed.
Next Obligation.
  intros w s k i Hi. cbn in Hi. apply view_impu_inv in Hi as (d & E & _). by eapply stamp_bound.
Qed.
Next Obligation.
  intros w s m st w'. cbn. unfold store_set_impi_mapping.
  destruct (mapping_to_data m) as [status data] eqn:E. injection E as <- <-. cbn.
  intros Hd. eapply entries_records, set_data_fresh, Hd.
Qed.
Next Obligation. intros w s m st w' Hd. eapply entries_records, delete_data_fresh, Hd. Qed.
Next Obligation.
  intros w s i st w' [->|(data & now & Hd)]%encoded_write;
    eapply entries_records; [apply entries_same|eapply set_data_fresh, Hd].
Qed.
Next Obligation.
  intros w s i st w' [->|(data & now & Hd)]%encoded_write;
    eapply entries_records; [apply entries_same|eapply set_data_without_cas_fresh, Hd].
Qed.
Next Obligation.
  intros w s i st w' [->|(data & now & Hd)]%encoded_write;
    eapply entries_records; [apply entries_same|eapply set_data_fresh, Hd].
Qed.
Next Obligation. intros w s i st w' Hd. eapply entries_records, delete_data_fresh, Hd. Qed.
End instance.

(** ** The contended world *)

Section interference.
Context {W : Type} `{FreshRecords W}.

Lemma evolves_refl (w : W) : evolves w w.
Proof. split; intros s k; (split; [lia|auto]). Qed.

Lemma evolves_trans (w1 w2 w3 : W) : evolves w1 w2 -> evolves w2 w3 -> evolves w1 w3.
Proof.
  intros [M12 I12] [M23 I23]. split; intros s k.
  - destruct (M12 s k) as [? Ha], (M23 s k) as [? Hb]. split; [lia|].
    intros m Hm Hc. apply Ha; [|done]. apply Hb; [done|lia].
  - destruct (I12 s k) as [? Ha], (I23 s k) as [? Hb]. split; [lia|].
    intros i Hi Hc. apply Ha; [|done]. apply Hb; [done|lia].
Qed.

#[export] Instance evolves_preorder : PreOrder (evolves (W := W)).
Proof. split; [exact evolves_refl|exact evolves_trans]. Qed.

(** An operation on the records, by any node. *)
Inductive store_op (w w' : W) : Prop :=
| op_set_impu s i st : set_impu s i w = Done st w' -> store_op w w'
| op_set_impu_without_cas s i st : set_impu_without_cas s i w = Done st w' -> store_op w w'
| op_add_impu s i st : add_impu s i w = Done st w' -> store_op w w'
| op_delete_impu s i st : delete_impu s i w = Done st w' -> store_op w w'
| op_set_mapping s m st : set_impi_mapping s m w = Done st w' -> store_op w w'
| op_delete_mapping s m st : delete_impi_mapping s m w = Done st w' -> store_op w w'.

(** Whatever nodes do to the records, no CAS value is given twice. *)
Lemma store_ops_evolve w w' : rtc store_op w w' -> evolves w w'.
Proof.
  induction 1 as [|w w1 w' Ho _ IH]; [apply evolves_refl|]. eapply evolves_trans; [|exact IH].
  destruct Ho; [by eapply set_impu_fresh|by eapply set_impu_without_cas_fresh|by eapply add_impu_fresh
    |by eapply delete_impu_fresh|by eapply set_mapping_fresh|by eapply delete_mapping_fresh].
Qed.

(** What the others do before each operation (nothing, when the schedule has
    ended), and the operations of this node: the world before and after. *)
Record contended := mkContended {
  world : W;
  schedule : list (W -> W);
  own : list (W * W)
}.

Definition interfered (x : contended) : W :=
  match schedule x with [] => world x | f :: _ => f (world x) end.

Definition contend {A} (c : IO W A) : IO contended A :=
  fun x =>
    match c (interfered x) with
    | Done a w => Done a (mkContended w (tail (schedule x)) (own x ++ [(interfered x, w)]))
    | Thrown => Thrown
    | Undefined => Undefined
    | OutOfFuel => OutOfFuel
    end.

#[export] Instance contended_ops : ImpuStoreOps contended := {|
  get_impu := fun s k => contend (get_impu s k);
  set_impu := fun s i => contend (set_impu s i);
  set_impu_without_cas := fun s i => contend (set_impu_without_cas s i);
  add_impu := fun s i => contend (add_impu s i);
  delete_impu := fun s i => contend (delete_impu s i);
  get_impi_mapping := fun s k => contend (get_impi_mapping s k);
  set_impi_mapping := fun s m => contend (set_impi_mapping s m);
  delete_impi_mapping := fun s m => contend (delete_impi_mapping s m);
  store_time := fun x => store_time (world x)
|}.

(** After an operation of this node that ended in [w]. *)
Definition after_op (x : contended) (w : W) : contended :=
  mkContended w (tail (schedule x)) (own x ++ [(interfered x, w)]).

(** The time window of a run, and what the others may do within it: anything
    that leaves the stores in order and gives no CAS value twice. *)
Context (t0 t1 : Z).

Definition during (w : W) : Prop := sound w /\ t0 <= store_time w <= t1.

Definition others (f : W -> W) : Prop := forall w, during w -> during (f w) /\ evolves w (f w).

Definition contended_ok (x : contended) : Prop := during (world x) /\ Forall others (schedule x).

Lemma interfered_ok x :
  contended_ok x -> during (interfered x) /\ evolves (world x) (interfered x) /\
    Forall others (tail (schedule x)).
Proof.
  unfold interfered. intros [Hd Hs]. destruct (schedule x) as [|f l]; [by auto using evolves_refl|].
  apply list.Forall_cons in Hs as [Hf Hl]. destruct (Hf _ Hd). done.
Qed.

(** ** A logic of contended computations

    [guarantees L P c Q]: run from a world with [P] ([P] kept by whatever others
    do), [c] performs operations whose log is in [L], and ends with [Q]. *)
Definition stable (P : W -> Prop) : Prop := forall w w', evolves w w' -> P w -> P w'.

(** What is said of a log can be said of it in parts. *)
Class LogClosed (L : list (W * W) -> Prop) := {
  log_nil : L [];
  log_app : forall l1 l2, L l1 -> L l2 -> L (l1 ++ l2)
}.

Definition guarantees {A} (L : list (W * W) -> Prop) (P : W -> Prop) (c : IO contended A)
    (Q : A -> W -> Prop) : Prop :=
  forall x a x', contended_ok x -> P (world x) -> c x = Done a x' ->
    contended_ok x' /\ evolves (world x) (world x') /\ Q a (world x') /\
    exists l, own x' = own x ++ l /\ L l.

Lemma guarantees_ret_log {A} (L : list (W * W) -> Prop) (P : W -> Prop) (a : A)
    (Q : A -> W -> Prop) :
  L [] -> (forall w, during w -> P w -> Q a w) -> guarantees L P (ret a) Q.
Proof.
  intros HL HQ x b x' Hok HP [= <- <-]. split; [done|]. split; [apply evolves_refl|].
  split; [apply HQ; [apply Hok|done]|]. exists []. by rewrite app_nil_r.
Qed.

Lemma guarantees_ret {A} L `{!LogClosed L} (P : W -> Prop) (a : A) (Q : A -> W -> Prop) :
  (forall w, during w -> P w -> Q a w) -> guarantees L P (ret a) Q.
Proof. apply guarantees_ret_log, log_nil. Qed.

Lemma guarantees_bind {A B} L `{!LogClosed L} (P : W -> Prop) (c : IO contended A)
    (R : A -> W -> Prop) (k : A -> IO contended B) Q :
  guarantees L P c R -> (forall a, guarantees L (R a) (k a) Q) -> guarantees L P (bind c k) Q.
Proof.
  intros Hc Hk x b x' Hok HP (a & x1 & Ho1 & Ho2)%bind_inv.
  destruct (Hc _ _ _ Hok HP Ho1) as (Hok1 & He1 & HR & l1 & E1 & F1).
  destruct (Hk a _ _ _ Hok1 HR Ho2) as (Hok2 & He2 & HQ & l2 & E2 & F2).
  split; [done|]. split; [by eapply evolves_trans|]. split; [done|].
  exists (l1 ++ l2). rewrite E2, E1, <- app_assoc. split; [done|by apply log_app].
Qed.

Lemma guarantees_op {A} (L : list (W * W) -> Prop) (P : W -> Prop) (c : IO W A)
    (Q : A -> W -> Prop) :
  stable P ->
  (forall w a w', during w -> P w -> c w = Done a w' ->
     during w' /\ evolves w w' /\ L [(w, w')] /\ Q a w') ->
  guarantees L P (contend c) Q.
Proof.
  intros HP Hc x a x' Hok Hx. destruct (interfered_ok x Hok) as (Hd & He & Hs).
  unfold contend. destruct (c (interfered x)) as [b w| | |] eqn:E; [|done..]. intros [= <- <-].
  destruct (Hc _ _ _ Hd (HP _ _ He Hx) E) as (Hd' & He' & HG & HQ).
  split; [by split|]. split; [by eapply evolves_trans|]. split; [done|]. by eexists.
Qed.

(** A read, and what follows it with what was read at hand: the log of both
    together is in [L]. *)
Lemma guarantees_read {A B} L (P : W -> Prop) (c : IO W A) (k : A -> IO contended B) Q :
  stable P ->
  (forall w a w', during w -> P w -> c w = Done a w' ->
     w' = w /\ guarantees (fun l => L ((w, w) :: l)) (evolves w) (k a) Q) ->
  guarantees L P (bind (contend c) k) Q.
Proof.
  intros HP Hc x b x' Hok Hx (a & x1 & Ho1 & Ho2)%bind_inv.
  destruct (interfered_ok x Hok) as (Hd & He & Hs).
  unfold contend in Ho1. destruct (c (interfered x)) as [a' w| | |] eqn:E; [|done..].
  injection Ho1 as <- <-. destruct (Hc _ _ _ Hd (HP _ _ He Hx) E) as [-> Hk].
  destruct (Hk (after_op x (interfered x)) b x') as (Hok' & He' & HQ & l & El & Hl);
    [by split|apply evolves_refl|done|].
  cbn in El, He'. split; [done|]. split; [by eapply evolves_trans|]. split; [done|].
  exists ((interfered x, interfered x) :: l). rewrite El, <- app_assoc. done.
Qed.

Lemma guarantees_conseq {A} L (P P' : W -> Prop) (c : IO contended A) (Q Q' : A -> W -> Prop) :
  (forall w, during w -> P w -> P' w) -> (forall a w, during w -> Q' a w -> Q a w) ->
  guarantees L P' c Q' -> guarantees L P c Q.
Proof.
  intros HP HQ Hc x a x' Hok Hx E.
  destruct (Hc x a x' Hok (HP _ (proj1 Hok) Hx) E) as (Hok' & He & HQ' & Hl).
  split; [done|]. split; [done|]. split; [|done]. apply HQ; [apply Hok'|done].
Qed.

(** A precondition whose first part does not depend on the world. *)
Lemma guarantees_pre {A} L (R : Prop) (P P' : W -> Prop) (c : IO contended A) Q :
  (forall w, P' w -> R /\ P w) -> (R -> guarantees L P c Q) -> guarantees L P' c Q.
Proof. intros HP Hc x a x' Hok Hx. destruct (HP _ Hx) as [HR Hp]. by apply Hc. Qed.

Lemma guarantees_foreach {X S} L `{!LogClosed L} (I : S -> W -> Prop) (f : X -> S -> IO contended S) l s :
  (forall x s, x ∈ l -> guarantees L (I s) (f x s) I) -> guarantees L (I s) (foreach f l s) I.
Proof.
  revert s. induction l as [|x l IH]; intros s Hf; simpl; [by apply (guarantees_ret L)|].
  eapply (guarantees_bind L); [apply Hf; by left|]. intros s'. apply IH. intros. apply Hf. by right.
Qed.

Lemma guarantees_do_while {A} L `{!LogClosed L} (I : A -> W -> Prop) n (body : A -> IO contended A) again a :
  (forall a, guarantees L (I a) (body a) I) -> guarantees L (I a) (do_while n body again a) I.
Proof.
  intros Hb. revert a. induction n as [|n IH]; intros a; simpl; [by intros ?????|].
  eapply (guarantees_bind L); [apply Hb|]. intros a'.
  destruct (again a'); [apply IH|by apply (guarantees_ret L)].
Qed.

Lemma guarantees_deref {A B} L (P : W -> Prop) (o : option A) (k : A -> IO contended B) Q :
  (forall a, o = Some a -> guarantees L P (k a) Q) -> guarantees L P (bind (deref o) k) Q.
Proof. intros Hk. destruct o as [a|]; [by apply (Hk a)|by intros x b x' _ _]. Qed.

(** ** Logs

    Single operations, and a deletion right after the read that decided on it. *)
Inductive op_log (op : W -> W -> Prop) (del : W -> W -> W -> Prop) : list (W * W) -> Prop :=
| op_log_nil : op_log op del []
| op_log_op w w' l : op w w' -> op_log op del l -> op_log op del ((w, w') :: l)
| op_log_del w0 w w' l :
    del w0 w w' -> op_log op del l -> op_log op del ((w0, w0) :: (w, w') :: l).

#[export] Instance op_log_closed op del : LogClosed (op_log op del).
Proof.
  split; [constructor|]. intros l1 l2 Hl1 Hl2. induction Hl1;
    [done|by apply op_log_op|by apply op_log_del].
Qed.

(** ** Single operations *)

Lemma contend_done {A} (c : IO W A) x a w :
  c (interfered x) = Done a w -> contend c x = Done a (after_op x w).
Proof. unfold contend. by intros ->. Qed.

Lemma after_op_ok x w :
  contended_ok x -> during w -> contended_ok (after_op x w).
Proof. intros Hok Hd. split; [done|]. by apply (interfered_ok x). Qed.

(** Nobody interferes after the schedule. *)
Lemma interfered_after x w :
  (length (schedule x) <= 1)%nat -> interfered (after_op x w) = w.
Proof. unfold interfered. simpl. by destruct (schedule x) as [|f [|g l]]; simpl; [..|lia]. Qed.

End interference.

Arguments interfered_ok {W _ _ _ t0 t1} x.
Arguments after_op_ok {W _ _ _ t0 t1} x w.
Arguments guarantees_ret {W _ _ _ t0 t1 A} L {_} P a Q.
Arguments guarantees_bind {W _ _ _ t0 t1 A B} L {_} P c R k Q.
Arguments guarantees_pre {W _ _ _ t0 t1 A} L R P P' c Q.
Arguments guarantees_foreach {W _ _ _ t0 t1 X S} L {_} I f l s.
Arguments guarantees_do_while {W _ _ _ t0 t1 A} L {_} I n body again a.

(** ** Properties *)

(** C29: A CAS write of a record succeeds exactly when the store still holds what was
    read.  Between the read of a key, which finds a record or none, and the write,
    any nodes do anything to the records, blind writes, additions and deletions
    included.  The write with the CAS value that was read (0 for none) is done if
    the store holds that same record still (or none still), and then the new
    record is what is read there and every other record and mapping stays; if the
    store holds anything else the write is refused with DATA_CONTENTION and changes
    nothing. *)
Theorem set_impu_no_lost_update {W} `{FreshRecords W} w0 w s i :
  let k := impu_id i in
  rtc store_op w0 w -> sound w -> can_store i ->
  to_int32 (store_time w) < expiry (impu_base i) ->
  cas (impu_base i) = current_cas w0 s k ->
  (stored_impu w s k = stored_impu w0 s k ->
   exists w' c, set_impu s i w = Done Store.OK w' /\
     get_impu s k w' = Done (Store.OK, Some (restored i c s)) w' /\
     (forall s' k', (s', k') <> (s, k) -> stored_impu w' s' k' = stored_impu w s' k') /\
     (forall s' k', stored_mapping w' s' k' = stored_mapping w s' k')) /\
  (stored_impu w s k <> stored_impu w0 s k ->
   set_impu s i w = Done Store.DATA_CONTENTION w).
Proof.
  intros k Ho Hw Hi Hx Hc. pose proof (store_ops_evolve _ _ Ho) as [_ He]. split; intros Hk.
  - destruct (set_impu_hit w s i Hw Hi Hx) as (w' & c & Hset & _ & Hw' & _ & Hr & Hm).
    { rewrite Hc. unfold current_cas. by rewrite <- Hk. }
    exists w', c. split; [done|]. split; [|split; [|done]].
    + rewrite get_impu_law by done. by rewrite Hr, same_key_refl.
    + intros s' k' Hne. rewrite Hr. unfold same_key.
      destruct (Nat.eqb_spec s s') as [<-|]; [|done].
      destruct (String.eqb_spec (impu_id i) k') as [<-|]; done.
  - apply set_impu_miss; [done..|]. rewrite Hc. unfold current_cas. fold k. intros Heq. apply Hk.
    destruct (stored_impu w s k) as [a|] eqn:Ea.
    + destruct (stored_key _ _ _ _ Ea) as (_ & _ & Ha).
      destruct (stored_impu w0 s k) as [b|] eqn:Eb; [|by rewrite Heq in Ha].
      rewrite <- Eb. symmetry. apply (proj2 (He s k)); [done|]. rewrite <- Heq.
      by apply impu_stamp_bound.
    + destruct (stored_impu w0 s k) as [b|] eqn:Eb; [|done].
      by destruct (stored_key _ _ _ _ Eb) as (_ & _ & Hb).
Qed.

(** ** Witnesses *)

Definition first_written : Mem.mem :=
  match set_impu 0 sample_impu (Mem.empty_at 500) with Done _ w => w | _ => Mem.empty_at 500 end.

(** The same record, deleted and added again: one CAS value on. *)
Definition deleted_since : Mem.mem :=
  match delete_impu 0 sample_impu first_written with Done _ w => w | _ => first_written end.

Definition added_again : Mem.mem :=
  match add_impu 0 sample_impu deleted_since with Done _ w => w | _ => deleted_since end.

Lemma deletes_done : delete_impu 0 sample_impu first_written = Done Store.OK deleted_since.
Proof. vm_compute. reflexivity. Qed.

Lemma adds_done : add_impu 0 sample_impu deleted_since = Done Store.OK added_again.
Proof. vm_compute. reflexivity. Qed.

Lemma added_again_ops : rtc store_op first_written added_again.
Proof.
  eapply rtc_l; [exact (op_delete_impu _ _ 0 sample_impu Store.OK deletes_done)|].
  eapply rtc_l; [exact (op_add_impu _ _ 0 sample_impu Store.OK adds_done)|]. constructor.
Qed.

Lemma added_again_sound : sound added_again.
Proof.
  destruct (set_impu_hit (Mem.empty_at 500) 0 sample_impu) as (w & c & E & _ & Hw & _);
    [apply empty_sound|apply sample_storable|reflexivity|reflexivity|].
  assert (Hf : sound first_written) by (unfold first_written; by rewrite E).
  destruct (delete_impu_law first_written 0 sample_impu Hf) as (w1 & E1 & Hw1 & _ & Hs & _).
  rewrite deletes_done in E1. injection E1 as <-.
  destruct (add_impu_hit deleted_since 0 sample_impu Hw1) as (w2 & c2 & E2 & Hw2 & _);
    [apply sample_storable|reflexivity|by rewrite Hs, same_key_refl|].
  rewrite adds_done in E2. by injection E2 as <-.
Qed.

Definition held_record : Impu :=
  match stored_impu first_written 0 "sip:a@b" with Some i => i | None => sample_impu end.

Lemma set_impu_no_lost_update_witness :
  stored_impu added_again 0 "sip:a@b" <> stored_impu first_written 0 "sip:a@b" /\
  set_impu 0 held_record added_again = Done Store.DATA_CONTENTION added_again.
Proof.
  assert (Hne : stored_impu added_again 0 "sip:a@b" <> stored_impu first_written 0 "sip:a@b")
    by (intros Heq; apply (f_equal (option_map (fun i => cas (impu_base i)))) in Heq;
        vm_compute in Heq; discriminate).
  split; [exact Hne|].
  apply (set_impu_no_lost_update first_written added_again 0 held_record);
    [exact added_again_ops|exact added_again_sound| |reflexivity|reflexivity|exact Hne].
  split; [reflexivity|]. split; [vm_compute; split; [intros E; discriminate E|reflexivity]|].
  split; [vm_compute; reflexivity|].
  exists (Z.of_nat (String.length (json_bytes sample_impu))), (json_bytes sample_impu).
  split; vm_compute; reflexivity.
Defined.
