(* ===== verification/Contention.v ===== *)
(** * Adding, refreshing and removing mappings while other nodes write

    The retry loops on IMPI mappings of [src/memcached_cache.cpp], in the
    contended world of [Interference]. *)

From Stdlib Require Import String ZArith Lia.
From stdpp Require Import base list strings option.
From S2P Require Import Prelude StdMap Types Env Concrete ImpuStore XmlUtils Irs MemcachedCache CacheReads CacheWrites Interference.
Open Scope Z_scope.

Section contention.
Context {W : Type} `{FreshRecords W} (t0 t1 : Z).

#[local] Abbreviation during := (during t0 t1).
#[local] Abbreviation contended_ok := (contended_ok t0 t1).
#[local] Abbreviation guarantees := (guarantees t0 t1).

(** ** Operations on mappings *)

Context (irs : Irs) (s : nat).

(** The set can be written at any time of the window, and a record written in it
    outlives it. *)
Record writable_during : Prop := {
  window_writable : forall w, t0 <= store_time w <= t1 -> writable irs w;
  window_short : t1 < t0 + _ttl irs
}.

(** The private identities whose mapping a write of the set keeps or makes, and why
    a mapping is written. *)
Definition kept_impis : list string :=
  (if _refreshed irs then impis_in State.UNCHANGED irs else []) ++ impis_in State.ADDED irs.

Inductive purpose := Removing | Keeping.

Definition concerned (p : purpose) (k : string) : Prop :=
  match p with
  | Removing => k ∈ impis_in State.DELETED irs
  | Keeping => k ∈ kept_impis
  end.

(** The IMPUs of others in a mapping stay as they are, none gone and none new; this
    node's own is taken out where it was, or is there. *)
Definition others_same (l l' : list string) : Prop :=
  forall j, j <> _default_impu irs -> j ∈ l <-> j ∈ l'.

Definition own_as (p : purpose) (l l' : list string) : Prop :=
  match p with
  | Removing => _default_impu irs ∈ l /\ _default_impu irs ∉ l'
  | Keeping => _default_impu irs ∈ l'
  end.

Definition made_of (p : purpose) (l l' : list string) : Prop := others_same l l' /\ own_as p l l'.

(** The identities of a mapping that may not be there. *)
Definition impus_of (o : option ImpiMapping) : list string :=
  match o with Some m => _default_impus m | None => [] end.

(** An operation of this node on the mappings reads, is refused, or writes one mapping
    of an identity it is concerned with, made of what the mapping is at that
    moment; nothing else changes. *)
Inductive mapping_op (w w' : W) : Prop :=
| mapping_read : w' = w -> mapping_op w w'
| mapping_rewritten p k m :
    concerned p k -> mapping_written w w' s k (Some m) ->
    made_of p (impus_of (stored_mapping w s k)) (_default_impus m) -> mapping_op w w'.

(** A mapping is deleted if the read just before, of [w0], found this node's IMPU
    in it and no other. *)
Inductive mapping_del (w0 w w' : W) : Prop :=
| mapping_deleted k m :
    concerned Removing k -> stored_mapping w0 s k = Some m ->
    _default_impu irs ∈ _default_impus m ->
    (forall j, j ∈ _default_impus m -> j = _default_impu irs) ->
    mapping_written w w' s k None -> mapping_del w0 w w'.

Definition mapping_log : list (W * W) -> Prop := op_log mapping_op mapping_del.

Lemma mapping_log_read w : mapping_log [(w, w)].
Proof. apply op_log_op; [by apply mapping_read|constructor]. Qed.

(** A mapping that was read: the store still has it if it has its CAS value. *)
Definition was_read (k : string) (m : ImpiMapping) (w : W) : Prop :=
  impi m = k /\ can_map m /\ mapping_cas m <> 0 /\ mapping_cas m < mapping_stamp w s k /\
  forall m', stored_mapping w s k = Some m' -> mapping_cas m' = mapping_cas m -> m' = m.

(** A mapping this node is about to write. *)
Definition held (p : purpose) (k : string) (m : ImpiMapping) (w : W) : Prop :=
  impi m = k /\ can_map m /\ mapping_cas m < mapping_stamp w s k /\
  (mapping_cas m = 0 -> t1 < _expiry m /\ made_of p [] (_default_impus m)) /\
  forall m', stored_mapping w s k = Some m' -> mapping_cas m' = mapping_cas m ->
    made_of p (_default_impus m') (_default_impus m) /\
    (_expiry m' <= _expiry m \/ t1 < _expiry m).

Lemma was_read_stable k m : stable (was_read k m).
Proof.
  intros w w' He (? & ? & ? & Hc & Hm). destruct (proj1 He s k) as [Hs Ho].
  do 3 (split; [done|]). split; [lia|]. intros m' Hm' Hc'. apply Hm; [|done].
  apply Ho; [done|lia].
Qed.

Lemma held_stable p k m : stable (held p k m).
Proof.
  intros w w' He (? & ? & Hc & ? & Hm). destruct (proj1 He s k) as [Hs Ho].
  do 2 (split; [done|]). split; [lia|]. split; [done|]. intros m' Hm' Hc'. apply Hm; [|done].
  apply Ho; [done|lia].
Qed.

Lemma read_mapping w k m : during w -> stored_mapping w s k = Some m -> was_read k m w.
Proof.
  intros [Hw _] Hm. destruct (stored_mapping_key _ _ _ _ Hm), (stored_mapping_live _ _ _ _ Hw Hm).
  do 3 (split; [done|]). split; [by eapply mapping_stamp_bound|].
  intros m' Hm' _. congruence.
Qed.

Lemma get_mapping_op k w st out w' :
  during w -> get_impi_mapping s k w = Done (st, out) w' ->
  w' = w /\ out = stored_mapping w s k /\
  match out with Some m => st = Store.OK /\ was_read k m w | None => st = Store.NOT_FOUND end.
Proof.
  intros Hd. rewrite get_mapping_law by apply Hd.
  destruct (stored_mapping w s k) eqn:E; intros [= <- <- <-]; split_and!; try done.
  by apply read_mapping.
Qed.

Hypothesis Hwindow : writable_during.

Lemma during_int w : during w -> to_int32 (store_time w) = store_time w.
Proof. intros [_ Ht]. by apply (time_small irs), window_writable. Qed.

(** A write succeeds exactly under the CAS value of the store. *)
Lemma set_mapping_op p k m w st w' :
  during w -> held p k m w -> set_impi_mapping s m w = Done st w' ->
  during w' /\ evolves w w' /\ (concerned p k -> mapping_op w w') /\ held p k m w' /\
  ((st = Store.OK /\ mapping_cas m = current_mapping_cas w s k /\
    exists c, mapping_written w w' s k (Some (mkImpiMapping k c (_expiry m) (_default_impus m)))) \/
   (st = Store.DATA_CONTENTION /\ mapping_cas m <> current_mapping_cas w s k /\ w' = w)).
Proof.
  intros Hd Hh E. pose proof (set_mapping_fresh _ _ _ _ _ E) as Hev.
  pose proof Hh as (Hk & Hcm & Hc & Hz & Hm). subst k.
  destruct (Z.eq_dec (mapping_cas m) (current_mapping_cas w s (impi m))) as [Ec|Ec].
  2:{ rewrite set_mapping_miss in E by (done || apply Hd). injection E as <- <-.
      split; [done|]. split; [done|]. split; [by intros _; apply mapping_read|]. auto. }
  assert (Hx : to_int32 (store_time w) < _expiry m /\
    made_of p (impus_of (stored_mapping w s (impi m))) (_default_impus m)).
  { pose proof (during_int w Hd) as Ht. destruct Hd as [Hw Hd]. unfold current_mapping_cas in Ec.
    destruct (stored_mapping w s (impi m)) as [m'|] eqn:Em;
      [|destruct (Hz Ec) as [? ?]; split; [lia|done]].
    destruct (Hm m' eq_refl (eq_sym Ec)) as [Hmade Hx]. split; [|done].
    pose proof (proj1 (stored_mapping_live _ _ _ _ Hw Em)). lia. }
  destruct Hx as [Hx Hmade].
  destruct (set_mapping_hit w s m (proj1 Hd) Hcm Hx Ec) as (w1 & c & E1 & Hne & Hwr).
  rewrite E1 in E. injection E as <- <-. pose proof Hwr as (Hs1 & Ht1 & Hi1 & Hm1).
  split; [|split; [done|split; [|split]]].
  - split; [done|]. rewrite Ht1. apply Hd.
  - intros Hp. eapply mapping_rewritten; [exact Hp|exact Hwr|exact Hmade].
  - destruct (proj1 Hev s (impi m)) as [Hst _]. split; [done|]. split; [done|]. split; [lia|].
    split; [done|]. intros m'. rewrite Hm1, same_key_refl. intros [= <-]. simpl. congruence.
  - left. split; [done|]. split; [done|]. by exists c.
Qed.

(** ** The loops keep what others write *)

#[local] Abbreviation keep := (guarantees mapping_log).

Lemma keep_get k P (Q : _ -> W -> Prop) :
  stable P ->
  (forall w m, during w -> P w -> was_read k m w -> Q (Store.OK, Some m) w) ->
  (forall w, during w -> P w -> Q (Store.NOT_FOUND, None) w) ->
  keep P (get_impi_mapping (W := contended) s k) Q.
Proof.
  intros HP Hs Hn. apply guarantees_op; [done|]. intros w [st out] w' Hd Hp E.
  destruct (get_mapping_op _ _ _ _ _ Hd E) as (-> & _ & Hm). split; [done|].
  split; [apply evolves_refl|]. split; [apply mapping_log_read|].
  destruct out as [m|]; [|subst; by apply Hn]. destruct Hm as [-> Hm]. by apply Hs.
Qed.

Lemma keep_set p k m :
  concerned p k ->
  keep (held p k m) (set_impi_mapping (W := contended) s m) (fun _ => held p k m).
Proof.
  intros Hp. apply guarantees_op; [apply held_stable|]. intros w st w' Hd Hh E.
  destruct (set_mapping_op _ _ _ _ _ _ Hd Hh E) as (? & ? & ? & ? & _).
  do 2 (split; [done|]). split; [|done]. apply op_log_op; [auto|constructor].
Qed.

(** The expiry the source computes is after the window. *)
Lemma expiry_in_window {X} w (y : X) :
  during w ->
  add_int (_ttl irs) (to_int32 (store_time w)) y = Done (_ttl irs + store_time w) y /\
  t1 < _ttl irs + store_time w /\
  forall p, can_map (new_ImpiMapping p (_default_impu irs) (_ttl irs + store_time w)).
Proof.
  intros Hd. pose proof (window_writable Hwindow _ (proj2 Hd)) as Hwr. split; [|split].
  - pose proof (mapping_expiry irs _ Hwr) as Ha. unfold add_int in *.
    destruct (_ && _); [|done]. by injection Ha as ->.
  - pose proof (window_short Hwindow). destruct Hd. lia.
  - apply (writable_mapping _ _ Hwr).
Qed.

Lemma keep_expiry {A} (P : W -> Prop) (k : Z -> IO contended A) Q :
  (forall e, t1 < e -> (forall p, can_map (new_ImpiMapping p (_default_impu irs) e)) ->
     keep P (k e) Q) ->
  keep P (now <- time_int ;; e <- add_int (_ttl irs) now ;; k e) Q.
Proof.
  intros Hk x a x' Hok Hx E. destruct (expiry_in_window (world x) x (proj1 Hok)) as (Ha & He & Hc).
  unfold bind, time_int in E. cbn [store_time contended_ops] in E. rewrite Ha in E.
  exact (Hk _ He Hc x a x' Hok Hx E).
Qed.

Lemma keep_time64 {A} (P : W -> Prop) (k : Z -> IO contended A) Q :
  (forall now, t1 < now + _ttl irs ->
     (forall p, can_map (new_ImpiMapping p (_default_impu irs) (now + _ttl irs))) ->
     keep P (k now) Q) ->
  keep P (bind time64 k) Q.
Proof.
  intros Hk x a x' Hok Hx E. unfold bind, time64 in E. cbn [store_time contended_ops] in E.
  destruct (proj1 Hok) as [_ Ht]. refine (Hk _ _ _ x a x' Hok Hx E).
  - pose proof (window_short Hwindow). lia.
  - intros p. rewrite Z.add_comm. apply (window_writable Hwindow (world x)), Ht.
Qed.

Lemma held_new k e w :
  t1 < e -> can_map (new_ImpiMapping k (_default_impu irs) e) ->
  held Keeping k (new_ImpiMapping k (_default_impu irs) e) w.
Proof.
  intros He Hc. split; [done|]. split; [done|]. split; [apply mapping_stamp_positive|].
  split; [|intros m' Hm' Hc'; by destruct (stored_mapping_key _ _ _ _ Hm')].
  intros _. split; [done|]. split; [|by left]. intros j Hj. simpl.
  rewrite list_elem_of_singleton. split; [by intros ?%not_elem_of_nil|done].
Qed.

(** What this node makes of a mapping it has read. *)
Definition made_from (p : purpose) (m m' : ImpiMapping) : Prop :=
  impi m' = impi m /\ mapping_cas m' = mapping_cas m /\
  made_of p (_default_impus m) (_default_impus m') /\
  (_expiry m <= _expiry m' \/ t1 < _expiry m') /\ (can_map m -> can_map m').

Lemma held_made p k m m' w : was_read k m w -> made_from p m m' -> held p k m' w.
Proof.
  intros (Hk & Hcm & Hz & Hc & Hm) (Hk' & Hc' & Ho & Hx & Hcm').
  split; [congruence|]. split; [auto|]. split; [by rewrite Hc'|]. split; [congruence|].
  intros m0 Hm0 E0. rewrite (Hm m0 Hm0) by congruence. split; [done|]. lia.
Qed.

Lemma has_own m : has_default_impu m (_default_impu irs) = true <-> _default_impu irs ∈ _default_impus m.
Proof. apply in_vector_spec. Qed.

Lemma made_with_expiry m e :
  t1 < e -> (forall p, can_map (new_ImpiMapping p (_default_impu irs) e)) ->
  made_from Keeping m
    (if has_default_impu m (_default_impu irs) then set_expiry m e
     else add_default_impu (set_expiry m e) (_default_impu irs)).
Proof.
  intros He Hc. unfold made_from, made_of, others_same, own_as.
  assert (Ha : can_map m -> can_map (set_expiry m e) /\
    can_map (add_default_impu (set_expiry m e) (_default_impu irs)))
    by (intros Hm; by apply can_map_add).
  pose proof (has_own m) as Ho. destruct (has_default_impu m (_default_impu irs)); simpl;
    split_and!; try done; try (by right); try (intros; tauto).
  - intros j Hj. rewrite elem_of_app, list_elem_of_singleton. tauto.
  - apply elem_of_app. right. by left.
Qed.

Lemma elem_of_without j m :
  j ∈ _default_impus (remove_default_impu m (_default_impu irs)) <->
  j ∈ _default_impus m /\ j <> _default_impu irs.
Proof.
  simpl. rewrite list_elem_of_In, List.filter_In, <- list_elem_of_In, negb_true_iff.
  by rewrite String.eqb_neq.
Qed.

Lemma made_without m :
  _default_impu irs ∈ _default_impus m ->
  made_from Removing m (remove_default_impu m (_default_impu irs)).
Proof.
  intros Ho. unfold made_from, made_of, others_same, own_as. setoid_rewrite elem_of_without.
  split_and!; try done; [tauto|by intros [_ ?]|by left|by apply can_map_remove].
Qed.

Lemma emptied_without m :
  is_empty (remove_default_impu m (_default_impu irs)) = true ->
  forall j, j ∈ _default_impus m -> j = _default_impu irs.
Proof.
  intros He j Hj. destruct (decide (j = _default_impu irs)) as [|Hne]; [done|].
  pose proof (proj2 (elem_of_without j m) (conj Hj Hne)) as Hin. unfold is_empty in He.
  destruct (_default_impus (remove_default_impu _ _)); [by apply not_elem_of_nil in Hin|done].
Qed.

#[local] Abbreviation no_matter := (fun _ _ => True).

(** The result of a read, as a precondition. *)
Definition got (k : string) (r : Store.Status * option ImpiMapping) (w : W) : Prop :=
  match r with
  | (st, Some m) => st = Store.OK /\ was_read k m w
  | (st, None) => st = Store.NOT_FOUND
  end.

Lemma keep_got k : keep (fun _ => True) (get_impi_mapping (W := contended) s k) (got k).
Proof. by apply keep_get. Qed.

(** Continue after a read. *)
Lemma keep_after_get {A} k (body : Store.Status * option ImpiMapping -> IO contended A) Q :
  (forall m, keep (was_read k m) (body (Store.OK, Some m)) Q) ->
  keep (fun _ => True) (body (Store.NOT_FOUND, None)) Q ->
  keep (fun _ => True) (bind (get_impi_mapping (W := contended) s k) body) Q.
Proof.
  intros Hs Hn. eapply (guarantees_bind mapping_log); [apply keep_got|]. intros [st [m|]].
  - apply (guarantees_pre _ (st = Store.OK) (was_read k m)); [done|]. by intros ->.
  - apply (guarantees_pre _ (st = Store.NOT_FOUND) (fun _ => True)); [done|]. by intros ->.
Qed.

(** Nothing but the read. *)
Lemma keep_nothing {A} w P (a : A) :
  guarantees (fun l => mapping_log ((w, w) :: l)) P (ret a) no_matter.
Proof. by apply guarantees_ret_log; [apply mapping_log_read|]. Qed.

(** The deletion follows the read at once. *)
Lemma keep_delete k m w0 :
  during w0 -> concerned Removing k -> stored_mapping w0 s k = Some m ->
  _default_impu irs ∈ _default_impus m ->
  is_empty (remove_default_impu m (_default_impu irs)) = true ->
  guarantees (fun l => mapping_log ((w0, w0) :: l)) (evolves w0)
    (delete_impi_mapping (W := contended) s (remove_default_impu m (_default_impu irs))) no_matter.
Proof.
  intros Hd0 Hp Hm Ho He. destruct (stored_mapping_key _ _ _ _ Hm) as [Hk _].
  apply guarantees_op; [intros ? ? ? ?; by etransitivity|]. intros w st w' Hd _ E.
  pose proof (delete_mapping_fresh _ _ _ _ _ E) as Hev.
  destruct (delete_mapping_law w s (remove_default_impu m (_default_impu irs)) (proj1 Hd))
    as (w1 & E1 & Hw). rewrite E1 in E. injection E as <- <-. simpl in Hw. rewrite Hk in Hw.
  split; [split; [apply Hw|]|].
  { destruct Hw as (_ & Ht & _). rewrite Ht. apply Hd. }
  split; [done|]. split; [|done]. apply op_log_del; [|constructor].
  by apply (mapping_deleted _ _ _ k m); try done; apply emptied_without.
Qed.

Lemma keep_remove k st :
  concerned Removing k ->
  keep (fun _ => True) (remove_impi_mapping (W := contended) irs s k st) no_matter.
Proof.
  intros Hp. unfold remove_impi_mapping. apply guarantees_read; [done|].
  intros w [st0 out] w' Hd _ E. destruct (get_mapping_op _ _ _ _ _ Hd E) as (-> & Eo & Hm).
  split; [done|]. cbv beta iota. destruct out as [m|]; [|subst st0; apply keep_nothing].
  destruct Hm as [-> Hr]. rewrite status_eqb_refl. apply guarantees_deref. intros ? [= <-].
  destruct (has_default_impu m (_default_impu irs)) eqn:Ho; [|apply keep_nothing].
  apply has_own in Ho. cbv zeta.
  destruct (is_empty _) eqn:He; [by apply (keep_delete k m)|].
  intros x a x' Hok Hx Ex.
  assert (Hh : held Removing k (remove_default_impu m (_default_impu irs)) (world x)).
  { eapply held_stable; [exact Hx|]. by eapply held_made; [|apply made_without]. }
  destruct (keep_set Removing k _ Hp x a x' Hok Hh Ex) as (? & ? & _ & l & El & Hl).
  do 3 (split; [done|]). exists l. split; [done|].
  apply op_log_op; [by apply mapping_read|done].
Qed.

Lemma keep_refresh k st :
  concerned Keeping k ->
  keep (fun _ => True) (refresh_impi_mapping (W := contended) irs s k st) no_matter.
Proof.
  intros Hp. unfold refresh_impi_mapping. apply keep_after_get.
  - intros m. rewrite status_eqb_refl. eapply (guarantees_bind mapping_log) with (R := held Keeping k).
    + apply guarantees_deref. intros ? [= <-]. apply keep_expiry. intros e He Hc.
      apply (guarantees_ret mapping_log). intros w _ Hr. cbv zeta.
      eapply held_made; [exact Hr|]. by apply (made_with_expiry m e).
    + intros m'. eapply guarantees_conseq; [| |apply (keep_set Keeping k m' Hp)]; done.
  - cbn. eapply (guarantees_bind mapping_log) with (R := held Keeping k).
    + apply keep_expiry. intros e He Hc. apply (guarantees_ret mapping_log).
      intros w _ _. by apply held_new.
    + intros m'. eapply guarantees_conseq; [| |apply (keep_set Keeping k m' Hp)]; done.
Qed.

(** The mapping the loop carries along can always be written. *)
Lemma keep_add k st :
  concerned Keeping k ->
  keep (held Keeping k (snd st)) (add_impi_mapping (W := contended) irs s k st)
    (fun st' => held Keeping k (snd st')).
Proof.
  intros Hp. unfold add_impi_mapping.
  eapply (guarantees_bind mapping_log); [by apply keep_set|]. intros status. cbv beta.
  destruct (contention status); [|by apply (guarantees_ret mapping_log)].
  eapply (guarantees_bind mapping_log)
    with (R := fun r w => held Keeping k (snd st) w /\ got k r w).
  { apply keep_get; [apply held_stable|done..]. }
  intros [inner [m|]].
  - apply (guarantees_pre _ (inner = Store.OK) (was_read k m)); [by intros w [_ ?]|].
    intros ->. rewrite status_eqb_refl. apply guarantees_deref. intros ? [= <-]. apply keep_expiry.
    intros e He Hc. pose proof (made_with_expiry m e He Hc) as Hmade. cbv zeta.
    change (has_default_impu (set_expiry m e) (_default_impu irs))
      with (has_default_impu m (_default_impu irs)).
    destruct (has_default_impu m _); cbn [negb]; [destruct (negb (_refreshed irs))|];
      apply (guarantees_ret mapping_log); intros w _ Hr; by eapply held_made.
  - apply (guarantees_pre _ (inner = Store.NOT_FOUND) (held Keeping k (snd st)));
      [by intros w [? ?]|].
    intros ->. cbn. by apply (guarantees_ret mapping_log).
Qed.

Lemma keep_loop fuel (body : Store.Status -> IO contended Store.Status) st :
  (forall st, keep (fun _ => True) (body st) no_matter) ->
  keep (fun _ => True) (do_while fuel body contention st) no_matter.
Proof. intros Hb. by apply (guarantees_do_while mapping_log (fun _ _ => True)). Qed.

Lemma keep_all l (f : string -> Store.Status -> IO contended Store.Status) st :
  (forall k st, k ∈ l -> keep (fun _ => True) (f k st) no_matter) ->
  keep (fun _ => True) (foreach f l st) no_matter.
Proof. intros Hf. by apply (guarantees_foreach mapping_log (fun _ _ => True)). Qed.

Lemma keep_update fuel :
  keep (fun _ => True) (update_irs_impi_mappings (W := contended) fuel irs s) no_matter.
Proof.
  assert (Hkept : forall k, k ∈ kept_impis <->
    k ∈ (if _refreshed irs then impis_in State.UNCHANGED irs else []) \/
    k ∈ impis_in State.ADDED irs) by (intros k; apply elem_of_app).
  unfold update_irs_impi_mappings.
  eapply (guarantees_bind mapping_log) with (R := no_matter); [apply keep_all|intros st].
  { intros k st Hk. apply keep_loop. intros. by apply keep_remove. }
  eapply (guarantees_bind mapping_log) with (R := no_matter); [|intros st'; apply keep_all].
  { destruct (_refreshed irs); [|by apply (guarantees_ret mapping_log)]. apply keep_all.
    intros k st' Hk. apply keep_loop. intros. apply keep_refresh, Hkept. by left. }
  intros k st2 Hk. apply keep_time64. intros now Hn Hc. cbv zeta.
  eapply (guarantees_bind mapping_log) with (R := no_matter);
    [|intros [? ?]; by apply (guarantees_ret mapping_log)].
  eapply guarantees_conseq;
    [| |apply (guarantees_do_while mapping_log (fun st => held Keeping k (snd st)))];
    [|done|intros; apply keep_add, Hkept; by right].
  intros w _ _. by apply held_new.
Qed.

(** ** A refresh acts at once *)

(** The identities of a mapping after this node's has been added. *)
Definition with_own (o : option ImpiMapping) : list string :=
  match o with
  | None => [_default_impu irs]
  | Some m => if has_default_impu m (_default_impu irs) then _default_impus m
              else _default_impus m ++ [_default_impu irs]
  end.

(** The mapping an attempt writes. *)
Definition refreshed (k : string) (o : option ImpiMapping) (e : Z) : ImpiMapping :=
  match o with
  | Some m =>
      let m := set_expiry m e in
      if has_default_impu m (_default_impu irs) then m else add_default_impu m (_default_impu irs)
  | None => new_ImpiMapping k (_default_impu irs) e
  end.

Lemma refresh_attempt_form k st x :
  contended_ok x ->
  let o := stored_mapping (interfered x) s k in
  let m := refreshed k o (_ttl irs + store_time (interfered x)) in
  refresh_impi_mapping (W := contended) irs s k st x =
    set_impi_mapping (W := contended) s m (after_op x (interfered x)) /\
  held Keeping k m (interfered x) /\ _expiry m = _ttl irs + store_time (interfered x) /\
  _default_impus m = with_own o /\
  mapping_cas m = current_mapping_cas (interfered x) s k.
Proof.
  intros Hok o m. destruct (interfered_ok x Hok) as (Hd & _ & _).
  assert (Hget : get_impi_mapping (W := contended) s k x =
    Done (match o with Some m => (Store.OK, Some m) | None => (Store.NOT_FOUND, None) end)
      (after_op x (interfered x))).
  { apply contend_done. rewrite get_mapping_law by apply Hd. unfold o. by destruct (stored_mapping _ s k). }
  destruct (expiry_in_window (interfered x) (after_op x (interfered x)) Hd) as (Ha & He & Hcm).
  unfold refresh_impi_mapping. rewrite (bind_done _ _ _ _ _ Hget). unfold m. clear Hget m.
  unfold current_mapping_cas. destruct o as [m|] eqn:E; unfold o in E; rewrite E.
  - rewrite status_eqb_refl. unfold bind, deref, time_int, ret.
    cbn [store_time contended_ops world after_op]. rewrite Ha. pose proof (made_with_expiry m _ He Hcm) as Hm1.
    pose proof (read_mapping _ _ _ Hd E) as Hr. unfold refreshed, with_own. cbv zeta.
    change (has_default_impu (set_expiry m (_ttl irs + store_time (interfered x)))
              (_default_impu irs)) with (has_default_impu m (_default_impu irs)).
    destruct (has_default_impu m _); split_and!; try done; by eapply held_made.
  - change (status_eqb Store.NOT_FOUND Store.OK) with false. unfold bind, time_int, ret.
    cbn [store_time contended_ops world after_op]. rewrite Ha.
    split_and!; try done. by apply held_new.
Qed.

Definition written_at_once (k : string) (w0 w1 w2 : W) : Prop :=
  evolves w0 w1 /\ during w1 /\
  exists c e, t1 < e /\
    mapping_written w1 w2 s k (Some (mkImpiMapping k c e (with_own (stored_mapping w1 s k)))).

Lemma refresh_attempt k st x :
  contended_ok x ->
  exists st' x', refresh_impi_mapping (W := contended) irs s k st x = Done st' x' /\
    contended_ok x' /\ evolves (world x) (world x') /\
    schedule x' = tail (tail (schedule x)) /\
    ((st' = Store.OK /\ exists w, written_at_once k (world x) w (world x')) \/
     (st' = Store.DATA_CONTENTION /\ (2 <= length (schedule x))%nat)).
Proof.
  intros Hok. destruct (refresh_attempt_form k st x Hok) as (-> & Hh & Hx & Hl & Hc).
  destruct (interfered_ok x Hok) as (Hd1 & He1 & Hs1).
  set (w1 := interfered x) in *. set (m := refreshed k _ _) in *.
  pose proof (after_op_ok x w1 Hok Hd1) as Hok1.
  destruct (interfered_ok _ Hok1) as (Hd2 & He2 & Hs2).
  pose proof (held_stable _ k m _ _ He2 Hh) as Hh2.
  set (w2 := interfered (after_op x w1)) in *.
  assert (Hset : exists st' w', set_impi_mapping s m w2 = Done st' w').
  { destruct Hh2 as (Hk & Hcm & Hcas & Hz & Hm2).
    destruct (Z.eq_dec (mapping_cas m) (current_mapping_cas w2 s (impi m))) as [Ec|Ec].
    - destruct (set_mapping_hit w2 s m (proj1 Hd2) Hcm) as (w' & c & E & _); [|done|by eauto].
      rewrite (during_int _ Hd2), Hx. pose proof (window_short Hwindow).
      destruct Hd1 as [_ Ht1], Hd2 as [_ Ht2]. lia.
    - rewrite set_mapping_miss by (done || apply Hd2). by eauto. }
  destruct Hset as (st' & w' & Es).
  destruct (set_mapping_op _ k m w2 st' w' Hd2 Hh2 Es) as (Hd' & He' & _ & _ & Hr).
  exists st', (after_op (after_op x w1) w'). split; [by apply contend_done|].
  split; [by apply after_op_ok|].
  split; [by eapply evolves_trans; [|eapply evolves_trans]|]. split; [done|].
  destruct Hr as [(-> & Ec & c & Hw)|(-> & Ec & ->)].
  - left. split; [done|]. exists w2. split; [by eapply evolves_trans|]. split; [done|].
    exists c, (_expiry m). split.
    { rewrite Hx. pose proof (window_short Hwindow). destruct Hd1. lia. }
    replace (with_own (stored_mapping w2 s k)) with (_default_impus m); [done|].
    rewrite Hl. f_equal. rewrite Hc in Ec. unfold current_mapping_cas in Ec.
    destruct (stored_mapping w1 s k) as [m1|] eqn:E1, (stored_mapping w2 s k) as [m2|] eqn:E2; try done.
    + destruct (was_read_stable k m1 _ _ He2 (read_mapping _ _ _ Hd1 E1)) as (_ & _ & _ & _ & Hsame).
      f_equal. symmetry. by apply Hsame.
    + by destruct (stored_mapping_key _ _ _ _ E1).
    + by destruct (stored_mapping_key _ _ _ _ E2).
  - right. split; [done|]. destruct (le_lt_dec 2 (length (schedule x))) as [|Hlt]; [done|].
    exfalso. apply Ec. unfold w2. rewrite interfered_after by lia. done.
Qed.

(** ** A write with a CAS value of a mapping that is gone *)

Definition stale (k : string) (m : ImpiMapping) (y : contended) : Prop :=
  contended_ok y /\ stored_mapping (interfered y) s k = None /\ tail (schedule y) = [] /\
  impi m = k /\ mapping_cas m <> 0 /\ can_map m.

Lemma stale_again k st y :
  stale k (snd st) y ->
  exists st' y', add_impi_mapping (W := contended) irs s k st y = Done st' y' /\
    contention (fst st') = true /\ stale k (snd st') y'.
Proof.
  intros (Hok & Hgone & Hsch & Hk & Hcas & Hcm). destruct (interfered_ok y Hok) as (Hd & _ & _).
  set (w := interfered y) in *. pose proof (after_op_ok y w Hok Hd) as Hok1.
  assert (E1 : interfered (after_op y w) = w) by (unfold interfered; simpl; by rewrite Hsch).
  assert (Hset : set_impi_mapping (W := contended) s (snd st) y =
                 Done Store.DATA_CONTENTION (after_op y w)).
  { apply contend_done. fold w. apply set_mapping_miss; [apply Hd|done|].
    unfold current_mapping_cas. by rewrite Hk, Hgone. }
  assert (Hget : get_impi_mapping (W := contended) s k (after_op y w) =
                 Done (Store.NOT_FOUND, None) (after_op (after_op y w) w)).
  { apply contend_done. rewrite E1. rewrite get_mapping_law by apply Hd. by rewrite Hgone. }
  exists (Store.DATA_CONTENTION, snd st), (after_op (after_op y w) w). split; [|split; [done|]].
  - unfold add_impi_mapping. rewrite (bind_done _ _ _ _ _ Hset). cbv beta.
    change (contention Store.DATA_CONTENTION) with true. cbv iota.
    by rewrite (bind_done _ _ _ _ _ Hget).
  - split; [by apply after_op_ok|]. split; [unfold interfered; simpl; by rewrite Hsch|].
    split; [simpl; by rewrite Hsch|]. done.
Qed.

Lemma mapping_log_impus l :
  mapping_log l ->
  forall w w', (w, w') ∈ l -> forall s' k, stored_impu w' s' k = stored_impu w s' k.
Proof.
  induction 1 as [|w1 w1' l Ho _ IH|w0 w1 w1' l Hdel _ IH]; intros w w' Hin.
  - by apply not_elem_of_nil in Hin.
  - apply elem_of_cons in Hin as [[= -> ->]|Hin]; [|by apply IH].
    destruct Ho as [-> |p k m _ (_ & _ & Hi & _) _]; [done|exact Hi].
  - apply elem_of_cons in Hin as [[= -> ->]|Hin]; [done|].
    apply elem_of_cons in Hin as [[= -> ->]|Hin]; [|by apply IH].
    destruct Hdel as [k m _ _ _ _ (_ & _ & Hi & _)]. exact Hi.
Qed.

(** ** Properties *)

(** C7: Whatever the other nodes write in between, and however often conflicts make it
    retry, an operation by which this node updates its IMPI mappings consists of
    reads, refused writes and writes of single mappings: one of an identity that is
    kept, which then has this node's IMPU, or one of an identity that is removed,
    where it was and then is not; the IMPUs of others are the same after such a
    write as in the mapping of that very moment.  A mapping is deleted only for an
    identity that is removed and right after a read that found this node's IMPU in
    it and no other.  No IMPU record changes. *)
Theorem mapping_writes_keep_others fuel st x x' :
  contended_ok x ->
  update_irs_impi_mappings (W := contended) fuel irs s x = Done st x' ->
  exists l, own x' = own x ++ l /\ mapping_log l /\
    forall w w', (w, w') ∈ l -> forall s' k, stored_impu w' s' k = stored_impu w s' k.
Proof.
  intros Hok E. destruct (keep_update fuel x st x' Hok I E) as (_ & _ & _ & l & Hl & HG).
  exists l. split; [done|]. split; [done|]. by apply mapping_log_impus.
Qed.

(** C19: Refreshing a mapping is atomic and ends: if the others interfere at most [n]
    times, more than [n / 2] iterations are enough, and the loop then has done one
    write, at a moment between the others' operations, that gives the mapping of
    that moment a new expiry and this node's IMPU (once) and nothing else. *)
Theorem refresh_is_atomic fuel k x :
  contended_ok x -> (length (schedule x) < 2 * fuel)%nat ->
  exists w x', do_while fuel (refresh_impi_mapping (W := contended) irs s k) contention Store.OK x =
      Done Store.OK x' /\ contended_ok x' /\ written_at_once k (world x) w (world x').
Proof.
  generalize Store.OK at 1. revert x. induction fuel as [|n IH]; intros x st Hok Hn; [lia|].
  destruct (refresh_attempt k st x Hok) as (st' & x1 & E & Hok1 & He1 & Hs1 & Hr).
  destruct Hr as [[-> (w & Hw)]|[-> Hlen]].
  - exists w, x1. split; [by apply do_while_once|done].
  - rewrite (do_while_again _ _ _ _ _ _ _ E eq_refl).
    destruct (IH x1 Store.DATA_CONTENTION Hok1) as (w & x' & E' & Hok' & Hw & Hd & Hc).
    { rewrite Hs1. destruct (schedule x) as [|f [|g l]]; simpl in *; lia. }
    exists w, x'. split; [done|]. split; [done|]. split; [by eapply evolves_trans|done].
Qed.

(** Removing an identity can lose another node's registration: when the mapping
    that was read held only this node's IMPU it is deleted without a CAS check, so
    what others add to it between the read and the deletion is gone, although the
    removal reports success. *)
Theorem remove_loses_addition fuel k x m m2 :
  contended_ok x -> (1 <= fuel)%nat ->
  let w1 := interfered x in
  let w2 := interfered (after_op x w1) in
  stored_mapping w1 s k = Some m -> _default_impus m = [_default_impu irs] ->
  stored_mapping w2 s k = Some m2 ->
  exists x', do_while fuel (remove_impi_mapping (W := contended) irs s k) contention Store.OK x =
      Done Store.OK x' /\
    stored_mapping (world x') s k = None /\
    own x' = own x ++ [(w1, w1); (w2, world x')].
Proof.
  intros Hok Hf w1 w2 Hm Hone Hm2. destruct fuel as [|n]; [lia|].
  destruct (interfered_ok x Hok) as (Hd1 & _ & _). fold w1 in Hd1.
  destruct (interfered_ok _ (after_op_ok x w1 Hok Hd1)) as (Hd2 & _ & _). fold w2 in Hd2.
  assert (Hget : get_impi_mapping (W := contended) s k x =
                 Done (Store.OK, Some m) (after_op x w1)).
  { apply contend_done. fold w1. rewrite get_mapping_law by apply Hd1. by rewrite Hm. }
  destruct (stored_mapping_key _ _ _ _ Hm) as [Hk _].
  destruct (delete_mapping_law w2 s (remove_default_impu m (_default_impu irs)) (proj1 Hd2))
    as (w3 & Ed & _ & _ & _ & Hw3).
  exists (after_op (after_op x w1) w3). split.
  - apply do_while_once; [|done]. unfold remove_impi_mapping.
    rewrite (bind_done _ _ _ _ _ Hget), status_eqb_refl. unfold deref, ret, bind at 1.
    unfold has_default_impu. rewrite Hone. cbn [in_vector existsb]. rewrite String.eqb_refl.
    assert (He : is_empty (remove_default_impu m (_default_impu irs)) = true).
    { unfold is_empty, remove_default_impu. simpl. rewrite Hone. simpl. by rewrite String.eqb_refl. }
    cbv zeta. rewrite He. by apply contend_done.
  - simpl. rewrite <- app_assoc. split; [|done]. rewrite Hw3.
    change (impi (remove_default_impu m (_default_impu irs))) with (impi m).
    by rewrite Hk, same_key_refl.
Qed.

(** Adding a mapping need not end: three interferences are enough (a mapping
    appears, stays until it has been read, and is gone before it is written
    back).  The loop then keeps a mapping whose CAS value no store has, and nobody
    needs to interfere again. *)
Theorem add_mapping_loops_forever fuel k x f0 f1 f2 m m' e :
  contended_ok x -> schedule x = [f0; f1; f2] -> t1 < e ->
  can_map (new_ImpiMapping k (_default_impu irs) e) ->
  stored_mapping (f0 (world x)) s k = Some m ->
  stored_mapping (f1 (f0 (world x))) s k = Some m' ->
  has_default_impu m' (_default_impu irs) = false ->
  stored_mapping (f2 (f1 (f0 (world x)))) s k = None ->
  do_while fuel (add_impi_mapping (W := contended) irs s k) (fun st => contention (fst st))
    (Store.OK, new_ImpiMapping k (_default_impu irs) e) x = OutOfFuel.
Proof.
  intros Hok Hsch He Hc Hm Hm' Hno Hgone. destruct fuel as [|n]; [done|].
  destruct (interfered_ok x Hok) as (Hd0 & _ & _).
  assert (E0 : interfered x = f0 (world x)) by (unfold interfered; by rewrite Hsch).
  rewrite E0 in Hd0. pose proof (after_op_ok x _ Hok Hd0) as Hok0.
  destruct (interfered_ok _ Hok0) as (Hd1 & _ & _).
  assert (E1 : interfered (after_op x (f0 (world x))) = f1 (f0 (world x)))
    by (unfold interfered; simpl; by rewrite Hsch).
  rewrite E1 in Hd1. set (w0 := f0 (world x)) in *. set (w1 := f1 w0) in *.
  assert (Hset : set_impi_mapping (W := contended) s (new_ImpiMapping k (_default_impu irs) e) x =
                 Done Store.DATA_CONTENTION (after_op x w0)).
  { apply contend_done. rewrite E0. apply set_mapping_miss; [apply Hd0|done|].
    unfold current_mapping_cas. simpl. rewrite Hm.
    by destruct (stored_mapping_key _ _ _ _ Hm) as [_ ?%not_eq_sym]. }
  assert (Hget : get_impi_mapping (W := contended) s k (after_op x w0) =
                 Done (Store.OK, Some m') (after_op (after_op x w0) w1)).
  { apply contend_done. rewrite E1. rewrite get_mapping_law by apply Hd1. by rewrite Hm'. }
  destruct (expiry_in_window w1 (after_op (after_op x w0) w1) Hd1) as (Ea & He1 & Hc1).
  set (e1 := _ttl irs + store_time w1) in *.
  destruct (read_mapping _ _ _ Hd1 Hm') as (Hk & Hcm & Hcas & _).
  set (m1 := add_default_impu (set_expiry m' e1) (_default_impu irs)).
  rewrite do_while_again with (a' := (Store.DATA_CONTENTION, m1)) (w' := after_op (after_op x w0) w1).
  3: done.
  2:{ unfold add_impi_mapping. cbn [snd]. rewrite (bind_done _ _ _ _ _ Hset). cbv beta.
    change (contention Store.DATA_CONTENTION) with true. cbv iota.
      rewrite (bind_done _ _ _ _ _ Hget), status_eqb_refl. unfold deref, ret, bind, time_int.
      cbn [store_time contended_ops world after_op]. rewrite Ea. cbv zeta.
      change (has_default_impu (set_expiry m' e1) (_default_impu irs)) with
        (has_default_impu m' (_default_impu irs)). by rewrite Hno. }
  apply (do_while_diverges _ _ (fun st y => stale k (snd st) y)); [by apply stale_again|].
  split; [by apply after_op_ok; [rewrite <- E1 in Hd1|]|].
  split; [unfold interfered; simpl; by rewrite Hsch|]. split; [simpl; by rewrite Hsch|].
  split; [done|]. split; [done|]. by apply can_map_add.
Qed.
End contention.

(** ** Other nodes

    What another node does to the stores is interference of the kind the
    theorems allow. *)

Section other_nodes.
Context {W : Type} `{FreshRecords W} (t0 t1 : Z).

Definition other_refresh (irs : Irs) (s : nat) (k : string) (w : W) : W :=
  match refresh_impi_mapping (W := contended) irs s k Store.OK (mkContended w [] []) with
  | Done _ x' => world x'
  | _ => w
  end.

Lemma others_refresh irs s k : writable_during t0 t1 irs -> others t0 t1 (other_refresh irs s k).
Proof.
  intros Hw w Hd. unfold other_refresh.
  destruct (refresh_attempt t0 t1 irs s Hw k Store.OK (mkContended w [] []))
    as (st & x' & -> & Hok & He & _); [by split|]. split; [apply Hok|done].
Qed.

Definition other_delete (m : ImpiMapping) (s : nat) (w : W) : W :=
  match delete_impi_mapping s m w with Done _ w' => w' | _ => w end.

Lemma others_delete m s : others t0 t1 (other_delete m s).
Proof.
  intros w [Hw Ht]. unfold other_delete.
  destruct (delete_mapping_law w s m Hw) as (w' & E & Hs & Et & _). rewrite E.
  split; [split; [done|by rewrite Et]|]. by eapply delete_mapping_fresh.
Qed.

Lemma others_id : others t0 t1 (fun w => w).
Proof. intros w Hd. split; [done|apply evolves_refl]. Qed.

Lemma window_of_one irs w :
  writable irs w -> t0 = store_time w -> t1 = store_time w -> writable_during t0 t1 irs.
Proof.
  intros Hw -> ->. pose proof (writable_ttl _ _ Hw). split; [|lia].
  intros w' Ht. apply (writable_at irs w); [lia|done].
Qed.
End other_nodes.

(** ** Witnesses *)

Definition other_irs : Irs :=
  irs_of_impu (mkImpuBase "sip:e@f" 3 1000 (Some 0%nat)) sample_data 500.

Lemma other_writable : writable other_irs (Mem.empty_at 500).
Proof.
  assert (Ht : _ttl other_irs = 500) by (vm_compute; reflexivity).
  split; rewrite ?Ht; try (simpl; lia).
  - intros s a. split; [reflexivity|]. split; [unfold int64_range; simpl; lia|].
    split; [vm_compute; reflexivity|]. eexists _, _. split; vm_compute; reflexivity.
  - intros c s. split; [reflexivity|]. split; [unfold int64_range; simpl; lia|].
    split; [vm_compute; reflexivity|]. eexists _, _. split; vm_compute; reflexivity.
  - intros p. split; [reflexivity|unfold int64_range; simpl; lia].
Qed.

(** Both nodes in the second 500. *)
Definition in_500 (irs : Irs) : Prop := writable_during (W := Mem.mem) 500 500 irs.

Lemma nodes_in_500 : in_500 sample_irs /\ in_500 stored_irs /\ in_500 other_irs.
Proof.
  split; [|split]; apply (window_of_one 500 500 _ (Mem.empty_at 500)); try reflexivity.
  - apply sample_writable.
  - apply stored_writable.
  - apply other_writable.
Qed.

Definition add_other : Mem.mem -> Mem.mem := other_refresh other_irs 0 "a@b".
Definition remove_all : Mem.mem -> Mem.mem := other_delete (new_ImpiMapping "a@b" "" 0) 0.

Definition start_500 (schedule : list (Mem.mem -> Mem.mem)) : contended :=
  mkContended (Mem.empty_at 500) schedule [].

Lemma start_ok l :
  Forall (fun f => f = add_other \/ f = remove_all \/ f = fun w => w) l ->
  contended_ok 500 500 (start_500 l).
Proof.
  intros Hl. split; [split; [apply empty_sound|simpl; lia]|]. eapply list.Forall_impl; [exact Hl|].
  intros f [-> | [-> | ->]];
    [apply others_refresh, nodes_in_500|apply others_delete|apply others_id].
Qed.

Ltac schedule_ok :=
  apply start_ok; repeat (apply list.Forall_cons; split; [auto 6|]); apply list.Forall_nil; exact I.

Lemma mapping_writes_keep_others_witness :
  exists st x', update_irs_impi_mappings 3 sample_irs 0 (start_500 [add_other]) = Done st x' /\
    exists l, own x' = [] ++ l /\ mapping_log sample_irs 0 l.
Proof.
  assert (E : exists st x', update_irs_impi_mappings 3 sample_irs 0 (start_500 [add_other]) = Done st x')
    by (eexists _, _; vm_compute; reflexivity).
  destruct E as (st & x' & E). exists st, x'. split; [exact E|].
  destruct (mapping_writes_keep_others 500 500 sample_irs 0 (proj1 nodes_in_500) 3 st
    (start_500 [add_other]) x') as (l & Hl & HL & _); [schedule_ok|exact E|].
  exists l. split; [exact Hl|exact HL].
Defined.

Lemma refresh_is_atomic_witness :
  exists w x', do_while 2 (refresh_impi_mapping stored_irs 0 "a@b") contention Store.OK
      (start_500 [fun w => w; add_other]) = Done Store.OK x' /\
    contended_ok 500 500 x' /\ written_at_once 500 500 stored_irs 0 "a@b" (Mem.empty_at 500) w (world x').
Proof.
  apply (refresh_is_atomic 500 500 stored_irs 0 (proj1 (proj2 nodes_in_500)) 2 "a@b"
           (start_500 [fun w => w; add_other])); [|simpl; lia].
  schedule_ok.
Defined.

Lemma add_mapping_loops_forever_witness :
  do_while 1000 (add_impi_mapping sample_irs 0 "a@b") (fun st => contention (fst st))
    (Store.OK, new_ImpiMapping "a@b" (_default_impu sample_irs) 1100)
    (start_500 [add_other; fun w => w; remove_all]) = OutOfFuel.
Proof.
  assert (Em : exists m, stored_mapping (add_other (Mem.empty_at 500)) 0 "a@b" = Some m /\
    has_default_impu m (_default_impu sample_irs) = false)
    by (eexists; split; vm_compute; reflexivity).
  destruct Em as (m & Em & Eh).
  apply (add_mapping_loops_forever 500 500 sample_irs 0 (proj1 nodes_in_500) 1000 "a@b"
           (start_500 [add_other; fun w => w; remove_all]) add_other (fun w => w) remove_all m m 1100);
    [schedule_ok|reflexivity|lia| |exact Em|exact Em|exact Eh|].
  - split; [reflexivity|unfold int64_range; simpl; lia].
  - vm_compute. reflexivity.
Defined.

Definition own_mapping_stored : contended :=
  start_500 [other_refresh stored_irs 0 "a@b"; add_other].

Lemma remove_loses_addition_witness :
  exists m2, stored_mapping (add_other (other_refresh stored_irs 0 "a@b" (Mem.empty_at 500))) 0 "a@b" = Some m2 /\
  _default_impus m2 = ["sip:a@b"; "sip:e@f"]%string /\
  exists x', do_while 1 (remove_impi_mapping stored_irs 0 "a@b") contention Store.OK
      own_mapping_stored = Done Store.OK x' /\
    stored_mapping (world x') 0 "a@b" = None.
Proof.
  assert (Em : exists m, stored_mapping (interfered own_mapping_stored) 0 "a@b" = Some m /\
    _default_impus m = [_default_impu stored_irs]) by (eexists; split; vm_compute; reflexivity).
  destruct Em as (m & Em & Ei). eexists. split; [vm_compute; reflexivity|]. split; [reflexivity|].
  destruct (remove_loses_addition 500 500 stored_irs 0 1 "a@b" own_mapping_stored m
    (mkImpiMapping "a@b" 2 1000 ["sip:a@b"; "sip:e@f"]%string)) as (x' & E & Hn & _);
    [|lia|exact Em|exact Ei|vm_compute; reflexivity|exists x'; split; [exact E|exact Hn]].
  split; [split; [apply empty_sound|simpl; lia]|].
  repeat (apply list.Forall_cons; split; [apply others_refresh, nodes_in_500|]).
  by apply list.Forall_nil.
Defined.
