(* ===== verification/ContendedImpu.v ===== *)
(** * Updating a default record while other nodes write

    [perform_irs_impu_action] of [src/memcached_cache.cpp] for an update, in the
    contended world of [Interference]: a registration set is merged with what the
    store holds each time its write meets a conflict.  The merge of [Irs] is
    studied for the whole sequence of records a write may meet. *)

From Stdlib Require Import String ZArith Lia.
From stdpp Require Import base list strings option.
From S2P Require Import Prelude StdMap Types Env Concrete ImpuStore XmlUtils Irs MemcachedCache CacheReads CacheWrites Interference.
Open Scope Z_scope.

(** ** Merging with one record after another *)

Definition merge_all (data : Data) (lists : list (list string)) : Data :=
  fold_left merge_data_sets lists data.

Lemma merge_all_app data l1 l2 : merge_all data (l1 ++ l2) = merge_all (merge_all data l1) l2.
Proof. apply fold_left_app. Qed.

Lemma merge_all_ok data lists : map_ok data -> map_ok (merge_all data lists).
Proof.
  revert data. induction lists as [|l lists IH]; intros data Hd; [done|].
  apply IH. by apply merge_data_sets_ok.
Qed.

(** What this node added or deleted stays so. *)
Lemma merge_all_own data lists k s :
  s <> State.UNCHANGED -> map_find data k = Some s -> map_find (merge_all data lists) k = Some s.
Proof.
  intros Hs. revert data. induction lists as [|l lists IH]; intros data Hd; [done|].
  apply IH. rewrite merge_data_sets_find, Hd. by destruct s.
Qed.

(** An identity that is there unchanged lasts as long as every record has it. *)
Lemma merge_all_unchanged data lists k :
  map_find data k = Some State.UNCHANGED ->
  map_find (merge_all data lists) k =
    Some (if forallb (in_vector k) lists then State.UNCHANGED else State.DELETED).
Proof.
  revert data. induction lists as [|l lists IH]; intros data Hd; [done|]. cbn [forallb].
  change (merge_all data (l :: lists)) with (merge_all (merge_data_sets data l) lists).
  destruct (in_vector k l) eqn:E; simpl.
  - apply IH. by rewrite merge_data_sets_find, Hd, E.
  - apply merge_all_own; [done|]. by rewrite merge_data_sets_find, Hd, E.
Qed.

(** The identities a set keeps through a sequence of merges. *)
Fixpoint kept_from_first (k : string) (lists : list (list string)) : bool :=
  match lists with
  | [] => false
  | l :: lists => if in_vector k l then forallb (in_vector k) lists else kept_from_first k lists
  end.

Lemma merge_all_new data lists k :
  map_find data k = None ->
  map_find (merge_all data lists) k =
    if kept_from_first k lists then Some State.UNCHANGED
    else if existsb (in_vector k) lists then Some State.DELETED else None.
Proof.
  revert data. induction lists as [|l lists IH]; intros data Hd; [done|].
  change (merge_all data (l :: lists)) with (merge_all (merge_data_sets data l) lists).
  cbn [kept_from_first existsb]. destruct (in_vector k l) eqn:E; simpl.
  - rewrite merge_all_unchanged by by rewrite merge_data_sets_find, Hd, E.
    by destruct (forallb _ lists).
  - apply IH. by rewrite merge_data_sets_find, Hd, E.
Qed.

Lemma kept_from_first_spec k lists :
  kept_from_first k lists = true <->
  exists l1 l2, lists = l1 ++ l2 /\ l2 <> [] /\ Forall (fun l => k ∉ l) l1 /\ Forall (fun l => k ∈ l) l2.
Proof.
  induction lists as [|l lists IH]; simpl.
  { split; [done|]. by intros ([|] & [|] & E & H & _). }
  destruct (in_vector k l) eqn:E.
  - rewrite forallb_forall. apply in_vector_spec in E. split.
    + intros Hl. exists [], (l :: lists). do 3 (split; [done|]). constructor; [done|].
      apply list.Forall_forall. intros l' Hl'%list_elem_of_In. by apply in_vector_spec, Hl.
    + intros ([|l' l1] & l2 & El & Hne & Hl1 & Hl2).
      * simpl in El. subst l2. apply list.Forall_cons in Hl2 as [_ Hl2].
        rewrite list.Forall_forall in Hl2. intros l' Hl'%list_elem_of_In. by apply in_vector_spec, Hl2.
      * injection El as -> ->. by apply list.Forall_cons in Hl1 as [Hl1 _].
  - rewrite IH. apply in_vector_false in E. split.
    + intros (l1 & l2 & -> & Hne & Hl1 & Hl2). exists (l :: l1), l2. split; [done|].
      split; [done|]. split; [by constructor|done].
    + intros ([|l' l1] & l2 & El & Hne & Hl1 & Hl2).
      * simpl in El. subst l2. by apply list.Forall_cons in Hl2 as [Hl2 _].
      * injection El as -> ->. apply list.Forall_cons in Hl1 as [_ Hl1]. by exists l1, l2.
Qed.

(** The time is all a merge sees of the world, and the expiry of the record. *)
Lemma update_from_same {V V'} `{ImpuStoreOps V} `{ImpuStoreOps V'} i b b' d (v : V) (v' : V') j :
  store_time v = store_time v' -> expiry b = expiry b' ->
  update_from_impu_from_store i b d v = Done j v -> update_from_impu_from_store i b' d v' = Done j v'.
Proof.
  intros Ht Hb. unfold update_from_impu_from_store.
  cbn [_refreshed]. destruct (_refreshed i); [by intros [= <-]|].
  unfold bind, time_int, ret. rewrite Ht, Hb.
  by intros [= <-].
Qed.

(** ** An update and its conflicts *)

Section update.
Context {W : Type} `{FreshRecords W} (t0 t1 : Z) (irs : Irs) (s : nat).

(** The default records others may write for this identity. *)
Context (allowed : ImpuBase -> DefaultData -> Prop).

#[local] Abbreviation during := (during t0 t1).
#[local] Abbreviation contended_ok := (contended_ok t0 t1).

(** The set after it has been merged with records, the data of which are listed. *)
Inductive merged : list DefaultData -> Irs -> Prop :=
| merged_not : merged [] irs
| merged_more rs i b d w j :
    merged rs i -> during w -> allowed b d ->
    update_from_impu_from_store i b d w = Done j w -> merged (rs ++ [d]) j.

(** The record that is made of a set. *)
Definition impu_at (i : Irs) (c now : Z) (o : option nat) : Impu :=
  DefaultImpu (mkImpuBase (_default_impu i) c (_ttl i + now) o) (impu_data i).

(** Whatever the set is merged with, its record can be stored, does not expire in
    the window, and its expiry is an [int]. *)
Record mergeable : Prop := {
  window_bounds : 0 <= t0 /\ t1 < 2 ^ 31;
  merged_expiry : forall rs i now, merged rs i -> t0 <= now <= t1 -> t1 < _ttl i + now < 2 ^ 31;
  merged_storable : forall rs i c now o,
    merged rs i -> t0 <= now <= t1 -> can_store (impu_at i c now o)
}.

Definition allowed_in (w : W) : Prop :=
  forall j, stored_impu w s (_default_impu irs) = Some j ->
    exists b d, j = DefaultImpu b d /\ allowed b d.

Definition update_ok (x : contended) : Prop :=
  contended_ok x /\ allowed_in (world x) /\
  Forall (fun f : W -> W => forall w, during w -> allowed_in w -> allowed_in (f w)) (schedule x).

Lemma interfered_allowed x : update_ok x -> allowed_in (interfered x).
Proof.
  intros ([Hd _] & Ha & Hf). unfold interfered. destruct (schedule x) as [|f l]; [done|].
  apply list.Forall_cons in Hf as [Hf _]. auto.
Qed.

Lemma after_op_update_ok x w :
  update_ok x -> during w -> allowed_in w -> update_ok (after_op x w).
Proof.
  intros (Hok & Ha & Hf) Hd Hw. split; [by apply after_op_ok|]. split; [done|].
  simpl. destruct (schedule x) as [|f l]; [done|]. by apply list.Forall_cons in Hf as [_ Hf].
Qed.

(** What merging does to the set. *)
Lemma merged_fields rs i :
  merged rs i ->
  _default_impu i = _default_impu irs /\ _refreshed i = _refreshed irs /\
  _registration_state_set i = _registration_state_set irs /\
  _impis i = merge_all (_impis irs) (map impis rs) /\
  (_refreshed irs = false ->
     _associated_impus i = merge_all (_associated_impus irs) (map associated_impus rs)) /\
  _registration_state i =
    (if _registration_state_set irs then _registration_state irs
     else default (_registration_state irs) (registration_state <$> list.last rs)).
Proof.
  induction 1 as [|rs i b d w j Hi (Ed & Er & Es & Ep & Ea & Et) _ _ Hj].
  { split_and!; try done. by destruct (_registration_state_set irs). }
  destruct (update_from_store_cases i b d w)
    as (j' & Ej & Hp & Hd & Hr & _ & _ & _ & Hu & Hst & _). rewrite Hj in Ej. injection Ej as <- .
  assert (Hset : _registration_state_set j = _registration_state_set i).
  { revert Hj. unfold update_from_impu_from_store. by destruct (_refreshed i); intros [= <-]. }
  split_and!; [congruence..| | |].
  - by rewrite map_app, merge_all_app, <- Ep.
  - intros Hf. rewrite map_app, merge_all_app, <- Ea by done. rewrite Er, Hf in Hu. apply Hu.
  - rewrite Hst, Et, Es, last_snoc. by destruct (_registration_state_set irs).
Qed.

Lemma update_from_world i b d (x : contended) :
  exists j, update_from_impu_from_store i b d x = Done j x /\
    update_from_impu_from_store i b d (world x) = Done j (world x).
Proof. unfold update_from_impu_from_store. by destruct (_refreshed i); eexists. Qed.

Hypothesis Hmerge : mergeable.

Lemma create_merged rs i c o x :
  merged rs i -> contended_ok x ->
  create_impu i c o x = Done (impu_at i c (store_time (world x)) o) x.
Proof.
  intros Hi [[_ Ht] _]. rewrite create_impu_form. cbn [store_time contended_ops].
  pose proof (merged_expiry Hmerge _ _ _ Hi Ht). destruct (window_bounds Hmerge).
  rewrite to_int32_id by (unfold int32_range; lia).
  by rewrite (proj2 (Z.leb_le _ _)), (proj2 (Z.ltb_lt _ _)) by lia.
Qed.

Lemma during_time w : during w -> to_int32 (store_time w) = store_time w.
Proof. intros [_ Ht]. destruct (window_bounds Hmerge). apply to_int32_id. unfold int32_range. lia. Qed.

(** The record a write of a merged set puts in place. *)
Definition wrote (rs : list DefaultData) (i : Irs) (w w' : W) : Prop :=
  match stored_impu w s (_default_impu irs) with
  | Some (DefaultImpu b d) =>
      list.last rs = Some d \/ rs = [] /\ _store irs = Some s /\ cas b = _cas irs
  | Some (AssociatedImpu _ _) => False
  | None => True
  end /\
  exists c c0 now o, t0 <= now <= t1 /\
    impu_written w w' s (_default_impu irs) (Some (restored (impu_at i c0 now o) c s)).

(** A write happens exactly under the CAS value of the store. *)
Lemma set_merged rs i c now o w :
  merged rs i -> during w -> t0 <= now <= t1 ->
  exists st w', set_impu s (impu_at i c now o) w = Done st w' /\ during w' /\ evolves w w' /\
    (st = Store.OK /\ c = current_cas w s (_default_impu irs) /\
       (exists c', impu_written w w' s (_default_impu irs)
          (Some (restored (impu_at i c now o) c' s))) \/
     st = Store.DATA_CONTENTION /\ c <> current_cas w s (_default_impu irs) /\ w' = w).
Proof.
  intros Hi Hd Hn. destruct (merged_fields _ _ Hi) as (Hk & _).
  pose proof (merged_storable Hmerge _ _ c now o Hi Hn) as Hst.
  pose proof (merged_expiry Hmerge _ _ _ Hi Hn) as Hx.
  assert (Eid : impu_id (impu_at i c now o) = _default_impu irs) by done.
  destruct (Z.eq_dec c (current_cas w s (_default_impu irs))) as [Ec|Ec].
  - destruct (set_impu_hit w s _ (proj1 Hd) Hst) as (w' & c' & E & _ & Hw).
    { rewrite during_time by done. cbn. destruct Hd. lia. }
    { by rewrite Eid. }
    rewrite Eid in Hw. exists Store.OK, w'. split; [done|]. split.
    { destruct Hw as (Hs & Ht & _). split; [done|]. rewrite Ht. apply Hd. }
    split; [by eapply set_impu_fresh|]. left. eauto.
  - exists Store.DATA_CONTENTION, w. split; [|split; [done|split; [apply evolves_refl|by right]]].
    apply set_impu_miss; [apply Hd|done|by rewrite Eid].
Qed.

(** A run from [x] that has changed nothing, and one that has written the set at a
    moment [w] and then ended. *)
Definition quiet (x x' : contended) : Prop :=
  evolves (world x) (world x') /\
  exists l, own x' = own x ++ l /\ Forall (fun ww : W * W => ww.2 = ww.1) l.

Definition written (rs : list DefaultData) (i : Irs) (x x' : contended) : Prop :=
  exists w l, evolves (world x) w /\ during w /\ wrote rs i w (world x') /\
    own x' = own x ++ l ++ [(w, world x')] /\ Forall (fun ww : W * W => ww.2 = ww.1) l.

Lemma quiet_written rs i x x1 x' : quiet x x1 -> written rs i x1 x' -> written rs i x x'.
Proof.
  intros (He & l1 & E1 & Hl1) (w & l & Hw & Hd & Hwr & E & Hl). exists w, (l1 ++ l).
  split; [by eapply evolves_trans|]. split; [done|]. split; [done|].
  rewrite E, E1, <- !app_assoc. split; [done|]. by apply list.Forall_app.
Qed.

Lemma quiet_op x : contended_ok x -> quiet x (after_op x (interfered x)).
Proof.
  intros Hok. destruct (interfered_ok x Hok) as (_ & Hx & _). split; [done|].
  exists [(interfered x, interfered x)]. split; [done|]. by constructor.
Qed.

(** One write: it succeeds, or the record is not the one the CAS value is of. *)
Lemma write_merged rs i c now o x :
  update_ok x -> merged rs i -> t0 <= now <= t1 ->
  let w := interfered x in
  exists st w', set_impu (W := contended) s (impu_at i c now o) x = Done st (after_op x w') /\
    (st = Store.OK /\ contended_ok (after_op x w') /\ evolves (world x) w /\ during w /\
       c = current_cas w s (_default_impu irs) /\
       (exists c', impu_written w w' s (_default_impu irs)
          (Some (restored (impu_at i c now o) c' s))) \/
     st = Store.DATA_CONTENTION /\ c <> current_cas w s (_default_impu irs) /\ w' = w /\
       update_ok (after_op x w') /\ quiet x (after_op x w')).
Proof.
  intros Hok Hi Hn w. destruct (interfered_ok x (proj1 Hok)) as (Hd & He & _).
  destruct (set_merged rs i c now o w Hi Hd Hn) as (st & w' & E & Hd' & He' & Hr).
  exists st, w'. split; [by apply contend_done|]. destruct Hr as [(-> & Ec & Hw)|(-> & Ec & ->)].
  - left. split_and!; try done. by apply after_op_ok; [apply Hok|].
  - right. do 3 (split; [done|]). split; [|apply quiet_op, Hok].
    by apply after_op_update_ok, interfered_allowed.
Qed.

(** The read of an attempt. *)
Lemma read_default x :
  update_ok x ->
  let w := interfered x in
  get_impu (W := contended) s (_default_impu irs) x =
    Done (match stored_impu w s (_default_impu irs) with
          | Some _ => Store.OK | None => Store.NOT_FOUND end,
          stored_impu w s (_default_impu irs)) (after_op x w) /\
  update_ok (after_op x w) /\ quiet x (after_op x w).
Proof.
  intros Hok w. destruct (interfered_ok x (proj1 Hok)) as (Hd & _ & _).
  split; [by apply contend_done, get_impu_stored, Hd|]. split.
  - by apply after_op_update_ok, interfered_allowed.
  - apply quiet_op, Hok.
Qed.

(** A record with the CAS value that was read is the record that was read. *)
Lemma same_record w1 w2 :
  evolves w1 w2 ->
  current_cas w1 s (_default_impu irs) = current_cas w2 s (_default_impu irs) ->
  stored_impu w2 s (_default_impu irs) = stored_impu w1 s (_default_impu irs).
Proof.
  intros [_ He] Hc. destruct (He s (_default_impu irs)) as [_ Hold]. unfold current_cas in Hc.
  destruct (stored_impu w2 s _) as [j|] eqn:E2.
  - destruct (stored_impu w1 s _) as [i|] eqn:E1.
    + symmetry. apply Hold; [done|]. rewrite <- Hc. by apply impu_stamp_bound in E1.
    + destruct (stored_key _ _ _ _ E2) as (_ & _ & Hz). congruence.
  - destruct (stored_impu w1 s _) as [i|] eqn:E1; [|done].
    destruct (stored_key _ _ _ _ E1) as (_ & _ & Hz). congruence.
Qed.

(** An iteration that reads first: the set is merged with what it has read, and
    written with the CAS value of that. *)
Lemma attempt_form rs i st x :
  update_ok x -> merged rs i ->
  let w := interfered x in
  exists rs' j o, merged rs' j /\
    match stored_impu w s (_default_impu irs) with
    | Some (DefaultImpu b d) => list.last rs' = Some d
    | Some (AssociatedImpu _ _) => False
    | None => True
    end /\
    irs_impu_attempt (W := contended) SET_IMPU s (i, None, st) x =
    bind (set_impu (W := contended) s
            (impu_at j (current_cas w s (_default_impu irs)) (store_time w) o))
      (fun status => ret (j, None, status)) (after_op x w).
Proof.
  intros Hok Hi w. destruct (read_default x Hok) as (Eg & Hok1 & _). fold w in Eg, Hok1.
  destruct (merged_fields _ _ Hi) as (Hdi & _). destruct (interfered_ok x (proj1 Hok)) as (Hd & _ & _).
  unfold irs_impu_attempt. rewrite Hdi, (bind_done _ _ _ _ _ Eg). unfold current_cas.
  destruct (stored_impu w s (_default_impu irs)) as [[b d|b a]|] eqn:E.
  - destruct (update_from_world i b d (after_op x w)) as (j & Ej & Ej').
    destruct (interfered_allowed x Hok _ E) as (b' & d' & Eq & Ha). injection Eq as <- <-.
    assert (Hj : merged (rs ++ [d]) j) by by eapply merged_more.
    exists (rs ++ [d]), j, (store b). split; [done|]. split; [apply last_snoc|].
    rewrite (bind_done _ _ _ _ _ Ej). unfold get_impu_from_impu.
    by rewrite (bind_done _ _ _ _ _ (create_merged _ _ _ _ _ Hj (proj1 Hok1))).
  - by destruct (interfered_allowed x Hok _ E) as (? & ? & ? & _).
  - exists rs, i, None. split; [done|]. split; [done|]. unfold irs_get_impu.
    by rewrite (bind_done _ _ _ _ _ (create_merged _ _ _ _ _ Hi (proj1 Hok1))).
Qed.

Lemma update_attempt rs i st x :
  update_ok x -> merged rs i ->
  exists rs' j st' x', irs_impu_attempt (W := contended) SET_IMPU s (i, None, st) x =
      Done (j, None, st') x' /\ merged rs' j /\
    (st' = Store.OK /\ contended_ok x' /\ written rs' j x x' \/
     st' = Store.DATA_CONTENTION /\ update_ok x' /\ quiet x x' /\
       schedule x' = tail (tail (schedule x)) /\ (2 <= length (schedule x))%nat).
Proof.
  intros Hok Hi. destruct (attempt_form rs i st x Hok Hi) as (rs' & j & o & Hj & Hlast & ->).
  destruct (read_default x Hok) as (_ & Hok1 & Hq1). destruct (interfered_ok x (proj1 Hok)) as (Hd1 & He1 & _).
  set (w1 := interfered x) in *. set (x1 := after_op x w1) in *.
  destruct (write_merged rs' j (current_cas w1 s (_default_impu irs)) (store_time w1) o x1 Hok1 Hj)
    as (st' & w' & Ew & Hr); [apply Hd1|].
  exists rs', j, st', (after_op x1 w'). split; [by rewrite (bind_done _ _ _ _ _ Ew)|].
  split; [done|]. destruct Hr as [(-> & Hd' & He2 & Hd2 & Ec & c & Hw)|(-> & Ec & -> & Hok2 & Hq2)].
  - left. split; [done|]. split; [done|]. apply (quiet_written _ _ _ x1); [done|].
    exists (interfered x1), []. split; [done|]. split; [done|]. split; [|done]. split.
    + rewrite (same_record w1 _ He2 Ec). destruct (stored_impu w1 s _) as [[]|]; auto.
    + exists c. do 3 eexists. split; [apply Hd1|exact Hw].
  - right. split; [done|]. split; [done|]. split; [|split; [done|]].
    + destruct Hq1 as (? & l1 & E1 & Hl1), Hq2 as (? & l2 & E2 & Hl2).
      split; [by eapply evolves_trans|]. exists (l1 ++ l2). rewrite E2, E1, app_assoc.
      split; [done|]. by apply list.Forall_app.
    + destruct (le_lt_dec 2 (length (schedule x))) as [|Hlt]; [done|].
      exfalso. apply Ec. unfold x1. by rewrite interfered_after by lia.
Qed.

Lemma updates fuel rs i st x :
  update_ok x -> merged rs i -> (length (schedule x) < 2 * fuel)%nat ->
  exists rs' j x', do_while fuel (irs_impu_attempt (W := contended) SET_IMPU s)
      (fun st => contention (snd st)) (i, None, st) x = Done (j, None, Store.OK) x' /\
    merged rs' j /\ contended_ok x' /\ written rs' j x x'.
Proof.
  revert rs i st x. induction fuel as [|n IH]; intros rs i st x Hok Hi Hn; [lia|].
  destruct (update_attempt rs i st x Hok Hi) as (rs1 & j1 & st1 & x1 & E & Hj1 & Hr).
  destruct Hr as [(-> & Hd & Hw)|(-> & Hok1 & Hq & Hs & Hlen)].
  - exists rs1, j1, x1. split; [by apply do_while_once|done].
  - destruct (IH rs1 j1 Store.DATA_CONTENTION x1 Hok1 Hj1) as (rs' & j & x' & E' & Hj & Hd & Hw).
    { rewrite Hs. destruct (schedule x) as [|? [|? ?]]; simpl in *; lia. }
    exists rs', j, x'. split; [by rewrite (do_while_again _ _ _ _ _ _ _ E eq_refl)|].
    split; [done|]. split; [done|]. by eapply quiet_written.
Qed.

Lemma update_ends fuel x :
  update_ok x -> (2 <= fuel)%nat -> (length (schedule x) + 1 < 2 * fuel)%nat ->
  exists rs i x', update_irs_impu (W := contended) fuel irs s x = Done (Store.OK, i) x' /\
    merged rs i /\ contended_ok x' /\ written rs i x x'.
Proof.
  intros Hok Hf Hn.
  unfold update_irs_impu, perform_irs_impu_action, get_impu_for_store.
  destruct (bool_decide (_store irs = Some s)) eqn:Es.
  - apply bool_decide_eq_true in Es.
    rewrite (bind_done _ _ x (Some (impu_at irs (_cas irs) (store_time (world x)) (_store irs))) x).
    2:{ by rewrite (bind_done _ _ _ _ _ (create_merged _ _ _ _ _ merged_not (proj1 Hok))). }
    destruct (write_merged [] irs (_cas irs) (store_time (world x)) (_store irs) x Hok merged_not)
      as (st & w' & Ew & Hr); [apply Hok|].
    set (first := impu_at irs (_cas irs) (store_time (world x)) (_store irs)) in *.
    assert (Ea : irs_impu_attempt (W := contended) SET_IMPU s (irs, Some first, Store.OK) x =
      Done (irs, None, st) (after_op x w')).
    { unfold irs_impu_attempt. cbn [run_action]. by rewrite (bind_done _ _ _ _ _ Ew). }
    destruct fuel as [|n]; [lia|].
    destruct Hr as [(-> & Hd' & He & Hd & Ec & c & Hw)|(-> & _ & -> & Hok1 & Hq)].
    + exists [], irs, (after_op x w').
      split; [by rewrite (bind_done _ _ _ _ _ (do_while_once _ _ _ _ _ _ _ Ea eq_refl))|].
      split; [constructor|]. split; [done|].
      exists (interfered x), []. split; [done|]. split; [done|]. split; [|done]. split.
      * destruct (stored_impu (interfered x) s (_default_impu irs)) as [[b d|b a]|] eqn:E; [|..|done].
        -- right. split; [done|]. split; [done|]. unfold current_cas in Ec. by rewrite E in Ec.
        -- by destruct (interfered_allowed x Hok _ E) as (? & ? & ? & _).
      * exists c. do 3 eexists. split; [apply (proj1 Hok)|exact Hw].
    + destruct (updates n [] irs Store.DATA_CONTENTION (after_op x (interfered x)) Hok1 merged_not)
        as (rs & j & x' & E & Hj & Hd & Hw).
      { simpl. destruct (schedule x); simpl in *; lia. }
      exists rs, j, x'. split; [|split; [done|split; [done|by eapply quiet_written]]].
      unfold bind. rewrite (do_while_again _ _ _ _ _ _ _ Ea eq_refl). by rewrite E.
  - rewrite bind_ret.
    destruct (updates fuel [] irs Store.OK x Hok merged_not) as (rs & j & x' & E & Hj & Hd & Hw); [lia|].
    exists rs, j, x'. split; [by rewrite (bind_done _ _ _ _ _ E)|done].
Qed.

(** ** Properties *)

(** C16: Updating a default record under contention ends and is atomic.  If the others
    interfere [n] times, writing only default records for this identity,
    [(n + 3) / 2] iterations are enough; the update then succeeds, and has changed
    the stores once, at a moment [w] between the others' operations, by writing
    this identity's record alone.  The record lists the private identities of the
    set merged with all records it has read on the way, of which the last one is
    the record at [w] (or none was read, and the record at [w] is the one the set
    was made from); its registration state is the one set here, or that of the
    last record read. *)
Theorem update_is_atomic fuel x :
  update_ok x -> (2 <= fuel)%nat -> (length (schedule x) + 1 < 2 * fuel)%nat ->
  exists rs i x', update_irs_impu (W := contended) fuel irs s x = Done (Store.OK, i) x' /\
    merged rs i /\ during (world x') /\ written rs i x x' /\
    impis (impu_data i) = present (merge_all (_impis irs) (map impis rs)) /\
    registration_state (impu_data i) =
      (if _registration_state_set irs then _registration_state irs
       else default (_registration_state irs) (registration_state <$> list.last rs)).
Proof.
  intros Hok Hf Hn. destruct (update_ends fuel x Hok Hf Hn) as (rs & i & x' & E & Hi & Hd & Hw).
  exists rs, i, x'. destruct (merged_fields _ _ Hi) as (_ & _ & _ & Hp & _ & Hst).
  split_and!; try done; [apply Hd|]. cbn. unfold get_associated_impis. by rewrite Hp.
Qed.
End update.

(** C34: What repeated merging keeps: an identity added here stays and one deleted here
    goes, whatever the records list; one the set was made with stays exactly when
    every record that is read lists it; and one it did not know is taken over
    exactly when all records from the first that lists it on do.  So the merge
    depends on the history: an identity that another node takes out and puts back
    while this one retries is lost, although the last record lists it. *)
Theorem merges_keep_identity data lists k :
  map_ok data ->
  k ∈ present (merge_all data lists) <->
  match map_find data k with
  | Some State.ADDED => True
  | Some State.DELETED => False
  | Some State.UNCHANGED => Forall (fun l => k ∈ l) lists
  | None => exists l1 l2, lists = l1 ++ l2 /\ l2 <> [] /\
      Forall (fun l => k ∉ l) l1 /\ Forall (fun l => k ∈ l) l2
  end.
Proof.
  intros Hd. rewrite elem_present by by apply merge_all_ok.
  destruct (map_find data k) as [[]|] eqn:E.
  - rewrite (merge_all_own _ _ _ State.ADDED ltac:(done) E). tauto.
  - rewrite (merge_all_unchanged _ _ _ E). split.
    + destruct (forallb _ lists) eqn:Ef; [|intuition congruence]. intros _.
      rewrite forallb_forall in Ef. apply list.Forall_forall. intros l Hl%list_elem_of_In.
      by apply in_vector_spec, Ef.
    + intros Hl. left. rewrite (proj2 (forallb_forall _ _)); [done|].
      rewrite list.Forall_forall in Hl. intros l Hin%list_elem_of_In. by apply in_vector_spec, Hl.
  - rewrite (merge_all_own _ _ _ State.DELETED ltac:(done) E). intuition congruence.
  - rewrite (merge_all_new _ _ _ E), <- kept_from_first_spec.
    destruct (kept_from_first k lists); [intuition|].
    destruct (existsb _ lists); intuition congruence.
Qed.

(** ** Witnesses *)

(** A set that knows [a@b] and [p@b] and adds [n@b]; another node takes [p@b] out of
    the record and puts it back. *)
Definition data_of (ps : list string) : DefaultData :=
  mkDefaultData RegistrationState.REGISTERED no_addrs [] ps sample_profile.

Definition updating_irs : Irs :=
  add_associated_impi "n@b" (irs_of_impu sample_base (data_of ["a@b"; "p@b"]%string) 500).

Definition without_p : DefaultData := data_of ["a@b"%string].
Definition with_p : DefaultData := data_of ["a@b"; "p@b"]%string.

Definition other_record (b : ImpuBase) (d : DefaultData) : Prop :=
  expiry b = 1000 /\ (d = without_p \/ d = with_p).

(** What the set can become. *)
Definition merged_at_500 (i : Irs) (d : DefaultData) : Irs :=
  match update_from_impu_from_store i sample_base d (Mem.empty_at 500) with
  | Done j _ => j
  | _ => i
  end.

Definition possible_sets : list Irs :=
  [updating_irs; merged_at_500 updating_irs without_p; merged_at_500 updating_irs with_p].

Lemma merge_at_500 i b d (w : Mem.mem) j :
  store_time w = 500 -> expiry b = 1000 -> update_from_impu_from_store i b d w = Done j w ->
  j = merged_at_500 i d.
Proof.
  intros Hw Hb Hj. unfold merged_at_500.
  rewrite (update_from_same i b sample_base d w (Mem.empty_at 500) j); [done|by rewrite Hw| |done].
  by rewrite Hb.
Qed.

Lemma merged_possible rs i :
  merged (W := Mem.mem) 500 500 updating_irs other_record rs i -> i ∈ possible_sets.
Proof.
  induction 1 as [|rs i b d w j _ IH [_ Hw] [Hb Hd] Hj]; [by left|].
  assert (Ht : store_time w = 500) by lia. apply (merge_at_500 _ _ _ _ _ Ht Hb) in Hj. subst j.
  unfold possible_sets in *. rewrite !elem_of_cons in *.
  destruct IH as [-> |[-> |[-> |[]%not_elem_of_nil]]], Hd as [-> | ->]; vm_compute; auto.
Qed.

Lemma updating_mergeable : mergeable (W := Mem.mem) 500 500 updating_irs other_record.
Proof.
  split; [lia|..].
  - intros rs i now Hi%merged_possible Hn. assert (now = 500) by lia. subst now.
    unfold possible_sets in Hi. rewrite !elem_of_cons in Hi.
    destruct Hi as [-> |[-> |[-> |[]%not_elem_of_nil]]]; vm_compute; auto.
  - intros rs i c now o Hi%merged_possible Hn. assert (now = 500) by lia. subst now.
    unfold possible_sets in Hi. rewrite !elem_of_cons in Hi.
    destruct Hi as [-> |[-> |[-> |[]%not_elem_of_nil]]]; (split; [reflexivity|];
      split; [unfold int64_range; vm_compute; split; congruence|]; split; [vm_compute; reflexivity|];
      eexists _, _; split; vm_compute; reflexivity).
Qed.

(** Another node that writes such a record. *)
Definition other_put (d : DefaultData) (w : Mem.mem) : Mem.mem :=
  match set_impu_without_cas 0 (DefaultImpu (mkImpuBase "sip:a@b" 0 1000 None) d) w with
  | Done _ w' => w'
  | _ => w
  end.

Lemma other_put_ok d w :
  d = without_p \/ d = with_p -> during 500 500 w ->
  during 500 500 (other_put d w) /\ evolves w (other_put d w) /\
  (allowed_in updating_irs 0 other_record w -> allowed_in updating_irs 0 other_record (other_put d w)).
Proof.
  intros Hd [Hw Ht]. unfold other_put.
  destruct (set_impu_without_cas_stores w 0 (DefaultImpu (mkImpuBase "sip:a@b" 0 1000 None) d) Hw)
    as (w' & c & E & Hs & Ht' & Hi & _).
  - destruct Hd as [-> | ->]; (split; [reflexivity|]; split; [unfold int64_range; simpl; lia|];
      split; [vm_compute; reflexivity|]; eexists _, _; split; vm_compute; reflexivity).
  - assert (store_time w = 500) as -> by lia. vm_compute. reflexivity.
  - rewrite E. split; [split; [done|by rewrite Ht']|]. split; [by eapply set_impu_without_cas_fresh|].
    intros _ j. rewrite Hi. change (impu_id (DefaultImpu _ d)) with (_default_impu updating_irs).
    rewrite same_key_refl. intros [= <-]. cbn. eexists _, _. split; [done|]. split; [done|].
    destruct Hd as [-> | ->]; [by left|by right].
Qed.

Definition racing : contended :=
  mkContended (Mem.empty_at 500) [other_put without_p; (fun w => w); other_put with_p] [].

Lemma racing_ok : update_ok (W := Mem.mem) 500 500 updating_irs 0 other_record racing.
Proof.
  split; [split|split].
  - split; [apply empty_sound|simpl; lia].
  - repeat (apply list.Forall_cons; split; [|]); [| | |by apply list.Forall_nil].
    + intros w Hw. destruct (other_put_ok without_p w) as (? & ? & _); [by left|done|done].
    + intros w Hw. split; [done|apply evolves_refl].
    + intros w Hw. destruct (other_put_ok with_p w) as (? & ? & _); [by right|done|done].
  - intros j Hj. discriminate Hj.
  - repeat (apply list.Forall_cons; split; [|]); [| | |by apply list.Forall_nil].
    + intros w Hw. apply other_put_ok; [by left|done].
    + done.
    + intros w Hw. apply other_put_ok; [by right|done].
Qed.

(** The race loses [p@b]: it is in the set and in the record that is overwritten, and
    not in the one that is written. *)
Lemma update_is_atomic_witness :
  exists rs i x', update_irs_impu 3 updating_irs 0 racing = Done (Store.OK, i) x' /\
    written (W := Mem.mem) 500 500 updating_irs 0 rs i racing x' /\
    impis (impu_data i) = ["a@b"; "n@b"]%string.
Proof.
  assert (Hc : match update_irs_impu 3 updating_irs 0 racing with
               | Done (_, i) _ => impis (impu_data i)
               | _ => []
               end = ["a@b"; "n@b"]%string) by (vm_compute; reflexivity).
  destruct (update_is_atomic 500 500 updating_irs 0 other_record updating_mergeable 3 racing racing_ok)
    as (rs & i & x' & E & _ & _ & Hw & _); [lia|simpl; lia|].
  exists rs, i, x'. rewrite E in Hc. split; [exact E|]. split; [exact Hw|exact Hc].
Defined.

Lemma merges_keep_identity_witness :
  "p@b"%string ∈ present (merge_all (_impis updating_irs) [impis with_p]) /\
  ~ "p@b"%string ∈ present (merge_all (_impis updating_irs) [impis without_p; impis with_p]).
Proof.
  assert (Hok : map_ok (_impis updating_irs)) by (vm_compute; repeat constructor).
  split.
  - apply (merges_keep_identity (_impis updating_irs) [impis with_p] "p@b" Hok).
    vm_compute. repeat constructor.
  - intros Hp. apply (merges_keep_identity (_impis updating_irs) [impis without_p; impis with_p]
      "p@b" Hok) in Hp.
    vm_compute in Hp. inversion Hp as [|l ls Hl _]. apply in_vector_spec in Hl. discriminate Hl.
Defined.
