(* ===== verification/ContendedWrite.v ===== *)
(** * Writing and deleting a whole registration set while other nodes write

    [put_irs_action] and [delete_irs_action] of [src/memcached_cache.cpp] in the contended world of
    [Interference]: the default record ([ContendedImpu]), the records of the
    associated identities, and the IMPI mappings ([Contention]). *)

From Stdlib Require Import String ZArith Lia.
From stdpp Require Import base list strings option.
From S2P Require Import Prelude StdMap Types Env Concrete ImpuStore XmlUtils Irs MemcachedCache CacheReads CacheWrites CacheMerges Interference Contention ContendedImpu.
Open Scope Z_scope.

(** ** The records of the associated identities *)

Section associated.
Context {W : Type} `{FreshRecords W} (t0 t1 : Z) (irs : Irs) (s : nat).

#[local] Abbreviation during := (during t0 t1).

(** The associated identities whose record a write of the set keeps or makes. *)
Definition kept_impus : list string :=
  (if _refreshed irs then impus_in State.UNCHANGED irs else []) ++ impus_in State.ADDED irs.

(** An operation on the records of associated identities reads one, or makes the
    record of one that is kept lead to this set; nothing else changes. *)
Inductive record_op (w w' : W) : Prop :=
| record_read : w' = w -> record_op w w'
| record_put k b :
    k ∈ kept_impus -> impu_written w w' s k (Some (AssociatedImpu b (_default_impu irs))) ->
    record_op w w'.

(** A record is deleted if its identity is removed and the read just before, of
    [w0], found that it led to this set. *)
Inductive record_del (w0 w w' : W) : Prop :=
| record_deleted k b :
    k ∈ impus_in State.DELETED irs ->
    stored_impu w0 s k = Some (AssociatedImpu b (_default_impu irs)) ->
    impu_written w w' s k None -> record_del w0 w w'.

Definition record_log : list (W * W) -> Prop := op_log record_op record_del.

Hypothesis Hwindow : writable_during t0 t1 irs.

#[local] Abbreviation own_only c := (guarantees t0 t1 record_log (fun _ => True) c (fun _ _ => True)).

Lemma record_log_one w w' : record_op w w' -> record_log [(w, w')].
Proof. intros Ho. by apply op_log_op; [|constructor]. Qed.

Lemma during_written w w' k v : during w -> impu_written w w' s k v -> during w'.
Proof. intros [_ Ht] (Hs' & Ht' & _). split; [done|by rewrite Ht']. Qed.

(** Nothing but the read. *)
Lemma own_nothing {A} w P (a : A) :
  guarantees t0 t1 (fun l => record_log ((w, w) :: l)) P (ret a) (fun _ _ => True).
Proof. by apply guarantees_ret_log; [apply record_log_one, record_read|]. Qed.

Lemma own_remove k st :
  k ∈ impus_in State.DELETED irs ->
  own_only (remove_associated_impu (W := contended) irs s k st).
Proof.
  intros Hk. unfold remove_associated_impu. apply guarantees_read; [done|].
  intros w0 [st0 o] w' Hd0 _. rewrite get_impu_law by apply Hd0. intros E.
  assert (E' : w' = w0 /\ o = stored_impu w0 s k).
  { destruct (stored_impu w0 s k); by injection E as <- <- <-. }
  destruct E' as [-> ->]. split; [done|]. clear E. cbv beta iota.
  destruct (stored_impu w0 s k) as [[b d|b a]|] eqn:E0; [apply own_nothing| |apply own_nothing].
  destruct (String.eqb_spec a (_default_impu irs)) as [->|_]; [|apply own_nothing].
  destruct (stored_key _ _ _ _ E0) as [Hid _].
  apply guarantees_op; [intros ? ? ? ?; by etransitivity|]. intros w r w' Hd _ E.
  pose proof (delete_impu_fresh _ _ _ _ _ E) as Hev.
  destruct (delete_impu_law w s (AssociatedImpu b (_default_impu irs)) (proj1 Hd)) as (w1 & E1 & Hw).
  rewrite E1 in E. injection E as <- <-. rewrite Hid in Hw.
  split; [by eapply during_written|]. split; [done|]. split; [|done].
  apply op_log_del; [|constructor]. by apply (record_deleted _ _ _ k b).
Qed.

Lemma own_put k u :
  k ∈ kept_impus -> own_only (put_associated_impu (W := contended) irs s k u).
Proof.
  intros Hk x a x' Hok _ E.
  unfold put_associated_impu, time64, bind at 1 in E. cbn [store_time contended_ops] in E.
  set (now := store_time (world x)) in *.
  pose proof (window_writable _ _ _ Hwindow _ (proj2 (proj1 Hok))) as Hwr.
  pose proof (window_short _ _ _ Hwindow) as Hsh. pose proof (proj2 (proj1 Hok)) as Ht. fold now in Ht.
  cut (own_only (_ <- set_impu_without_cas (W := contended) s
    (AssociatedImpu (mkImpuBase k 0 (now + _ttl irs) (Some s)) (_default_impu irs)) ;; ret u)).
  { intros Hg. exact (Hg x a x' Hok I E). }
  clear E. apply (guarantees_bind record_log) with (R := fun _ _ => True);
    [|by intros; apply (guarantees_ret record_log)].
  apply guarantees_op; [done|]. intros w st w' Hd _ E.
  destruct (set_impu_without_cas_stores w s
    (AssociatedImpu (mkImpuBase k 0 (now + _ttl irs) (Some s)) (_default_impu irs)) (proj1 Hd))
    as (w1 & c & E1 & Hw); [apply (writable_assoc _ _ Hwr)| |].
  { rewrite (during_int t0 t1 irs Hwindow w Hd). cbn. destruct Hd as [_ Hd]. lia. }
  rewrite E1 in E. injection E as <- <-.
  split; [by eapply during_written|]. split; [by eapply set_impu_without_cas_fresh|]. split; [|done].
  apply record_log_one. by eapply record_put.
Qed.

Lemma own_foreach {X S} (f : X -> S -> IO contended S) l st :
  (forall k st, k ∈ l -> own_only (f k st)) -> own_only (foreach f l st).
Proof. intros Hf. by apply (guarantees_foreach record_log (fun _ _ => True)). Qed.

Lemma own_associated fuel :
  own_only (update_irs_associated_impus (W := contended) fuel irs s).
Proof.
  unfold update_irs_associated_impus.
  apply (guarantees_bind record_log) with (R := fun _ _ => True).
  { apply own_foreach. intros k st Hk.
    apply (guarantees_do_while record_log (fun _ _ => True)). intros. by apply own_remove. }
  intros st. apply (guarantees_bind record_log) with (R := fun _ _ => True).
  { pose proof own_put as Hput. unfold kept_impus in Hput.
    destruct (_refreshed irs); [|by apply (guarantees_ret record_log)].
    apply own_foreach. intros k u Hk. apply Hput. rewrite !elem_of_app. auto. }
  intros _. apply (guarantees_bind record_log) with (R := fun _ _ => True);
    [|intros; by apply (guarantees_ret record_log)].
  apply own_foreach. intros k u Hk. apply own_put. unfold kept_impus. rewrite !elem_of_app. auto.
Qed.
End associated.

(** A deletion keeps nothing. *)
Lemma kept_impus_none j : kept_impus (delete_assoc_impus j) = [].
Proof.
  unfold kept_impus, impus_in. simpl. rewrite !delete_tracked_only by done. by destruct (_refreshed j).
Qed.

Lemma kept_impis_none j : kept_impis (delete_impis j) = [].
Proof.
  unfold kept_impis, impis_in. simpl. rewrite !delete_tracked_only by done. by destruct (_refreshed j).
Qed.

(** ** A whole write *)

Section put.
Context {W : Type} `{FreshRecords W} (t0 t1 : Z) (irs : Irs) (s : nat).
Context (allowed : ImpuBase -> DefaultData -> Prop).

#[local] Abbreviation during := (during t0 t1).
#[local] Abbreviation merged := (merged t0 t1 irs allowed).
#[local] Abbreviation written := (written t0 t1 irs s).
#[local] Abbreviation update_ok := (update_ok t0 t1 irs s allowed).

Hypothesis Hmerge : mergeable t0 t1 irs allowed.

(** Whatever the set is merged with, the records beside its default one can be
    stored too. *)
Hypothesis Hwindow : forall rs i, merged rs i -> writable_during t0 t1 i.

(** A new set: one operation, at a moment [w], puts its record in place, or leaves
    a record that another node has put there (unless the set is registered). *)
Definition created (x x' : contended) : Prop :=
  exists w, evolves (world x) w /\ during w /\ own x' = own x ++ [(w, world x')] /\
    ((exists c c0 now o, t0 <= now <= t1 /\
        impu_written w (world x') s (_default_impu irs)
          (Some (restored (impu_at irs c0 now o) c s)) /\
        (_registration_state irs = RegistrationState.REGISTERED \/
           stored_impu w s (_default_impu irs) = None)) \/
     (_registration_state irs <> RegistrationState.REGISTERED /\ world x' = w /\
        stored_impu w s (_default_impu irs) <> None)).

Lemma create_ends x :
  contended_ok t0 t1 x ->
  exists x', create_irs_impu (W := contended) irs s x = Done Store.OK x' /\
    contended_ok t0 t1 x' /\ created x x'.
Proof.
  intros Hok. destruct (interfered_ok x Hok) as (Hd & He & _). set (w := interfered x) in *.
  pose proof (merged_not t0 t1 irs allowed) as Hi.
  set (i := impu_at irs 0 (store_time (world x)) None).
  assert (Hst : can_store i) by (eapply (merged_storable _ _ _ _ Hmerge); [done|apply Hok]).
  assert (Hx : to_int32 (store_time w) < expiry (impu_base i)).
  { rewrite (during_time t0 t1 irs allowed Hmerge) by done. cbn.
    pose proof (merged_expiry _ _ _ _ Hmerge _ _ _ Hi (proj2 (proj1 Hok))). destruct Hd. lia. }
  assert (Hnew : forall c w', impu_written w w' s (impu_id i) (Some (restored i c s)) ->
    evolves w w' ->
    _registration_state irs = RegistrationState.REGISTERED \/
      stored_impu w s (_default_impu irs) = None ->
    contended_ok t0 t1 (after_op x w') /\ created x (after_op x w')).
  { intros c w' Hw Hev Hr. split.
    - apply after_op_ok; [done|]. destruct Hw as (Hs & Ht & _). split; [done|]. rewrite Ht. apply Hd.
    - exists w. split; [done|]. split; [done|]. split; [done|]. left.
      exists c, 0, (store_time (world x)), None. split; [apply Hok|]. by split. }
  unfold create_irs_impu, irs_get_impu.
  rewrite (bind_done _ _ _ _ _ (create_merged t0 t1 irs allowed Hmerge _ _ _ _ _ Hi Hok)). fold i.
  destruct (RegistrationState.eqb (_registration_state irs) RegistrationState.REGISTERED) eqn:Er.
  - destruct (set_impu_without_cas_stores w s i (proj1 Hd) Hst Hx) as (w' & c & E & Hw).
    exists (after_op x w'). split; [by apply contend_done|]. apply (Hnew c); [done| |left].
    + by eapply set_impu_without_cas_fresh.
    + by destruct (_registration_state irs).
  - destruct (stored_impu w s (_default_impu irs)) as [j|] eqn:Ej.
    + exists (after_op x w). split; [|split; [by apply after_op_ok|]].
      * rewrite (bind_done _ _ _ _ _ (contend_done _ _ _ _ (add_impu_miss w s i j (proj1 Hd) Hst Ej))).
        done.
      * exists w. split; [done|]. split; [done|]. split; [done|]. right.
        split; [|split; [done|by rewrite Ej]]. intros E. by rewrite E in Er.
    + destruct (add_impu_hit w s i (proj1 Hd) Hst Hx Ej) as (w' & c & E & Hw).
      exists (after_op x w'). split; [by rewrite (bind_done _ _ _ _ _ (contend_done _ _ _ _ E))|].
      apply (Hnew c); [done| |by right]. by eapply add_impu_fresh.
Qed.

End put.

(** The record of an associated identity is deleted without a CAS check, so a
    registration that another node writes for it between the read and the deletion
    is gone. *)
Lemma associated_removal_loses_record {W} `{FreshRecords W} t0 t1 irs s fuel k st x b b2 d2 :
  contended_ok t0 t1 x -> (1 <= fuel)%nat ->
  let w1 := interfered x in
  let w2 := interfered (after_op x w1) in
  stored_impu w1 s k = Some (AssociatedImpu b (_default_impu irs)) ->
  stored_impu w2 s k = Some (DefaultImpu b2 d2) ->
  exists x', do_while fuel (remove_associated_impu (W := contended) irs s k) contention st x =
      Done Store.OK x' /\
    stored_impu (world x') s k = None /\ own x' = own x ++ [(w1, w1); (w2, world x')].
Proof.
  intros Hok Hf w1 w2 Hr1 Hr2. destruct fuel as [|n]; [lia|].
  destruct (interfered_ok x Hok) as (Hd1 & _ & _). fold w1 in Hd1.
  destruct (interfered_ok _ (after_op_ok x w1 Hok Hd1)) as (Hd2 & _ & _). fold w2 in Hd2.
  set (i := AssociatedImpu b (_default_impu irs)) in *.
  destruct (stored_key _ _ _ _ Hr1) as [Hk _].
  destruct (delete_impu_law w2 s i (proj1 Hd2)) as (w3 & E3 & _ & _ & Hw3 & _).
  exists (after_op (after_op x w1) w3). split; [|split].
  - apply do_while_once; [|done]. unfold remove_associated_impu.
    rewrite (bind_done _ _ x (Store.OK, Some i) (after_op x w1)).
    2:{ apply contend_done. fold w1. rewrite get_impu_law by apply Hd1. by rewrite Hr1. }
    cbv beta iota. unfold i at 1. cbv iota. rewrite String.eqb_refl. by apply contend_done.
  - cbn. rewrite Hw3, Hk. by rewrite same_key_refl.
  - cbn. by rewrite <- app_assoc.
Qed.

(** ** A whole deletion *)

Section delete.
Context {W : Type} `{FreshRecords W} (t0 t1 : Z) (irs : Irs) (s : nat).

#[local] Abbreviation during := (during t0 t1).

(** The set is merged with a record only if it was not read from this store. *)
Definition deleted_from (j : Irs) : Prop :=
  j = mark_as_refreshed irs \/
  (_store irs <> Some s /\ exists b d w,
     stored_impu w s (_default_impu irs) = Some (DefaultImpu b d) /\ during w /\
     update_from_impu_from_store (mark_as_refreshed irs) b d w = Done j w).

Hypothesis Hbounds : 0 <= t0 /\ 0 < _ttl irs /\ _ttl irs + t1 < 2 ^ 31.
Hypothesis Hwindow : forall j, deleted_from j ->
  writable_during t0 t1 (delete_assoc_impus j) /\
  writable_during t0 t1 (delete_impis (delete_assoc_impus j)).

Lemma deleted_fields j :
  deleted_from j -> _ttl j = _ttl irs /\ _default_impu j = _default_impu irs /\ _refreshed j = true.
Proof.
  intros [-> |(_ & b & d & w & _ & _ & Hj)]; [done|].
  destruct (update_from_store_cases (mark_as_refreshed irs) b d w)
    as (j' & E & _ & Hd & Hr & _ & _ & _ & [Ht _] & _). rewrite Hj in E. by injection E as <-.
Qed.

Lemma create_deleted j c o x :
  deleted_from j -> contended_ok t0 t1 x ->
  exists t, create_impu (W := contended) j c o x =
    Done (DefaultImpu (mkImpuBase (_default_impu irs) c t o) (impu_data j)) x.
Proof.
  intros (Ht & Hd & _)%deleted_fields [[_ Hx] _]. exists (_ttl j + store_time (world x)).
  rewrite create_impu_form, Hd. cbn [store_time contended_ops].
  rewrite to_int32_id by (unfold int32_range; lia).
  by rewrite (proj2 (Z.leb_le _ _)), (proj2 (Z.ltb_lt _ _)) by lia.
Qed.

(** The default record is gone from the moment [w] on. *)
Definition removed (x x' : contended) : Prop :=
  exists w l, evolves (world x) w /\ during w /\
    own x' = own x ++ l ++ [(w, world x')] /\ Forall (fun ww : W * W => ww.2 = ww.1) l /\
    (impu_written w (world x') s (_default_impu irs) None \/
     (world x' = w /\ stored_impu w s (_default_impu irs) = None)).

(** The write of a deletion succeeds whatever the store holds. *)
Lemma delete_op x i :
  contended_ok t0 t1 x -> impu_id i = _default_impu irs ->
  exists w', delete_impu (W := contended) s i x = Done Store.OK (after_op x w') /\
    contended_ok t0 t1 (after_op x w') /\ removed x (after_op x w').
Proof.
  intros Hok Hi. destruct (interfered_ok x Hok) as (Hd & He & _).
  destruct (delete_impu_law (interfered x) s i (proj1 Hd)) as (w' & E & Hw). rewrite Hi in Hw.
  exists w'. split; [by apply contend_done|]. split.
  - apply after_op_ok; [done|]. destruct Hw as (Hs & Ht & _). split; [done|]. rewrite Ht. apply Hd.
  - exists (interfered x), []. split; [done|]. split; [done|]. split; [done|]. split; [done|]. by left.
Qed.

Lemma removed_after_read x x' :
  contended_ok t0 t1 x -> removed (after_op x (interfered x)) x' -> removed x x'.
Proof.
  intros Hok (w & l & He & Hd & Ho & Hl & Hw). destruct (interfered_ok x Hok) as (_ & He1 & _).
  exists w, ((interfered x, interfered x) :: l). split; [by eapply evolves_trans|]. split; [done|].
  cbn in Ho. rewrite Ho, <- app_assoc. split; [done|]. split; [by constructor|done].
Qed.

(** The write that follows a read. *)
Lemma delete_after_read x j i :
  contended_ok t0 t1 x -> deleted_from j -> impu_id i = _default_impu irs ->
  exists x', (status <- run_action (W := contended) DELETE_IMPU s i ;;
              ret (j, None : option Impu, status)) (after_op x (interfered x)) =
      Done (j, None, Store.OK) x' /\
    deleted_from j /\ contended_ok t0 t1 x' /\ removed x x'.
Proof.
  intros Hok Hj Hi. destruct (interfered_ok x Hok) as (Hd & _ & _).
  destruct (delete_op _ i (after_op_ok x _ Hok Hd) Hi) as (w' & Ew & Hok' & Hr).
  exists (after_op (after_op x (interfered x)) w'). cbn [run_action]. unfold bind. rewrite Ew.
  split; [done|]. split; [done|]. split; [done|]. by apply removed_after_read.
Qed.

(** The record this store's set was made from is deleted without a read. *)
Lemma delete_known_ends n x :
  contended_ok t0 t1 x -> _store irs = Some s ->
  exists x', delete_irs_impu (W := contended) (S n) irs s x = Done (Store.OK, mark_as_refreshed irs) x' /\
    contended_ok t0 t1 x' /\ removed x x'.
Proof.
  intros Hok Es. assert (Hm : deleted_from (mark_as_refreshed irs)) by by left.
  unfold delete_irs_impu, perform_irs_impu_action, get_impu_for_store.
  change (_store (mark_as_refreshed irs)) with (_store irs). rewrite bool_decide_eq_true_2 by done.
  destruct (create_deleted _ (_cas irs) (_store irs) x Hm Hok) as [t Et].
  set (i := DefaultImpu (mkImpuBase (_default_impu irs) (_cas irs) t (_store irs)) _) in Et.
  destruct (delete_op x i Hok eq_refl) as (w' & Ew & Hok' & Hr).
  exists (after_op x w'). split; [|done].
  unfold bind at 1 2. change (_cas (mark_as_refreshed irs)) with (_cas irs).
  rewrite Et. unfold ret at 1. cbn [do_while irs_impu_attempt run_action].
  unfold bind. by rewrite Ew.
Qed.

(** One iteration deletes the record, whatever the read finds. *)
Lemma delete_attempt_ends x :
  contended_ok t0 t1 x -> _store irs <> Some s ->
  exists j x', irs_impu_attempt (W := contended) DELETE_IMPU s
      (mark_as_refreshed irs, None, Store.OK) x = Done (j, None, Store.OK) x' /\
    deleted_from j /\ contended_ok t0 t1 x' /\ removed x x'.
Proof.
  intros Hok Es. assert (Hm : deleted_from (mark_as_refreshed irs)) by by left.
  destruct (interfered_ok x Hok) as (Hd & He & _). set (w := interfered x) in *.
  pose proof (after_op_ok x w Hok Hd) as Hok1.
  pose proof (contend_done _ x _ _ (get_impu_stored w s (_default_impu irs) (proj1 Hd))) as Hget.
  unfold irs_impu_attempt. change (_default_impu (mark_as_refreshed irs)) with (_default_impu irs).
  rewrite (bind_done _ _ _ _ _ Hget). cbv iota beta.
  destruct (stored_impu w s (_default_impu irs)) as [[b d|b a]|] eqn:E.
  - set (j := remerge (mark_as_refreshed irs) d).
    assert (Hj : deleted_from j).
    { right. split; [done|]. exists b, d, w. split; [done|]. split; [done|]. by apply update_remerge. }
    destruct (create_deleted j (cas b) (store b) (after_op x w) Hj Hok1) as [t Et].
    rewrite (bind_done _ _ _ _ _ (update_remerge (mark_as_refreshed irs) b d (after_op x w) eq_refl)). fold j.
    unfold get_impu_from_impu. cbn [impu_base]. rewrite (bind_done _ _ _ _ _ Et).
    edestruct (delete_after_read x j) as (x' & Ex & Hrest); [done|done| |exists j, x'; split; [exact Ex|exact Hrest]]; done.
  - destruct (create_deleted _ (cas b) (store b) (after_op x w) Hm Hok1) as [t Et].
    cbn [mark_as_refreshed _refreshed]. unfold get_impu_from_impu. cbn [impu_base].
    rewrite (bind_done _ _ _ _ _ Et).
    edestruct (delete_after_read x (mark_as_refreshed irs)) as (x' & Ex & Hrest); [done|done| |exists (mark_as_refreshed irs), x'; split; [exact Ex|exact Hrest]]; done.
  - exists (mark_as_refreshed irs), (after_op x w). split; [done|]. split; [done|]. split; [done|].
    exists w, []. split; [done|]. split; [done|]. split; [done|]. split; [done|]. by right.
Qed.

Lemma delete_default_ends fuel x :
  contended_ok t0 t1 x -> (1 <= fuel)%nat ->
  exists j x', delete_irs_impu (W := contended) fuel irs s x = Done (Store.OK, j) x' /\
    deleted_from j /\ contended_ok t0 t1 x' /\ removed x x'.
Proof.
  intros Hok Hf. destruct fuel as [|n]; [lia|]. destruct (decide (_store irs = Some s)) as [Es|Es].
  { destruct (delete_known_ends n x Hok Es) as (x' & E & Hrest).
    exists (mark_as_refreshed irs), x'. split; [done|]. split; [by left|done]. }
  destruct (delete_attempt_ends x Hok Es) as (j & x' & Ea & Hrest). exists j, x'. split; [|done].
  unfold delete_irs_impu, perform_irs_impu_action, get_impu_for_store.
  change (_store (mark_as_refreshed irs)) with (_store irs).
  rewrite bool_decide_eq_false_2 by done. rewrite bind_ret.
  by rewrite (bind_done _ _ _ _ _ (do_while_once _ _ _ _ _ _ _ Ea eq_refl)).
Qed.

End delete.

(** ** Witness *)

Lemma possible_writable i : i ∈ possible_sets -> writable_during (W := Mem.mem) 500 500 i.
Proof.
  intros Hi. apply (window_of_one 500 500 i (Mem.empty_at 500)); [|done..].
  unfold possible_sets in Hi. rewrite !elem_of_cons in Hi.
  destruct Hi as [-> |[-> |[-> |[]%not_elem_of_nil]]]; (split;
    [vm_compute; reflexivity|simpl; lia|vm_compute; reflexivity|..];
    intros; (split; [reflexivity|]); [split..|]; unfold int64_range;
    try (vm_compute; split; congruence); try (split; [vm_compute; reflexivity|]);
    eexists _, _; split; vm_compute; reflexivity).
Qed.


(** Another node adds its identity to the mapping of [a@b] while the set is deleted. *)
Lemma deleted_writable j :
  deleted_from (W := Mem.mem) 500 500 stored_irs 0 j ->
  writable_during (W := Mem.mem) 500 500 (delete_assoc_impus j) /\
  writable_during (W := Mem.mem) 500 500 (delete_impis (delete_assoc_impus j)).
Proof.
  intros [-> |[Hs _]]; [|by destruct Hs].
  assert (Hwr : forall i, i = delete_assoc_impus (mark_as_refreshed stored_irs) \/
      i = delete_impis (delete_assoc_impus (mark_as_refreshed stored_irs)) ->
    writable_during (W := Mem.mem) 500 500 i).
  { intros i Hi. apply (window_of_one 500 500 i (Mem.empty_at 500)); [|done..].
    destruct Hi as [-> | ->]; (split;
      [vm_compute; reflexivity|simpl; lia|vm_compute; reflexivity|..];
      intros; (split; [reflexivity|]); [split..|]; unfold int64_range;
      try (vm_compute; split; congruence); try (split; [vm_compute; reflexivity|]);
      eexists _, _; split; vm_compute; reflexivity). }
  split; apply Hwr; auto.
Qed.

