(* ===== verification/HssInterface.v ===== *)
(** * The connection to the HSS as the tasks see it

    [HssConnection] of [src/include/hss_connection.h] is a base class: the tasks
    of [src/http_handlers.cpp] send a request and are called back with an answer.
    Here it is a class of answers a connection may give, with the laws the tasks
    rely on; [DiameterHssConnection] and [HsProvHssConnection] are instances. *)

From Stdlib Require Import String ZArith Lia.
From stdpp Require Import base list strings option.
From S2P Require Import Prelude Types Env Irs HttpTasks HttpImpi CxMessages DiameterHss HsProv.
Import HssConnection.
Open Scope Z_scope.

(** Each request is answered by one call of its callback, with one of these. *)
Class HssConnectionOps (C : Type) := {
  answers_mar : C -> MultimediaAuthRequest -> MultimediaAuthAnswer -> Prop;
  answers_uar : C -> UserAuthRequest -> UserAuthAnswer -> Prop;
  answers_lir : C -> LocationInfoRequest -> LocationInfoAnswer -> Prop;
  answers_sar : C -> ServerAssignmentRequest -> ServerAssignmentAnswer -> Prop
}.

(** What a connection promises: an authentication vector of the kind its scheme
    names, when the connection and the task are configured with the same
    schemes; a wildcard with every answer that asks to use another one; and
    whether it gives such answers at all. *)
Class LawfulHssConnection (C : Type) `{HssConnectionOps C} := {
  configured_with : C -> AuthSchemes;
  knows_wildcards : C -> bool;
  vector_matches : forall c cfg r a,
    scheme_digest (configured_with c) = cfg_scheme_digest cfg ->
    scheme_akav1 (configured_with c) = cfg_scheme_akav1 cfg ->
    scheme_akav2 (configured_with c) = cfg_scheme_akav2 cfg ->
    answers_mar c r a -> av_matches cfg a;
  wildcard_given : forall c r a,
    answers_sar c r a -> saa_result a = NEW_WILDCARD ->
    knows_wildcards c = true /\ saa_wildcard_impu a <> ""%string
}.

(** ** Diameter *)

Section diameter.
Context `{DiameterStack} `{Binary}.

(** Any answer of the HSS, or none in time. *)
#[export] Instance diameter_connection : HssConnectionOps DiameterHssConnection := {|
  answers_mar := fun c _ a => exists e, a = transaction (mar_create_answer c) maa_of_rc e;
  answers_uar := fun _ _ a => exists e, a = transaction uar_create_answer uaa_of_rc e;
  answers_lir := fun _ _ a => exists e, a = transaction lir_create_answer lia_of_rc e;
  answers_sar := fun _ _ a => exists e, a = transaction sar_create_answer saa_of_rc e
|}.

Lemma sar_wildcard e :
  saa_result (transaction sar_create_answer saa_of_rc e) = NEW_WILDCARD ->
  saa_wildcard_impu (transaction sar_create_answer saa_of_rc e) <> ""%string.
Proof.
  destruct e as [rsp|]; [|done]. simpl. unfold sar_create_answer.
  destruct (experimental_result rsp) as [x v].
  repeat case_match; simpl in *; try done. intros _. by apply str_empty_false.
Qed.

#[export] Program Instance lawful_diameter_connection : LawfulHssConnection DiameterHssConnection := {|
  configured_with := schemes;
  knows_wildcards := fun _ => true
|}.
Next Obligation.
  intros c cfg r a Hd H1 H2 [e ->].
  by apply (mar_answers_match c cfg e (conj Hd (conj H1 H2))).
Qed.
Next Obligation. intros c r a [e ->] Hw. split; [done|by apply sar_wildcard]. Qed.
End diameter.

(** ** Homestead-prov *)

(** The connection's own server name, and the schemes all connections share. *)
Record HsProvHssConnection := mkHsProvHssConnection {
  _configured_server_name : string;
  prov_schemes : AuthSchemes
}.

Section hsprov.
Context `{Cassandra}.

#[export] Instance hsprov_connection : HssConnectionOps HsProvHssConnection := {|
  answers_mar := fun c r a => a = hsprov_multimedia_auth (prov_schemes c) r;
  answers_uar := fun c r a => a = hsprov_user_auth (_configured_server_name c) r;
  answers_lir := fun c r a => a = hsprov_location_info (_configured_server_name c) r;
  answers_sar := fun _ r a => a = hsprov_server_assignment r
|}.

Lemma hsprov_no_wildcard r : saa_result (hsprov_server_assignment r) <> NEW_WILDCARD.
Proof.
  unfold hsprov_server_assignment, hsprov_sar_answer.
  destruct (sar_type r); try done; destruct (get_reg_data (sar_impu r)) as [[]]; done.
Qed.

#[export] Program Instance lawful_hsprov_connection : LawfulHssConnection HsProvHssConnection := {|
  configured_with := prov_schemes;
  knows_wildcards := fun _ => false
|}.
Next Obligation.
  intros c cfg r a Hd _ _ ->. unfold hsprov_multimedia_auth, hsprov_mar_answer, av_matches.
  destruct (get_auth_vector _ _) as [[] av]; simpl; try done.
  rewrite Hd, String.eqb_refl. eauto.
Qed.
Next Obligation. intros c r a -> Hw. by apply hsprov_no_wildcard in Hw. Qed.
End hsprov.

(** ** Tasks over any connection *)

Section client.
Context `{JsonLib} `{HttpUtils} {C : Type} `{LawfulHssConnection C}.

(** A connection and a configuration with the same schemes. *)
Definition schemes_agree (c : C) (cfg : ImpiConfig) : Prop :=
  scheme_digest (configured_with c) = cfg_scheme_digest cfg /\
  scheme_akav1 (configured_with c) = cfg_scheme_akav1 cfg /\
  scheme_akav2 (configured_with c) = cfg_scheme_akav2 cfg.

(** A private-identity task over a connection answers once. *)
Lemma impi_task_over_connection server_name c k cfg req maa :
  schemes_agree c cfg -> path_id "/impi/" (path req) <> None ->
  (forall m, answers_mar c m (maa m)) ->
  exists rc, answered (impi_flow server_name k cfg req maa) rc.
Proof.
  intros (Hd & H1' & H2') Hp Hm.
  destruct (impi_task_answers_once server_name k cfg req maa Hp) as (ok & t & _ & Hf).
  { intros m. by eapply vector_matches. }
  destruct (ok && negb (str_empty (HttpImpi.impu t))); [|by eexists].
  destruct Hf as (l & -> & Hr & l' & -> & Hx & Hf). eexists. split; [exact Hr|].
  by exists (SendMAR (mkMultimediaAuthRequest (impi t) (HttpImpi.impu t)
    (server_name_or server_name (provided_server_name t)) (scheme t) (authorization t)) :: l').
Qed.
End client.

(** ** Either connection *)

Section sum.
Context {C D : Type} `{LawfulHssConnection C} `{LawfulHssConnection D}.

Definition by_cases {R} (f : C -> R) (g : D -> R) (c : C + D) : R :=
  match c with inl c => f c | inr d => g d end.

#[export] Instance sum_connection : HssConnectionOps (C + D) := {|
  answers_mar := by_cases answers_mar answers_mar;
  answers_uar := by_cases answers_uar answers_uar;
  answers_lir := by_cases answers_lir answers_lir;
  answers_sar := by_cases answers_sar answers_sar
|}.

#[export] Program Instance lawful_sum_connection : LawfulHssConnection (C + D) := {|
  configured_with := by_cases configured_with configured_with;
  knows_wildcards := by_cases knows_wildcards knows_wildcards
|}.
Next Obligation. intros [c|d] cfg r a; [apply (vector_matches c)|apply (vector_matches d)]. Qed.
Next Obligation. intros [c|d] r a; [apply (wildcard_given c)|apply (wildcard_given d)]. Qed.
End sum.
