(* ===== verification/System.v ===== *)
(** * The whole of Homestead, composed

    What [main] builds of the parts: the routes lead to tasks that find their
    identity, and the tasks run over the connection to the HSS that [main]
    configures, with the settings it derives. *)

From Stdlib Require Import String Ascii ZArith Lia.
From stdpp Require Import base list strings option.
From S2P Require Import Prelude StdMap Types Env Concrete ImpuStore XmlUtils Irs HttpTasks HttpImpi HttpRegData RegDataSystem CxMessages DiameterHss HsProv HssInterface Routes Options Startup.
Import HssConnection.
Open Scope Z_scope.

(** ** Requests and routes *)

(** How the HTTP stack splits a path: the file is what follows the last slash. *)
Definition split_path (req : Request) : Prop :=
  full_path req = path req +:+ file req /\ no_slash (file req).

Lemma path_id_short prefix p : path_id prefix p = None -> (String.length p < String.length prefix)%nat.
Proof.
  revert p. induction prefix as [|a prefix IH]; intros [|b p]; cbn [path_id String.length]; try done.
  - lia.
  - intros E. specialize (IH p E). lia.
Qed.

Lemma str_length_app a b : String.length (a +:+ b) = (String.length a + String.length b)%nat.
Proof.
  induction a as [|x a IH]; [done|].
  change (S (String.length (a +:+ b)) = S (String.length a + String.length b)). by rewrite IH.
Qed.

(** A suffix without a slash is shorter than what follows any slash. *)
Lemma no_slash_suffix p f pre rest :
  p +:+ f = pre +:+ String "/" rest -> no_slash f -> (String.length pre < String.length p)%nat.
Proof.
  revert pre. induction p as [|a p IH]; intros pre E Hf.
  - exfalso. change (f = pre +:+ String "/" rest) in E. subst f. revert Hf.
    induction pre as [|b pre IHp]; [done|].
    change (String b pre +:+ String "/" rest) with (String b (pre +:+ String "/" rest)).
    by intros [_ ?]%no_slash_cons.
  - destruct pre as [|b pre]; cbn [String.length]; [lia|]. injection E as _ E.
    specialize (IH pre E Hf). lia.
Qed.

Lemma impi_path_id req id x :
  split_path req -> full_path req = "/impi/" +:+ id +:+ String "/" x ->
  path_id "/impi/" (path req) <> None.
Proof.
  intros [E Hf] Ep Hn. rewrite E in Ep.
  assert (Hl : (String.length ("/impi/" +:+ id) < String.length (path req))%nat).
  { eapply no_slash_suffix; [|exact Hf]. rewrite Ep. reflexivity. }
  rewrite str_length_app in Hl. apply path_id_short in Hn. cbn [String.length] in *. lia.
Qed.

Definition impi_handler (k : ImpiKind) : handler :=
  match k with ImpiDigestTask => impi_digest_handler | ImpiAvTask => impi_av_handler end.

(** The handlers a stack serves are those whose path it is. *)
Lemma serving_path h path : h ∈ serving signaling_routes path -> path_of h path.
Proof.
  intros (p & Hp & Hm)%elem_of_serving. eapply pattern_shape; [|exact Hm].
  rewrite elem_of_app. by left.
Qed.

Lemma impi_route_path_id k req :
  split_path req -> impi_handler k ∈ serving signaling_routes (full_path req) ->
  path_id "/impi/" (path req) <> None.
Proof.
  intros Hs Hh%serving_path. destruct k; cbn [impi_handler path_of] in Hh.
  - destruct Hh as (id & E & _). by eapply impi_path_id.
  - destruct Hh as (id & rest & E & _). by eapply impi_path_id.
Qed.

(** ** The connection [main] configures *)

Section system.
Context `{LibraryDefaults} `{OptionUtils} `{JsonLib} `{XmlLib} `{RegDataXMLUtils} `{HttpUtils}.
Context `{DiameterStack} `{Binary} `{Cassandra}.

Definition connection_of (s : Settings) : DiameterHssConnection + HsProvHssConnection :=
  match the_hss s with
  | UseDiameter c _ => inl c
  | UseHsProv _ name => inr (mkHsProvHssConnection name (auth_schemes s))
  end.

(** Connection, tasks and configuration belong together. *)
Lemma main_consistent args h s :
  main args h = Up s ->
  schemes_agree (connection_of s) (impi_config s) /\
  knows_wildcards (connection_of s) = hss_configured (reg_data_config s) /\
  (hss_configured (reg_data_config s) = true <-> realm_manager s <> None).
Proof.
  intros (log & _ & _ & _ & Hm & _)%main_up. unfold main_with in Hm.
  destruct (parse_stores h _ _ _) as [[location remotes]|]; [|done].
  up_stages. injection Hm as <-. unfold connection_of. cbn [the_hss impi_config reg_data_config
    hss_configured realm_manager auth_schemes].
  unfold connect_hss, start_realm_manager in *.
  destruct (is_hss_configured _ _); up_stages; simplify_eq; done.
Qed.

(** ** Properties *)

(** C11: A request for an authentication vector, on any path the signaling stack
    serves with a private-identity task, gets exactly one reply, after which the
    task deletes itself, whatever answer the connection to the HSS gives that
    [main] chose: the path has an identity, and the schemes by which the task
    reads the vector are those by which the connection made it. *)
Theorem impi_requests_served args h s k req maa :
  main args h = Up s -> split_path req ->
  impi_handler k ∈ serving signaling_routes (full_path req) ->
  (forall m, answers_mar (connection_of s) m (maa m)) ->
  exists rc, answered (impi_flow (task_server_name s) k (impi_config s) req maa) rc.
Proof.
  intros Hm Hs Hh Ha. destruct (main_consistent args h s Hm) as (Hsch & _).
  apply (impi_task_over_connection _ (connection_of s)); [done|by eapply impi_route_path_id|done].
Qed.

(** C10: A registration-data request on the route of the signaling stack runs over
    the connection [main] chose as the task expects: an answer that asks for
    another wildcard brings one and comes only from an HSS; the task handles at
    most four events over homestead-prov, and over an HSS at most four and two for
    each answer that asks for another wildcard, of which there may be any number;
    and if it ends it has sent exactly one reply and deleted itself. *)
Theorem reg_data_over_connection args h s req ttl0 state0 es y :
  main args h = Up s ->
  impu_reg_data_handler ∈ serving signaling_routes (full_path req) ->
  steps (reg_data_config s) (task_server_name s) req ttl0 state0 (initial req) es y ->
  (forall saa, SarAnswer saa ∈ es -> exists r, answers_sar (connection_of s) r saa) ->
  (forall saa, SarAnswer saa ∈ es -> saa_result saa = NEW_WILDCARD ->
     hss_configured (reg_data_config s) = true /\ saa_wildcard_impu saa <> ""%string) /\
  (length es <= 4 + 2 * new_wildcards es)%nat /\
  (hss_configured (reg_data_config s) = false -> (length es <= 4)%nat) /\
  (sys_pending y = Finished -> exists rc, answered (sys_log y) rc).
Proof.
  intros Hm Hh Hs Ha. destruct (main_consistent args h s Hm) as (_ & Hk & _).
  assert (Hp : path_id "/impu/" (full_path req) <> None).
  { apply serving_path in Hh. destruct (path_of_prefix _ _ Hh) as [|[id E]]; [done|].
    cbn [handler_prefix] in E. by rewrite E. }
  assert (Hw : forall saa, SarAnswer saa ∈ es -> saa_result saa = NEW_WILDCARD ->
     hss_configured (reg_data_config s) = true /\ saa_wildcard_impu saa <> ""%string).
  { intros saa Hin Hr. destruct (Ha saa Hin) as [r Hr']. rewrite <- Hk.
    by eapply (wildcard_given (connection_of s)). }
  assert (Hr : (length es <= 4 + 2 * new_wildcards es)%nat).
  { pose proof (steps_rank _ _ _ _ _ _ _ _ Hs (initial_ok req Hp)) as Hr.
    assert (Hi : (rank (sys_pending (initial req)) <= 4)%nat)
      by (destruct (sys_pending (initial req)); simpl; lia). lia. }
  split; [exact Hw|]. split; [exact Hr|]. split.
  - intros Hno.
    assert (Hz : new_wildcards es = 0%nat).
    { unfold new_wildcards. destruct (List.filter is_new_wildcard es) as [|e l] eqn:E; [done|].
      assert (Hin : In e (List.filter is_new_wildcard es)) by (rewrite E; by left).
      apply List.filter_In in Hin as [Hin Hwc]. destruct e; try done.
      apply rc_eqb_spec in Hwc. rewrite <- list_elem_of_In in Hin.
      destruct (Hw _ Hin Hwc). congruence. }
    lia.
  - intros Hf. pose proof (reachable _ _ _ _ _ _ _ Hp Hs) as Hok. unfold phase_ok in Hok.
    by rewrite Hf in Hok.
Qed.
End system.

(** ** Witnesses *)

#[local] Instance defaults : LibraryDefaults := sample_defaults.
#[local] Instance option_utils : OptionUtils := sample_utils.

Definition sample_digest_request : Request :=
  mkRequest htp_method_GET "/impi/a@b/" "/impi/a@b/digest" "digest"
    (fun k => if String.eqb k "public_id" then "sip:a@b" else "")%string (fun _ => ""%string) "".

Lemma impi_requests_served_witness :
  exists s, main sample_args sample_host = Up s /\
  exists rc, answered (impi_flow (task_server_name s) ImpiDigestTask (impi_config s)
    sample_digest_request (fun _ => maa_of_rc SERVER_UNAVAILABLE)) rc.
Proof.
  assert (Hm : exists s, main sample_args sample_host = Up s /\
    exists c t, the_hss s = UseDiameter c t).
  { eexists. split; [vm_compute; reflexivity|]. eexists _, _. reflexivity. }
  destruct Hm as (s & Hm & c & t & Hc). exists s. split; [exact Hm|].
  apply (impi_requests_served sample_args sample_host s ImpiDigestTask sample_digest_request
           (fun _ => maa_of_rc SERVER_UNAVAILABLE) Hm).
  - split; reflexivity.
  - vm_compute. left.
  - intros m. unfold connection_of. rewrite Hc. exists on_timeout. reflexivity.
Defined.

(** Without a realm and with the host 0.0.0.0 there is no HSS. *)
Definition prov_args : list (opt * string) := (Short "d", "0.0.0.0"%string) :: sample_args.

Definition prov_registration : list reg_event :=
  [GetFailed Store.NOT_FOUND;
   SarAnswer (hsprov_server_assignment (mkServerAssignmentRequest "a@b" "sip:a@b" ""
     Cx.REGISTRATION true ""))].

Lemma reg_data_over_connection_witness :
  exists s y, main prov_args sample_host = Up s /\
  steps (reg_data_config s) (task_server_name s) (sample_put "reg" "") 0 RegistrationState.UNKNOWN
    (initial (sample_put "reg" "")) prov_registration y /\
  exists rc, answered (sys_log y) rc.
Proof.
  assert (Hm : exists s, main prov_args sample_host = Up s /\ exists c n, the_hss s = UseHsProv c n).
  { eexists. split; [vm_compute; reflexivity|]. eexists _, _. reflexivity. }
  destruct Hm as (s & Hm & c & n & Hc).
  assert (Hs : exists y, steps (reg_data_config s) (task_server_name s) (sample_put "reg" "") 0
    RegistrationState.UNKNOWN (initial (sample_put "reg" "")) prov_registration y /\
    sys_pending y = Finished).
  { clear Hc c n. vm_compute in Hm. injection Hm as <-. eexists. split.
    - econstructor; [vm_compute; discriminate|].
      econstructor; [vm_compute; exact I|]. constructor.
    - vm_compute. reflexivity. }
  destruct Hs as (y & Hs & Hf). exists s, y. split; [exact Hm|]. split; [exact Hs|].
  refine (proj2 (proj2 (proj2 (reg_data_over_connection prov_args sample_host s (sample_put "reg" "") 0
    RegistrationState.UNKNOWN prov_registration y Hm _ Hs _))) Hf).
  - vm_compute. left.
  - intros saa Hin. unfold connection_of. rewrite Hc.
    exists (mkServerAssignmentRequest "a@b" "sip:a@b" "" Cx.REGISTRATION true "").
    apply list_elem_of_In in Hin as [Hin|[Hin|[]]]; [discriminate Hin|]. injection Hin as <-.
    reflexivity.
Defined.
