(* ===== verification/HssRequests.v ===== *)
(** * Requests of the HSS, over the cache

    The two tasks of [src/diameter_handlers.cpp] put together with the cache
    processor of [src/hss_cache_processor.cpp] and a cache ([HssCache]): a task's
    request of the cache is a work item, and its completion the event the task
    continues with. *)

From Stdlib Require Import String Ascii ZArith Lia.
From stdpp Require Import base list strings option.
From S2P Require Import Prelude StdMap Types Env Concrete ImpuStore XmlUtils Irs MemcachedCache CacheProgress HssCache CacheReads CacheWrites HttpRegData RegDataSystem CacheProcessor CxMessages Sprout DiameterHandlers.
Open Scope Z_scope.

Section tasks.
Context {W : Type} {cache : HssCache W}.
Context `{JsonLib} `{XmlLib} `{RegDataXMLUtils} `{DiameterStack} `{MessageFields}.
Context (sprout : SproutRequest -> HTTPCode).

(** ** Registration termination *)

(** The deletion of the sets found, whose progress callback does nothing. *)
Definition rtr_finish (t : RtrTask) (o : list dh_action) : IO W (list dh_action) :=
  match rev o with
  | DeleteIrss irss :: _ =>
      c <- process_delete_irss irss (ret tt) ;;
      let '(_, _, o') := match c with
                         | Success _ => delete_reg_sets_success t
                         | Failure rc _ => delete_reg_sets_failure rc t
                         end in
      ret (o ++ o')
  | _ => ret o
  end.

Definition rtr_found (rtr : message) (t : RtrTask) (o : list dh_action)
    (c : completion (list Irs)) : IO W (list dh_action) :=
  let '(_, t1, o1) := match c with
                      | Success l => get_registration_sets_success sprout rtr l t
                      | Failure rc _ => get_registration_sets_failure rtr rc t
                      end in
  rtr_finish t1 (o ++ o1).

Definition rtr_over_cache (rtr : message) : IO W (list dh_action) :=
  let '(_, t, o) := rtr_run rtr new_rtr_task in
  match rev o with
  | GetIrssForImpis impis :: _ => c <- process_get_irss_for_impis impis ;; rtr_found rtr t o c
  | GetIrssForImpus impus :: _ => c <- process_get_irss_for_impus impus ;; rtr_found rtr t o c
  | _ => ret o
  end.

(** The first handler: one lookup, or an answer at once. *)
Lemma rtr_run_form rtr :
  exists t, rtr_run rtr new_rtr_task =
    (tt, t, match rtr_lookup rtr with
            | None => [SendAnswer (rta rtr false); DeleteTask]
            | Some look => [look]
            end) /\
    rtr_reason t = deregistration_reason rtr /\
    rtr_impis t = msg_impi rtr :: associated_identities rtr.
Proof.
  unfold rtr_run, rtr_lookup, rta, send_rta, delete_task, hbind, hmodify, hget, hemit, hret. simpl.
  unfold PERMANENT_TERMINATION, REMOVE_SCSCF, SERVER_CHANGE, NEW_SERVER_ASSIGNED.
  set (reason := deregistration_reason rtr).
  destruct (Z.eqb_spec reason 2) as [E2|]; [rewrite E2; simpl; by eexists|].
  destruct (Z.eqb_spec reason 1) as [E1|]; [rewrite E1; simpl; by eexists|]. simpl.
  destruct (Z.eqb_spec reason 0) as [E0|]; [rewrite E0; simpl; destruct (rtr_impus rtr); by eexists|].
  destruct (Z.eqb_spec reason 3) as [E3|]; [rewrite E3; simpl; destruct (rtr_impus rtr); by eexists|].
  destruct (rtr_impus rtr); by eexists.
Qed.

(** The second one, when sets were found. *)
Lemma rtr_success_form rtr t i l :
  rtr_lookup rtr <> None -> rtr_reason t = deregistration_reason rtr ->
  rtr_impis t = msg_impi rtr :: associated_identities rtr ->
  exists t', get_registration_sets_success sprout rtr (i :: l) t =
    (tt, t', [CallSprout (rtr_sprout_request rtr (i :: l));
              SendAnswer (rta rtr (http_eqb (sprout (rtr_sprout_request rtr (i :: l))) HTTP_OK));
              DeleteIrss (i :: l)]).
Proof.
  intros Hl Hr Hi. exists (mkRtrTask (rtr_reason t) (rtr_impis t) (rtr_public_ids t) (i :: l)).
  unfold get_registration_sets_success, rtr_sprout_request, rta, send_rta,
    call_sprout, hbind, hmodify, hget, hemit, hret. simpl. rewrite Hr, Hi.
  revert Hl. unfold rtr_lookup, PERMANENT_TERMINATION, REMOVE_SCSCF, SERVER_CHANGE, NEW_SERVER_ASSIGNED.
  set (reason := deregistration_reason rtr).
  destruct (Z.eqb_spec reason 0) as [E0|]; [rewrite E0|].
  { intros _. simpl. by destruct (http_eqb (sprout _) HTTP_OK). }
  destruct (Z.eqb_spec reason 3) as [E3|]; [rewrite E3|].
  { intros _. simpl. by destruct (http_eqb (sprout _) HTTP_OK). }
  destruct (Z.eqb_spec reason 2) as [E2|]; [rewrite E2|].
  { intros _. simpl. by destruct (http_eqb (sprout _) HTTP_OK). }
  destruct (Z.eqb_spec reason 1) as [E1|]; [rewrite E1|by intros []].
  intros _. simpl. by destruct (http_eqb (sprout _) HTTP_OK).
Qed.

(** What is found for a termination. *)
Definition rtr_read (rtr : message) : IO W (completion (list Irs)) :=
  match rtr_lookup rtr with
  | Some (GetIrssForImpus impus) => process_get_irss_for_impus impus
  | _ => process_get_irss_for_impis (msg_impi rtr :: associated_identities rtr)
  end.

Definition found_of (c : completion (list Irs)) : Store.Status + list Irs :=
  match c with Success l => inr l | Failure rc _ => inl rc end.

(** The composition, without the task's bookkeeping. *)
Lemma rtr_over_cache_form rtr :
  rtr_lookup rtr <> None -> forall w,
  rtr_over_cache rtr w =
  (c <- rtr_read rtr ;;
   match c with
   | Success ((_ :: _) as irss) =>
       _ <- process_delete_irss irss (ret tt) ;; ret (rtr_actions sprout rtr (inr irss))
   | _ => ret (rtr_actions sprout rtr (found_of c))
   end) w.
Proof.
  intros Hl w. unfold rtr_over_cache, rtr_read.
  destruct (rtr_run_form rtr) as (t & -> & Hr & Hi).
  assert (Hf : forall c w, rtr_found rtr t (match rtr_lookup rtr with
            | None => [SendAnswer (rta rtr false); DeleteTask] | Some look => [look] end) c w =
    match c with
    | Success ((_ :: _) as irss) =>
        _ <- process_delete_irss irss (ret tt) ;; ret (rtr_actions sprout rtr (inr irss))
    | _ => ret (rtr_actions sprout rtr (found_of c))
    end w).
  { clear w. intros c w. unfold rtr_found, rtr_actions.
    destruct (rtr_lookup rtr) as [look|] eqn:El; [|done].
    assert (Hlk : forall l, look <> DeleteIrss l).
    { revert El. unfold rtr_lookup. repeat case_match; intros; simplify_eq; done. }
    destruct c as [[|i l]|rc l]; cbn [found_of].
    - unfold get_registration_sets_success, send_rta, delete_task, hbind, hmodify, hget, hemit. simpl.
      unfold rta. by rewrite Hi.
    - destruct (rtr_success_form rtr t i l) as (t' & ->); [by rewrite El|done..|].
      unfold rtr_finish. cbn [app rev]. unfold bind.
      by destruct (process_delete_irss (i :: l) (ret tt) w) as [[] ?| | |].
    - unfold get_registration_sets_failure, send_rta, delete_task, hbind, hmodify, hget, hemit. simpl.
      unfold rta. by rewrite Hi. }
  destruct (rtr_lookup rtr) as [look|] eqn:El; [|done]. cbn [rev app].
  assert (Hlk : look = GetIrssForImpis (msg_impi rtr :: associated_identities rtr) \/
                exists l, look = GetIrssForImpus l).
  { revert El. unfold rtr_lookup. repeat case_match; intros; simplify_eq; eauto. }
  destruct Hlk as [-> |[l ->]]; unfold bind.
  - by destruct (process_get_irss_for_impis _ w).
  - by destruct (process_get_irss_for_impus _ w).
Qed.
End tasks.

(** ** Push profile *)

Section push.
Context {W : Type} `{LawfulHssCache W}.
Context `{JsonLib} `{XmlLib} `{RegDataXMLUtils} `{DiameterStack} `{MessageFields}.
Context (sprout : SproutRequest -> HTTPCode).

(** The write: the progress callback as often as it is called, then the completion. *)
Definition ppr_save (ppr : message) (t : PprTask) (o : list dh_action)
    : IO W (list dh_action) :=
  match rev o with
  | PutImsSubscription sub :: _ =>
      before <- get_world ;;
      c <- process_put_ims_subscription sub progress_cb ;;
      after <- get_world ;;
      let o1 := concat (replicate (progressed before after)
                          (snd (on_save_ims_sub_progress ppr t))) in
      let o2 := match c with
                | Success _ => snd (on_save_ims_sub_success t)
                | Failure rc _ => snd (on_save_ims_sub_failure ppr rc t)
                end in
      ret (o ++ o1 ++ o2)
  | _ => ret o
  end.

Definition ppr_over_cache (ppr : message) : IO W (list dh_action) :=
  let '(_, t, o) := ppr_run ppr new_ppr_task in
  match rev o with
  | GetImsSubscription impi :: _ =>
      c <- process_get_ims_subscription impi ;;
      match c with
      | Success (Some sub) =>
          let '(_, t1, o1) := on_get_ims_sub_success sprout ppr sub t in ppr_save ppr t1 (o ++ o1)
      | Success None => undefined
      | Failure rc _ => ret (o ++ snd (on_get_ims_sub_failure ppr rc t))
      end
  | _ => ret o
  end.

(** What a read of a subscription that ends means for the task. *)
Definition sub_found (c : completion (option (std_map Irs))) : Store.Status + std_map Irs :=
  match c with
  | Success (Some sub) => inr sub
  | Success None => inl Store.ERROR
  | Failure rc _ => inl rc
  end.

Lemma ppr_save_form ppr t o sub w l w' :
  rev o = PutImsSubscription sub :: tail (rev o) -> ppr_save ppr t o w = Done l w' ->
  exists c, process_put_ims_subscription sub progress_cb w = Done c w' /\
    l = o ++ [SendAnswer (ppa ppr match c with Success _ => true | Failure _ _ => false end); DeleteTask].
Proof.
  intros Ho. unfold ppr_save. rewrite Ho. intros E.
  apply bind_inv in E as (before & w1 & [= <- <-] & E).
  apply bind_inv in E as (c & w2 & Hput & E). apply bind_inv in E as (after & w3 & [= <- <-] & E).
  pose proof (work_progress (cache_put_ims_subscription sub) _ _ _ (put_subscription_called sub) Hput)
    as Hc.
  exists c. destruct c as [a|rc a]; [|destruct Hc as [_ Hc]]; rewrite Hc in E; by injection E as <- <-.
Qed.

(** The first handler of a push. *)
Lemma ppr_run_form ppr :
  exists t, ppr_run ppr new_ppr_task =
    (tt, t, if ppr_is_empty ppr then [SendAnswer (ppa ppr true); DeleteTask]
            else [GetImsSubscription (msg_impi ppr)]) /\
    ims_subscription t = get_str_from_avp USER_DATA ppr /\ new_charging t = pushed_charging ppr.
Proof.
  unfold ppr_run, ppr_is_empty, pushed_charging, send_ppa, ppa, delete_task, hbind, hmodify, hget,
    hemit. destruct (charging_addrs ppr) as [present a]. simpl.
  destruct (get_str_from_avp USER_DATA ppr), present; by eexists.
Qed.

(** The requests to Sprout of a push. *)
Definition ppr_told (ppr : message) (sub : std_map Irs) : list dh_action :=
  match get_str_from_avp USER_DATA ppr with
  | Some xml =>
      match map_find sub (get_default_id xml "") with
      | Some _ => [CallSprout (change_associated_identities (get_default_id xml "") xml)]
      | None => []
      end
  | None => []
  end.

Lemma ppr_success_form ppr sub t :
  ims_subscription t = get_str_from_avp USER_DATA ppr -> new_charging t = pushed_charging ppr ->
  exists t', on_get_ims_sub_success sprout ppr sub t =
    (tt, t', ppr_told ppr sub ++
       if profile_accepted sprout ppr sub then [PutImsSubscription (pushed_subscription ppr sub)]
       else [SendAnswer (ppa ppr false); DeleteTask]).
Proof.
  intros Hx Hc. unfold on_get_ims_sub_success, ppr_told, profile_accepted, pushed_subscription,
    save_subscription, send_ppa, ppa, delete_task, call_sprout, get_irs_for_default_impu, hbind,
    hmodify, hget, hemit, hret. simpl. rewrite Hx.
  destruct (get_str_from_avp USER_DATA ppr) as [xml|]; simpl.
  - destruct (map_find sub (get_default_id xml "")); simpl; [|by eexists].
    destruct (http_eqb (sprout _) HTTP_OK); simpl; rewrite ?Hc; by eexists.
  - rewrite Hc. by eexists.
Qed.

(** How the write of a push ended: [None] for success. *)
Definition write_failure (c : completion (std_map Irs)) : option Store.Status :=
  match c with Success _ => None | Failure rc _ => Some rc end.

Lemma ppr_over_cache_form ppr w l w' :
  ppr_over_cache ppr w = Done l w' ->
  exists found failed, l = ppr_actions sprout ppr found failed /\
    (ppr_is_empty ppr = false -> exists c w1,
       process_get_ims_subscription (msg_impi ppr) w = Done c w1 /\ found = sub_found c) /\
    (failed <> None -> exists sub v c,
       process_put_ims_subscription sub progress_cb v = Done c w' /\ failed = write_failure c).
Proof.
  unfold ppr_over_cache. destruct (ppr_run_form ppr) as (t & -> & Hx & Hc).
  unfold ppr_actions, ppr_succeeds. destruct (ppr_is_empty ppr) eqn:Ee; cbn [rev app].
  { intros [= <- _]. by exists (inl Store.ERROR), None. }
  intros (c & w1 & Hget & E)%bind_inv. exists (sub_found c).
  assert (Hf : exists c0 w0, process_get_ims_subscription (msg_impi ppr) w = Done c0 w0 /\
    sub_found c = sub_found c0) by by exists c, w1.
  cbn [orb]. destruct c as [[sub|]|rc o]; cbn [sub_found] in *; [|done|exists None; by injection E as <- _].
  destruct (ppr_success_form ppr sub t Hx Hc) as [t1 Es]. rewrite Es in E.
  fold (ppr_told ppr sub). cbv zeta.
  destruct (profile_accepted sprout ppr sub) eqn:Ea; cbn [andb].
  - apply ppr_save_form with (sub := pushed_subscription ppr sub) in E as (c & Hput & ->).
    + exists (write_failure c). split; [by destruct c|]. split; [done|]. intros _. by eexists _, _, c.
    + cbn [app]. by rewrite app_comm_cons, rev_app_distr.
  - exists None. unfold ppr_save in E. cbn [app] in E. rewrite app_comm_cons, rev_app_distr in E.
    injection E as <- _. by rewrite app_nil_r.
Qed.
End push.

(** [MemcachedCache] cannot fail to store a subscription: the status of each set is
    dropped. *)
Lemma put_sub_ok {W} `{ImpuStoreOps W} fuel ls rs sub progress_cb (w w' : W) c :
  process_put_ims_subscription (cache := memcached_cache fuel ls rs) sub progress_cb w = Done c w' ->
  exists sub', c = Success sub'.
Proof.
  intros (rc & a & Hp & Hc)%work_inv. destruct Hc as [[_ ->]|[Hn _]]; [by exists a|]. exfalso.
  apply Hn. cbn in Hp. unfold put_ims_subscription, perform in Hp.
  apply bind_inv in Hp as ([st1 s1] & v1 & H1' & H2').
  unfold put_ims_sub_action in H1'. apply bind_inv in H1' as (s2 & v2 & _ & [= <- <- <-]).
  rewrite status_eqb_refl in H2'.
  apply bind_inv in H2' as (u & v3 & _ & H3'). by apply bind_inv in H3' as (s3 & v4 & _ & [= <- _ _]).
Qed.

(** ** What a termination finds *)

Section found.
Context {W : Type} `{LawfulImpuStore W}.
Context `{JsonLib} `{XmlLib} `{RegDataXMLUtils} `{DiameterStack} `{MessageFields}.

(** The set of the first of the public identities that has one,
    or one for each of the private identities. *)
Definition rtr_sets (ls : nat) (rs : list nat) (rtr : message) (w : W) : list Irs :=
  match rtr_lookup rtr with
  | Some (GetIrssForImpus impus) =>
      match first_resolved ls rs w impus with Some x => [x] | None => [] end
  | _ => omap (irs_for_impi ls rs w) (msg_impi rtr :: associated_identities rtr)
  end.

Lemma rtr_read_sets fuel ls rs rtr w :
  sound w ->
  rtr_read (cache := memcached_cache fuel ls rs) rtr w = Done (Success (rtr_sets ls rs rtr w)) w.
Proof.
  intros Hw. unfold rtr_read, rtr_sets.
  assert (Hi : forall ps, get_implicit_registration_sets_for_impis ls rs ps [] w =
    Done (Store.OK, omap (irs_for_impi ls rs w) ps) w) by (intros; by apply irss_for_impis_read).
  assert (Hu : forall us, get_implicit_registration_sets_for_impus ls rs us [] w =
    Done (Store.OK, match first_resolved ls rs w us with Some x => [x] | None => [] end) w)
    by (intros us; exact (irss_for_impus_read ls rs w us [] Hw)).
  destruct (rtr_lookup rtr) as [[]|];
    (eapply (work_done _ w Store.OK); cbn; first [apply Hi|apply Hu]).
Qed.

Lemma first_resolved_from ls rs w impus x :
  first_resolved ls rs w impus = Some x -> exists i, resolved_irs ls rs w i = Some x.
Proof.
  induction impus as [|i impus IH]; [done|]. simpl.
  destruct (resolved_irs ls rs w i) eqn:E; [intros [= <-]; eauto|auto].
Qed.

Lemma rtr_sets_ok ls rs rtr w irs :
  irs ∈ rtr_sets ls rs rtr w -> irs_ok irs /\ _existing irs = true.
Proof.
  assert (Hr : forall i, resolved_irs ls rs w i = Some irs -> irs_ok irs /\ _existing irs = true).
  { intros i. unfold resolved_irs. destruct (resolve ls rs w i) as [[b d]|]; [|done].
    intros [= <-]. split; [apply irs_of_impu_ok|done]. }
  assert (Hf : forall us, first_resolved ls rs w us = Some irs -> irs_ok irs /\ _existing irs = true).
  { intros us (i & Hi)%first_resolved_from. by eapply Hr. }
  assert (Hp : forall ps : list string, irs ∈ omap (irs_for_impi ls rs w) ps -> irs_ok irs /\ _existing irs = true).
  { intros ps (p & _ & Hi)%list_elem_of_omap. unfold irs_for_impi in Hi.
    destruct (mapping_gr ls rs w p); [|done]. by eapply Hf. }
  unfold rtr_sets. destruct (rtr_lookup rtr) as [[]|]; try apply Hp.
  destruct (first_resolved ls rs w _) eqn:E; [|by intros ?%not_elem_of_nil].
  intros ->%list_elem_of_singleton. by eapply Hf.
Qed.
End found.

(** ** Properties *)

(** C14: After a Registration-Termination for a reason of the specification the sets
    that were looked up are gone from every site: the task has answered once, told
    Sprout about exactly these sets, and then no identity resolves to any of them,
    at the local store or through the remote ones, whatever Sprout answered. *)
Theorem rtr_clears_cache {W} `{LawfulImpuStore W} `{JsonLib} `{XmlLib} `{RegDataXMLUtils}
    `{DiameterStack} `{MessageFields} sprout fuel ls rs rtr (w : W) :
  sound w -> (1 <= fuel)%nat -> rtr_lookup rtr <> None ->
  let found := rtr_sets ls rs rtr w in
  (forall irs, irs ∈ found -> deletable irs w) ->
  exists w',
    rtr_over_cache (cache := memcached_cache fuel ls rs) sprout rtr w = Done (rtr_actions sprout rtr (inr found)) w' /\
    forall irs, irs ∈ found -> forall i b d, resolve ls rs w' i = Some (b, d) ->
      ImpuStore.impu b <> _default_impu irs.
Proof.
  intros Hw Hf Hl found Hwr. pose proof (rtr_over_cache_form (cache := memcached_cache fuel ls rs) sprout rtr Hl w) as ->.
  rewrite (bind_done _ _ _ _ _ (rtr_read_sets fuel ls rs rtr w Hw)). fold found.
  destruct found as [|i l] eqn:Ef; [by exists w; split; [|intros ? ?%not_elem_of_nil]|].
  destruct (delete_irss_everywhere fuel ls rs (i :: l) w Hw Hf) as (w' & irss' & E & _ & Hd).
  { apply list.Forall_forall. intros irs Hin. split; [by apply Hwr|]. rewrite <- Ef in Hin.
    by eapply rtr_sets_ok. }
  exists w'. split.
  - assert (Ed : process_delete_irss (cache := memcached_cache fuel ls rs) (i :: l) (ret tt) w =
      Done (Success irss') w') by by apply (work_done _ w Store.OK).
    by rewrite (bind_done _ _ _ _ _ Ed).
  - intros irs Hin j b d (s & Hs & Hn)%gone_unresolved Hb. apply Hn. rewrite Hb. by apply Hd.
Qed.

(** A Push-Profile over the cache never reports that its write failed: whatever
    the stores do, a task that ends has done what it does when the write
    succeeds, and has answered with success exactly when the subscription was
    found and its profile accepted. *)
Theorem ppr_write_failure_unreported {W} `{ImpuStoreOps W} `{JsonLib} `{XmlLib} `{RegDataXMLUtils}
    `{DiameterStack} `{MessageFields} sprout fuel ls rs ppr (w w' : @logged W) l :
  ppr_over_cache (H := memcached_cache fuel ls rs) sprout ppr w = Done l w' ->
  exists found, l = ppr_actions sprout ppr found None /\
    answers l = [ppa ppr (ppr_is_empty ppr ||
                          match found with inr sub => profile_accepted sprout ppr sub | inl _ => false end)] /\
    (ppr_is_empty ppr = false -> exists c w1,
       process_get_ims_subscription (cache := memcached_cache fuel ls rs) (msg_impi ppr) w = Done c w1 /\
       found = sub_found c).
Proof.
  intros E. apply ppr_over_cache_form in E as (found & failed & -> & Hg & Hw). exists found.
  assert (failed = None) as ->.
  { destruct failed as [rc|]; [|done]. destruct Hw as (sub & v & c & Hput & Hrc); [done|].
    apply put_sub_ok in Hput as [sub' ->]. done. }
  split; [done|]. split; [|done]. unfold ppr_actions, ppr_succeeds.
  destruct (ppr_is_empty ppr); [done|]. destruct found as [rc|sub]; [done|]. cbn [orb andb].
  unfold answers. cbn [omap list_omap]. rewrite !omap_app. rewrite andb_true_r.
  repeat case_match; simplify_eq; done.
Qed.

(** ** Witnesses *)

(** A store that holds a set. *)
Lemma registered_world :
  exists (w : Mem.mem) c, ok_world (Mem.empty_at 500) w /\
    stored_impu w 0 "sip:a@b" =
      Some (DefaultImpu (mkImpuBase "sip:a@b" c 1100 (Some 0%nat)) (impu_data sample_irs)).
Proof.
  destruct (put_irs_ok 2 sample_irs 0 (Mem.empty_at 500)) as (w & _ & Hok & [[c Hs] _] & _).
  - apply empty_sound.
  - apply sample_writable.
  - apply irs_reachable_ok, sample_reachable.
  - lia.
  - reflexivity.
  - apply sample_default_not_associated.
  - left. split; reflexivity.
  - exists w, c. split; [exact Hok|exact Hs].
Qed.

Definition registered_irs (c : Z) : Irs :=
  irs_of_impu (mkImpuBase "sip:a@b" c 1100 (Some 0%nat)) (impu_data sample_irs) 500.

Lemma registered_writable c : writable (registered_irs c) (Mem.empty_at 500).
Proof.
  assert (Ht : _ttl (registered_irs c) = 600) by (vm_compute; reflexivity).
  split; rewrite ?Ht; try (simpl; lia).
  - intros s a. split; [reflexivity|]. split; [unfold int64_range; simpl; lia|].
    split; [vm_compute; reflexivity|]. eexists _, _. split; vm_compute; reflexivity.
  - intros c' s. split; [reflexivity|]. split; [unfold int64_range; simpl; lia|].
    split; [vm_compute; reflexivity|]. eexists _, _. split; vm_compute; reflexivity.
  - intros p. split; [reflexivity|unfold int64_range; simpl; lia].
Qed.

Lemma rtr_clears_cache_witness :
  exists (w w' : Mem.mem) c,
    rtr_over_cache (cache := memcached_cache 1 0 [1%nat]) (fun _ => HTTP_OK) sample_rtr w =
      Done (rtr_actions (fun _ => HTTP_OK) sample_rtr (inr [registered_irs c])) w' /\
    forall i b d, resolve 0 [1%nat] w' i = Some (b, d) -> ImpuStore.impu b <> "sip:a@b"%string.
Proof.
  destruct registered_world as (w & c & [Hw Ht] & Hs).
  assert (Hf : rtr_sets 0 [1%nat] sample_rtr w = [registered_irs c]).
  { assert (Hl : rtr_lookup sample_rtr = Some (GetIrssForImpus ["sip:a@b"%string]))
      by (vm_compute; reflexivity).
    unfold rtr_sets. rewrite Hl. cbn [first_resolved]. unfold resolved_irs, resolve, impu_gr.
    cbn [first_of]. rewrite Hs, Ht. reflexivity. }
  destruct (rtr_clears_cache (fun _ => HTTP_OK) 1 0 [1%nat] sample_rtr w Hw) as (w' & E & Hg).
  - lia.
  - vm_compute. discriminate.
  - rewrite Hf. intros irs ->%list_elem_of_singleton.
    apply writable_deletable, (writable_at _ (Mem.empty_at 500)); [exact Ht|apply registered_writable].
  - rewrite Hf in E, Hg. exists w, w', c. split; [exact E|].
    apply (Hg (registered_irs c)). by apply list_elem_of_singleton.
Defined.

(** Stores that hold one set and refuse every write. *)
Module ReadOnly.
#[global] Instance ops : ImpuStoreOps unit := {|
  get_impu := fun _ k =>
    ret (if String.eqb k "sip:a@b"
         then (Store.OK, Some (DefaultImpu (mkImpuBase "sip:a@b" 1 1100 (Some 0%nat)) (impu_data sample_irs)))
         else (Store.NOT_FOUND, None));
  set_impu := fun _ _ => ret Store.ERROR;
  set_impu_without_cas := fun _ _ => ret Store.ERROR;
  add_impu := fun _ _ => ret Store.ERROR;
  delete_impu := fun _ _ => ret Store.ERROR;
  get_impi_mapping := fun _ k => ret (Store.OK, Some (mkImpiMapping k 1 1100 ["sip:a@b"%string]));
  set_impi_mapping := fun _ _ => ret Store.ERROR;
  delete_impi_mapping := fun _ _ => ret Store.ERROR;
  store_time := fun _ => 500
|}.
End ReadOnly.

(** A push of charging addresses. *)
Definition charging_push : message :=
  default sample_rtr (push_profile_request "a@b" "" (mkChargingAddresses ["ccf"%string] []) 1).

Lemma ppr_write_failure_unreported_witness :
  exists l w', ppr_over_cache (H := memcached_cache 1 0 []) (fun _ => HTTP_OK) charging_push (tt, []) = Done l w' /\
    answers l = [ppa charging_push true].
Proof.
  assert (E : exists l w', ppr_over_cache (H := memcached_cache 1 0 []) (fun _ => HTTP_OK) charging_push (tt, []) = Done l w')
    by (eexists _, _; vm_compute; reflexivity).
  destruct E as (l & w' & E). exists l, w'. split; [exact E|].
  destruct (ppr_write_failure_unreported (fun _ => HTTP_OK) 1 0 [] charging_push _ _ _ E)
    as (found & _ & Ha & Hf). rewrite Ha.
  destruct (Hf ltac:(vm_compute; reflexivity)) as (c & w1 & Hc & ->). vm_compute in Hc.
  injection Hc as <- _. vm_compute. reflexivity.
Defined.
